(* ===== verification/_CoqProject ===== *)
-Q . S2P
Prelude.v
Floats.v
FloatOrder.v
Text.v
Json.v
Calls.v
Breaker.v
Lifecycle.v
Memories.v
Expire.v
RateLimiter.v
Archive.v
LifecycleSafety.v
Tick.v
Sync.v
ResourcePool.v
Subscription.v
Crawler.v
ConnPool.v
Retry.v
FileStore.v
Health.v
Navigation.v
Entities.v
Semantic.v
Persona.v
Similarity.v
Graph.v
MemoryGraph.v
Datetimes.v
IntentGraph.v
Intents.v
Embedding.v
Retrieval.v
Traversal.v
VectorIndex.v
Regex.v
Privacy.v
Metrics.v
Migration.v
