(* ===== verification/Prelude.v ===== *)
(** * OmniMemory: a verification library (root file)

    OmniMemory (src/src/omnimemory) is a memory service for agents: ONEX nodes
    that store, expire, archive, retrieve and announce memories, on top of
    PostgreSQL, a Valkey cache, a file system and an event bus, and a layer of
    adapters that protect those services: circuit breakers, rate limiters,
    locks, semaphores and pools. This library models the parts that decide
    something, as executable functions on explicit states, and proves what
    they promise.

    ** Files

    Paths are under src/src/omnimemory.

    Shared:
    - Prelude.v (this file): identifiers, time, the exceptions, the
      state-and-exception monad [M] with its weakest preconditions ([wp],
      tactic [wp_step]), [except Exception] ([try_Exception]), runs of
      transition functions, Python's string methods on ASCII text.
    - Floats.v, FloatOrder.v: Python's floats as the executable IEEE 754
      specification of the standard library; their order, and sorting by them.
    - Text.v: strings as lists of characters; Json.v: values of [json.loads];
      Regex.v: Python's [re], with the language of an expression;
      Datetimes.v: UTC datetimes and [isoformat].
    - Calls.v: a store that others use as well, behind calls that may fail,
      before or after they took effect.
    - Graph.v: property graphs as Cypher queries see them.

    The lifecycle of memories:
    - Lifecycle.v: the states and [ValidatorLifecycleTransition]
      (nodes/node_memory_lifecycle_orchestrator/validators).
    - Memories.v: the memories table with its trigger, the statements of the
      lifecycle handlers, and the environment of a handler: what other sessions
      do between its statements, and how each statement ends.
    - Expire.v, Archive.v, Tick.v: [HandlerMemoryExpire],
      [HandlerMemoryArchive] (with a file system and an orphan tracker) and
      [HandlerMemoryTick] (nodes/node_memory_lifecycle_orchestrator/handlers),
      with their adapters; LifecycleSafety.v: expiring and archiving together.

    Protection (adapters, handlers/adapters):
    - Breaker.v: the circuit breakers [CB] (adapter_concurrency.py) and [ACB]
      (adapter_resource_manager.py), the abstract machine [Spec] both refine,
      and the class [BreakerLike], what a client may assume of either.
    - Sync.v: [PriorityLock] and [FairSemaphore]; ConnPool.v: the connection
      pools (adapter_concurrency.py); ResourcePool.v: [ResourcePool],
      [ResourceManager], [AsyncResourceManager] (adapter_resource_manager.py).
    - RateLimiter.v: [ProviderRateLimiter] and its registry
      (adapter_rate_limiter.py); Retry.v: the retry loops
      (adapter_retry_utils.py, [with_retry] of adapter_concurrency.py).
    - Health.v: adapter_health_manager.py.
    - Privacy.v: the PII detector and the error sanitizer; Metrics.v: metrics,
      observation of handlers, correlation contexts; Migration.v:
      models/foundation/model_migration_progress.py.

    Storing, analysing and finding:
    - Subscription.v: handlers/handler_subscription.py, with its table and
      its cache; FileStore.v: adapter_filesystem.py; Crawler.v:
      handler_filesystem_crawler.py; Navigation.v:
      handler_navigation_history_reducer.py.
    - Entities.v, Semantic.v: node_semantic_analyzer_compute; Persona.v:
      node_persona_builder_compute and node_persona_storage_effect;
      Similarity.v: node_similarity_compute.
    - MemoryGraph.v, IntentGraph.v: the graph adapters (handlers/adapters);
      Intents.v: the handlers and nodes before the graph of intents.
    - Embedding.v: the two embedding clients; Retrieval.v, Traversal.v:
      node_memory_retrieval_effect with its in-memory back ends; VectorIndex.v:
      [HandlerQdrant], which cuts documents into chunks and indexes them.

    How they interact: the tick handler announces memories to expire and to
    archive; the expire and archive handlers act on such commands, each
    behind a breaker of its own (Breaker.v), and share only the table, where a
    revision number arbitrates between them. The breaker is a component of
    the handlers' state, updated in place by [record_success],
    [record_failure] and [record_timeout]; Health.v and Intents.v use it in the
    same way. Semantic.v retries and falls back on Entities.v; Embedding.v asks
    RateLimiter.v before each request; Intents.v calls IntentGraph.v, which
    queries graphs of Graph.v by the texts of Datetimes.v, as MemoryGraph.v
    does; Traversal.v sends requests to the back ends of Retrieval.v; Metrics.v
    sanitises errors with Privacy.v. Locks, semaphores, pools, subscriptions,
    the file store, the crawler and the navigation history stand alone.

    ** How the code is represented

    Methods that await are computations of the monad [M]: they thread a
    world, may raise, and keep the state reached when they do, as Python
    does. A database call consults the environment [w_env]: other sessions
    have changed the table since the previous call, and the call completes or
    raises, before or after it took effect; the clock of the server, which the
    table's trigger writes to [updated_at], is part of it. Nothing else is
    assumed of PostgreSQL and asyncpg; what a theorem needs (revisions that
    never go back) is a hypothesis of its own. A cancellation is an exception
    that [except Exception] does not catch; it reaches a task in the calls it
    awaits. Classes that several tasks share (limiters, locks, semaphores,
    pools, the HTTP client of Embedding.v, the metrics) are transition
    functions; a step is what a task does between two suspension points, which
    asyncio never interrupts, and a theorem quantifies over all sequences of
    steps. Thread locks make a method one step in the same way, and a released
    [asyncio.Lock] goes to the task that has waited longest. The operations of
    one handler of Intents.v come one at a time.

    Clock readings are whole microseconds. An identifier is its canonical
    text; text is ASCII. Integers are unbounded, as Python's; the revision
    column is a 32-bit integer, and its overflow an error of the statement.
    Floats are IEEE doubles wherever a result depends on them ([sum] of floats
    is CPython's compensated one, [math.fsum] exact before it rounds), except
    for the delays of retries and the averages of hold times, which are exact
    rationals. SQL and Cypher are modelled by their documented meaning; rows
    of equal sort keys come in the order found. Log lines and trace spans are
    left out; error messages are not.

    ** Bounds and fuel

    [ProviderRateLimiter.acquire] loops until it is granted: its fuel of one
    iteration per microsecond of a minute plus two is shown to be enough,
    because the clock moves at every sleep and a minute empties the window.
    Retry loops are bounded by the attempts they are configured with. The
    loop that rebuilds the subscription cache has the number of active rows
    as fuel, which is shown to be enough; the breadth-first search of
    Traversal.v has two more than the relationships as fuel, which is shown to
    be enough too. A graph traversal is at most ten steps deep, as the
    code bounds it. Persona.v assumes at most 300 signals in a batch where
    rounding matters, Retrieval.v fewer than 2^50 terms in a query. The matcher
    of Regex.v needs no more fuel than the length of the text. Every other
    recursion is structural.

    ** What the theorems show

    - Lifecycle: expirations and archives take effect at most once per
      revision and only as the validator permits (Expire.v, LifecycleSafety.v);
      a failure leaves no trace in the table; a row is ARCHIVED only once its
      archive was written without an error, and the archive decompresses to the
      row unless the system wrote less than it was given (Archive.v); retries
      converge and are bounded; failures of the database become results, other
      exceptions escape; the scan announces exactly the qualifying memories,
      each once (Tick.v).
    - Protection: both breakers refine one state machine, trip, fail fast,
      probe and recover at their thresholds; the sliding window of the
      limiter is exact; the lock is exclusive and ordered, the semaphore
      conserves permits; the pools never lend a resource twice and conserve
      their connections; the retry loops meet one specification; open breakers
      are not probed and checks stay within their rate (Health.v); no counter
      loses an increment, contexts are restored (Metrics.v); what the
      detector masks is what its patterns match (Privacy.v); the counters of a
      migration are those of its files (Migration.v).
    - Stores: subscribing and unsubscribing keep one row for each agent and
      topic and a cache that mirrors the active rows, and a notification
      publishes at most one message (Subscription.v); the file store is a map
      and stays in its directory (FileStore.v); a crawl announces and records
      exactly what changed (Crawler.v); failed sessions never become examples
      (Navigation.v); versions of personas only grow (Persona.v).
    - Analysis and search: entities are where the text has them (Entities.v);
      an embedding is the answer to a request with the same key (Semantic.v);
      similarities stay within their range in double precision (Similarity.v);
      the nearest memories are found, each once, in order (MemoryGraph.v);
      storing an intent again updates it (IntentGraph.v), behind a breaker
      (Intents.v); searches return the best of what matches (Retrieval.v,
      Traversal.v); requests use the limiter's grants one by one (Embedding.v);
      documents are cut and stored without loss (VectorIndex.v).
    - Where the code does not do what it means to, a theorem or an example
      says what it does instead: a lost race that closes a half-open breaker,
      an archive reported as orphaned while its row refers to it, an orphan
      nobody is told of, a short write that goes unnoticed, a semaphore limit
      raised by cancellation, a pool exhausted by unhealthy returns, statistics
      that drift, a cached subscriber that no operation removes, keys of a
      cache that collide, digits of a card that stay in a masked text.

    ** Not modelled, and why

    Third-party code is never defined here: pydantic's validation and JSON,
    gzip, asyncpg, httpx, the graph driver, the ONEX framework, the projection
    reader, language models and digests are arguments or environments. Health
    checks, metadata and reports that only read state are left out where they
    decide nothing. The registration with the ONEX runtime, its dispatch and
    the start-up code call a framework that is not in the repository; the cache
    client, the document parser and the contract tools only pass data on; field
    declarations without behaviour appear as the records that use them. *)

From Stdlib Require Export ZArith Lia Ascii.
From stdpp Require Export base tactics option list gmap strings pretty sorting relations.

#[global] Set Default Proof Using "Type".

Declare Scope omni_scope.
Delimit Scope omni_scope with omni.
Open Scope Z_scope.

(** ** Data shared by the components *)

(** A [UUID] is represented by its canonical text, so that [str(u)] is the
    identity and string formatting of identifiers needs no codec. *)
Definition uuid : Type := string.

(** Clock readings and durations are whole microseconds (the resolution of a
    Python [datetime]). *)
Definition micros : Type := Z.
Definition seconds (n : Z) : micros := n * 1000000.

(** The exception classes the modelled code raises or catches, each with its
    message. [OtherException] is any class the code names nowhere. *)
Inductive exn : Type :=
  | RuntimeError (msg : string)
  | ValueError (msg : string)
  | TimeoutError (msg : string)
  | PostgresError (msg : string)
  | InterfaceError (msg : string)
  | InternalClientError (msg : string)
  | OSError (msg : string)
  | CircuitBreakerOpenError (msg : string)
  | AssertionError
  | OtherException (cls msg : string).

#[export] Instance exn_eq_dec : EqDecision exn.
Proof. solve_decision. Defined.

(** [str(e)]. *)
Definition exn_str (e : exn) : string :=
  match e with
  | RuntimeError m | ValueError m | TimeoutError m | PostgresError m
  | InterfaceError m | InternalClientError m | OSError m
  | CircuitBreakerOpenError m | OtherException _ m => m
  | AssertionError => ""
  end.

(** [type(e).__name__] *)
Definition exn_class (e : exn) : string :=
  match e with
  | RuntimeError _ => "RuntimeError" | ValueError _ => "ValueError"
  | TimeoutError _ => "TimeoutError" | PostgresError _ => "PostgresError"
  | InterfaceError _ => "InterfaceError" | InternalClientError _ => "InternalClientError"
  | OSError _ => "OSError" | CircuitBreakerOpenError _ => "CircuitBreakerOpenError"
  | AssertionError => "AssertionError" | OtherException cls _ => cls
  end.

(** [isinstance(e, Exception)]: cancellation is not one. A cancellation by the
    timeout of the adapter itself is told from others by its message. *)
Definition CancelledError (m : string) : exn := OtherException "CancelledError" m.
Definition is_Exception (e : exn) : bool :=
  match e with OtherException cls _ => negb (String.eqb cls "CancelledError") | _ => true end.
Definition deadline : exn := CancelledError "deadline".

(** [isinstance(e, OSError)]: since Python 3.10 [TimeoutError] is the builtin
    one, a subclass of [OSError]. *)
Definition is_OSError (e : exn) : bool :=
  match e with OSError _ | TimeoutError _ => true | _ => false end.

(** ** Results and the state-and-exception monad *)

Inductive res (A : Type) : Type :=
  | Ok (a : A)
  | Raise (e : exn).
Arguments Ok {A} a.
Arguments Raise {A} e.

Definition is_Ok {A} (r : res A) : Prop := exists a, r = Ok a.

(** A computation that threads a state [S] and may raise; the state reached
    before an exception is kept, as in Python. *)
Definition M (S A : Type) : Type := S -> res A * S.

Definition ret {S A} (a : A) : M S A := fun s => (Ok a, s).
Definition raise {S A} (e : exn) : M S A := fun s => (Raise e, s).
Definition bind {S A B} (m : M S A) (k : A -> M S B) : M S B := fun s =>
  match m s with
  | (Ok a, s') => k a s'
  | (Raise e, s') => (Raise e, s')
  end.
Definition get {S} : M S S := fun s => (Ok s, s).
Definition gets {S A} (f : S -> A) : M S A := fun s => (Ok (f s), s).
Definition modify {S} (f : S -> S) : M S unit := fun s => (Ok tt, f s).

(** A step of which only the end matters. *)
Definition attempt_of {S} (e : option exn) : M S unit :=
  match e with Some e => raise e | None => ret tt end.

(** [try: m / except ...]: [h e] is [None] when no clause matches [e]. *)
Definition try_except {S A} (m : M S A) (h : exn -> option (M S A)) : M S A :=
  fun s =>
    match m s with
    | (Ok a, s') => (Ok a, s')
    | (Raise e, s') =>
        match h e with
        | Some k => k s'
        | None => (Raise e, s')
        end
    end.

(** [try: m / except Exception as e: k e]: a cancellation passes. *)
Definition try_Exception {S A} (m : M S A) (k : exn -> M S A) : M S A :=
  try_except m (fun e => if is_Exception e then Some (k e) else None).

Notation "'let!' x ':=' c 'in' k" := (bind c (fun x => k))
  (at level 10, x name, c at level 100, k at level 200,
   format "'[v' 'let!'  x  ':='  c  'in' '/' k ']'") : omni_scope.
Notation "'do!' c ; k" := (bind c (fun _ => k))
  (at level 10, c at level 100, k at level 200,
   format "'[v' 'do!'  c ; '/' k ']'") : omni_scope.
Open Scope omni_scope.

(** ** Weakest preconditions of the monad *)

Definition wp {S A} (m : M S A) (Q : res A -> S -> Prop) (s : S) : Prop :=
  Q (m s).1 (m s).2.

Section wp.
Context {S A B : Type}.
Implicit Types (Q : res A -> S -> Prop) (s : S).

Lemma wp_run (m : M S A) Q s r s' : m s = (r, s') -> wp m Q s -> Q r s'.
Proof. unfold wp. by intros ->. Qed.

Lemma wp_ret (a : A) Q s : wp (ret a) Q s <-> Q (Ok a) s.
Proof. done. Qed.

Lemma wp_raise e Q s : wp (raise e) Q s <-> Q (Raise e) s.
Proof. done. Qed.

Lemma wp_bind (m : M S B) (k : B -> M S A) Q s :
  wp (bind m k) Q s <->
  wp m (fun r s' => match r with
                    | Ok b => wp (k b) Q s'
                    | Raise e => Q (Raise e) s'
                    end) s.
Proof. unfold wp, bind. by destruct (m s) as [[] ?]. Qed.

Lemma wp_try (m : M S A) h Q s :
  wp (try_except m h) Q s <->
  wp m (fun r s' => match r with
                    | Ok a => Q (Ok a) s'
                    | Raise e => match h e with
                                 | Some k => wp k Q s'
                                 | None => Q (Raise e) s'
                                 end
                    end) s.
Proof.
  unfold wp, try_except. destruct (m s) as [[a|e] s']; [done|]. cbn.
  destruct (h e); reflexivity.
Qed.

Lemma wp_try_Exception (m : M S A) k Q s :
  wp (try_Exception m k) Q s <->
  wp m (fun r s' => match r with
                    | Ok a => Q (Ok a) s'
                    | Raise e => if is_Exception e then wp (k e) Q s' else Q (Raise e) s'
                    end) s.
Proof.
  unfold try_Exception. rewrite wp_try. unfold wp. destruct (m s) as [[a|e] s']; [done|]. cbn.
  by destruct (is_Exception e).
Qed.

Lemma wp_mono (m : M S A) Q Q' s :
  (forall r s', Q r s' -> Q' r s') -> wp m Q s -> wp m Q' s.
Proof. unfold wp. auto. Qed.

Lemma wp_conj (m : M S A) Q Q' s :
  wp m Q s -> wp m Q' s -> wp m (fun r s' => Q r s' /\ Q' r s') s.
Proof. unfold wp. auto. Qed.
End wp.

Lemma wp_gets {S A} (f : S -> A) Q (s : S) : wp (gets f) Q s <-> Q (Ok (f s)) s.
Proof. done. Qed.

Lemma wp_modify {S} (f : S -> S) Q s : wp (modify f) Q s <-> Q (Ok tt) (f s).
Proof. done. Qed.


Create Rewrite HintDb wp_rules.
#[export] Hint Rewrite @wp_ret @wp_raise @wp_bind @wp_try @wp_try_Exception @wp_gets @wp_modify : wp_rules.

(** [wp_step] pushes the weakest precondition through the monadic structure. *)
Ltac wp_step := autorewrite with wp_rules; cbn beta iota.

(** Split on whatever the goal is stuck on, and clean up. *)
Ltac split_cases :=
  repeat first
    [ progress simplify_eq/=
    | case_match ].

(** Boolean tests of the code as propositions. *)
Ltac breflect :=
  repeat match goal with
    | H : andb _ _ = true |- _ => apply andb_true_iff in H; destruct H
    | H : orb _ _ = false |- _ => apply orb_false_iff in H; destruct H
    | H : negb _ = true |- _ => apply negb_true_iff in H
    | H : negb _ = false |- _ => apply negb_false_iff in H
    | H : (_ <=? _) = true |- _ => apply Z.leb_le in H
    | H : (_ <=? _) = false |- _ => apply Z.leb_gt in H
    | H : (_ <? _) = true |- _ => apply Z.ltb_lt in H
    | H : (_ <? _) = false |- _ => apply Z.ltb_ge in H
    | H : (_ =? _) = true |- _ => apply Z.eqb_eq in H
    | H : (_ =? _) = false |- _ => apply Z.eqb_neq in H
    | H : bool_decide _ = true |- _ => apply bool_decide_eq_true in H
    | H : bool_decide _ = false |- _ => apply bool_decide_eq_false in H
    end.

(** Rewriting a boolean comparison with its value. *)
Lemma Zleb_T a b : a <= b -> (a <=? b) = true.
Proof. apply Z.leb_le. Qed.
Lemma Zleb_F a b : b < a -> (a <=? b) = false.
Proof. apply Z.leb_gt. Qed.
Lemma Zltb_T a b : a < b -> (a <? b) = true.
Proof. apply Z.ltb_lt. Qed.
Lemma Zltb_F a b : b <= a -> (a <? b) = false.
Proof. apply Z.ltb_ge. Qed.

(** ** Generic lemmas *)

(** Running a list of events through a step function. *)
Definition run {St Ev : Type} (step : St -> Ev -> St) (s : St) (es : list Ev) : St :=
  fold_left step es s.

Section run.
Context {St Ev : Type} (step : St -> Ev -> St).

Lemma run_app s es1 es2 : run step s (es1 ++ es2) = run step (run step s es1) es2.
Proof. apply fold_left_app. Qed.

Lemma run_invariant (I : St -> Prop) (ok : Ev -> Prop) :
  (forall s e, I s -> ok e -> I (step s e)) ->
  forall es s, I s -> Forall ok es -> I (run step s es).
Proof.
  intros Hstep es. induction es as [|e es IH]; intros s Hs Hes; [done|].
  apply Forall_cons in Hes as [He Hes]. simpl. auto.
Qed.
End run.

Section invariants.
Context {St : Type} (R : St -> St -> Prop).

Lemma rtc_invariant (I : St -> Prop) :
  (forall s s', I s -> R s s' -> I s') ->
  forall s s', rtc R s s' -> I s -> I s'.
Proof. intros HR s s' Hrtc. induction Hrtc; eauto. Qed.
End invariants.

Lemma filter_all {A} (P : A -> Prop) `{!forall x, Decision (P x)} (l : list A) :
  Forall P l -> filter P l = l.
Proof.
  induction 1 as [|x l Hx _ IH]; [done|]. by rewrite filter_cons_True, IH.
Qed.

Lemma fold_left_ext {A B} (f g : A -> B -> A) (l : list B) a :
  (forall a x, x ∈ l -> f a x = g a x) -> fold_left f l a = fold_left g l a.
Proof.
  revert a. induction l as [|x l IH]; intros a Hfg; [done|]. simpl.
  rewrite Hfg by left. apply IH. intros a' x' Hx'. apply Hfg. by right.
Qed.

Lemma length_filter_le {A} (P : A -> Prop) `{!forall x, Decision (P x)} (l : list A) :
  (length (filter P l) <= length l)%nat.
Proof. apply length_filter. Qed.

(** ** Python string methods on ASCII text *)

Definition char_in (lo hi : Ascii.ascii) (c : Ascii.ascii) : bool :=
  (Ascii.leb lo c && Ascii.leb c hi)%bool.

(** [str.isspace] of one character: tab to carriage return, the four ASCII
    separators and the space. *)
Definition is_space (c : Ascii.ascii) : bool :=
  char_in "009"%char "013"%char c || char_in "028"%char "032"%char c.

Definition lower_char (c : Ascii.ascii) : Ascii.ascii :=
  if char_in "A"%char "Z"%char c then Ascii.ascii_of_nat (Ascii.nat_of_ascii c + 32) else c.

Fixpoint lower (s : string) : string :=
  match s with
  | EmptyString => EmptyString
  | String c s => String (lower_char c) (lower s)
  end.

Definition upper_char (c : Ascii.ascii) : Ascii.ascii :=
  if char_in "a"%char "z"%char c then Ascii.ascii_of_nat (Ascii.nat_of_ascii c - 32) else c.

Fixpoint upper (s : string) : string :=
  match s with
  | EmptyString => EmptyString
  | String c s => String (upper_char c) (upper s)
  end.

(** [s.endswith(t)] and [t in s]. *)
Fixpoint ends_with (t s : string) : bool :=
  bool_decide (t = s) ||
  match s with
  | EmptyString => false
  | String _ s => ends_with t s
  end.

Fixpoint contains (t s : string) : bool :=
  String.prefix t s ||
  match s with
  | EmptyString => false
  | String _ s => contains t s
  end.

Fixpoint lstrip (s : string) : string :=
  match s with
  | EmptyString => EmptyString
  | String c s' => if is_space c then lstrip s' else s
  end.

Fixpoint rstrip (s : string) : string :=
  match s with
  | EmptyString => EmptyString
  | String c s' =>
      match rstrip s' with
      | EmptyString => if is_space c then EmptyString else String c EmptyString
      | r => String c r
      end
  end.

Definition strip (s : string) : string := rstrip (lstrip s).

Fixpoint all_chars (p : Ascii.ascii -> bool) (s : string) : bool :=
  match s with
  | EmptyString => true
  | String c s => p c && all_chars p s
  end.

Fixpoint has_char (c : Ascii.ascii) (s : string) : bool :=
  match s with
  | EmptyString => false
  | String d s => Ascii.eqb c d || has_char c s
  end.

(** [repr] of a string: single quotes unless only those occur in it,
    backslash escapes, [\xNN] for the other control characters. *)
Definition hex_digit (n : nat) : Ascii.ascii :=
  Ascii.ascii_of_nat (if (n <? 10)%nat then n + 48 else n + 87).

Definition repr_char (quote c : Ascii.ascii) : string :=
  if Ascii.eqb c "\"%char then "\\"
  else if Ascii.eqb c quote then String "\"%char (String quote EmptyString)
  else if Ascii.eqb c "009"%char then "\t"
  else if Ascii.eqb c "010"%char then "\n"
  else if Ascii.eqb c "013"%char then "\r"
  else if char_in " "%char "~"%char c then String c EmptyString
  else "\x" +:+ String (hex_digit (Ascii.nat_of_ascii c / 16))
         (String (hex_digit (Ascii.nat_of_ascii c mod 16)) EmptyString).

Fixpoint repr_body (quote : Ascii.ascii) (s : string) : string :=
  match s with
  | EmptyString => EmptyString
  | String c s => repr_char quote c +:+ repr_body quote s
  end.

Definition py_repr (s : string) : string :=
  let quote : Ascii.ascii :=
    if has_char "039"%char s && negb (has_char "034"%char s) then "034"%char else "039"%char in
  String quote (repr_body quote s +:+ String quote EmptyString).

(** Stripping and lower-casing commute and are idempotent. *)
Lemma is_space_lower c : is_space (lower_char c) = is_space c.
Proof. by destruct c as [[] [] [] [] [] [] [] []]. Qed.

Lemma lower_char_idemp c : lower_char (lower_char c) = lower_char c.
Proof. by destruct c as [[] [] [] [] [] [] [] []]. Qed.

Lemma lower_idemp s : lower (lower s) = lower s.
Proof. induction s as [|c s IH]; simpl; [done|]. by rewrite lower_char_idemp, IH. Qed.

Lemma lstrip_lower s : lstrip (lower s) = lower (lstrip s).
Proof. induction s as [|c s IH]; simpl; [done|]. rewrite is_space_lower. by case_match. Qed.

Lemma rstrip_lower s : rstrip (lower s) = lower (rstrip s).
Proof.
  induction s as [|c s IH]; simpl; [done|]. rewrite is_space_lower, IH.
  destruct (rstrip s); simpl; [by case_match|done].
Qed.

Lemma strip_lower s : strip (lower s) = lower (strip s).
Proof. unfold strip. by rewrite lstrip_lower, rstrip_lower. Qed.

(** Lists with an element more, or one changed. *)
Lemma lookup_snoc {A} (l : list A) x i y :
  (l ++ [x]) !! i = Some y <-> l !! i = Some y \/ (i = length l /\ y = x).
Proof.
  rewrite lookup_app_Some. split; (intros [H|H]; [by left|right]).
  - destruct H as [Hi H]. apply list_lookup_singleton_Some in H as [? ->]. split; [lia|done].
  - destruct H as [-> ->]. by rewrite Nat.sub_diag.
Qed.

Lemma lookup_alter_iff {A} (f : A -> A) (l : list A) i j y :
  alter f i l !! j = Some y <->
  (i = j /\ exists x, l !! i = Some x /\ y = f x) \/ (i <> j /\ l !! j = Some y).
Proof.
  destruct (decide (i = j)) as [->|Hne].
  - rewrite list_lookup_alter_eq. destruct (l !! j); simpl; naive_solver.
  - rewrite list_lookup_alter_ne by done. naive_solver.
Qed.

Lemma choose_list {A B} (R : A -> B -> Prop) (l : list A) :
  (forall a, a ∈ l -> exists b, R a b) -> exists l', Forall2 R l l'.
Proof.
  induction l as [|a l IH]; intros H; [by exists []|].
  destruct (H a) as [b Hb]; [left|]. destruct IH as [l' Hl]; [intros; apply H; by right|].
  exists (b :: l'). by constructor.
Qed.

Lemma NoDup_related {A B} (R : A -> B -> Prop) l l' :
  (forall a a' b, R a b -> R a' b -> a = a') -> Forall2 R l l' -> NoDup l -> NoDup l'.
Proof.
  intros HR. induction 1 as [|a b l l' Hab Hl IH]; intros Hnd; [constructor|].
  apply NoDup_cons in Hnd as [Ha Hnd]. apply NoDup_cons. split; [|by apply IH]. intros Hb.
  apply Ha. apply list_elem_of_lookup in Hb as [i Hi].
  destruct (Forall2_lookup_r _ _ _ _ _ Hl Hi) as (a' & Hi' & Hab').
  rewrite (HR _ _ _ Hab Hab'). by eapply list_elem_of_lookup_2.
Qed.

Lemma map_related {A B C} (R : A -> B -> Prop) (f : A -> C) (h : B -> C) l l' :
  (forall a b, R a b -> f a = h b) -> Forall2 R l l' -> f <$> l = h <$> l'.
Proof. intros HR. induction 1; simpl; [done|]. f_equal; auto. Qed.

Lemma take_elem {A} n (l : list A) x : x ∈ take n l -> x ∈ l.
Proof. intros Hx. eapply elem_of_sublist; [exact Hx|]. apply sublist_take. Qed.

Lemma sorted_weaken {A} (R R' : A -> A -> Prop) l :
  (forall x y, x ∈ l -> y ∈ l -> R x y -> R' x y) -> StronglySorted R l -> StronglySorted R' l.
Proof.
  intros HR Hs. induction Hs as [|x l Hs IH Hf]; [constructor|]. constructor.
  - apply IH. intros y z Hy Hz. apply HR; by right.
  - rewrite Forall_forall in *. intros y Hy. apply HR; [left|by right|by apply Hf].
Qed.

Section prefix.
Context {A : Type} (P : A -> Prop) `{!forall x, Decision (P x)}.

(** Filtering a list in which nothing that passes comes after something that
    does not cuts it off. *)
Lemma filter_cut l : StronglySorted (fun a b => P b -> P a) l -> exists k, filter P l = take k l.
Proof.
  induction 1 as [|x l Hs (k & IH) Hf]; [by exists O|]. rewrite filter_cons. case_decide as Hx.
  - exists (S k). simpl. by rewrite IH.
  - exists O. simpl. rewrite Forall_forall in Hf. destruct (filter P l) as [|y r] eqn:E; [done|].
    assert (Hy : y ∈ filter P l) by (rewrite E; left). apply list_elem_of_filter in Hy as [Hy Hin].
    destruct Hx. by apply (Hf y).
Qed.

Lemma take_filter_cut n q l : StronglySorted (fun a b => P b -> P a) l -> (n <= q)%nat ->
  take n (filter P (take q l)) = take n (filter P l).
Proof.
  intros Hs Hq. destruct (filter_cut l Hs) as [k Hk].
  assert (Hs' : StronglySorted (fun a b => P b -> P a) (take q l)).
  { rewrite <- (take_drop q l) in Hs. by apply StronglySorted_app in Hs as (_ & ? & _). }
  rewrite <- (take_drop q l) at 2. rewrite filter_app, take_app.
  destruct (decide (filter P (drop q l) = [])) as [->|Hne]; [by rewrite take_nil, app_nil_r|].
  assert (Hall : filter P (take q l) = take q l).
  { destruct (filter P (drop q l)) as [|y r] eqn:E; [done|].
    assert (Hy : y ∈ filter P (drop q l)) by (rewrite E; left). apply list_elem_of_filter in Hy as [Hy Hin].
    rewrite <- (take_drop q l) in Hs. apply StronglySorted_app in Hs as (Hc & _ & _).
    assert (Hf : Forall P (take q l)) by (apply Forall_forall; intros x Hx; by apply (Hc x y)).
    clear -Hf. induction Hf; [done|]. rewrite filter_cons, decide_True by done. by f_equal. }
  rewrite Hall. destruct (decide (q <= length l)%nat) as [Hl|Hl].
  - rewrite length_take_le by lia. replace (n - q)%nat with O by lia. by rewrite take_0, app_nil_r.
  - rewrite drop_ge in Hne by lia. done.
Qed.
End prefix.
