(* ===== verification/Floats.v ===== *)
(** * Double precision arithmetic

    Python's floats, as the standard library's executable IEEE 754
    specification [SpecFloat] has them (53 bits, exponents below 1024), and
    the bounds that survive rounding. *)

From Corelib Require Export SpecFloat.
From S2P Require Import Prelude.

Definition float_of_Z (z : Z) : spec_float := binary_normalize 53 1024 z 0 false.
Definition float_add (x y : spec_float) : spec_float := SFadd 53 1024 x y.
Definition float_sub (x y : spec_float) : spec_float := SFsub 53 1024 x y.
Definition float_mul (x y : spec_float) : spec_float := SFmul 53 1024 x y.
Definition float_div (x y : spec_float) : spec_float := SFdiv 53 1024 x y.

(** The double nearest to the quotient of two integers that are doubles
    themselves: Python's [/] on such [int]s, and decimal literals. *)
Definition float_ratio (a b : Z) : spec_float := float_div (float_of_Z a) (float_of_Z b).

Definition zero : spec_float := S754_zero false.
Definition one : spec_float := float_of_Z 1.

(** [max(0.0, x)] and [min(1.0, x)]: the first argument stays unless the
    second compares as beyond it; NaN never does. *)
Definition max0 (x : spec_float) : spec_float := if SFltb zero x then x else zero.
Definition min1 (x : spec_float) : spec_float := if SFltb x one then x else one.
Definition clamp01 (x : spec_float) : spec_float := min1 (max0 x).

(** [0.0 <= x <= 1.0], false of NaN. *)
Definition unit_float (x : spec_float) : bool := SFleb zero x && SFleb x one.

(** [int(x)] of a float, finite. *)
Definition trunc (x : spec_float) : Z :=
  match x with
  | S754_finite s m e =>
      let a := if 0 <=? e then Z.pos m * 2 ^ e else Z.pos m / 2 ^ (- e) in if s then - a else a
  | _ => 0
  end.

Definition OverflowError (msg : string) : exn := OtherException "OverflowError" msg.

(** [math.ceil]; Python raises on infinities and NaN. *)
Definition math_ceil (f : spec_float) : option Z :=
  match f with
  | S754_zero _ => Some 0
  | S754_finite s m e =>
      let v := if s then Z.neg m else Z.pos m in
      Some (if 0 <=? e then v * 2 ^ e else - ((- v) / 2 ^ (- e)))
  | _ => None
  end.

(** ** Signs *)

Definition sf_nonneg (f : spec_float) : Prop :=
  match f with S754_finite s _ _ | S754_zero s | S754_infinity s => s = false | S754_nan => True end.

Lemma binary_round_aux_nonneg m e l : sf_nonneg (binary_round_aux 53 1024 false m e l).
Proof.
  unfold binary_round_aux. destruct (shr_fexp _ _ _ _ _) as [r e']. cbn beta iota zeta.
  destruct (shr_fexp _ _ _ _ _) as [r2 e2]. cbn beta iota.
  destruct (shr_m r2); [done| |done]. by destruct (e2 <=? _).
Qed.

Lemma float_of_Z_nonneg z : 0 <= z -> sf_nonneg (float_of_Z z).
Proof.
  unfold float_of_Z, binary_normalize. destruct z; [done| |lia]. intros _.
  unfold binary_round. destruct (shl_align _ _ _). apply binary_round_aux_nonneg.
Qed.

Lemma float_mul_nonneg x y : sf_nonneg x -> sf_nonneg y -> sf_nonneg (float_mul x y).
Proof.
  unfold float_mul, SFmul. destruct x, y; simpl; intros; subst; try done.
  apply binary_round_aux_nonneg.
Qed.

Lemma math_ceil_nonneg f n : sf_nonneg f -> math_ceil f = Some n -> 0 <= n.
Proof.
  destruct f as [| | |s m e]; simpl; intros Hs Hn; simplify_eq; [lia|].
  case_match; breflect; [pose proof (Z.pow_nonneg 2 e ltac:(lia)); lia|].
  pose proof (Z.div_le_upper_bound (- Z.pos m) (2 ^ - e) 0) as Hdiv.
  assert (0 < 2 ^ - e) by (apply Z.pow_pos_nonneg; lia). lia.
Qed.

(** ** Digits and shifts *)

Lemma digits2_pos_bounds m :
  2 ^ (Z.pos (digits2_pos m) - 1) <= Z.pos m < 2 ^ Z.pos (digits2_pos m).
Proof.
  assert (Hstep : forall d : positive, 2 ^ (Z.pos (Pos.succ d) - 1) = 2 * 2 ^ (Z.pos d - 1) /\
    2 ^ Z.pos (Pos.succ d) = 2 * 2 ^ Z.pos d).
  { intros d. rewrite <- !Z.pow_succ_r by lia. split; f_equal; lia. }
  induction m as [m IH|m IH|]; simpl digits2_pos; [| |done];
    destruct (Hstep (digits2_pos m)) as [-> ->]; lia.
Qed.

Lemma Zdigits2_bound m : 0 <= m -> m < 2 ^ Zdigits2 m /\ 0 <= Zdigits2 m.
Proof.
  destruct m as [|m|m]; simpl; [lia| |lia]. intros _.
  pose proof (digits2_pos_bounds m). lia.
Qed.

Lemma Zdigits2_lt m k : 0 <= m < 2 ^ k -> 0 <= k -> Zdigits2 m <= k.
Proof.
  destruct m as [|m|m]; simpl; [lia| |lia]. intros [_ Hm] Hk.
  pose proof (digits2_pos_bounds m) as [Hd _].
  assert (Z.pos (digits2_pos m) - 1 < k); [|lia].
  apply (Z.pow_lt_mono_r_iff 2); lia.
Qed.

(** A value of at most 53 bits at [E] has as many more at a lower exponent. *)
Lemma Zdigits2_fits M E m e :
  0 <= m <= M * 2 ^ (E - e) -> M < 2 ^ 53 -> e <= E -> Zdigits2 m <= 53 + (E - e).
Proof.
  intros Hm HM He. apply Zdigits2_lt; [|lia]. rewrite Z.pow_add_r by lia.
  assert (0 < 2 ^ (E - e)) by (apply Z.pow_pos_nonneg; lia). nia.
Qed.

(** The value of a mantissa with its lost bits, at exponent [e], is at most
    [M * 2 ^ E]. *)
Definition fits (M E : Z) (r : shr_record) (e : Z) : Prop :=
  0 <= shr_m r <= M * 2 ^ (E - e) /\ (shr_r r || shr_s r = true -> shr_m r < M * 2 ^ (E - e)).

Lemma shr_1_half r : 0 <= shr_m r ->
  shr_m (shr_1 r) = shr_m r / 2 /\
  shr_r (shr_1 r) || shr_s (shr_1 r) = Z.odd (shr_m r) || (shr_r r || shr_s r).
Proof.
  destruct r as [[|[p|p|]|p] [] []]; simpl; intros H; try lia; split; try done;
    first [rewrite Pos2Z.inj_xI | rewrite Pos2Z.inj_xO]; 
    first [apply (Z.div_unique_pos _ 2 _ 1); lia | apply (Z.div_unique_pos _ 2 _ 0); lia].
Qed.

Lemma shr_1_fits M E r e : fits M E r e -> e < E -> fits M E (shr_1 r) (e + 1).
Proof.
  intros [[H0 H1] H2] He. destruct (shr_1_half r H0) as [Em Eb]. unfold fits. rewrite Em, Eb.
  assert (Ep : M * 2 ^ (E - e) = 2 * (M * 2 ^ (E - (e + 1)))).
  { rewrite Z.mul_shuffle3, <- Z.pow_succ_r by lia. do 2 f_equal. lia. }
  pose proof (Z.div_mod (shr_m r) 2 ltac:(lia)) as Hd.
  pose proof (Z.mod_pos_bound (shr_m r) 2 ltac:(lia)).
  rewrite Zmod_odd in *. split; [destruct (Z.odd _); lia|].
  rewrite orb_true_iff. intros [Ho|Hr]; [rewrite Ho in *; lia|specialize (H2 Hr)].
  destruct (Z.odd _); lia.
Qed.

Lemma iter_shr_fits M E p : forall r e,
  fits M E r e -> e + Z.pos p <= E -> fits M E (SpecFloat.iter_pos shr_1 p r) (e + Z.pos p).
Proof.
  induction p as [p IH|p IH|]; intros r e Hf He; simpl SpecFloat.iter_pos.
  - apply shr_1_fits in Hf; [|lia]. apply IH in Hf; [|lia]. apply IH in Hf; [|lia].
    by replace (e + Z.pos p~1) with (e + 1 + Z.pos p + Z.pos p) by lia.
  - apply IH in Hf; [|lia]. apply IH in Hf; [|lia].
    by replace (e + Z.pos p~0) with (e + Z.pos p + Z.pos p) by lia.
  - apply shr_1_fits; [done|lia].
Qed.

Lemma iter_shr_m p : forall r, 0 <= shr_m r ->
  shr_m (SpecFloat.iter_pos shr_1 p r) = shr_m r / 2 ^ Z.pos p.
Proof.
  assert (Hpow : forall k, 0 < 2 ^ Z.pos k) by (intros k; by apply Z.pow_pos_nonneg).
  assert (Hsplit : forall m a b, 0 <= m ->
    m / 2 ^ Z.pos a / 2 ^ Z.pos b = m / 2 ^ Z.pos (a + b)).
  { intros m a b Hm. pose proof (Hpow a). pose proof (Hpow b).
    rewrite Z.div_div, <- Z.pow_add_r by lia. done. }
  assert (Hpos : forall m k, 0 <= m -> 0 <= m / 2 ^ Z.pos k) by (intros; by apply Z.div_pos).
  induction p as [p IH|p IH|]; intros r Hr; simpl SpecFloat.iter_pos.
  - assert (E : shr_m (shr_1 r) = shr_m r / 2 ^ 1) by apply shr_1_half, Hr.
    assert (H1 : 0 <= shr_m (shr_1 r)) by (rewrite E; by apply Hpos).
    rewrite IH by (rewrite IH by done; by apply Hpos).
    rewrite IH, E, !Hsplit by (done || by apply Hpos). f_equal. f_equal. lia.
  - rewrite IH by (rewrite IH by done; by apply Hpos).
    rewrite IH, Hsplit by done. f_equal. f_equal. lia.
  - by destruct (shr_1_half r Hr) as [-> _].
Qed.

(** ** Rounding *)

Lemma shr_fexp_fits M E m e l :
  fits M E (shr_record_of_loc m l) e -> e <= E -> M < 2 ^ 53 -> -1074 <= E ->
  let (r, e') := shr_fexp 53 1024 m e l in fits M E r e' /\ e' <= E.
Proof.
  intros Hf He HM HE. unfold shr_fexp, fexp, emin, shr.
  assert (Hm : shr_m (shr_record_of_loc m l) = m) by by destruct l as [|[]].
  assert (Hd : Zdigits2 m <= 53 + (E - e)).
  { apply (Zdigits2_fits M); [|done|lia]. destruct Hf as [H _]. by rewrite Hm in H. }
  destruct (Z.max (Zdigits2 m + e - 53) (3 - 1024 - 53) - e) as [|p|p] eqn:Ep; [done| |done].
  split; [apply iter_shr_fits; [done|]|]; lia.
Qed.

Lemma shr_fexp_size m e l : 0 <= m ->
  let (r, e') := shr_fexp 53 1024 m e l in 0 <= shr_m r < 2 ^ 53.
Proof.
  intros H. unfold shr_fexp, fexp, emin, shr.
  assert (Hm : shr_m (shr_record_of_loc m l) = m) by by destruct l as [|[]].
  destruct (Zdigits2_bound m H) as [Hd Hd0]. revert Hd.
  assert (Hle : Zdigits2 m <= 53 -> m < 2 ^ Zdigits2 m -> 0 <= m < 2 ^ 53).
  { intros H1 H2. split; [done|]. eapply Z.lt_le_trans; [exact H2|]. apply Z.pow_le_mono_r; lia. }
  destruct (Z.max (Zdigits2 m + e - 53) (3 - 1024 - 53) - e) as [|p|p] eqn:E; intros Hd;
    [rewrite Hm; apply Hle; [lia|done]| |rewrite Hm; apply Hle; [lia|done]].
  rewrite iter_shr_m, Hm by (by rewrite Hm). assert (0 < 2 ^ Z.pos p) by by apply Z.pow_pos_nonneg.
  split; [by apply Z.div_pos|]. apply Z.div_lt_upper_bound; [done|].
  rewrite <- Z.pow_add_r by lia. eapply Z.lt_le_trans; [exact Hd|]. apply Z.pow_le_mono_r; lia.
Qed.

Lemma round_fits M E r e : fits M E r e ->
  fits M E (shr_record_of_loc (round_nearest_even (shr_m r) (loc_of_shr_record r)) loc_Exact) e.
Proof.
  intros [[H0 H1] H2]. destruct r as [m [] []]; simpl in *; try specialize (H2 eq_refl);
    unfold fits; simpl; try (destruct (Z.even m)); (split; [lia|done]).
Qed.

Lemma round_nonneg r : 0 <= shr_m r -> 0 <= round_nearest_even (shr_m r) (loc_of_shr_record r).
Proof. intros H. destruct r as [m [] []]; simpl in *; try destruct (Z.even m); lia. Qed.

(** A double that is not negative, and at most [M * 2 ^ E]. *)
Definition below (M E : Z) (x : spec_float) : Prop :=
  match x with
  | S754_zero _ => True
  | S754_finite s m e => s = false /\ Z.pos m <= M * 2 ^ (E - e) /\ Z.pos m < 2 ^ 53 /\ e <= E
  | _ => False
  end.

Definition exponent (E : Z) : Prop := -1074 <= E <= 971.

Lemma binary_round_aux_below M E m e l :
  fits M E (shr_record_of_loc m l) e -> e <= E -> M < 2 ^ 53 -> exponent E ->
  below M E (binary_round_aux 53 1024 false m e l).
Proof.
  intros Hf He HM HE. unfold exponent in HE. unfold binary_round_aux.
  pose proof (shr_fexp_fits M E m e l Hf He HM ltac:(lia)) as H1.
  destruct (shr_fexp _ _ m e l) as [r e1]. destruct H1 as [H1 He1].
  apply round_fits in H1. pose proof (shr_fexp_fits M E _ e1 loc_Exact H1 He1 HM ltac:(lia)) as H2.
  pose proof (shr_fexp_size (round_nearest_even (shr_m r) (loc_of_shr_record r)) e1 loc_Exact) as H3.
  destruct (shr_fexp _ _ _ e1 loc_Exact) as [r2 e2]. destruct H2 as [[[H20 H21] _] He2].
  assert (Hm : 0 <= shr_m r2 < 2 ^ 53) by (apply H3; by destruct H1 as [[? _] _]).
  destruct (shr_m r2) as [|p|p]; [done| |lia].
  rewrite (Zleb_T e2) by lia. simpl. split_and!; [done|lia..].
Qed.

Lemma below_mono M1 E1 M E x :
  below M1 E1 x -> E1 <= E -> M1 <= M * 2 ^ (E - E1) -> below M E x.
Proof.
  destruct x as [| | |s m e]; simpl; try done. intros (Hs & Hm & Hm' & He) HE HM.
  split_and!; [done| |done|lia]. etrans; [exact Hm|].
  replace (E - e) with ((E - E1) + (E1 - e)) by lia. rewrite Z.pow_add_r by lia.
  assert (0 < 2 ^ (E1 - e)) by (apply Z.pow_pos_nonneg; lia). nia.
Qed.

(** A double holds at most 53 bits. *)
Definition sized (x : spec_float) : Prop :=
  match x with S754_finite _ m _ => Z.pos m < 2 ^ 53 | _ => True end.

Lemma binary_round_aux_sized s m e l : 0 <= m -> sized (binary_round_aux 53 1024 s m e l).
Proof.
  intros Hm. unfold binary_round_aux. pose proof (shr_fexp_size m e l Hm) as H1.
  destruct (shr_fexp _ _ m e l) as [r e1]. destruct H1 as [H1 _]. apply round_nonneg in H1.
  pose proof (shr_fexp_size _ e1 loc_Exact H1) as H2. destruct (shr_fexp _ _ _ e1 loc_Exact) as [r2 e2].
  destruct (shr_m r2) as [|p|p]; [done| |done]. destruct (e2 <=? _); [apply H2|done].
Qed.

Lemma float_div_sized x y : sized (float_div x y).
Proof.
  unfold float_div, SFdiv. destruct x as [| | |sx mx ex], y as [| | |sy my ey]; try done.
  unfold SFdiv_core_binary.
  set (m' := match _ with Z0 => _ | Zpos _ => _ | Zneg _ => _ end).
  assert (Hm : 0 <= m') by (unfold m'; case_match; [lia|by apply Z.shiftl_nonneg|lia]).
  destruct (Z.div_eucl m' (Z.pos my)) as [q r] eqn:E. apply binary_round_aux_sized.
  pose proof (Z.div_pos m' (Z.pos my) Hm ltac:(lia)) as Hq. unfold Z.div in Hq. by rewrite E in Hq.
Qed.

(** ** Operations *)

Lemma shl_align_value m e e' :
  let (m', e2) := shl_align m e e' in
  e2 = Z.min e e' /\ Z.pos m' = Z.pos m * 2 ^ (e - e2).
Proof.
  unfold shl_align. destruct (e' - e) as [|d|d] eqn:E.
  1,2: split; [lia|]; rewrite Z.sub_diag; simpl; lia.
  split; [lia|]. replace (e - e') with (Z.pos d) by lia.
  clear E. induction d as [|d IH] using Pos.peano_ind; [simpl; lia|].
  rewrite Pos.iter_succ, Pos2Z.inj_succ, Z.pow_succ_r by lia. lia.
Qed.

(** Rounding an exact value keeps a double as a bound. *)
Lemma binary_round_below M E m e :
  Z.pos m <= M * 2 ^ (E - e) -> e <= E -> M < 2 ^ 53 -> exponent E ->
  below M E (binary_round 53 1024 false m e).
Proof.
  intros Hm He HM HE. unfold binary_round.
  pose proof (shl_align_value m e (fexp 53 1024 (Z.pos (digits2_pos m) + e))) as H.
  destruct (shl_align m e _) as [m' e2]. destruct H as [E1 E2].
  apply binary_round_aux_below; [|lia|done|done]. split; simpl; [|done]. rewrite E2.
  replace (E - e2) with ((E - e) + (e - e2)) by lia. rewrite Z.pow_add_r by lia.
  assert (0 < 2 ^ (e - e2)) by (apply Z.pow_pos_nonneg; lia). nia.
Qed.

Lemma pow_align M E m e e2 :
  Z.pos m <= M * 2 ^ (E - e) -> e2 <= e -> e <= E -> Z.pos m * 2 ^ (e - e2) <= M * 2 ^ (E - e2).
Proof.
  intros Hm He HE. replace (E - e2) with ((E - e) + (e - e2)) by lia. rewrite Z.pow_add_r by lia.
  assert (0 < 2 ^ (e - e2)) by (apply Z.pow_pos_nonneg; lia). nia.
Qed.

Lemma float_add_below M1 E1 M2 E2 M E x y :
  below M1 E1 x -> below M2 E2 y -> 0 <= M1 -> 0 <= M2 -> E1 <= E -> E2 <= E ->
  M1 * 2 ^ (E1 - Z.min E1 E2) + M2 * 2 ^ (E2 - Z.min E1 E2) <= M * 2 ^ (E - Z.min E1 E2) ->
  M < 2 ^ 53 -> exponent E -> below M E (float_add x y).
Proof.
  intros Hx Hy H1 H2 HE1 HE2 Hsum HM HE. unfold float_add, SFadd.
  set (k := Z.min E1 E2) in *.
  assert (Hdiv : forall M' E', 0 <= M' -> k <= E' <= E -> M' * 2 ^ (E' - k) <= M * 2 ^ (E - k) ->
    M' <= M * 2 ^ (E - E')).
  { intros M' E' _ HE' Hle. replace (E - k) with ((E - E') + (E' - k)) in Hle by lia.
    rewrite Z.pow_add_r in Hle by lia.
    assert (0 < 2 ^ (E' - k)) by (apply Z.pow_pos_nonneg; lia). nia. }
  assert (0 <= M1 * 2 ^ (E1 - k)) by (apply Z.mul_nonneg_nonneg; [done|apply Z.pow_nonneg; lia]).
  assert (0 <= M2 * 2 ^ (E2 - k)) by (apply Z.mul_nonneg_nonneg; [done|apply Z.pow_nonneg; lia]).
  destruct x as [sx| | |sx mx ex], y as [sy| | |sy my ey]; try done.
  - by destruct sx, sy.
  - apply (below_mono M2 E2); [done|done|]. apply Hdiv; lia.
  - apply (below_mono M1 E1); [done|done|]. apply Hdiv; lia.
  - destruct Hx as (-> & Hx & _ & Hex), Hy as (-> & Hy & _ & Hey). simpl cond_Zopp.
    pose proof (shl_align_value mx ex (Z.min ex ey)) as Hmx.
    pose proof (shl_align_value my ey (Z.min ex ey)) as Hmy.
    destruct (shl_align mx ex _) as [mx' ex'], (shl_align my ey _) as [my' ey']. simpl fst.
    destruct Hmx as [-> Hmx], Hmy as [-> Hmy].
    rewrite !Z.min_r in * by lia.
    apply (binary_round_below M E); [|lia|done|done].
    change (Z.pos (mx' + my')) with (Z.pos mx' + Z.pos my'). rewrite Hmx, Hmy.
    set (ez := Z.min ex ey).
    pose proof (pow_align M1 E1 mx ex ez Hx ltac:(lia) ltac:(lia)) as Hx'.
    pose proof (pow_align M2 E2 my ey ez Hy ltac:(lia) ltac:(lia)) as Hy'.
    assert (Hp : 0 < 2 ^ (k - ez)) by (apply Z.pow_pos_nonneg; lia).
    replace (E1 - ez) with ((E1 - k) + (k - ez)) in Hx' by lia.
    replace (E2 - ez) with ((E2 - k) + (k - ez)) in Hy' by lia.
    replace (E - ez) with ((E - k) + (k - ez)) by lia.
    rewrite !Z.pow_add_r in * by lia. nia.
Qed.

Lemma float_mul_below M1 E1 M2 E2 M E x y :
  below M1 E1 x -> below M2 E2 y -> E1 + E2 <= E -> M1 * M2 <= M * 2 ^ (E - (E1 + E2)) ->
  M < 2 ^ 53 -> exponent E -> below M E (float_mul x y).
Proof.
  intros Hx Hy HEs Hprod HM HE. unfold float_mul, SFmul.
  destruct x as [sx| | |sx mx ex], y as [sy| | |sy my ey]; try done; simpl in Hx, Hy.
  - destruct Hx as (-> & Hx & _ & Hex), Hy as (-> & Hy & _ & Hey). simpl xorb.
    apply binary_round_aux_below; [|lia|done|done]. split; simpl; [|done]. split; [lia|].
    rewrite Pos2Z.inj_mul.
    replace (E - (ex + ey)) with ((E - (E1 + E2)) + ((E1 - ex) + (E2 - ey))) by lia.
    rewrite !Z.pow_add_r by lia.
    assert (0 < 2 ^ (E1 - ex)) by (apply Z.pow_pos_nonneg; lia).
    assert (0 < 2 ^ (E2 - ey)) by (apply Z.pow_pos_nonneg; lia).
    transitivity ((M1 * 2 ^ (E1 - ex)) * (M2 * 2 ^ (E2 - ey))).
    { apply Z.mul_le_mono_nonneg; lia. }
    rewrite Z.mul_shuffle1, (Z.mul_assoc M).
    apply Z.mul_le_mono_nonneg_r; [apply Z.mul_nonneg_nonneg; lia|done].
Qed.

Local Notation p52 := 4503599627370496%positive.

(** At most [2 ^ j]. *)
Definition at_most (j : Z) : spec_float -> Prop := below (Z.pos p52) (j - 52).

Lemma pow_p52 j e : e <= j - 52 -> Z.pos p52 * 2 ^ (j - 52 - e) = 2 ^ (j - e).
Proof.
  intros He. change (Z.pos p52) with (2 ^ 52). rewrite <- Z.pow_add_r by lia. f_equal. lia.
Qed.

Lemma float_add_at_most j x y :
  at_most j x -> at_most j y -> -1000 <= j <= 1022 -> at_most (j + 1) (float_add x y).
Proof.
  intros Hx Hy Hj. unfold at_most in *.
  eapply float_add_below; [exact Hx|exact Hy|lia|lia|lia|lia| |lia|unfold exponent; lia].
  rewrite Z.min_id, Z.sub_diag. replace (j + 1 - 52 - (j - 52)) with 1 by lia. lia.
Qed.

Definition two : spec_float := float_of_Z 2.
Definition half : spec_float := float_ratio 1 2.

Lemma float_half_at_most j x :
  at_most j x -> -900 <= j <= 1000 -> at_most (j - 1) (float_mul x half).
Proof.
  intros Hx Hj. unfold at_most in *.
  eapply (float_mul_below _ _ (Z.pos p52) (-53)); [exact Hx| |lia| |lia|unfold exponent; lia].
  - by vm_compute.
  - replace (j - 1 - 52 - (j - 52 + -53)) with 52 by lia. lia.
Qed.

Lemma float_div2_at_most j x :
  at_most j x -> -900 <= j <= 1000 -> at_most (j - 1) (float_div x two).
Proof.
  intros Hx Hj. replace two with (S754_finite false p52 (-51)) by by vm_compute.
  unfold float_div, SFdiv. destruct x as [s| | |s m e]; [done|done|done|].
  destruct Hx as (-> & Hm & _ & He). rewrite pow_p52 in Hm by done. unfold SFdiv_core_binary.
  set (e' := Z.min _ _). assert (He' : e' <= e - -51 /\ e' <= j - 53).
  { assert (Zdigits2 (Z.pos m) <= Z.succ (j - e)).
    { apply Zdigits2_lt; [|lia]. rewrite Z.pow_succ_r by lia. lia. }
    unfold e', fexp, emin. change (Zdigits2 (Z.pos p52)) with 53. lia. }
  set (s := e - -51 - e'). set (m' := match s with Z0 => _ | Zpos _ => _ | Zneg _ => _ end).
  assert (Em : m' = Z.pos m * 2 ^ s).
  { unfold m'. destruct s as [|p|p] eqn:Es; [simpl; lia|by rewrite Z.shiftl_mul_pow2|lia]. }
  pose proof (Z_div_mod m' (Z.pos p52) ltac:(lia)) as Hdiv.
  destruct (Z.div_eucl m' _) as [q r]. destruct Hdiv as [Hq Hr]. simpl xorb.
  assert (Hle : m' <= 2 ^ (j - 1 - e') * 2 ^ 52).
  { rewrite Em, <- Z.pow_add_r by lia. replace (j - 1 - e' + 52) with ((j - e) + s) by lia.
    rewrite Z.pow_add_r by lia. assert (0 < 2 ^ s) by (apply Z.pow_pos_nonneg; lia). nia. }
  assert (H0 : 0 <= m') by (rewrite Em; assert (0 < 2 ^ s) by (apply Z.pow_pos_nonneg; lia); lia).
  assert (Ep : Z.pos p52 = 2 ^ 52) by done. rewrite Ep in *.
  apply binary_round_aux_below; [|lia|done|unfold exponent; lia].
  unfold fits. rewrite <- Ep, pow_p52 by lia. rewrite Ep.
  assert (Hloc : r = 0 /\ new_location (2 ^ 52) r = loc_Exact \/ 0 < r).
  { destruct (decide (r = 0)) as [->|]; [by left|right; lia]. }
  destruct Hloc as [[-> ->]|Hr0]; [simpl; split; [lia|done]|].
  assert (Hq0 : 0 <= q < 2 ^ (j - 1 - e')) by lia.
  split; destruct (new_location _ r) as [|[]]; simpl; lia.
Qed.

Lemma one_minus_at_most x : at_most (-1) x -> at_most 0 (float_sub one x).
Proof.
  intros Hx. replace one with (S754_finite false p52 (-52)) by by vm_compute.
  unfold float_sub, SFsub. destruct x as [s| | |s m e]; [done|done|done|].
  destruct Hx as (-> & Hm & _ & He). rewrite pow_p52 in Hm by done. rewrite Z.min_r by lia. simpl cond_Zopp.
  pose proof (shl_align_value p52 (-52) e) as H1.
  pose proof (shl_align_value m e e) as H2.
  destruct (shl_align p52 (-52) e) as [m1 e1], (shl_align m e e) as [m2 e2]. simpl fst.
  destruct H1 as [-> H1], H2 as [-> H2]. rewrite !Z.min_r, ?Z.sub_diag in * by lia.
  assert (Ep : Z.pos p52 = 2 ^ 52) by done. rewrite Ep, <- Z.pow_add_r in H1 by lia.
  replace (52 + (-52 - e)) with (Z.succ (-1 - e)) in H1 by lia.
  rewrite Z.pow_succ_r in H1 by lia.
  assert (0 < 2 ^ (-1 - e)) by (apply Z.pow_pos_nonneg; lia).
  destruct (Z.pos m1 - Z.pos m2) as [|d|d] eqn:E; simpl; [done| |lia].
  apply binary_round_below; [|lia|done|unfold exponent; lia]. rewrite pow_p52 by lia.
  replace (0 - e) with (Z.succ (-1 - e)) by lia. rewrite Z.pow_succ_r by lia. lia.
Qed.

Lemma SF_compare_pos m n : PosDef.Pos.compare_cont Eq m n = Pos.compare m n.
Proof. reflexivity. Qed.

Lemma between_at_most x :
  sized x -> unit_float x = true -> at_most 0 x.
Proof.
  intros Hx. unfold unit_float, SFleb, SFcompare.
  replace one with (S754_finite false p52 (-52)) by by vm_compute.
  destruct x as [s|[]| |[] m e]; try done. cbn [zero andb].
  destruct (e ?= -52) eqn:Ee; [|rewrite Z.compare_lt_iff in Ee|done]; intros Hc.
  - apply Z.compare_eq in Ee as ->. split_and!; [done| |done|lia].
    change (Z.pos m <= Z.pos p52). rewrite SF_compare_pos in Hc.
    destruct (Pos.compare m p52) eqn:Em; try done.
    + apply Pos.compare_eq in Em as ->. done.
    + rewrite Pos.compare_lt_iff in Em. by apply Z.lt_le_incl.
  - split_and!; [done| |done|lia].
    rewrite pow_p52 by lia. assert (2 ^ 53 <= 2 ^ (0 - e)); [apply Z.pow_le_mono_r; lia|].
    simpl in Hx. lia.
Qed.

Lemma SFltb_leb x y : SFltb x y = true -> SFleb x y = true.
Proof. unfold SFltb, SFleb. by destruct (SFcompare x y) as [[]|]. Qed.

Lemma clamp01_at_most x : sized x -> at_most 0 (clamp01 x).
Proof.
  intros Hx. unfold clamp01, min1, max0.
  destruct (SFltb zero x) eqn:E; [|by vm_compute].
  destruct (SFltb x one) eqn:E'; [|by vm_compute].
  apply between_at_most; [done|]. unfold unit_float. by rewrite !SFltb_leb.
Qed.

(** [max(0.0, min(1.0, x))]: NaN becomes 1.0 here. *)
Definition clamp10 (x : spec_float) : spec_float := max0 (min1 x).

Lemma clamp10_at_most x : sized x -> at_most 0 (clamp10 x).
Proof.
  intros Hx. unfold clamp10, min1, max0.
  destruct (SFltb x one) eqn:E; [|by vm_compute].
  destruct (SFltb zero x) eqn:E'; [|by vm_compute].
  apply between_at_most; [done|]. unfold unit_float. by rewrite !SFltb_leb.
Qed.

Lemma at_most_unit x : at_most 0 x -> unit_float x = true.
Proof.
  unfold unit_float. replace one with (S754_finite false p52 (-52)) by by vm_compute.
  destruct x as [s| | |s m e]; try done.
  intros (-> & Hm & _ & He). unfold SFleb, SFcompare. simpl zero. cbn [andb].
  destruct (e ?= -52) eqn:Ee; [|done|rewrite Z.compare_gt_iff in Ee; lia].
  apply Z.compare_eq in Ee as ->. change (Z.pos m <= Z.pos p52) in Hm.
  rewrite SF_compare_pos.
  destruct (Pos.compare m p52) eqn:Em; try done.
Qed.

Lemma below_sized M E x : below M E x -> sized x.
Proof. destruct x; simpl; try done. tauto. Qed.

(** The double nearest to a ratio of integers, whatever their size. *)
Definition ratio (a b : positive) : spec_float :=
  float_div (S754_finite false a 0) (S754_finite false b 0).

Lemma ratio_at_most a b : Z.pos a <= Z.pos b -> at_most 0 (ratio a b).
Proof.
  intros Hab. unfold ratio, float_div, SFdiv, SFdiv_core_binary. simpl xorb.
  set (e' := Z.min _ _). assert (He' : e' <= -52 /\ e' <= 0).
  { pose proof (digits2_pos_bounds a) as [Ha _]. pose proof (digits2_pos_bounds b) as [_ Hb].
    assert (Z.pos (digits2_pos a) - 1 < Z.pos (digits2_pos b)).
    { apply (Z.pow_lt_mono_r_iff 2); lia. }
    unfold e', fexp, emin. cbn [Zdigits2]. lia. }
  set (s := 0 - 0 - e'). set (m' := match s with Z0 => _ | Zpos _ => _ | Zneg _ => _ end).
  assert (Em : m' = Z.pos a * 2 ^ (- e')).
  { unfold m'. replace (- e') with s by lia.
    destruct s as [|p|p] eqn:Es; [simpl; lia|by rewrite Z.shiftl_mul_pow2|lia]. }
  assert (Hp : 0 < 2 ^ (- e')) by (apply Z.pow_pos_nonneg; lia).
  pose proof (Z_div_mod m' (Z.pos b) ltac:(lia)) as Hdiv.
  destruct (Z.div_eucl m' _) as [q r]. destruct Hdiv as [Hq Hr].
  apply binary_round_aux_below; [|lia|done|unfold exponent; lia].
  unfold fits. rewrite pow_p52 by lia. rewrite Z.sub_0_l.
  assert (Hloc : r = 0 /\ new_location (Z.pos b) r = loc_Exact \/ 0 < r).
  { destruct (decide (r = 0)) as [->|]; [left; split; [done|]|right; lia].
    unfold new_location, new_location_even, new_location_odd. by destruct (Z.even _). }
  destruct Hloc as [[-> ->]|Hr0]; [simpl; split; [nia|done]|].
  assert (Hq0 : 0 <= q < 2 ^ (- e')) by nia.
  destruct (new_location _ r) as [|[]]; simpl; lia.
Qed.

(** ** Signs and symmetry *)

Lemma binary_round_aux_abs s m e l :
  SFabs (binary_round_aux 53 1024 s m e l) = SFabs (binary_round_aux 53 1024 false m e l).
Proof.
  unfold binary_round_aux. destruct (shr_fexp _ _ _ _ _) as [r e1]. cbn beta iota zeta.
  destruct (shr_fexp _ _ _ _ _) as [r2 e2]. cbn beta iota. destruct (shr_m r2); try done.
  by destruct (e2 <=? _).
Qed.

Lemma binary_round_abs s m e :
  SFabs (binary_round 53 1024 s m e) = SFabs (binary_round 53 1024 false m e).
Proof. unfold binary_round. destruct (shl_align _ _ _). apply binary_round_aux_abs. Qed.

Lemma binary_normalize_opp_abs z e :
  SFabs (binary_normalize 53 1024 (- z) e false) = SFabs (binary_normalize 53 1024 z e false).
Proof. destruct z; simpl; [done|..]; by rewrite (binary_round_abs true). Qed.

Lemma float_sub_abs_comm x y : SFabs (float_sub x y) = SFabs (float_sub y x).
Proof.
  unfold float_sub, SFsub. destruct x as [[]|[]| |sx mx ex], y as [[]|[]| |sy my ey]; try done.
  all: rewrite (Z.min_comm ey ex), <- binary_normalize_opp_abs; do 2 f_equal; lia.
Qed.

Lemma float_mul_comm x y : float_mul x y = float_mul y x.
Proof.
  unfold float_mul, SFmul. destruct x as [[]|[]| |[] mx ex], y as [[]|[]| |[] my ey]; try done.
  all: by rewrite (Pos.mul_comm my mx), (Z.add_comm ey ex).
Qed.

Lemma float_sub_diag x : match x with S754_zero _ | S754_finite _ _ _ => True | _ => False end ->
  float_sub x x = zero.
Proof.
  unfold float_sub, SFsub. destruct x as [[]|[]| |s m e]; try done. intros _. by rewrite Z.sub_diag.
Qed.

(** A double that is not NaN and at most [2 ^ j] on either side of zero. *)
Definition within (j : Z) (x : spec_float) : Prop := at_most j (SFabs x).

Lemma within_normalize j z e : Z.abs z <= 2 ^ (j - e) -> e <= j - 52 -> -1000 <= j <= 1023 ->
  within j (binary_normalize 53 1024 z e false).
Proof.
  intros Hz He Hj. unfold within. 
  assert (Hp : forall p, Z.pos p <= 2 ^ (j - e) -> at_most j (SFabs (binary_round 53 1024 false p e))).
  { intros p Hp. assert (H : at_most j (binary_round 53 1024 false p e)).
    { apply binary_round_below; [|lia|done|unfold exponent; lia]. by rewrite pow_p52 by lia. }
    destruct (binary_round _ _ _ _ _) as [| | |s m e']; try done. by destruct s; [destruct H|]. }
  destruct z as [|p|p]; simpl; [done|..]; [apply Hp; lia|rewrite binary_round_abs; apply Hp; lia].
Qed.

Lemma one_minus_shape m e : e <= -51 -> exists ez d, ez <= -52 /\ ez <= e /\
  float_sub one (S754_finite false m e) = binary_normalize 53 1024 d ez false /\
  d = 2 ^ (- ez) - Z.pos m * 2 ^ (e - ez).
Proof.
  intros He. replace one with (S754_finite false p52 (-52)) by by vm_compute.
  unfold float_sub, SFsub. set (ez := Z.min (-52) e). exists ez. simpl cond_Zopp.
  pose proof (shl_align_value p52 (-52) ez) as H1. pose proof (shl_align_value m e ez) as H2.
  destruct (shl_align p52 (-52) ez) as [m1 e1], (shl_align m e ez) as [m2 e2]. simpl fst.
  destruct H1 as [-> H1], H2 as [-> H2]. rewrite !Z.min_r in * by lia.
  exists (Z.pos m1 - Z.pos m2). split_and!; [lia|lia|done|]. rewrite H1, H2.
  replace (-52 - ez) with (0 - 52 - ez) by lia. rewrite pow_p52 by lia. by rewrite Z.sub_0_l.
Qed.

Lemma one_minus_within x : at_most 1 x -> within 0 (float_sub one x).
Proof.
  destruct x as [s| | |s m e]; [by destruct s|done|done|]. intros (-> & Hm & _ & He).
  destruct (one_minus_shape m e ltac:(lia)) as (ez & d & Hez & Hle & -> & ->).
  apply within_normalize; [|lia|lia]. rewrite pow_p52 in Hm by lia.
  assert (Hp : 0 < 2 ^ (e - ez)) by (apply Z.pow_pos_nonneg; lia).
  assert (Z.pos m * 2 ^ (e - ez) <= 2 * 2 ^ (- ez)).
  { replace (2 * 2 ^ (- ez)) with (2 ^ (1 - e) * 2 ^ (e - ez)); [nia|].
    rewrite <- Z.pow_add_r by lia. replace (1 - e + (e - ez)) with (Z.succ (- ez)) by lia.
    apply Z.pow_succ_r. lia. }
  replace (0 - ez) with (- ez) by lia. lia.
Qed.

Lemma one_minus_unit x : at_most 0 x -> at_most 0 (float_sub one x).
Proof.
  destruct x as [s| | |s m e]; [by destruct s|done|done|]. intros (-> & Hm & _ & He).
  destruct (one_minus_shape m e ltac:(lia)) as (ez & d & Hez & Hle & -> & Ed).
  rewrite pow_p52 in Hm by lia. assert (Hd : 0 <= d <= 2 ^ (0 - ez)).
  { assert (Hp : 0 < 2 ^ (e - ez)) by (apply Z.pow_pos_nonneg; lia).
    assert (Z.pos m * 2 ^ (e - ez) <= 2 ^ (- ez)).
    { replace (2 ^ (- ez)) with (2 ^ (0 - e) * 2 ^ (e - ez)); [nia|].
      rewrite <- Z.pow_add_r by lia. f_equal. lia. }
    replace (0 - ez) with (- ez) by lia. lia. }
  destruct d as [|p|p]; simpl; [done| |lia].
  apply binary_round_below; [|lia|done|unfold exponent; lia]. rewrite pow_p52 by lia. lia.
Qed.

Lemma one_minus_signed x : within 0 x -> at_most 1 (float_sub one x).
Proof.
  destruct x as [s|s| |[] m e]; try done.
  - intros H. change (at_most 1 (float_add one (S754_finite false m e))).
    apply (float_add_at_most 0); [by vm_compute|done|lia].
  - intros H. eapply below_mono; [by apply one_minus_unit|lia|by vm_compute].
Qed.

Lemma SFltb_irrefl x : SFltb x x = false.
Proof.
  unfold SFltb, SFcompare. destruct x as [s|[]| |[] m e]; try done.
  all: rewrite Z.compare_refl, SF_compare_pos, Pos.compare_refl; done.
Qed.

Lemma SFltb_trans x y z : SFltb x y = true -> SFltb y z = true -> SFltb x z = true.
Proof.
  unfold SFltb, SFcompare.
  destruct x as [[]|[]| |[] m1 e1], y as [[]|[]| |[] m2 e2], z as [[]|[]| |[] m3 e3]; try done;
    rewrite ?(SF_compare_pos m1 m2), ?(SF_compare_pos m2 m3), ?(SF_compare_pos m1 m3).
  all: destruct (Z.compare_spec e1 e2), (Z.compare_spec e2 e3), (Z.compare_spec e1 e3); try lia; try done.
  all: destruct (Pos.compare_spec m1 m2), (Pos.compare_spec m2 m3), (Pos.compare_spec m1 m3); try lia; done.
Qed.

Lemma SFleb_trans x y z : SFleb x y = true -> SFleb y z = true -> SFleb x z = true.
Proof.
  unfold SFleb, SFcompare.
  destruct x as [[]|[]| |[] m1 e1], y as [[]|[]| |[] m2 e2], z as [[]|[]| |[] m3 e3]; try done;
    rewrite ?(SF_compare_pos m1 m2), ?(SF_compare_pos m2 m3), ?(SF_compare_pos m1 m3).
  all: destruct (Z.compare_spec e1 e2), (Z.compare_spec e2 e3), (Z.compare_spec e1 e3); try lia; try done.
  all: destruct (Pos.compare_spec m1 m2), (Pos.compare_spec m2 m3), (Pos.compare_spec m1 m3); try lia; done.
Qed.

Create HintDb floats.
#[export] Hint Resolve float_div_sized clamp01_at_most clamp10_at_most at_most_unit : floats.
