(* ===== verification/FloatOrder.v ===== *)
(** * The order of doubles, and quotients

    Doubles as IEEE arithmetic returns them are canonical: their exponent is
    the one of their size. On canonical doubles the comparison of Python is
    the order of the values, so that a quotient of the smaller by the larger
    is at most one. Also the order of doubles that are numbers, and
    [sorted(..., reverse=True)] by a key that is a double. *)

From Stdlib Require Import SpecFloat.
From S2P Require Import Prelude Floats.

(** ** Canonical doubles *)

Definition canonical (x : spec_float) : Prop :=
  match x with S754_finite _ m e => e = fexp 53 1024 (Zdigits2 (Z.pos m) + e) | _ => True end.

Lemma fexp_53 z : fexp 53 1024 z = Z.max (z - 53) (-1074).
Proof. done. Qed.

Lemma Zdigits2_unique m d : 0 < m -> 2 ^ (d - 1) <= m < 2 ^ d -> Zdigits2 m = d.
Proof.
  destruct m as [|m|m]; try lia. intros _ [H1 H2]. simpl Zdigits2.
  pose proof (digits2_pos_bounds m) as [H3 H4].
  assert (d - 1 < Z.pos (digits2_pos m)) by (apply (Z.pow_lt_mono_r_iff 2); lia).
  assert (Z.pos (digits2_pos m) - 1 < d); [|lia].
  destruct (Z_lt_le_dec d 0) as [Hd|Hd]; [rewrite Z.pow_neg_r in H2 by lia; lia|].
  apply (Z.pow_lt_mono_r_iff 2); lia.
Qed.

Lemma Zdigits2_spec m : 0 < m -> 0 < Zdigits2 m /\ 2 ^ (Zdigits2 m - 1) <= m < 2 ^ Zdigits2 m.
Proof. destruct m as [|m|m]; try lia. intros _. split; [done|]. apply digits2_pos_bounds. Qed.

Lemma Zdigits2_succ m : 0 <= m -> Zdigits2 (m + 1) = Zdigits2 m \/
  Zdigits2 (m + 1) = Zdigits2 m + 1 /\ m + 1 = 2 ^ Zdigits2 m.
Proof.
  intros Hm. destruct (decide (m = 0)) as [->|Hm0]; [by right|].
  destruct (Zdigits2_spec m ltac:(lia)) as (Hd & H1 & H2).
  destruct (decide (m + 1 = 2 ^ Zdigits2 m)) as [He|He]; [right|left; apply Zdigits2_unique; lia].
  split; [|done]. apply Zdigits2_unique; [lia|]. rewrite He, Z.add_simpl_r, Z.pow_add_r by lia.
  assert (0 < 2 ^ Zdigits2 m) by (apply Z.pow_pos_nonneg; lia). lia.
Qed.

Lemma Zdigits2_shift m n : 0 < m -> 0 <= n < Zdigits2 m -> Zdigits2 (m / 2 ^ n) = Zdigits2 m - n.
Proof.
  intros Hm Hn. destruct (Zdigits2_spec m Hm) as (Hd & H1 & H2).
  assert (Hp : 0 < 2 ^ n) by (apply Z.pow_pos_nonneg; lia).
  assert (H1' : 2 ^ (Zdigits2 m - n - 1) <= m / 2 ^ n).
  { apply Z.div_le_lower_bound; [done|]. rewrite <- Z.pow_add_r by lia. etrans; [|exact H1].
    apply Z.pow_le_mono_r; lia. }
  apply Zdigits2_unique.
  - assert (0 < 2 ^ (Zdigits2 m - n - 1)) by (apply Z.pow_pos_nonneg; lia). lia.
  - split; [done|]. apply Z.div_lt_upper_bound; [done|]. rewrite <- Z.pow_add_r by lia.
    by replace (n + (Zdigits2 m - n)) with (Zdigits2 m) by lia.
Qed.

(** Shifting to the exponent of the size. *)
Lemma shr_fexp_canonical m e l : 0 <= m -> e <= fexp 53 1024 (Zdigits2 m + e) ->
  let (r, e') := shr_fexp 53 1024 m e l in
  0 <= shr_m r /\ e' = fexp 53 1024 (Zdigits2 m + e) /\ shr_m r = m / 2 ^ (e' - e) /\
  e' = fexp 53 1024 (Zdigits2 (shr_m r) + e').
Proof.
  intros Hm He. unfold shr_fexp, shr. set (f := fexp 53 1024 (Zdigits2 m + e)) in *.
  assert (Hl : shr_m (shr_record_of_loc m l) = m) by by destruct l as [|[]].
  assert (Hr : forall r e', 0 <= shr_m r -> e' = f -> shr_m r = m / 2 ^ (e' - e) ->
    0 <= shr_m r /\ e' = f /\ shr_m r = m / 2 ^ (e' - e) /\ e' = fexp 53 1024 (Zdigits2 (shr_m r) + e')).
  { intros r e' H0 -> Er. split_and!; [done..|]. rewrite Er. unfold f in *. rewrite !fexp_53 in *.
    set (f' := Z.max (Zdigits2 m + e - 53) (-1074)) in *.
    destruct (decide (m = 0)) as [->|Hm0]; [rewrite Z.div_0_l by (apply Z.pow_nonzero; lia); simpl in *; lia|].
    destruct (Zdigits2_spec m ltac:(lia)) as (Hd & _ & H2).
    destruct (Z_lt_le_dec (f' - e) (Zdigits2 m)).
    - rewrite Zdigits2_shift by lia. lia.
    - rewrite Z.div_small; [simpl; lia|]. split; [done|]. eapply Z.lt_le_trans; [exact H2|].
      apply Z.pow_le_mono_r; lia. }
  destruct (f - e) as [|p|p] eqn:Ep; [| |lia].
  - apply Hr; rewrite ?Hl; [done|lia|]. by rewrite Z.sub_diag, Z.div_1_r.
  - assert (Hi : shr_m (SpecFloat.iter_pos shr_1 p (shr_record_of_loc m l)) = m / 2 ^ Z.pos p)
      by (rewrite iter_shr_m; rewrite Hl; done).
    apply Hr; [|lia|].
    + rewrite Hi. apply Z.div_pos; [done|by apply Z.pow_pos_nonneg].
    + rewrite Hi. do 2 f_equal. lia.
Qed.

Lemma binary_round_aux_canonical s m e l : 0 <= m -> e <= fexp 53 1024 (Zdigits2 m + e) ->
  canonical (binary_round_aux 53 1024 s m e l).
Proof.
  intros Hm He. unfold binary_round_aux. pose proof (shr_fexp_canonical m e l Hm He) as H1.
  destruct (shr_fexp _ _ m e l) as [r e1]. destruct H1 as (Hr0 & _ & _ & H1).
  set (m1 := round_nearest_even (shr_m r) (loc_of_shr_record r)).
  assert (Hm1 : m1 = shr_m r \/ m1 = shr_m r + 1).
  { unfold m1. destruct r as [k [] []]; simpl; auto. destruct (Z.even k); auto. }
  assert (Hge : e1 <= fexp 53 1024 (Zdigits2 m1 + e1)).
  { rewrite fexp_53 in *. destruct Hm1 as [->| ->]; [lia|]. pose proof (Zdigits2_succ _ Hr0). lia. }
  assert (Hm10 : 0 <= m1) by lia.
  pose proof (shr_fexp_canonical m1 e1 loc_Exact Hm10 Hge) as H2.
  destruct (shr_fexp _ _ m1 e1 loc_Exact) as [r2 e2]. destruct H2 as (_ & _ & _ & H2).
  destruct (shr_m r2) as [|p|p]; [done| |done]. by destruct (e2 <=? _).
Qed.

Lemma shl_align_digits mx ex ex' : let (m, e) := shl_align mx ex ex' in
  Zdigits2 (Z.pos m) + e = Zdigits2 (Z.pos mx) + ex.
Proof.
  pose proof (shl_align_value mx ex ex') as Hv. destruct (shl_align mx ex ex') as [m e].
  destruct Hv as [He Hv]. assert (Hle : e <= ex) by lia. clear He.
  destruct (Zdigits2_spec (Z.pos mx) ltac:(lia)) as (Hd & H1 & H2).
  rewrite (Zdigits2_unique (Z.pos m) (Zdigits2 (Z.pos mx) + (ex - e))); [lia|lia|].
  rewrite Hv. replace (Zdigits2 (Z.pos mx) + (ex - e) - 1) with ((Zdigits2 (Z.pos mx) - 1) + (ex - e)) by lia.
  rewrite !Z.pow_add_r by lia. assert (0 < 2 ^ (ex - e)) by (apply Z.pow_pos_nonneg; lia). nia.
Qed.

Lemma binary_round_canonical s m e : canonical (binary_round 53 1024 s m e).
Proof.
  unfold binary_round.
  pose proof (shl_align_digits m e (fexp 53 1024 (Z.pos (digits2_pos m) + e))) as Hd.
  pose proof (shl_align_value m e (fexp 53 1024 (Z.pos (digits2_pos m) + e))) as Hv.
  destruct (shl_align _ _ _) as [m' e']. destruct Hv as [Hv _].
  apply binary_round_aux_canonical; [lia|]. rewrite Hd. simpl Zdigits2. lia.
Qed.

Lemma float_add_canonical x y : canonical x -> canonical y -> canonical (float_add x y).
Proof.
  intros Hx Hy. unfold float_add, SFadd, binary_normalize.
  destruct x as [[]|[]| |sx mx ex], y as [[]|[]| |sy my ey]; try done.
  destruct (_ + _); [done|apply binary_round_canonical..].
Qed.

Lemma float_add_one_canonical y : canonical (float_add one y).
Proof.
  change one with (S754_finite false 4503599627370496 (-52)). unfold float_add, SFadd, binary_normalize.
  destruct y as [|[]| |sy my ey]; try done. destruct (_ + _); [done|apply binary_round_canonical..].
Qed.

Lemma float_mul_canonical x y : canonical x -> canonical y -> canonical (float_mul x y).
Proof.
  unfold float_mul, SFmul.
  destruct x as [|[]| |sx mx ex], y as [|[]| |sy my ey]; try done. simpl canonical. intros Hx Hy.
  apply binary_round_aux_canonical; [lia|].
  pose proof (Zdigits2_spec (Z.pos mx) ltac:(lia)) as (Hdx & Hx1 & _).
  pose proof (Zdigits2_spec (Z.pos my) ltac:(lia)) as (Hdy & Hy1 & _).
  pose proof (Zdigits2_spec (Z.pos (mx * my)) ltac:(lia)) as (Hd & _ & H2).
  assert (Zdigits2 (Z.pos mx) + Zdigits2 (Z.pos my) - 2 < Zdigits2 (Z.pos (mx * my))).
  { apply (Z.pow_lt_mono_r_iff 2); [lia|lia|].
    replace (Zdigits2 (Z.pos mx) + Zdigits2 (Z.pos my) - 2)
      with ((Zdigits2 (Z.pos mx) - 1) + (Zdigits2 (Z.pos my) - 1)) by lia.
    rewrite Z.pow_add_r by lia. rewrite Pos2Z.inj_mul in H2.
    eapply Z.le_lt_trans; [|exact H2]. apply Z.mul_le_mono_nonneg; try done; apply Z.pow_nonneg; lia. }
  change (fexp 53 1024 (Z.pos (digits2_pos mx) + ex)) with (fexp 53 1024 (Zdigits2 (Z.pos mx) + ex)) in Hx.
  change (fexp 53 1024 (Z.pos (digits2_pos my) + ey)) with (fexp 53 1024 (Zdigits2 (Z.pos my) + ey)) in Hy.
  rewrite fexp_53 in *. lia.
Qed.

(** The comparison of canonical doubles is the order of their values. *)
Lemma canonical_order m1 e1 m2 e2 :
  canonical (S754_finite false m1 e1) -> canonical (S754_finite false m2 e2) ->
  SFleb (S754_finite false m1 e1) (S754_finite false m2 e2) = true ->
  Z.pos m1 * 2 ^ (e1 - Z.min e1 e2) <= Z.pos m2 * 2 ^ (e2 - Z.min e1 e2).
Proof.
  unfold canonical. rewrite !fexp_53. intros H1 H2. unfold SFleb, SFcompare.
  destruct (e1 ?= e2) eqn:E; [| |done].
  - apply Z.compare_eq in E as ->. rewrite Z.min_id, Z.sub_diag, Z.pow_0_r, SF_compare_pos.
    destruct (Pos.compare m1 m2) eqn:Em; try done; intros _.
    + apply Pos.compare_eq in Em as ->. done.
    + change (m1 < m2)%positive in Em. lia.
  - intros _. rewrite Z.compare_lt_iff in E. rewrite Z.min_l, Z.sub_diag by lia.
    destruct (Zdigits2_spec (Z.pos m1) ltac:(lia)) as (_ & _ & Hm1).
    destruct (Zdigits2_spec (Z.pos m2) ltac:(lia)) as (_ & Hm2 & _).
    transitivity (2 ^ 53).
    + rewrite Z.mul_1_r. apply Z.lt_le_incl. eapply Z.lt_le_trans; [exact Hm1|]. apply Z.pow_le_mono_r; lia.
    + transitivity (2 ^ 52 * 2 ^ (e2 - e1)).
      * rewrite <- Z.pow_add_r by lia. apply Z.pow_le_mono_r; lia.
      * apply Z.mul_le_mono_nonneg_r; [apply Z.pow_nonneg; lia|]. etrans; [|exact Hm2].
        apply Z.pow_le_mono_r; lia.
Qed.

Lemma div_at_most m1 e1 m2 e2 :
  Z.pos m1 * 2 ^ (e1 - Z.min e1 e2) <= Z.pos m2 * 2 ^ (e2 - Z.min e1 e2) ->
  at_most 0 (float_div (S754_finite false m1 e1) (S754_finite false m2 e2)).
Proof.
  intros Hle. unfold float_div, SFdiv, SFdiv_core_binary. simpl xorb.
  set (k := Z.min e1 e2) in *.
  destruct (Zdigits2_spec (Z.pos m1) ltac:(lia)) as (_ & H1 & _).
  destruct (Zdigits2_spec (Z.pos m2) ltac:(lia)) as (_ & _ & H2).
  set (d1 := Zdigits2 (Z.pos m1)) in *. set (d2 := Zdigits2 (Z.pos m2)) in *.
  assert (Hk1 : 0 < 2 ^ (e1 - k)) by (apply Z.pow_pos_nonneg; lia).
  assert (Hk2 : 0 < 2 ^ (e2 - k)) by (apply Z.pow_pos_nonneg; lia).
  assert (Hd : (d1 - 1) + (e1 - k) < d2 + (e2 - k)).
  { apply (Z.pow_lt_mono_r_iff 2); [lia|unfold d2; simpl; lia|].
    assert (0 <= d1 - 1) by (unfold d1; simpl; lia). assert (0 <= d2) by (unfold d2; simpl; lia).
    rewrite !Z.pow_add_r by lia. nia. }
  set (e' := Z.min (fexp 53 1024 (d1 + e1 - (d2 + e2))) (e1 - e2)).
  assert (He' : e' <= -52 /\ e' <= e1 - e2) by (unfold e'; rewrite fexp_53; lia).
  set (s := e1 - e2 - e'). set (m' := match s with Z0 => _ | Zpos _ => _ | Zneg _ => _ end).
  assert (Em : m' = Z.pos m1 * 2 ^ (e1 - e2 - e')).
  { unfold m'. fold s. destruct s as [|p|p] eqn:Es; [simpl; lia|by rewrite Z.shiftl_mul_pow2|lia]. }
  assert (Hp : 0 < 2 ^ (- e')) by (apply Z.pow_pos_nonneg; lia).
  assert (Hm' : m' <= Z.pos m2 * 2 ^ (- e')).
  { rewrite Em. destruct (Z_le_gt_dec e2 e1) as [H|H].
    - assert (k = e2) as Hk by lia. rewrite Hk, Z.sub_diag in Hle.
      replace (e1 - e2 - e') with ((e1 - e2) + - e') by lia. rewrite Z.pow_add_r by lia. nia.
    - assert (k = e1) as Hk by lia. rewrite Hk, Z.sub_diag in Hle.
      replace (- e') with ((e2 - e1) + (e1 - e2 - e')) by lia. rewrite Z.pow_add_r by lia.
      assert (0 < 2 ^ (e1 - e2 - e')) by (apply Z.pow_pos_nonneg; lia). nia. }
  pose proof (Z_div_mod m' (Z.pos m2) ltac:(lia)) as Hdiv.
  destruct (Z.div_eucl m' _) as [q r]. destruct Hdiv as [Hq Hr].
  assert (Hm0 : 0 <= m') by (rewrite Em; apply Z.mul_nonneg_nonneg; [lia|apply Z.pow_nonneg; lia]).
  apply binary_round_aux_below; [|lia|done|unfold exponent; lia].
  unfold fits. rewrite pow_p52 by lia. rewrite Z.sub_0_l.
  assert (Hloc : r = 0 /\ new_location (Z.pos m2) r = loc_Exact \/ 0 < r).
  { destruct (decide (r = 0)) as [->|]; [left; split; [done|]|right; lia].
    unfold new_location, new_location_even, new_location_odd. by destruct (Z.even _). }
  destruct Hloc as [[-> ->]|Hr0]; [simpl; split; [nia|done]|].
  assert (Hq0 : 0 <= q < 2 ^ (- e')) by nia.
  destruct (new_location _ r) as [|[]]; simpl; lia.
Qed.

(** A double between zero and another, positive one is at most it when divided by it. *)
Lemma float_div_unit x y M E :
  canonical x -> canonical y -> below M E x -> below M E y -> SFltb zero y = true ->
  SFleb x y = true -> at_most 0 (float_div x y).
Proof.
  intros Hx Hy Hbx Hby Hpos Hle.
  destruct x as [sx|sx| |sx mx ex], y as [sy|sy| |sy my ey]; try done; simpl in Hbx, Hby.
  destruct Hbx as [-> _], Hby as [-> _]. by apply div_at_most, canonical_order.
Qed.

(** ** The order of numbers *)

Definition number (x : spec_float) : Prop := x <> S754_nan.

Lemma below_number M E x : below M E x -> number x.
Proof. by destruct x. Qed.

Lemma not_lt_le x y : number x -> number y -> SFltb x y = false <-> SFleb y x = true.
Proof.
  unfold number, SFltb, SFleb. intros Hx Hy.
  assert (H : SFcompare y x = option_map CompOpp (SFcompare x y)).
  { destruct x as [sx|sx| |sx mx ex], y as [sy|sy| |sy my ey]; try done; try (by destruct sx);
      try (by destruct sy); try (by destruct sx, sy).
    unfold SFcompare. destruct sx, sy; try done; rewrite (Z.compare_antisym ex ey);
      destruct (ex ?= ey); try done; rewrite !SF_compare_pos, (Pos.compare_antisym mx my);
      change (PosDef.Pos.compare_cont Eq mx my) with (mx ?= my)%positive; by destruct (mx ?= my)%positive. }
  assert (Hs : is_Some (SFcompare x y)) by
    (destruct x as [[]|[]| |[] mx ex], y as [[]|[]| |[] my ey]; try done; simpl; by destruct (ex ?= ey)).
  rewrite H. destruct Hs as [c ->]. by destruct c.
Qed.

Lemma SFleb_refl x : number x -> SFleb x x = true.
Proof. intros H. apply not_lt_le; try done. apply SFltb_irrefl. Qed.

(** ** Ranking: [list.sort(key=..., reverse=True)], which is stable *)

Section ranking.
Context {A : Type} (key : A -> spec_float).

Fixpoint insert_best (x : A) (l : list A) : list A :=
  match l with
  | [] => [x]
  | y :: l' => if SFltb (key y) (key x) then x :: l else y :: insert_best x l'
  end.
Definition sort_best (l : list A) : list A := fold_left (fun sorted x => insert_best x sorted) l [].

Definition better (x y : A) : Prop := SFleb (key y) (key x) = true.

Lemma insert_best_Permutation x l : insert_best x l ≡ₚ x :: l.
Proof.
  induction l as [|y l IH]; simpl; [done|]. destruct (SFltb _ _); [done|]. rewrite IH. constructor.
Qed.

Lemma insert_best_sorted x l : number (key x) -> Forall (fun y => number (key y)) l ->
  StronglySorted better l -> StronglySorted better (insert_best x l).
Proof.
  intros Hx Hl. induction Hl as [|y l Hy Hl IH]; simpl; intros Hs; [by repeat constructor|].
  apply StronglySorted_inv in Hs as [Hs Hf]. destruct (SFltb (key y) (key x)) eqn:E.
  - assert (better x y) by by apply SFltb_leb. constructor; [by constructor|]. constructor; [done|].
    eapply Forall_impl; [exact Hf|]. unfold better in *. intros z Hz. by eapply SFleb_trans.
  - constructor; [by apply IH|]. rewrite insert_best_Permutation. constructor; [|done]. by apply not_lt_le.
Qed.

Lemma sort_best_Permutation l : sort_best l ≡ₚ l.
Proof.
  unfold sort_best. assert (H : forall acc,
    fold_left (fun sorted x => insert_best x sorted) l acc ≡ₚ acc ++ l); [|by apply (H [])].
  induction l as [|x l IH]; intros acc; simpl; [by rewrite app_nil_r|].
  rewrite IH, insert_best_Permutation. by rewrite <- Permutation_middle.
Qed.

Lemma sort_best_sorted l : Forall (fun y => number (key y)) l -> StronglySorted better (sort_best l).
Proof.
  unfold sort_best. intros Hl. assert (H : forall acc, Forall (fun y => number (key y)) acc ->
    StronglySorted better acc ->
    StronglySorted better (fold_left (fun sorted x => insert_best x sorted) l acc));
    [|by apply (H []); constructor].
  induction Hl as [|x l Hx _ IH]; intros acc Ha Hs; simpl; [done|].
  apply IH; [|by apply insert_best_sorted]. rewrite insert_best_Permutation. by constructor.
Qed.

Lemma sort_best_elem x l : x ∈ sort_best l <-> x ∈ l.
Proof. by rewrite sort_best_Permutation. Qed.

(** A list in order keeps it. *)
Lemma sort_best_ranked l : StronglySorted (fun a b => SFltb (key a) (key b) = false) l -> sort_best l = l.
Proof.
  intros Hs. unfold sort_best.
  assert (Hlast : forall x l, Forall (fun y => SFltb (key y) (key x) = false) l -> insert_best x l = l ++ [x]).
  { clear. intros x l. induction 1 as [|y l Hy _ IH]; simpl; [done|]. by rewrite Hy, IH. }
  assert (H : forall l acc, StronglySorted (fun a b => SFltb (key a) (key b) = false) (acc ++ l) ->
    fold_left (fun sorted x => insert_best x sorted) l acc = acc ++ l); [|by apply (H l [])].
  clear -Hlast. induction l as [|x l IH]; intros acc Hs; simpl; [by rewrite app_nil_r|].
  rewrite Hlast, IH, <- app_assoc; [done|by rewrite <- app_assoc|].
  apply StronglySorted_app in Hs as (Hc & _ & _). apply Forall_forall. intros y Hy. apply (Hc y x); [done|left].
Qed.

(** The first [n] of the ranking: distinct places of the list, none worse
    than what is left out. *)
Lemma take_best n l : Forall (fun y => number (key y)) l ->
  exists rest, l ≡ₚ take n (sort_best l) ++ rest /\
    StronglySorted better (take n (sort_best l)) /\
    (forall x y, x ∈ take n (sort_best l) -> y ∈ rest -> better x y) /\
    (rest <> [] -> length (take n (sort_best l)) = n).
Proof.
  intros Hl. exists (drop n (sort_best l)). pose proof (sort_best_sorted l Hl) as Hs.
  split_and!; [by rewrite take_drop, sort_best_Permutation|..].
  - rewrite <- (take_drop n (sort_best l)) in Hs. by apply StronglySorted_app in Hs as (_ & ? & _).
  - rewrite <- (take_drop n (sort_best l)) in Hs. apply StronglySorted_app in Hs as (H & _ & _). auto.
  - intros H. rewrite length_take. destruct (decide (n <= length (sort_best l))%nat); [lia|].
    destruct H. apply drop_ge. lia.
Qed.
End ranking.

(** ** Integers and their quotients *)

Lemma binary_round_aux_exact s m e : Zdigits2 (Z.pos m) = 53 -> -1074 <= e <= 971 ->
  binary_round_aux 53 1024 s (Z.pos m) e loc_Exact = S754_finite s m e.
Proof.
  intros Hd He.
  assert (H : shr_fexp 53 1024 (Z.pos m) e loc_Exact = (shr_record_of_loc (Z.pos m) loc_Exact, e)).
  { unfold shr_fexp, shr. rewrite Hd, fexp_53. by replace (Z.max (53 + e - 53) (-1074) - e) with 0 by lia. }
  unfold binary_round_aux. rewrite H. simpl. rewrite H. simpl. by rewrite Zleb_T by lia.
Qed.

(** An integer of at most 53 bits is a double. *)
Lemma float_of_Z_exact n : 0 < n < 2 ^ 53 ->
  exists m e, float_of_Z n = S754_finite false m e /\ -52 <= e <= 0 /\ Z.pos m = n * 2 ^ (- e).
Proof.
  intros Hn. destruct n as [|p|p]; try lia. unfold float_of_Z, binary_normalize, binary_round.
  destruct (Zdigits2_spec (Z.pos p) ltac:(lia)) as (Hd & H1 & H2).
  assert (Hd53 : Zdigits2 (Z.pos p) <= 53) by (apply Zdigits2_lt; lia).
  change (fexp 53 1024 (Z.pos (digits2_pos p) + 0)) with (fexp 53 1024 (Zdigits2 (Z.pos p) + 0)).
  rewrite fexp_53. set (e' := Z.max (Zdigits2 (Z.pos p) + 0 - 53) (-1074)).
  assert (He : e' = Zdigits2 (Z.pos p) - 53) by (unfold e'; lia). clearbody e'.
  pose proof (shl_align_value p 0 e') as Hv. pose proof (shl_align_digits p 0 e') as Hs.
  destruct (shl_align p 0 e') as [m e]. destruct Hv as [He2 Hv]. rewrite Z.min_r in He2 by lia. subst e.
  exists m, e'. split_and!; [|lia..|].
  - apply binary_round_aux_exact; lia.
  - by rewrite Hv, Z.sub_0_l.
Qed.

Lemma float_ratio_unit a b : 0 <= a <= b -> 0 < b < 2 ^ 53 -> at_most 0 (float_ratio a b).
Proof.
  intros Ha Hb. unfold float_ratio. destruct (float_of_Z_exact b Hb) as (mb & eb & -> & Heb & Hmb).
  destruct (decide (a = 0)) as [->|Ha0]; [done|].
  destruct (float_of_Z_exact a ltac:(lia)) as (ma & ea & -> & Hea & Hma).
  apply div_at_most. rewrite Hma, Hmb. set (k := Z.min ea eb).
  rewrite <- !Z.mul_assoc, <- !Z.pow_add_r by lia.
  replace (- ea + (ea - k)) with (- k) by lia. replace (- eb + (eb - k)) with (- k) by lia.
  apply Z.mul_le_mono_nonneg_r; [apply Z.pow_nonneg; lia|lia].
Qed.
