(* ===== verification/Text.v ===== *)
(** * Text, as lists of characters

    Python's methods on ASCII strings as lists of characters, which the
    searching and counting components (Entities.v, Persona.v) use, counters,
    and stable sorting in descending order. *)

From S2P Require Import Prelude.

(** ** Python's string methods, on lists of characters *)

Definition text : Type := list ascii.
Definition of_string : string -> text := Stdlib.Strings.String.list_ascii_of_string.
Definition to_string : text -> string := Stdlib.Strings.String.string_of_list_ascii.

(** [s.split()], with the word read so far. *)
Fixpoint split_from (word s : text) : list text :=
  let words := match word with [] => [] | _ => [word] end in
  match s with
  | [] => words
  | c :: s => if is_space c then words ++ split_from [] s else split_from (word ++ [c]) s
  end.
Definition split (s : text) : list text := split_from [] s.

Fixpoint starts_with (t s : text) : bool :=
  match t, s with
  | [], _ => true
  | c :: t, d :: s => Ascii.eqb c d && starts_with t s
  | _ :: _, [] => false
  end.

(** The first position at which [t] occurs in [s], counted from [pos]. *)
Fixpoint find_from (pos : nat) (t s : text) : option nat :=
  if starts_with t s then Some pos
  else match s with [] => None | _ :: s => find_from (S pos) t s end.

(** [s.index(t, i)], which raises [ValueError] where this is [None], and
    [s.find(t)]. *)
Definition index (s t : text) (i : nat) : option nat := find_from i t (drop i s).
Definition find (s t : text) : Z :=
  match find_from 0 t s with Some p => Z.of_nat p | None => -1 end.

Fixpoint lstrip_chars (p : ascii -> bool) (s : text) : text :=
  match s with
  | [] => []
  | c :: s' => if p c then lstrip_chars p s' else s
  end.
Definition strip_chars (p : ascii -> bool) (s : text) : text :=
  reverse (lstrip_chars p (reverse (lstrip_chars p s))).

(** [not s or not s.strip()] *)
Definition blank (content : text) : bool :=
  match strip_chars is_space content with [] => true | _ => false end.

Definition among (cs : string) (c : ascii) : bool := bool_decide (c ∈ of_string cs).
Definition is_upper : ascii -> bool := char_in "A" "Z".
Definition lower_text (s : text) : text := map lower_char s.

(** [s.endswith(t)], and membership in a set of words. *)
Definition ends_with_text (t : string) (s : text) : bool :=
  starts_with (reverse (of_string t)) (reverse s).
Definition word_in (s : text) (ws : list string) : bool :=
  bool_decide (Stdlib.Strings.String.string_of_list_ascii s ∈ ws).

(** ** Counters *)

(** [freq[w] = freq.get(w, 0) + 1]: a dict keeps its keys in the order of
    their insertion. *)
Fixpoint count_word (w : text) (freq : list (text * nat)) : list (text * nat) :=
  match freq with
  | [] => [(w, 1%nat)]
  | (v, n) :: freq => if bool_decide (v = w) then (v, S n) :: freq else (v, n) :: count_word w freq
  end.

Definition frequencies (words : list text) : list (text * nat) :=
  fold_left (fun freq w => count_word w freq) words [].

(** [sorted(l, key=key, reverse=True)], which is stable. *)
Section sort.
Context {A : Type} (key : A -> Z).

Fixpoint insert_desc (x : A) (l : list A) : list A :=
  match l with
  | [] => [x]
  | y :: l' => if key y <? key x then x :: l else y :: insert_desc x l'
  end.
Definition sort_desc (l : list A) : list A :=
  fold_left (fun sorted x => insert_desc x sorted) l [].

Definition desc (a b : A) : Prop := key b <= key a.

Lemma insert_desc_Permutation x l : insert_desc x l ≡ₚ x :: l.
Proof.
  induction l as [|y l IH]; simpl; [done|]. destruct (_ <? _); [done|].
  rewrite IH. constructor.
Qed.

Lemma insert_desc_sorted x l : StronglySorted desc l -> StronglySorted desc (insert_desc x l).
Proof.
  induction l as [|y l IH]; simpl; intros Hs; [by repeat constructor|].
  destruct (key y <? key x) eqn:E; breflect.
  - constructor; [done|]. apply StronglySorted_inv in Hs as [_ Hf].
    constructor; [unfold desc; lia|]. eapply Forall_impl; [exact Hf|]. unfold desc. simpl. lia.
  - apply StronglySorted_inv in Hs as [Hs Hf]. constructor; [by apply IH|].
    rewrite insert_desc_Permutation. by constructor.
Qed.

Lemma sort_desc_spec l : sort_desc l ≡ₚ l /\ StronglySorted desc (sort_desc l).
Proof.
  unfold sort_desc.
  assert (H : forall acc, StronglySorted desc acc ->
    fold_left (fun sorted x => insert_desc x sorted) l acc ≡ₚ acc ++ l /\
    StronglySorted desc (fold_left (fun sorted x => insert_desc x sorted) l acc)).
  { induction l as [|x l IH]; intros acc Ha; simpl; [by rewrite app_nil_r|].
    destruct (IH (insert_desc x acc)) as [H1 H2]; [by apply insert_desc_sorted|].
    split; [|done]. rewrite H1, insert_desc_Permutation. by rewrite <- Permutation_middle. }
  apply (H []). constructor.
Qed.
End sort.

(** ** Proofs: searching *)

Lemma starts_with_spec t s : starts_with t s = true <-> exists r, s = t ++ r.
Proof.
  revert s. induction t as [|c t IH]; intros s; simpl.
  { split; [by exists s|done]. }
  destruct s as [|d s]; [naive_solver|]. rewrite andb_true_iff, IH, Ascii.eqb_eq. naive_solver.
Qed.

(** Nothing that begins with [t] does before [t], if none of the characters
    passed over is the first of [t]. *)
Lemma find_from_skip pos g c t r :
  Forall (fun d => d <> c) g -> find_from pos (c :: t) (g ++ (c :: t) ++ r) = Some (pos + length g)%nat.
Proof.
  revert pos. induction g as [|d g IH]; intros pos Hg.
  - rewrite Nat.add_0_r. assert (H : starts_with (c :: t) ((c :: t) ++ r) = true)
      by (apply starts_with_spec; by exists r).
    change ([] ++ (c :: t) ++ r) with ((c :: t) ++ r). simpl in *. by rewrite H.
  - apply Forall_cons in Hg as [Hd Hg]. simpl app. simpl.
    destruct (Ascii.eqb_spec c d) as [->|_]; [done|]. simpl.
    rewrite IH by done. f_equal. simpl. lia.
Qed.

Lemma lstrip_chars_split p s :
  exists l, s = l ++ lstrip_chars p s /\ Forall (fun c => p c = true) l /\
    (forall c t, lstrip_chars p s = c :: t -> p c = false).
Proof.
  induction s as [|c s (l & E & Hl & Hh)]; simpl; [by exists []|].
  destruct (p c) eqn:Ep.
  - exists (c :: l). split_and!; [by rewrite E at 1|by constructor|done].
  - exists []. split_and!; [done|done|]. naive_solver.
Qed.

Definition lead (p : ascii -> bool) (s : text) : nat := (length s - length (lstrip_chars p s))%nat.

Lemma strip_chars_split p s :
  exists l r, s = l ++ strip_chars p s ++ r /\ length l = lead p s /\
    Forall (fun c => p c = true) l /\ Forall (fun c => p c = true) r /\
    (forall c t, strip_chars p s = c :: t -> p c = false).
Proof.
  destruct (lstrip_chars_split p s) as (l & E & Hl & Hh).
  destruct (lstrip_chars_split p (reverse (lstrip_chars p s))) as (r & E' & Hr & _).
  set (t := lstrip_chars p (reverse (lstrip_chars p s))) in *.
  assert (Et : lstrip_chars p s = reverse t ++ reverse r).
  { rewrite <- reverse_app, <- E'. by rewrite reverse_involutive. }
  exists l, (reverse r). unfold strip_chars. fold t. split_and!.
  - by rewrite <- Et.
  - unfold lead. apply (f_equal length) in E. rewrite length_app in E. lia.
  - done.
  - by apply Forall_reverse.
  - intros c u Hc. rewrite Hc in Et. by eapply Hh.
Qed.

Lemma lstrip_chars_none p s : Forall (fun c => p c = false) s -> lstrip_chars p s = s.
Proof. destruct 1 as [|c s Hc _]; simpl; [done|by rewrite Hc]. Qed.

Lemma strip_chars_none p s : Forall (fun c => p c = false) s -> strip_chars p s = s.
Proof.
  intros Hs. unfold strip_chars. rewrite (lstrip_chars_none p s) by done.
  rewrite lstrip_chars_none by by apply Forall_reverse. apply reverse_involutive.
Qed.

(** ** What a counter holds *)

Definition occurrences (w : text) (ws : list text) : nat := length (filter (fun v => v = w) ws).

(** The dictionary after counting [ws]. *)
Definition counts (ws : list text) (freq : list (text * nat)) : Prop :=
  NoDup freq.*1 /\ forall w n, (w, n) ∈ freq <-> n = occurrences w ws /\ (0 < n)%nat.

Lemma count_word_keys w freq v : v ∈ (count_word w freq).*1 <-> v = w \/ v ∈ freq.*1.
Proof.
  induction freq as [|[u n] freq IH]; simpl.
  - rewrite list_elem_of_singleton. set_solver.
  - case_bool_decide; subst; simpl; rewrite !elem_of_cons, ?IH; naive_solver.
Qed.

Lemma count_word_NoDup w freq : NoDup freq.*1 -> NoDup (count_word w freq).*1.
Proof.
  induction freq as [|[u n] freq IH]; simpl; [intros _; apply NoDup_singleton|].
  intros [Hu Hf]%NoDup_cons. case_bool_decide; simpl; apply NoDup_cons; [done|].
  split; [|by apply IH]. rewrite count_word_keys. naive_solver.
Qed.

Lemma count_word_elem w freq v n :
  NoDup freq.*1 ->
  (v, n) ∈ count_word w freq <->
  (v <> w /\ (v, n) ∈ freq) \/
  (v = w /\ ((w ∉ freq.*1 /\ n = 1%nat) \/ exists m, (w, m) ∈ freq /\ n = S m)).
Proof.
  induction freq as [|[u k] freq IH]; simpl; intros Hnd.
  { rewrite list_elem_of_singleton. assert (H1 := @not_elem_of_nil text).
    assert (H2 := @not_elem_of_nil (text * nat)). clear Hnd. naive_solver. }
  apply NoDup_cons in Hnd as [Hu Hf]. case_bool_decide as Huw;
    rewrite elem_of_cons, ?IH by done; setoid_rewrite elem_of_cons; setoid_rewrite pair_eq.
  - subst u. assert (Hk : forall m, (w, m) ∉ freq).
    { intros m Hin. apply Hu, list_elem_of_fmap. by exists (w, m). }
    clear IH Hf. destruct (decide (v = w)) as [->|]; naive_solver.
  - clear IH Hf Hu. destruct (decide (v = w)) as [->|]; naive_solver.
Qed.

Lemma counts_step ws freq w : counts ws freq -> counts (ws ++ [w]) (count_word w freq).
Proof.
  intros [Hnd Hc]. split; [by apply count_word_NoDup|]. intros v n.
  rewrite count_word_elem by done. unfold occurrences in *.
  rewrite filter_app, length_app. rewrite filter_cons, filter_nil.
  destruct (decide (w = v)) as [->|Hne]; simpl.
  - split.
    + intros [[? _]|[_ [[Hni ->]|(m & Hin & ->)]]]; [done| |apply Hc in Hin as [-> ?]; lia].
      split; [|lia]. destruct (length (filter _ ws)) as [|k] eqn:E; [done|]. exfalso. apply Hni.
      apply list_elem_of_fmap. exists (v, S k). split; [done|]. apply Hc. rewrite E. split; [done|lia].
    + intros [-> _]. right. split; [done|].
      destruct (length (filter (fun u => u = v) ws)) as [|k] eqn:E.
      * left. split; [|done]. intros ([u m] & -> & Hin)%list_elem_of_fmap. apply Hc in Hin. simpl in *. lia.
      * right. exists (S k). split; [apply Hc; rewrite E; split; [done|lia]|lia].
  - rewrite Nat.add_0_r, Hc. naive_solver.
Qed.

Lemma frequencies_counts ws : counts ws (frequencies ws).
Proof.
  unfold frequencies. rewrite <- (app_nil_l ws) at 1.
  assert (H0 : counts [] []).
  { split; [constructor|]. intros w n. split; [by intros ?%not_elem_of_nil|].
    unfold occurrences. simpl. lia. }
  revert H0. generalize (@nil text) as done_, (@nil (text * nat)) as freq.
  induction ws as [|w ws IH]; intros dn freq H; simpl; [by rewrite app_nil_r|].
  replace (dn ++ w :: ws) with ((dn ++ [w]) ++ ws) by by rewrite <- app_assoc.
  apply IH. by apply counts_step.
Qed.

