(* ===== verification/Json.v ===== *)
(** * Values of [json.loads]

    What the components that read JSON (Semantic.v, Embedding.v) share: the
    values, their truth and type, and lookups. *)

From S2P Require Import Prelude Text Floats.

Inductive json : Type :=
  | JNull
  | JBool (b : bool)
  | JInt (z : Z)
  | JFloat (f : spec_float)
  | JString (t : text)
  | JList (l : list json)
  | JDict (d : list (text * json)).

(** [bool(value)] *)
Definition truthy (j : json) : bool :=
  match j with
  | JNull => false
  | JBool b => b
  | JInt z => negb (z =? 0)
  | JFloat f => negb (SFeqb f zero)
  | JString t => (0 <? length t)%nat
  | JList l => (0 <? length l)%nat
  | JDict d => (0 <? length d)%nat
  end.

(** [type(value)], as text. *)
Definition type_str (j : json) : string :=
  match j with
  | JNull => "<class 'NoneType'>" | JBool _ => "<class 'bool'>" | JInt _ => "<class 'int'>"
  | JFloat _ => "<class 'float'>" | JString _ => "<class 'str'>" | JList _ => "<class 'list'>"
  | JDict _ => "<class 'dict'>"
  end.

(** [d.get(key, default)] and [key in d]. *)
Fixpoint dict_get (d : list (text * json)) (key : string) (default : json) : json :=
  match d with
  | [] => default
  | (k, v) :: d => if bool_decide (k = of_string key) then v else dict_get d key default
  end.

Definition dict_has (d : list (text * json)) (key : string) : bool :=
  existsb (fun kv => bool_decide (kv.1 = of_string key)) d.

(** [value >= n], for an integer [n]. *)
Definition at_least (j : json) (n : Z) : res bool :=
  match j with
  | JBool b => Ok (n <=? (if b then 1 else 0))
  | JInt z => Ok (n <=? z)
  | JFloat f => Ok (SFleb (float_of_Z n) f)
  | _ => Raise (OtherException "TypeError" "'>=' not supported between these instances")
  end.
