(* ===== verification/Calls.v ===== *)
(** * Calls of a remote store

    What the adapters of databases and services share: a call is answered by a
    store that others use as well; it completes, perhaps with an error of its
    own, or fails, before or after it took effect. *)

From S2P Require Import Prelude.

Inductive call_outcome : Type :=
  | Completes
  | Fails (e : exn) (applied : bool).

(** Around a call: what others did since the last one, and how it ends. *)
Record call_env (St : Type) : Type := CallEnv {
  others : St -> St;
  ends : call_outcome;
}.
Arguments CallEnv {St} _ _.
Arguments others {St} _.
Arguments ends {St} _.

Record calls (St : Type) : Type := Calls {
  store : St;
  env : nat -> call_env St;
  made : nat;
}.
Arguments Calls {St} _ _ _.
Arguments store {St} _.
Arguments env {St} _.
Arguments made {St} _.

Section calls.
Context {St : Type}.
Implicit Types (w : calls St) (I : St -> Prop).

(** The store [w]'s next call finds, and the world after the call. *)
Definition found w : St := others (env w (made w)) (store w).
Definition after w (s : St) : calls St := Calls s (env w) (S (made w)).

Definition call {A} (f : St -> res A * St) : M (calls St) A := fun w =>
  match ends (env w (made w)) with
  | Completes => ((f (found w)).1, after w (f (found w)).2)
  | Fails x applied => (Raise x, after w (if applied then (f (found w)).2 else found w))
  end.

Lemma wp_store_call {A} (f : St -> res A * St) Q w :
  (ends (env w (made w)) = Completes -> Q (f (found w)).1 (after w (f (found w)).2)) ->
  (forall x applied, ends (env w (made w)) = Fails x applied ->
     Q (Raise x) (after w (if applied then (f (found w)).2 else found w))) ->
  wp (call f) Q w.
Proof.
  intros H1 H2. unfold wp, call. destruct (ends _) as [|x applied] eqn:E; simpl; [by apply H1|].
  by apply (H2 x applied).
Qed.

(** A property of the store that holds and that the others keep. *)
Definition keeps I w : Prop := I (store w) /\ forall k s, I s -> I (others (env w k) s).

Lemma keeps_found I w : keeps I w -> I (found w).
Proof. intros [? Ho]. by apply Ho. Qed.

Lemma keeps_after I w s : keeps I w -> I s -> keeps I (after w s).
Proof. by intros [_ Ho]. Qed.

Lemma store_call_keeps {A} I (f : St -> res A * St) Q w :
  keeps I w -> (forall s, I s -> I (f s).2) ->
  (forall r w', keeps I w' -> env w' = env w -> Q r w') -> wp (call f) Q w.
Proof.
  intros Hw Hf HQ. pose proof (keeps_found I w Hw) as Hs.
  apply wp_store_call; intros; apply HQ; try done; apply keeps_after; auto.
  destruct applied; auto.
Qed.

(** Nobody else, and no failures. *)
Definition quiet w : Prop :=
  forall k, ends (env w k) = Completes /\ forall s, others (env w k) s = s.

Lemma quiet_store_call {A} (f : St -> res A * St) Q w :
  quiet w -> Q (f (store w)).1 (after w (f (store w)).2) -> wp (call f) Q w.
Proof.
  intros Hq HQ. destruct (Hq (made w)) as [He Ho]. unfold wp, call, found. by rewrite He, Ho.
Qed.

Lemma quiet_after w s : quiet w -> quiet (after w s).
Proof. done. Qed.
End calls.

Create HintDb calls.
#[export] Hint Resolve keeps_after quiet_after : calls.
