(* ===== verification/Breaker.v ===== *)
(** * Circuit breakers

    [Spec] is the abstract three-state machine both breakers of the code
    promise, and [BreakerLike] the interface an implementation discharges.
    [CircuitBreaker] models the class of that name in
    src/src/omnimemory/adapters/adapter_concurrency.py (used by the lifecycle
    handlers), [AsyncCircuitBreaker] the one of adapter_resource_manager.py,
    whose recovery timeout carries a random jitter. *)

From S2P Require Import Prelude.

(** ** The abstract machine *)
Module Spec.
(** [Closed n]: [n] consecutive failures seen. [Opened t]: rejecting since
    the failure at [t]. [HalfOpen n]: probing, [n] successes seen. *)
Inductive circuit : Type :=
  | Closed (failures : Z)
  | Opened (since : micros)
  | HalfOpen (successes : Z).

Record policy : Type := Policy {
  trip_after : Z;
  close_after : Z;
}.

Inductive event : Type :=
  | Admit (now draw : micros)  (** a request asks to pass *)
  | Success (now : micros)     (** a request that passed succeeded *)
  | Failure (now : micros)     (** a request that passed failed *)
  | Timeout (now : micros).    (** a request that passed timed out *)

Definition failure (p : policy) (now : micros) (c : circuit) : circuit :=
  match c with
  | Closed n => if trip_after p <=? n + 1 then Opened now else Closed (n + 1)
  | Opened _ | HalfOpen _ => Opened now
  end.

Definition success (p : policy) (c : circuit) : circuit :=
  match c with
  | Closed _ => Closed 0
  | Opened t => Opened t
  | HalfOpen n => if close_after p <=? n + 1 then Closed 0 else HalfOpen (n + 1)
  end.

(** [wait draw] is the time the circuit stays open. *)
Definition let_pass (wait now : micros) (c : circuit) : bool * circuit :=
  match c with
  | Opened t => if wait <=? now - t then (true, HalfOpen 0) else (false, c)
  | _ => (true, c)
  end.

(** The answer a request gets; other events have none. *)
Definition output (wait : micros -> micros) (c : circuit) (e : event) : option bool :=
  match e with
  | Admit now d => Some (let_pass (wait d) now c).1
  | _ => None
  end.

Definition step (p : policy) (wait : micros -> micros) (c : circuit) (e : event) : circuit :=
  match e with
  | Admit now d => (let_pass (wait d) now c).2
  | Success _ => success p c
  | Failure now | Timeout now => failure p now c
  end.

(** *** Facts of the abstract machine, used for both implementations. *)
Section facts.
Context (p : policy) (wait : micros -> micros).

(** An event that cannot end an outage that began at [t]: every request
    comes before [t + wait], and every late failure after [t]. *)
Definition during (t : micros) (e : event) : Prop :=
  match e with
  | Admit now d => now < t + wait d
  | Success _ => True
  | Failure now | Timeout now => t <= now
  end.

Lemma open_stays t t0 es :
  t <= t0 -> Forall (during t) es ->
  exists t', t <= t' /\ run (step p wait) (Opened t0) es = Opened t'.
Proof.
  intros Ht Hes. revert t0 Ht.
  induction Hes as [|e es He _ IH]; intros t0 Ht; [by exists t0|].
  destruct e as [now d|now|now|now]; simpl in *; [|by apply IH..].
  rewrite Zleb_F by lia. by apply IH.
Qed.

Lemma open_rejects t es now d :
  Forall (during t) es -> now < t + wait d ->
  output wait (run (step p wait) (Opened t) es) (Admit now d) = Some false.
Proof.
  intros Hes Hnow. destruct (open_stays t t es) as (t' & Ht' & ->); [lia|done|].
  simpl. by rewrite Zleb_F by lia.
Qed.

(** From a fresh closed circuit, [k] failures in a row. *)
Lemma failures_trip nows n :
  0 <= n -> n < trip_after p ->
  run (step p wait) (Closed n) (Failure <$> nows) =
    match last nows with
    | Some t => if trip_after p <=? n + Z.of_nat (length nows)
                then Opened t else Closed (n + Z.of_nat (length nows))
    | None => Closed n
    end.
Proof.
  revert n. induction nows as [|t nows IH]; intros n Hn Hlt; [done|].
  cbn [fmap list_fmap run fold_left step failure length].
  destruct (Z.leb_spec (trip_after p) (n + 1)) as [Hle|Hgt].
  - assert (Hopen : forall l u, fold_left (step p wait) (Failure <$> l) (Opened u) =
              Opened (default u (last l))).
    { induction l as [|v l IHl]; intros u; [done|].
      cbn [fmap list_fmap fold_left step failure]. rewrite IHl.
      rewrite last_cons. by destruct (last l). }
    rewrite Hopen, last_cons.
    rewrite Zleb_T by lia. by destruct (last nows).
  - fold (run (step p wait) (Closed (n + 1)) (Failure <$> nows)).
    rewrite IH, last_cons by lia.
    replace (n + Z.of_nat (S (length nows))) with (n + 1 + Z.of_nat (length nows)) by lia.
    destruct (last nows) eqn:E; [done|].
    apply last_None in E as ->. simpl.
    replace (n + 1 + Z.of_nat 0) with (n + 1) by lia.
    by rewrite Zleb_F by lia.
Qed.

(** From a half-open circuit, [k] successes in a row. *)
Lemma successes_close nows n :
  0 <= n -> n < close_after p ->
  run (step p wait) (HalfOpen n) (Success <$> nows) =
    if close_after p <=? n + Z.of_nat (length nows)
    then Closed 0 else HalfOpen (n + Z.of_nat (length nows)).
Proof.
  revert n. induction nows as [|t nows IH]; intros n Hn Hlt.
  - simpl. replace (n + Z.of_nat 0) with n by lia.
    by rewrite Zleb_F by lia.
  - cbn [fmap list_fmap run fold_left step success length].
    destruct (Z.leb_spec (close_after p) (n + 1)) as [Hle|Hgt].
    + rewrite Zleb_T by lia. clear. by induction nows.
    + fold (run (step p wait) (HalfOpen (n + 1)) (Success <$> nows)).
      rewrite IH by lia.
      by replace (n + Z.of_nat (S (length nows))) with (n + 1 + Z.of_nat (length nows)) by lia.
Qed.
End facts.
End Spec.

(** ** The interface a breaker discharges *)
Class BreakerLike (B : Type) : Type := {
  bl_policy : B -> Spec.policy;
  bl_wait : B -> micros -> micros;
  bl_abs : B -> Spec.circuit;
  bl_inv : B -> Prop;
  bl_step : B -> Spec.event -> B;
  bl_output : B -> Spec.event -> option bool;
  bl_inv_step b e : bl_inv b -> bl_inv (bl_step b e);
  bl_config_step b e :
    bl_policy (bl_step b e) = bl_policy b /\ bl_wait (bl_step b e) = bl_wait b;
  bl_abs_step b e : bl_inv b ->
    bl_abs (bl_step b e) = Spec.step (bl_policy b) (bl_wait b) (bl_abs b) e;
  bl_abs_output b e : bl_inv b ->
    bl_output b e = Spec.output (bl_wait b) (bl_abs b) e;
}.

Section clients.
Context {B : Type} `{HB : !BreakerLike B}.
Implicit Types b : B.

Lemma bl_config_run b es :
  bl_policy (run bl_step b es) = bl_policy b /\ bl_wait (run bl_step b es) = bl_wait b.
Proof.
  revert b. induction es as [|e es IH]; intros b; [done|].
  simpl. destruct (IH (bl_step b e)) as [-> ->]. apply bl_config_step.
Qed.

Lemma bl_inv_run b es : bl_inv b -> bl_inv (run bl_step b es).
Proof.
  intros Hb. eapply (run_invariant _ _ (fun _ => True)); [|done|by apply Forall_true].
  intros s e Hs _. by apply bl_inv_step.
Qed.

Lemma bl_abs_run b es :
  bl_inv b ->
  bl_abs (run bl_step b es) = run (Spec.step (bl_policy b) (bl_wait b)) (bl_abs b) es.
Proof.
  revert b. induction es as [|e es IH]; intros b Hb; [done|].
  simpl. rewrite IH by by apply bl_inv_step.
  destruct (bl_config_step b e) as [-> ->]. by rewrite bl_abs_step.
Qed.

(** The implementation and the abstract machine answer alike, after any
    history. *)
Lemma bl_refines b es e :
  bl_inv b ->
  bl_output (run bl_step b es) e =
    Spec.output (bl_wait b) (run (Spec.step (bl_policy b) (bl_wait b)) (bl_abs b) es) e.
Proof.
  intros Hb. rewrite bl_abs_output by by apply bl_inv_run.
  rewrite bl_abs_run by done. by destruct (bl_config_run b es) as [_ ->].
Qed.

Lemma bl_open_rejects b t es now d :
  bl_inv b -> bl_abs b = Spec.Opened t ->
  Forall (Spec.during (bl_wait b) t) es -> now < t + bl_wait b d ->
  bl_output (run bl_step b es) (Spec.Admit now d) = Some false.
Proof.
  intros Hb Habs Hes Hnow. rewrite bl_refines by done. rewrite Habs.
  by apply Spec.open_rejects.
Qed.
End clients.

(** ** [CircuitBreaker] (adapter_concurrency.py) *)
Inductive CircuitBreakerState : Type := CLOSED | OPEN | HALF_OPEN.

#[export] Instance CircuitBreakerState_eq_dec : EqDecision CircuitBreakerState.
Proof. solve_decision. Defined.

Definition CircuitBreakerState_value (s : CircuitBreakerState) : string :=
  match s with CLOSED => "closed" | OPEN => "open" | HALF_OPEN => "half_open" end.

Module CB.
Record config : Type := Config {
  failure_threshold : Z;
  recovery_timeout : micros;
  success_threshold : Z;
}.

(** The attributes that change; the constructor's arguments are in [cfg]. *)
Record t : Type := Mk {
  cfg : config;
  state : CircuitBreakerState;
  failure_count : Z;
  success_count : Z;
  total_calls : Z;
  total_timeouts : Z;
  last_failure_time : option micros;
  state_changed_at : micros;
}.

(** [__init__]. *)
Definition init (c : config) (now : micros) : t :=
  Mk c CLOSED 0 0 0 0 None now.

Definition _transition_to_open (now : micros) (b : t) : t :=
  Mk (cfg b) OPEN (failure_count b) (success_count b) (total_calls b)
    (total_timeouts b) (last_failure_time b) now.

Definition _transition_to_closed (now : micros) (b : t) : t :=
  Mk (cfg b) CLOSED 0 0 (total_calls b)
    (total_timeouts b) (last_failure_time b) now.

Definition _transition_to_half_open (now : micros) (b : t) : t :=
  Mk (cfg b) HALF_OPEN (failure_count b) 0 (total_calls b)
    (total_timeouts b) (last_failure_time b) now.

Definition record_success (now : micros) (b : t) : t :=
  let b := Mk (cfg b) (state b) (failure_count b) (success_count b + 1)
             (total_calls b + 1) (total_timeouts b) (last_failure_time b)
             (state_changed_at b) in
  match state b with
  | HALF_OPEN =>
      if success_threshold (cfg b) <=? success_count b
      then _transition_to_closed now b else b
  | CLOSED =>
      Mk (cfg b) (state b) 0 (success_count b) (total_calls b)
        (total_timeouts b) (last_failure_time b) (state_changed_at b)
  | OPEN => b
  end.

(** The part [record_failure] and [record_timeout] have in common: the
    counters are bumped and the state machine advances. *)
Definition count_failure (timeouts : Z) (now : micros) (b : t) : t :=
  let b := Mk (cfg b) (state b) (failure_count b + 1) (success_count b)
             (total_calls b + 1) (total_timeouts b + timeouts) (Some now)
             (state_changed_at b) in
  match state b with
  | CLOSED =>
      if failure_threshold (cfg b) <=? failure_count b
      then _transition_to_open now b else b
  | HALF_OPEN => _transition_to_open now b
  | OPEN => b
  end.

Definition record_failure (now : micros) (b : t) : t := count_failure 0 now b.
Definition record_timeout (now : micros) (b : t) : t := count_failure 1 now b.

Definition should_allow_request (now : micros) (b : t) : bool * t :=
  match state b with
  | OPEN =>
      match last_failure_time b with
      | Some lf =>
          if recovery_timeout (cfg b) <=? now - lf
          then (true, _transition_to_half_open now b)
          else (false, b)
      | None => (false, b)
      end
  | CLOSED | HALF_OPEN => (true, b)
  end.

(** [call]: [func] may let other users of the same breaker run while it is
    awaited, so it is a computation on the breaker; [t0] and [t1] are the
    clock before and after it. A cancellation is not counted. *)
Definition call {A} (t0 t1 : micros) (func : M t A) : M t A := fun b =>
  let (allowed, b) := should_allow_request t0 b in
  if negb allowed then
    (Raise (CircuitBreakerOpenError
              ("Circuit breaker is " +:+ CircuitBreakerState_value (state b))), b)
  else
    match func b with
    | (Ok result, b) => (Ok result, record_success t1 b)
    | (Raise (TimeoutError m), b) => (Raise (TimeoutError m), record_timeout t1 b)
    | (Raise e, b) => (Raise e, if is_Exception e then record_failure t1 b else b)
    end.

(** *** The breaker as an event machine *)
Definition step (b : t) (e : Spec.event) : t :=
  match e with
  | Spec.Admit now _ => (should_allow_request now b).2
  | Spec.Success now => record_success now b
  | Spec.Failure now => record_failure now b
  | Spec.Timeout now => record_timeout now b
  end.

Definition output (b : t) (e : Spec.event) : option bool :=
  match e with
  | Spec.Admit now _ => Some (should_allow_request now b).1
  | _ => None
  end.

Definition abs (b : t) : Spec.circuit :=
  match state b with
  | CLOSED => Spec.Closed (failure_count b)
  | OPEN => Spec.Opened (default 0 (last_failure_time b))
  | HALF_OPEN => Spec.HalfOpen (success_count b)
  end.

Definition policy_of (b : t) : Spec.policy :=
  Spec.Policy (failure_threshold (cfg b)) (success_threshold (cfg b)).

Record inv (b : t) : Prop := {
  inv_thresholds : 1 <= failure_threshold (cfg b) /\ 1 <= success_threshold (cfg b);
  inv_counts : 0 <= failure_count b /\ 0 <= success_count b;
  inv_totals : 0 <= total_timeouts b <= total_calls b;
  inv_closed : state b = CLOSED -> failure_count b < failure_threshold (cfg b);
  inv_open : state b <> CLOSED -> is_Some (last_failure_time b);
  inv_half_open : state b = HALF_OPEN -> success_count b < success_threshold (cfg b);
}.

Lemma cb_init_inv c now :
  1 <= failure_threshold c -> 1 <= success_threshold c -> inv (init c now).
Proof. intros. constructor; simpl; (done || lia). Qed.

Ltac crush :=
  unfold step, output, abs, record_success, record_failure, record_timeout,
    count_failure, should_allow_request, _transition_to_open,
    _transition_to_closed, _transition_to_half_open in *; simpl in *.

Lemma cb_step_inv b e : inv b -> inv (step b e).
Proof.
  intros [Hth Hc Ht Hcl Hop Hho]. destruct b as [c st fc sc tc tt lf sa], e; crush;
    destruct st; split_cases; breflect;
    constructor; simpl; intros; (done || eauto || lia).
Qed.

Lemma cb_step_config b e : cfg (step b e) = cfg b.
Proof. destruct b as [c st fc sc tc tt lf sa], e; crush; split_cases; done. Qed.

Lemma cb_step_abs b e :
  inv b ->
  abs (step b e) =
    Spec.step (policy_of b) (fun _ => recovery_timeout (cfg b)) (abs b) e.
Proof.
  intros [Hth Hc Ht Hcl Hop Hho]. destruct b as [c st fc sc tc tt lf sa], e; crush;
    destruct st; simpl;
    try (destruct (Hop ltac:(done)) as [? ->]); simpl; split_cases; done.
Qed.

Lemma cb_output_abs b e :
  inv b -> output b e = Spec.output (fun _ => recovery_timeout (cfg b)) (abs b) e.
Proof.
  intros [Hth Hc Ht Hcl Hop Hho]. destruct b as [c st fc sc tc tt lf sa], e; crush;
    destruct st; simpl;
    try (destruct (Hop ltac:(done)) as [? ->]); simpl; split_cases; done.
Qed.

#[global] Instance like : BreakerLike t := {|
  bl_policy := policy_of;
  bl_wait b := fun _ => recovery_timeout (cfg b);
  bl_abs := abs;
  bl_inv := inv;
  bl_step := step;
  bl_output := output;
  bl_inv_step := cb_step_inv;
  bl_config_step b e := ltac:(unfold policy_of; by rewrite cb_step_config);
  bl_abs_step := cb_step_abs;
  bl_abs_output := cb_output_abs;
|}.
(** What the clients of the interface proved, at this implementation. *)
Lemma cb_inv_run b es : inv b -> inv (run step b es).
Proof. exact (bl_inv_run (HB:=like) b es). Qed.

Lemma cb_cfg_run b es : cfg (run step b es) = cfg b.
Proof.
  revert b. induction es as [|e es IH]; intros b; [done|].
  simpl. by rewrite IH, cb_step_config.
Qed.

Lemma cb_abs_run b es :
  inv b -> abs (run step b es) = run (Spec.step (policy_of b) (fun _ => recovery_timeout (cfg b))) (abs b) es.
Proof. exact (bl_abs_run (HB:=like) b es). Qed.

Lemma cb_refines b es e :
  inv b ->
  output (run step b es) e =
    Spec.output (fun _ => recovery_timeout (cfg b)) (run (Spec.step (policy_of b) (fun _ => recovery_timeout (cfg b))) (abs b) es) e.
Proof. exact (bl_refines (HB:=like) b es e). Qed.

Lemma cb_open_rejects b t es now d :
  inv b -> abs b = Spec.Opened t ->
  Forall (Spec.during (fun _ => recovery_timeout (cfg b)) t) es -> now < t + (fun _ => recovery_timeout (cfg b)) d ->
  output (run step b es) (Spec.Admit now d) = Some false.
Proof. exact (bl_open_rejects (HB:=like) b t es now d). Qed.
End CB.

(** ** [AsyncCircuitBreaker] (adapter_resource_manager.py) *)
Module ACB.
(** [ModelCircuitBreakerConfig]; the jitter ratio in parts per million. *)
Record config : Type := Config {
  failure_threshold : Z;
  recovery_timeout : micros;
  recovery_timeout_jitter : Z;
  success_threshold : Z;
}.

(** [AsyncCircuitBreaker] with its [CircuitBreakerStats]. *)
Record t : Type := Mk {
  name : string;
  cfg : config;
  state : CircuitBreakerState;
  failure_count : Z;
  success_count : Z;
  last_failure_time : option micros;
  state_changed_at : micros;
  total_calls : Z;
  total_timeouts : Z;
}.

Definition init (n : string) (c : config) (now : micros) : t :=
  Mk n c CLOSED 0 0 None now 0 0.

Definition _transition_to_half_open (now : micros) (b : t) : t :=
  Mk (name b) (cfg b) HALF_OPEN (failure_count b) 0 (last_failure_time b)
    now (total_calls b) (total_timeouts b).

Definition _transition_to_closed (now : micros) (b : t) : t :=
  Mk (name b) (cfg b) CLOSED 0 (success_count b) (last_failure_time b)
    now (total_calls b) (total_timeouts b).

Definition _transition_to_open (now : micros) (b : t) : t :=
  Mk (name b) (cfg b) OPEN (failure_count b) (success_count b)
    (last_failure_time b) now (total_calls b) (total_timeouts b).

(** [jitter_range] and the timeout for a value [jitter] that
    [random.uniform(-jitter_range, jitter_range)] returned. *)
Definition jitter_range (b : t) : Z :=
  recovery_timeout (cfg b) * recovery_timeout_jitter (cfg b) / 1000000.

Definition effective_timeout (b : t) (jitter : micros) : micros :=
  recovery_timeout (cfg b) + jitter.

Definition _should_attempt_reset (now jitter : micros) (b : t) : bool :=
  match last_failure_time b with
  | None => true
  | Some lf => effective_timeout b jitter <=? now - lf
  end.

Definition _on_success (now : micros) (b : t) : t :=
  let b := Mk (name b) (cfg b) (state b) (failure_count b) (success_count b)
             (last_failure_time b) (state_changed_at b) (total_calls b + 1)
             (total_timeouts b) in
  match state b with
  | HALF_OPEN =>
      let b := Mk (name b) (cfg b) (state b) (failure_count b)
                 (success_count b + 1) (last_failure_time b)
                 (state_changed_at b) (total_calls b) (total_timeouts b) in
      if success_threshold (cfg b) <=? success_count b
      then _transition_to_closed now b else b
  | CLOSED =>
      Mk (name b) (cfg b) (state b) 0 (success_count b) (last_failure_time b)
        (state_changed_at b) (total_calls b) (total_timeouts b)
  | OPEN => b
  end.

Definition _on_failure (now : micros) (b : t) : t :=
  let b := Mk (name b) (cfg b) (state b) (failure_count b + 1) (success_count b)
             (Some now) (state_changed_at b) (total_calls b + 1)
             (total_timeouts b) in
  if (bool_decide (state b = CLOSED)
      && (failure_threshold (cfg b) <=? failure_count b))
     || bool_decide (state b = HALF_OPEN)
  then _transition_to_open now b else b.

Definition count_timeout (b : t) : t :=
  Mk (name b) (cfg b) (state b) (failure_count b) (success_count b)
    (last_failure_time b) (state_changed_at b) (total_calls b)
    (total_timeouts b + 1).

(** The first critical section of [call]: pass, or refuse. *)
Definition try_enter (now jitter : micros) (b : t) : bool * t :=
  match state b with
  | OPEN =>
      if _should_attempt_reset now jitter b
      then (true, _transition_to_half_open now b)
      else (false, b)
  | CLOSED | HALF_OPEN => (true, b)
  end.

(** [call]; [func] is [asyncio.wait_for(func(...), timeout)], during which
    other callers of the breaker run. *)
Definition call {A} (t0 jitter t1 : micros) (func : M t A) : M t A := fun b =>
  let (entered, b) := try_enter t0 jitter b in
  if negb entered then
    (Raise (OtherException "CircuitBreakerError"
              ("Circuit breaker for " +:+ name b +:+ " is " +:+
               CircuitBreakerState_value (state b))), b)
  else
    match func b with
    | (Ok result, b) => (Ok result, _on_success t1 b)
    | (Raise (TimeoutError m), b) =>
        (Raise (TimeoutError m), _on_failure t1 (count_timeout b))
    | (Raise e, b) => (Raise e, if is_Exception e then _on_failure t1 b else b)
    end.

Definition step (b : t) (e : Spec.event) : t :=
  match e with
  | Spec.Admit now jitter => (try_enter now jitter b).2
  | Spec.Success now => _on_success now b
  | Spec.Failure now => _on_failure now b
  | Spec.Timeout now => _on_failure now (count_timeout b)
  end.

Definition output (b : t) (e : Spec.event) : option bool :=
  match e with
  | Spec.Admit now jitter => Some (try_enter now jitter b).1
  | _ => None
  end.

Definition abs (b : t) : Spec.circuit :=
  match state b with
  | CLOSED => Spec.Closed (failure_count b)
  | OPEN => Spec.Opened (default 0 (last_failure_time b))
  | HALF_OPEN => Spec.HalfOpen (success_count b)
  end.

Definition policy_of (b : t) : Spec.policy :=
  Spec.Policy (failure_threshold (cfg b)) (success_threshold (cfg b)).

Record inv (b : t) : Prop := {
  inv_thresholds : 1 <= failure_threshold (cfg b) /\ 1 <= success_threshold (cfg b);
  inv_counts : 0 <= failure_count b /\ 0 <= success_count b;
  inv_totals : 0 <= total_timeouts b <= total_calls b;
  inv_closed : state b = CLOSED -> failure_count b < failure_threshold (cfg b);
  inv_open : state b <> CLOSED -> is_Some (last_failure_time b);
  inv_half_open : state b = HALF_OPEN -> success_count b < success_threshold (cfg b);
}.

Lemma acb_init_inv n c now :
  1 <= failure_threshold c -> 1 <= success_threshold c -> inv (init n c now).
Proof. intros. constructor; simpl; (done || lia). Qed.

Ltac crush :=
  unfold step, output, abs, _on_success, _on_failure, count_timeout, try_enter,
    _should_attempt_reset, effective_timeout, _transition_to_open,
    _transition_to_closed, _transition_to_half_open in *; simpl in *.

Lemma acb_step_inv b e : inv b -> inv (step b e).
Proof.
  intros [Hth Hc Ht Hcl Hop Hho].
  destruct b as [n c st fc sc lf sa tc tt], e; crush;
    destruct st; split_cases; breflect;
    constructor; simpl; intros; (done || eauto || lia).
Qed.

Lemma acb_step_config b e : cfg (step b e) = cfg b.
Proof. destruct b as [n c st fc sc lf sa tc tt], e; crush; split_cases; done. Qed.

Lemma acb_step_abs b e :
  inv b ->
  abs (step b e) =
    Spec.step (policy_of b) (fun d => recovery_timeout (cfg b) + d) (abs b) e.
Proof.
  intros [Hth Hc Ht Hcl Hop Hho].
  destruct b as [n c st fc sc lf sa tc tt], e; crush;
    destruct st; simpl;
    try (destruct (Hop ltac:(done)) as [? ->]); simpl; split_cases; done.
Qed.

Lemma acb_output_abs b e :
  inv b -> output b e = Spec.output (fun d => recovery_timeout (cfg b) + d) (abs b) e.
Proof.
  intros [Hth Hc Ht Hcl Hop Hho].
  destruct b as [n c st fc sc lf sa tc tt], e; crush;
    destruct st; simpl;
    try (destruct (Hop ltac:(done)) as [? ->]); simpl; split_cases; done.
Qed.

#[global] Instance like : BreakerLike t := {|
  bl_policy := policy_of;
  bl_wait b := fun d => recovery_timeout (cfg b) + d;
  bl_abs := abs;
  bl_inv := inv;
  bl_step := step;
  bl_output := output;
  bl_inv_step := acb_step_inv;
  bl_config_step b e := ltac:(unfold policy_of; by rewrite acb_step_config);
  bl_abs_step := acb_step_abs;
  bl_abs_output := acb_output_abs;
|}.
(** What the clients of the interface proved, at this implementation. *)
Lemma acb_inv_run b es : inv b -> inv (run step b es).
Proof. exact (bl_inv_run (HB:=like) b es). Qed.

Lemma acb_cfg_run b es : cfg (run step b es) = cfg b.
Proof.
  revert b. induction es as [|e es IH]; intros b; [done|].
  simpl. by rewrite IH, acb_step_config.
Qed.

Lemma acb_abs_run b es :
  inv b -> abs (run step b es) = run (Spec.step (policy_of b) (fun d => recovery_timeout (cfg b) + d)) (abs b) es.
Proof. exact (bl_abs_run (HB:=like) b es). Qed.

Lemma acb_refines b es e :
  inv b ->
  output (run step b es) e =
    Spec.output (fun d => recovery_timeout (cfg b) + d) (run (Spec.step (policy_of b) (fun d => recovery_timeout (cfg b) + d)) (abs b) es) e.
Proof. exact (bl_refines (HB:=like) b es e). Qed.

Lemma acb_open_rejects b t es now d :
  inv b -> abs b = Spec.Opened t ->
  Forall (Spec.during (fun d => recovery_timeout (cfg b) + d) t) es -> now < t + (fun d => recovery_timeout (cfg b) + d) d ->
  output (run step b es) (Spec.Admit now d) = Some false.
Proof. exact (bl_open_rejects (HB:=like) b t es now d). Qed.
End ACB.

(** ** Properties of the two breakers *)

(** C6: after any history of requests and outcomes, a
    [CircuitBreaker] is in the state the abstract machine is in and gives the
    next request the answer the abstract machine gives. *)
Theorem circuit_breaker_refines_spec (c : CB.config) (t0 : micros)
    (es : list Spec.event) (e : Spec.event) :
  1 <= CB.failure_threshold c -> 1 <= CB.success_threshold c ->
  let p := Spec.Policy (CB.failure_threshold c) (CB.success_threshold c) in
  let wait := fun _ => CB.recovery_timeout c in
  let b := run CB.step (CB.init c t0) es in
  let a := run (Spec.step p wait) (Spec.Closed 0) es in
  CB.abs b = a /\ CB.output b e = Spec.output wait a e.
Proof.
  intros Hf Hs p wait b a.
  pose proof (CB.cb_init_inv c t0 Hf Hs) as Hinv.
  split; [exact (CB.cb_abs_run _ es Hinv)|exact (CB.cb_refines _ es e Hinv)].
Qed.

Definition demo_config : CB.config := CB.Config 2 (seconds 60) 2.

Lemma circuit_breaker_refines_spec_witness :
  let b := run CB.step (CB.init demo_config 0)
             [Spec.Failure 1; Spec.Timeout 2; Spec.Admit (seconds 61) 0] in
  CB.abs b = Spec.HalfOpen 0.
Proof.
  destruct (circuit_breaker_refines_spec demo_config 0
    [Spec.Failure 1; Spec.Timeout 2; Spec.Admit (seconds 61) 0] (Spec.Success 5)) as [H _];
    [vm_compute; discriminate..|].
  exact H.
Defined.

(** The same for [AsyncCircuitBreaker], whose wait is the recovery
    timeout plus the jitter drawn for the request. *)
Theorem async_circuit_breaker_refines_spec (n : string) (c : ACB.config) (t0 : micros)
    (es : list Spec.event) (e : Spec.event) :
  1 <= ACB.failure_threshold c -> 1 <= ACB.success_threshold c ->
  let p := Spec.Policy (ACB.failure_threshold c) (ACB.success_threshold c) in
  let wait := fun jitter => ACB.recovery_timeout c + jitter in
  let b := run ACB.step (ACB.init n c t0) es in
  let a := run (Spec.step p wait) (Spec.Closed 0) es in
  ACB.abs b = a /\ ACB.output b e = Spec.output wait a e.
Proof.
  intros Hf Hs p wait b a.
  pose proof (ACB.acb_init_inv n c t0 Hf Hs) as Hinv.
  split; [exact (ACB.acb_abs_run _ es Hinv)|exact (ACB.acb_refines _ es e Hinv)].
Qed.

Definition demo_async_config : ACB.config := ACB.Config 1 (seconds 60) 100000 1.

Lemma async_circuit_breaker_refines_spec_witness :
  let b := run ACB.step (ACB.init "db" demo_async_config 0)
             [Spec.Failure 1; Spec.Admit (seconds 70) (seconds 6); Spec.Success (seconds 71)] in
  ACB.abs b = Spec.Closed 0.
Proof.
  destruct (async_circuit_breaker_refines_spec "db" demo_async_config 0
    [Spec.Failure 1; Spec.Admit (seconds 70) (seconds 6); Spec.Success (seconds 71)]
    (Spec.Success 5)) as [H _]; [vm_compute; discriminate..|].
  exact H.
Defined.

(** A breaker that is open because of a failure at [t] refuses
    every request until [t + recovery_timeout] and is left unchanged by the
    refusal, whatever requests, late successes and late failures happen in
    between. *)
Theorem circuit_breaker_fails_fast (b : CB.t) (t : micros) (es : list Spec.event)
    (now : micros) :
  CB.inv b -> CB.state b = OPEN -> CB.last_failure_time b = Some t ->
  Forall (Spec.during (fun _ => CB.recovery_timeout (CB.cfg b)) t) es ->
  now < t + CB.recovery_timeout (CB.cfg b) ->
  let b' := run CB.step b es in
  CB.should_allow_request now b' = (false, b').
Proof.
  intros Hinv Hop Hlf Hes Hnow b'.
  assert (Habs : CB.abs b = Spec.Opened t) by (unfold CB.abs; by rewrite Hop, Hlf).
  pose proof (CB.cb_open_rejects b t es now 0 Hinv Habs Hes Hnow) as Hout.
  fold b' in Hout. injection Hout as Hfst.
  unfold CB.should_allow_request in *. by repeat case_match.
Qed.

Lemma circuit_breaker_fails_fast_witness :
  let b := run CB.step (CB.init demo_config 0) [Spec.Failure 1; Spec.Failure 2] in
  let b' := run CB.step b [Spec.Success 10; Spec.Admit 20 0; Spec.Failure 30] in
  CB.should_allow_request (seconds 59) b' = (false, b').
Proof.
  apply (circuit_breaker_fails_fast
    (run CB.step (CB.init demo_config 0) [Spec.Failure 1; Spec.Failure 2]) 2
    [Spec.Success 10; Spec.Admit 20 0; Spec.Failure 30] (seconds 59)).
  - apply CB.cb_inv_run. apply CB.cb_init_inv; vm_compute; discriminate.
  - reflexivity.
  - reflexivity.
  - repeat constructor; vm_compute; try discriminate; reflexivity.
  - vm_compute. reflexivity.
Defined.

(** The whole cycle of a new breaker. [k] failures in a row open it
    exactly when they reach [failure_threshold]; once open since the failure
    at [t], a request at [t + recovery_timeout] or later passes and makes it
    half-open; then [j] successes close it exactly when they reach
    [success_threshold], and one failure opens it again. *)
Theorem circuit_breaker_cycle (c : CB.config) (t0 t now fail_at : micros)
    (before succs : list micros) :
  1 <= CB.failure_threshold c -> 1 <= CB.success_threshold c ->
  t + CB.recovery_timeout c <= now ->
  let failed := run CB.step (CB.init c t0) (Spec.Failure <$> before ++ [t]) in
  let k := Z.of_nat (S (length before)) in
  let probing := (CB.should_allow_request now failed).2 in
  let probed := run CB.step probing (Spec.Success <$> succs) in
  (CB.state failed = OPEN <-> CB.failure_threshold c <= k) /\
  (CB.should_allow_request now failed).1 = true /\
  (CB.failure_threshold c <= k ->
     CB.state probing = HALF_OPEN /\
     (CB.state probed = CLOSED <-> CB.success_threshold c <= Z.of_nat (length succs)) /\
     CB.state (CB.record_failure fail_at probing) = OPEN).
Proof.
  intros Hf Hs Hnow failed k probing probed.
  pose proof (CB.cb_init_inv c t0 Hf Hs) as Hinv.
  set (p := Spec.Policy (CB.failure_threshold c) (CB.success_threshold c)).
  set (wait := fun _ : micros => CB.recovery_timeout c).
  assert (Hfi : CB.inv failed) by by apply CB.cb_inv_run.
  assert (Hcfg : CB.cfg failed = c).
  { subst failed. by rewrite CB.cb_cfg_run. }
  assert (Habs : CB.abs failed =
      if CB.failure_threshold c <=? k then Spec.Opened t else Spec.Closed k).
  { subst failed. rewrite CB.cb_abs_run by done.
    change (run (Spec.step p wait) (Spec.Closed 0) (Spec.Failure <$> before ++ [t]) =
      if CB.failure_threshold c <=? k then Spec.Opened t else Spec.Closed k).
    rewrite (Spec.failures_trip p wait) by (simpl; lia).
    rewrite last_snoc, length_app. simpl length.
    by replace (0 + Z.of_nat (length before + 1)) with k by lia. }
  assert (Hadm := CB.cb_step_abs failed (Spec.Admit now 0) Hfi).
  assert (Hpi : CB.inv probing) by apply (CB.cb_step_inv failed (Spec.Admit now 0) Hfi).
  assert (Hpc : CB.cfg probing = c)
    by (rewrite <- Hcfg; apply (CB.cb_step_config failed (Spec.Admit now 0))).
  change (CB.step failed (Spec.Admit now 0)) with probing in Hadm.
  assert (Hout := CB.cb_output_abs failed (Spec.Admit now 0) Hfi). simpl in Hadm, Hout.
  rewrite Habs, Hcfg in Hadm, Hout.
  destruct (Z.leb_spec (CB.failure_threshold c) k) as [Hle|Hgt]; simpl in Hadm, Hout.
  - rewrite Zleb_T in Hadm, Hout by lia. simpl in Hadm, Hout.
    split_and!; [|congruence|intros _; split_and!].
    + split; [done|intros _]. unfold CB.abs in Habs. by case_match.
    + unfold CB.abs in Hadm. by case_match.
    + assert (Hsucc : CB.abs probed =
        if CB.success_threshold c <=? 0 + Z.of_nat (length succs)
        then Spec.Closed 0 else Spec.HalfOpen (0 + Z.of_nat (length succs))).
      { subst probed. rewrite CB.cb_abs_run by done. unfold CB.policy_of. rewrite Hadm, Hpc.
        by rewrite (Spec.successes_close p wait) by (simpl; lia). }
      rewrite Z.add_0_l in Hsucc. unfold CB.abs in Hsucc.
      destruct (Z.leb_spec (CB.success_threshold c) (Z.of_nat (length succs)));
        case_match; split; intros; (done || lia).
    + pose proof (CB.cb_step_abs probing (Spec.Failure fail_at) Hpi) as Hre.
      simpl in Hre. simpl in Hadm. rewrite Hadm in Hre. simpl in Hre.
      unfold CB.abs in Hre. by case_match.
  - split_and!; [|congruence|lia].
    split; [|lia]. unfold CB.abs in Habs. by case_match.
Qed.

Lemma circuit_breaker_cycle_witness :
  CB.state (run CB.step (CB.init demo_config 0) (Spec.Failure <$> [5] ++ [7])) = OPEN.
Proof.
  destruct (circuit_breaker_cycle demo_config 0 7 (seconds 61) (seconds 62) [5] [])
    as [H _]; [vm_compute; discriminate..|].
  apply H. vm_compute. discriminate.
Defined.

(** With a jitter in the range the code draws from, an
    [AsyncCircuitBreaker] open since [t] never lets a call through before the
    recovery timeout shortened by that range, and always does after the
    recovery timeout extended by it. *)
Lemma async_circuit_breaker_jitter_bounds (b : ACB.t) (t now jitter : micros) :
  ACB.state b = OPEN -> ACB.last_failure_time b = Some t ->
  Z.abs jitter <= ACB.jitter_range b ->
  let base := ACB.recovery_timeout (ACB.cfg b) in
  (now < t + base - ACB.jitter_range b -> ACB.try_enter now jitter b = (false, b)) /\
  (t + base + ACB.jitter_range b <= now ->
     ACB.try_enter now jitter b = (true, ACB._transition_to_half_open now b)).
Proof.
  intros Hst Hlf Hj base. subst base.
  unfold ACB.try_enter, ACB._should_attempt_reset, ACB.effective_timeout.
  rewrite Hst, Hlf. split; intros Hnow.
  - by rewrite Zleb_F by lia.
  - by rewrite Zleb_T by lia.
Qed.

(** [CircuitBreaker.call] on a breaker that refuses the request
    raises [CircuitBreakerOpenError] without running the function; otherwise
    it returns what the function returned or raised, unchanged, and counts
    exactly one call, as a timeout only when the function timed out, and none
    when it was cancelled. *)
Theorem circuit_breaker_call_accounts {A} (t0 t1 : micros) (r : res A) (b : CB.t) :
  let (allowed, b1) := CB.should_allow_request t0 b in
  let '(r', b2) := CB.call t0 t1 (fun b => (r, b)) b in
  if allowed then
    r' = r /\
    CB.total_calls b2 = CB.total_calls b +
      (match r with Raise e => if is_Exception e then 1 else 0 | Ok _ => 1 end) /\
    CB.total_timeouts b2 = CB.total_timeouts b +
      (match r with Raise (TimeoutError _) => 1 | _ => 0 end)
  else
    r' = Raise (CircuitBreakerOpenError "Circuit breaker is open") /\ b2 = b.
Proof.
  unfold CB.call. destruct b as [c st fc sc tc tt lf sa].
  unfold CB.should_allow_request, CB.record_success, CB.record_failure,
    CB.record_timeout, CB.count_failure, CB._transition_to_open,
    CB._transition_to_closed, CB._transition_to_half_open.
  destruct st, r as [a|[]], lf; simpl; split_cases; split_and?; (done || lia).
Qed.
