(* ===== verification/Lifecycle.v ===== *)
(** * The memory lifecycle state machine

    Models src/src/omnimemory/enums/enum_lifecycle_state.py and the
    [ValidatorLifecycleTransition] of
    nodes/node_memory_lifecycle_orchestrator/validators/. *)

From S2P Require Import Prelude.

Inductive EnumLifecycleState : Type := ACTIVE | STALE | EXPIRED | ARCHIVED | DELETED.

#[export] Instance EnumLifecycleState_eq_dec : EqDecision EnumLifecycleState.
Proof. solve_decision. Defined.

(** [.value] *)
Definition value (s : EnumLifecycleState) : string :=
  match s with
  | ACTIVE => "active"
  | STALE => "stale"
  | EXPIRED => "expired"
  | ARCHIVED => "archived"
  | DELETED => "deleted"
  end.

(** [EnumLifecycleState(v)]; [None] where Python raises [ValueError]. *)
Definition of_value (v : string) : option EnumLifecycleState :=
  if decide (v = "active") then Some ACTIVE
  else if decide (v = "stale") then Some STALE
  else if decide (v = "expired") then Some EXPIRED
  else if decide (v = "archived") then Some ARCHIVED
  else if decide (v = "deleted") then Some DELETED
  else None.

Lemma of_value_value s : of_value (value s) = Some s.
Proof. by destruct s. Qed.

#[export] Program Instance EnumLifecycleState_countable : Countable EnumLifecycleState :=
  inj_countable value of_value of_value_value.

Definition VALID_TRANSITIONS (s : EnumLifecycleState) : gset EnumLifecycleState :=
  match s with
  | ACTIVE => {[STALE; EXPIRED; DELETED]}
  | STALE => {[ACTIVE; EXPIRED; DELETED]}
  | EXPIRED => {[ARCHIVED; DELETED]}
  | ARCHIVED => {[ACTIVE; DELETED]}
  | DELETED => ∅
  end.

Record ModelTransitionValidationResult : Type := {
  valid : bool;
  from_state : EnumLifecycleState;
  to_state : EnumLifecycleState;
  reason : option string;
}.

(** [sorted(...)] of strings and the [repr] of a list of strings without
    quotes in them, as the f-string prints it. *)
Definition sorted_strings (l : list string) : list string :=
  merge_sort (fun a b => Is_true (String.leb a b)) l.

Definition repr_strings (l : list string) : string :=
  "[" +:+ String.concat ", " ((fun s => "'" +:+ s +:+ "'") <$> l) +:+ "]".

Module ValidatorLifecycleTransition.
Definition validate (from_state to_state : EnumLifecycleState)
    : ModelTransitionValidationResult :=
  if decide (from_state = to_state) then
    {| valid := false; from_state := from_state; to_state := to_state;
       reason := Some ("Self-transition not permitted: state is already '" +:+
         value from_state +:+ "'. A transition must move to a different state.") |}
  else
    let allowed := VALID_TRANSITIONS from_state in
    if decide (to_state ∈ allowed) then
      {| valid := true; from_state := from_state; to_state := to_state;
         reason := None |}
    else
      let reason :=
        if decide (from_state = DELETED) then
          "Cannot transition from '" +:+ value from_state +:+
          "': DELETED is a terminal state. No further transitions are permitted."
        else
          let allowed_values := sorted_strings (value <$> elements allowed) in
          "Transition '" +:+ value from_state +:+ "' -> '" +:+ value to_state +:+
          "' is not permitted by the lifecycle state machine. " +:+
          "Valid transitions from '" +:+ value from_state +:+ "': " +:+
          repr_strings allowed_values +:+ "." in
      {| valid := false; from_state := from_state; to_state := to_state;
         reason := Some reason |}.

Definition is_valid (from_state to_state : EnumLifecycleState) : bool :=
  valid (validate from_state to_state).

Definition get_valid_transitions (from_state : EnumLifecycleState)
    : gset EnumLifecycleState := VALID_TRANSITIONS from_state.
End ValidatorLifecycleTransition.
Import ValidatorLifecycleTransition.

Example expired_active_reason :
  reason (validate EXPIRED ACTIVE) =
  Some ("Transition 'expired' -> 'active' is not permitted by the lifecycle state machine. "
        +:+ "Valid transitions from 'expired': ['archived', 'deleted'].").
Proof. vm_compute. reflexivity. Qed.

(** ** The validator as a transition relation *)

(** A step the validator accepts. *)
Definition transition (s s' : EnumLifecycleState) : Prop := is_valid s s' = true.

(** A step that does not pass through [mid]. *)
Definition transition_avoiding (mid : EnumLifecycleState) (s s' : EnumLifecycleState) : Prop :=
  transition s s' /\ s' <> mid.

Lemma is_valid_spec s s' : is_valid s s' = true <-> s' ∈ get_valid_transitions s.
Proof. destruct s, s'; vm_compute; split; (done || intros H; by inversion H). Qed.

Lemma deleted_no_transition s : ~ transition DELETED s.
Proof. by destruct s. Qed.

(** The validator accepts exactly the transitions of the table
    [get_valid_transitions] reports, gives a reason exactly when it refuses,
    and echoes the two states; [DELETED] is terminal, every state can still
    reach it, and a memory that expired returns to [ACTIVE] or [STALE] only
    through [ARCHIVED]. *)
Theorem validator_state_machine :
  (forall s s', is_valid s s' = true <-> s' ∈ get_valid_transitions s) /\
  (forall s s', let r := validate s s' in
     from_state r = s /\ to_state r = s' /\ (reason r = None <-> valid r = true)) /\
  (forall s, rtc transition DELETED s -> s = DELETED) /\
  (forall s, rtc transition s DELETED) /\
  (forall s, rtc (transition_avoiding ARCHIVED) EXPIRED s -> s = EXPIRED \/ s = DELETED).
Proof.
  split_and!.
  - apply is_valid_spec.
  - intros s s'. by destruct s, s'.
  - intros s Hr. apply rtc_inv in Hr as [->|(s' & Hs & _)]; [done|].
    by destruct (deleted_no_transition s').
  - intros s. destruct s; (apply rtc_refl || by apply rtc_once).
  - intros s Hr. eapply (rtc_invariant _ (fun s => s = EXPIRED \/ s = DELETED));
      [|done|by left].
    intros s1 s2 [-> | ->] [Ht Hne]; destruct s2; (by auto || done).
Qed.
