(* ===== verification/Memories.v ===== *)
(** * The [memories] table and the world the lifecycle handlers run in

    The SQL statements of the expire and archive handlers as functions on a
    table, and the environment a handler awaits on: between two of its
    statements other sessions change the table, and a statement can fail,
    before or after it took effect. PostgreSQL itself and asyncpg are not
    modelled: [call_env] is what the handlers can observe of them. *)

From S2P Require Import Prelude Breaker Lifecycle.

(** ** Rows and statements *)

(** The columns the statements name. *)
Record mem_row : Type := MemRow {
  content : string;
  content_type : string;
  created_at : micros;
  expired_at : option micros;
  lifecycle_state : EnumLifecycleState;
  lifecycle_revision : Z;
  metadata : option string;
  archived_at : option micros;
  archive_path : option string;
  updated_at : micros;
}.

Abbreviation table := (gmap uuid mem_row).

(** [lifecycle_revision INTEGER]: incrementing the largest value is an error
    of the statement, never a wrap-around. *)
Definition int4_max : Z := 2147483647.
Definition int4_overflow : exn := PostgresError "integer out of range".

(** A statement returns a result or an error, and the new table. *)
Definition stmt (A : Type) : Type := table -> res A * table.

(** The trigger before every update of a row: [NEW.updated_at = NOW()], by the
    clock of the database server, whatever the statement itself assigns. *)
Definition update_updated_at_column (server : micros) (new : mem_row) : mem_row :=
  MemRow (content new) (content_type new) (created_at new) (expired_at new)
    (lifecycle_state new) (lifecycle_revision new) (metadata new)
    (archived_at new) (archive_path new) server.

(** The common shape of the two updates: the row with identifier [id], if it
    has the expected revision and state, is replaced by what the trigger makes
    of the assignments [upd]. The result is the row's new revision when one row
    matched. *)
Definition update_where (id : uuid) (expected : Z) (required : EnumLifecycleState)
    (upd : mem_row -> mem_row) (server : micros) : stmt (option Z) := fun t =>
  match t !! id with
  | None => (Ok None, t)
  | Some row =>
      if (lifecycle_revision row =? expected)
         && bool_decide (lifecycle_state row = required)
      then
        if int4_max <=? lifecycle_revision row then (Raise int4_overflow, t)
        else (Ok (Some (lifecycle_revision row + 1)),
              <[id := update_updated_at_column server (upd row)]> t)
      else (Ok None, t)
  end.

(** The assignments of [_EXPIRE_SQL]. *)
Definition expire_row (at_ : micros) (row : mem_row) : mem_row :=
  MemRow (content row) (content_type row) (created_at row) (Some at_) EXPIRED
    (lifecycle_revision row + 1) (metadata row) (archived_at row)
    (archive_path row) at_.

(** [_EXPIRE_SQL] *)
Definition EXPIRE_SQL (id : uuid) (expected : Z) (at_ server : micros) : stmt (option Z) :=
  update_where id expected ACTIVE (expire_row at_) server.

(** The assignments of the [UPDATE] of [_mark_archived]. *)
Definition archive_row (at_ : micros) (path : string) (row : mem_row) : mem_row :=
  MemRow (content row) (content_type row) (created_at row) (expired_at row) ARCHIVED
    (lifecycle_revision row + 1) (metadata row) (Some at_) (Some path) at_.

(** The [UPDATE] of [_mark_archived]; the driver returns the command tag. *)
Definition MARK_ARCHIVED_SQL (id : uuid) (expected : Z) (at_ : micros) (path : string)
    (server : micros) : stmt string := fun t =>
  let (r, t') := update_where id expected EXPIRED (archive_row at_ path) server t in
  (match r with
   | Ok (Some _) => Ok "UPDATE 1"
   | Ok None => Ok "UPDATE 0"
   | Raise e => Raise e
   end, t').

(** [_READ_STATE_SQL] and the [SELECT] of [_read_memory]. *)
Definition SELECT_ROW (id : uuid) (server : micros) : stmt (option mem_row) := fun t =>
  (Ok (t !! id), t).

(** ** The environment *)

Inductive call_outcome : Type :=
  | Completes
  | Fails (e : exn) (applied : bool).

(** What happens around one database call: the handler's clock when it ends,
    the server's clock when its statement starts, what other sessions did
    since the previous call, and how the call ends. *)
Record call_env : Type := CallEnv {
  ce_now : micros;
  ce_server : micros;
  ce_others : table -> table;
  ce_outcome : call_outcome;
}.

(** The state a handler with attributes [H] runs on. [w_env k] is the
    environment of the [k]-th database call. *)
Record world (H : Type) : Type := World {
  w_self : H;
  w_db : table;
  w_now : micros;
  w_env : nat -> call_env;
  w_calls : nat;
}.
Arguments World {H} w_self w_db w_now w_env w_calls.
Arguments w_self {H} w.
Arguments w_db {H} w.
Arguments w_now {H} w.
Arguments w_env {H} w.
Arguments w_calls {H} w.

Section calls.
Context {H : Type}.

Definition set_self (h : H) (w : world H) : world H :=
  World h (w_db w) (w_now w) (w_env w) (w_calls w).

(** The table the next statement sees. *)
Definition next_table (w : world H) : table :=
  ce_others (w_env w (w_calls w)) (w_db w).

Definition next_outcome (w : world H) : call_outcome :=
  ce_outcome (w_env w (w_calls w)).

Definition next_server (w : world H) : micros :=
  ce_server (w_env w (w_calls w)).

(** The world after a call that left the table [db]. *)
Definition after_call (db : table) (w : world H) : world H :=
  World (w_self w) db (Z.max (w_now w) (ce_now (w_env w (w_calls w))))
    (w_env w) (S (w_calls w)).

(** [async with pool.acquire() as conn: await wait_for(conn....)]. *)
Definition db_call {A} (s : micros -> stmt A) : M (world H) A := fun w =>
  let s := s (next_server w) in
  let db := next_table w in
  match next_outcome w with
  | Completes => let (r, db') := s db in (r, after_call db' w)
  | Fails e applied =>
      (Raise e, after_call (if applied then (s db).2 else db) w)
  end.

Lemma wp_db_call {A} (s : micros -> stmt A) Q w :
  wp (db_call s) Q w <->
  match next_outcome w with
  | Completes => Q (s (next_server w) (next_table w)).1
                   (after_call (s (next_server w) (next_table w)).2 w)
  | Fails e applied =>
      Q (Raise e) (after_call (if applied then (s (next_server w) (next_table w)).2
                               else next_table w) w)
  end.
Proof.
  unfold wp, db_call. destruct (next_outcome w); [|done].
  by destruct (s _ (next_table w)).
Qed.
End calls.

#[export] Hint Rewrite @wp_db_call : wp_rules.

(** What [n] calls starting with the [k]-th let other sessions do. *)
Fixpoint others (env : nat -> call_env) (k n : nat) (db : table) : table :=
  match n with
  | O => db
  | S n => others env (S k) n (ce_others (env k) db)
  end.

(** The table as the other sessions leave it during the run from [w] to [w']. *)
Definition undisturbed {H} (w w' : world H) : table :=
  others (w_env w) (w_calls w) (w_calls w' - w_calls w) (w_db w).

Lemma undisturbed_none {H} (w w' : world H) :
  w_calls w' = w_calls w -> undisturbed w w' = w_db w.
Proof. unfold undisturbed. intros ->. by rewrite Nat.sub_diag. Qed.

Lemma undisturbed_one {H} (w w' : world H) :
  w_calls w' = S (w_calls w) -> undisturbed w w' = next_table w.
Proof. unfold undisturbed. intros ->. by replace (S (w_calls w) - w_calls w)%nat with 1%nat by lia. Qed.

Lemma undisturbed_two {H} (w w1 w' : world H) :
  w_env w1 = w_env w -> w_db w1 = next_table w -> w_calls w1 = S (w_calls w) ->
  w_calls w' = S (w_calls w1) -> undisturbed w w' = next_table w1.
Proof.
  intros He Hdb Hc Hc'. unfold undisturbed, next_table at 1. rewrite Hc', Hc, He, Hdb.
  by replace (S (S (w_calls w)) - w_calls w)%nat with 2%nat by lia.
Qed.

(** The assumption under which optimistic locking works: see below. *)
Definition env_well_behaved (R : table -> table -> Prop) (env : nat -> call_env) : Prop :=
  forall k db, R db (ce_others (env k) db).

(** No failures and no other session: the quiet environment. *)
Definition quiet (env : nat -> call_env) : Prop :=
  forall k, ce_outcome (env k) = Completes /\ forall db, ce_others (env k) db = db.

(** ** Facts about the updates *)

Section updates.
Context (id : uuid) (expected : Z) (required : EnumLifecycleState)
  (upd : mem_row -> mem_row) (server : micros).

(** The update took effect. *)
Definition updates (t : table) : Prop :=
  exists row, t !! id = Some row /\ lifecycle_revision row = expected /\
    lifecycle_state row = required /\ expected < int4_max.

(** The row matches, but its revision is the largest of the column. *)
Definition overflows (t : table) : Prop :=
  exists row, t !! id = Some row /\ lifecycle_revision row = expected /\
    lifecycle_state row = required /\ int4_max <= expected.

Lemma overflows_not_updates t : overflows t -> ~ updates t.
Proof. intros (row & ? & ? & ? & ?) (row' & ? & ? & ? & ?). simplify_eq. lia. Qed.

Lemma update_where_spec t :
  match update_where id expected required upd server t with
  | (Ok (Some rev), t') =>
      rev = expected + 1 /\ exists row, t !! id = Some row /\
        lifecycle_revision row = expected /\ lifecycle_state row = required /\
        expected < int4_max /\ t' = <[id := update_updated_at_column server (upd row)]> t
  | (Ok None, t') =>
      t' = t /\ forall row, t !! id = Some row ->
        lifecycle_revision row <> expected \/ lifecycle_state row <> required
  | (Raise e, t') => t' = t /\ e = int4_overflow /\ overflows t
  end.
Proof.
  unfold update_where. destruct (t !! id) as [row|] eqn:E; [|done].
  destruct (_ =? _) eqn:Hr; simpl; breflect.
  - case_bool_decide as Hs; [|naive_solver].
    destruct (_ <=? _) eqn:Ho; breflect.
    { split_and!; [done..|]. exists row. split_and!; (done || lia). }
    split; [lia|]. exists row. split_and!; (done || lia).
  - split; [done|]. intros row' ?. simplify_eq. by left.
Qed.

Lemma update_where_hit t :
  updates t ->
  exists row, t !! id = Some row /\ lifecycle_revision row = expected /\
    lifecycle_state row = required /\
    update_where id expected required upd server t =
      (Ok (Some (expected + 1)), <[id := update_updated_at_column server (upd row)]> t).
Proof.
  intros (row & Ht & Hr & Hs & Hlt). exists row. split_and!; [done..|].
  unfold update_where. rewrite Ht, Hr, Z.eqb_refl, bool_decide_eq_true_2 by done.
  by rewrite Zleb_F by lia.
Qed.

Lemma update_where_other t id' :
  id' <> id -> (update_where id expected required upd server t).2 !! id' = t !! id'.
Proof.
  intros Hne. unfold update_where. destruct (t !! id); [|done].
  repeat case_match; simpl; try done. by rewrite lookup_insert_ne.
Qed.
End updates.

(** Other sessions never take a row's revision back nor delete a row: the
    assumption under which optimistic locking works. The order on tables. *)
Definition revisions_grow (t t' : table) : Prop :=
  forall id row, t !! id = Some row ->
    exists row', t' !! id = Some row' /\
      (lifecycle_revision row <= lifecycle_revision row') /\
      (lifecycle_revision row' = lifecycle_revision row ->
       lifecycle_state row' = lifecycle_state row).

#[export] Instance revisions_grow_preorder : PreOrder revisions_grow.
Proof.
  split.
  - intros t id row Ht. exists row. split_and!; (done || lia).
  - intros t1 t2 t3 H12 H23 id row Ht.
    destruct (H12 id row Ht) as (row2 & Ht2 & Hle & Heq).
    destruct (H23 id row2 Ht2) as (row3 & Ht3 & Hle' & Heq').
    exists row3. split_and!; [done|lia|]. intros. rewrite Heq', Heq; lia || done.
Qed.

Lemma update_where_grows id expected required upd server t :
  (forall row, lifecycle_revision (upd row) = lifecycle_revision row + 1) ->
  revisions_grow t (update_where id expected required upd server t).2.
Proof.
  intros Hupd. pose proof (update_where_spec id expected required upd server t) as Hsp.
  destruct (update_where _ _ _ _ _ t) as [[[rev|]|e] t']; simpl.
  - destruct Hsp as (_ & row & Ht & Hr & _ & _ & ->).
    intros id' row' Ht'. destruct (decide (id' = id)) as [->|Hne].
    + exists (update_updated_at_column server (upd row)). rewrite lookup_insert_eq. simplify_eq/=.
      rewrite Hupd. split_and!; [done|lia|lia].
    + exists row'. rewrite lookup_insert_ne by done. split_and!; (done || lia).
  - destruct Hsp as [-> _]. done.
  - destruct Hsp as (-> & _). done.
Qed.
