(* ===== verification/Expire.v ===== *)
(** * Expiring a memory with optimistic locking

    Models [HandlerMemoryExpire] of
    src/src/omnimemory/nodes/node_memory_lifecycle_orchestrator/handlers/handler_memory_expire.py
    and the adapter [AdapterPostgresDeactivateMemory] that wraps it. *)

From S2P Require Import Prelude Breaker Lifecycle Memories.

Module HandlerMemoryExpire.
Record ModelExpireMemoryCommand : Type := {
  memory_id : uuid;
  expected_revision : Z;
  reason : string;
  cmd_expired_at : option micros;
}.

Record ModelMemoryExpireResult : Type := Result {
  r_memory_id : uuid;
  success : bool;
  new_revision : option Z;
  conflict : bool;
  error_message : option string;
  previous_state : option EnumLifecycleState;
}.

Record ModelMemoryCurrentState : Type := {
  cs_memory_id : uuid;
  cs_lifecycle_state : EnumLifecycleState;
  cs_lifecycle_revision : Z;
  cs_updated_at : micros;
}.

(** The handler's attributes; the pool is known only to be there or not. *)
Record t : Type := Handler {
  db_pool : bool;
  max_retries : Z;
  circuit_breaker : option CB.t;
  initialized : bool;
}.

Abbreviation comp := (M (world t)).

(** [_CIRCUIT_BREAKER_*] *)
Definition default_config : CB.config := CB.Config 5 (seconds 60) 2.

Definition __init__ : t := Handler false 3 None false.

Definition initialize (retries : Z) (cb : option CB.t) (now : micros) (h : t) : res t :=
  if retries <? 1 then
    Raise (ValueError ("max_retries must be >= 1, got " +:+ pretty retries))
  else
    Ok (Handler true retries (Some (default (CB.init default_config now) cb)) true).

Definition shutdown (h : t) : t :=
  if initialized h then Handler false (max_retries h) None false else h.

(** *** The circuit breaker of the handler, updated in place *)
Definition set_cb (b : CB.t) (w : world t) : world t :=
  let h := w_self w in
  set_self (Handler (db_pool h) (max_retries h) (Some b) (initialized h)) w.

Definition with_cb (f : micros -> CB.t -> CB.t) : comp unit := fun w =>
  match circuit_breaker (w_self w) with
  | None => (Raise AssertionError, w)
  | Some b => (Ok tt, set_cb (f (w_now w) b) w)
  end.

Definition record_success : comp unit := with_cb CB.record_success.
Definition record_failure : comp unit := with_cb CB.record_failure.
Definition record_timeout : comp unit := with_cb CB.record_timeout.

Definition should_allow_request : comp bool := fun w =>
  match circuit_breaker (w_self w) with
  | None => (Raise AssertionError, w)
  | Some b =>
      let (ok, b') := CB.should_allow_request (w_now w) b in
      (Ok ok, set_cb b' w)
  end.

Definition circuit_state : comp string := fun w =>
  match circuit_breaker (w_self w) with
  | None => (Raise AssertionError, w)
  | Some b => (Ok (CircuitBreakerState_value (CB.state b)), w)
  end.

(** The two guards every operation starts with. *)
Definition require_ready (who : string) : comp unit := fun w =>
  let h := w_self w in
  if negb (initialized h) then
    (Raise (RuntimeError ("Handler not initialized. Call initialize() before "
                          +:+ who +:+ ".")), w)
  else if negb (db_pool h) then
    (Raise (RuntimeError ("Database pool not configured. "
                          +:+ "Initialize handler with db_pool parameter.")), w)
  else if circuit_breaker h is Some _ then (Ok tt, w) else (Raise AssertionError, w).

Definition failure_result (id : uuid) (conflicting : bool)
    (prev : option EnumLifecycleState) (msg : string) : ModelMemoryExpireResult :=
  Result id false None conflicting (Some msg) prev.

(** The exceptions [_read_current_state] and [handle] account for before
    they go on, as [except] clauses that re-raise or return. *)
Definition accounting (e : exn) : option (comp unit) :=
  match e with
  | TimeoutError _ => Some record_timeout
  | PostgresError _ | InterfaceError _ | InternalClientError _ => Some record_failure
  | _ => None
  end.

Definition _read_current_state (id : uuid) : comp (option ModelMemoryCurrentState) :=
  do! require_ready "_read_current_state()";
  let! allowed := should_allow_request in
  if negb allowed then
    let! st := circuit_state in
    raise (CircuitBreakerOpenError ("Circuit breaker is " +:+ st))
  else
    try_except
      (let! row := db_call (SELECT_ROW id) in
       do! record_success;
       ret match row with
           | None => None
           | Some r => Some {| cs_memory_id := id;
                               cs_lifecycle_state := lifecycle_state r;
                               cs_lifecycle_revision := lifecycle_revision r;
                               cs_updated_at := updated_at r |}
           end)
      (fun e => match accounting e with
                | Some k => Some (do! k; raise e)
                | None => None
                end).

(** No row was updated: find out why. *)
Definition diagnose (command : ModelExpireMemoryCommand)
    : comp ModelMemoryExpireResult :=
  let id := memory_id command in
  let! read :=
    try_except
      (let! st := _read_current_state id in ret (inl st))
      (fun e => match e with
         | CircuitBreakerOpenError _ =>
             Some (ret (inr (failure_result id false None
               ("Database circuit breaker is open. " +:+
                "Unable to read current state for diagnostics."))))
         | PostgresError _ | InterfaceError _ | InternalClientError _ | TimeoutError _ =>
             Some (ret (inr (failure_result id false None
               ("Expiration failed and unable to determine cause. " +:+
                "State read error: " +:+ exn_str e))))
         | _ => None
         end) in
  match read with
  | inr r => ret r
  | inl None =>
      do! record_success;
      ret (failure_result id false None "Memory not found")
  | inl (Some current) =>
      if negb (cs_lifecycle_revision current =? expected_revision command) then
        do! record_success;
        ret (failure_result id true (Some (cs_lifecycle_state current))
          ("Revision conflict: expected " +:+ pretty (expected_revision command) +:+
           ", found " +:+ pretty (cs_lifecycle_revision current)))
      else
        do! record_success;
        ret (failure_result id false (Some (cs_lifecycle_state current))
          ("Cannot expire memory in state " +:+ value (cs_lifecycle_state current) +:+
           ". Only ACTIVE memories can be expired."))
  end.

(** The [except] clauses of [handle]. *)
Definition handle_error (id : uuid) (e : exn) : option (comp ModelMemoryExpireResult) :=
  match e with
  | TimeoutError _ =>
      Some (do! record_timeout; ret (failure_result id false None "Database query timeout"))
  | PostgresError m =>
      Some (do! record_failure; ret (failure_result id false None ("Database error: " +:+ m)))
  | InterfaceError m | InternalClientError m =>
      Some (do! record_failure; ret (failure_result id false None ("Client error: " +:+ m)))
  | _ => None
  end.

Definition handle (command : ModelExpireMemoryCommand) : comp ModelMemoryExpireResult :=
  do! require_ready "handle()";
  let! allowed := should_allow_request in
  if negb allowed then
    ret (failure_result (memory_id command) false None
      ("Database circuit breaker is open. " +:+
       "Service is temporarily unavailable."))
  else
    let! now := gets w_now in
    let at_ := default now (cmd_expired_at command) in
    try_except
      (let! row := db_call (EXPIRE_SQL (memory_id command) (expected_revision command) at_) in
       match row with
       | None => diagnose command
       | Some rev =>
           do! record_success;
           ret (Result (memory_id command) true (Some rev) false None (Some ACTIVE))
       end)
      (handle_error (memory_id command)).

(** One pass of the loop of [handle_with_retry]: the result to return, or
    the revision to try next. *)
Definition attempt (id : uuid) (why : string) (at_ : option micros) (revision : Z)
    : comp (ModelMemoryExpireResult + Z) :=
  let! result := handle {| memory_id := id; expected_revision := revision;
                           reason := why; cmd_expired_at := at_ |} in
  if success result || negb (conflict result) then ret (inl result)
  else
    let! read :=
      try_except
        (let! st := _read_current_state id in ret (inl st))
        (fun e => match e with
           | CircuitBreakerOpenError _ =>
               Some (ret (inr (failure_result id false None
                 ("Database circuit breaker is open. " +:+
                  "Unable to retry - service temporarily unavailable."))))
           | PostgresError m | InterfaceError m | InternalClientError m =>
               Some (ret (inr (failure_result id false None
                 ("Database error during retry state read: " +:+ m))))
           | TimeoutError _ =>
               Some (ret (inr (failure_result id false None
                 "Timeout during retry state read")))
           | _ => None
           end) in
    match read with
    | inr r => ret (inl r)
    | inl None => ret (inl (failure_result id false None "Memory not found during retry"))
    | inl (Some current) =>
        if negb (bool_decide (cs_lifecycle_state current = ACTIVE)) then
          ret (inl (failure_result id false (Some (cs_lifecycle_state current))
            ("Memory transitioned to invalid state during retry: " +:+
             value (cs_lifecycle_state current))))
        else ret (inr (cs_lifecycle_revision current))
    end.

Fixpoint attempts (n : nat) (id : uuid) (why : string) (at_ : option micros)
    (revision : Z) : comp ModelMemoryExpireResult :=
  match n with
  | O =>
      let! h := gets w_self in
      ret (failure_result id true None
        ("Max retries (" +:+ pretty (max_retries h) +:+ ") exceeded due to contention"))
  | S n =>
      let! next := attempt id why at_ revision in
      match next with
      | inl result => ret result
      | inr revision' => attempts n id why at_ revision'
      end
  end.

Definition handle_with_retry (id : uuid) (initial_revision : Z) (why : string)
    (at_ : option micros) : comp ModelMemoryExpireResult :=
  let! h := gets w_self in
  attempts (Z.to_nat (max_retries h)) id why at_ initial_revision.

(** ** Specifications *)

(** A handler after [initialize]. *)
Definition ready (w : world t) : Prop :=
  initialized (w_self w) = true /\ db_pool (w_self w) = true /\
  exists b, circuit_breaker (w_self w) = Some b.

Lemma wp_with_cb f Q w :
  wp (with_cb f) Q w <->
  match circuit_breaker (w_self w) with
  | Some b => Q (Ok tt) (set_cb (f (w_now w) b) w)
  | None => Q (Raise AssertionError) w
  end.
Proof. unfold wp, with_cb. by case_match. Qed.

Lemma wp_should_allow Q w :
  wp should_allow_request Q w <->
  match circuit_breaker (w_self w) with
  | Some b => let (ok, b') := CB.should_allow_request (w_now w) b in
              Q (Ok ok) (set_cb b' w)
  | None => Q (Raise AssertionError) w
  end.
Proof. unfold wp, should_allow_request. case_match; [by case_match|done]. Qed.

Lemma wp_circuit_state Q w :
  wp circuit_state Q w <->
  match circuit_breaker (w_self w) with
  | Some b => Q (Ok (CircuitBreakerState_value (CB.state b))) w
  | None => Q (Raise AssertionError) w
  end.
Proof. unfold wp, circuit_state. by case_match. Qed.

Lemma wp_require_ready who Q w : ready w -> wp (require_ready who) Q w <-> Q (Ok tt) w.
Proof.
  intros (Hi & Hp & b & Hb). unfold wp, require_ready. by rewrite Hi, Hp, Hb.
Qed.

Lemma ready_set_cb b w : ready w -> ready (set_cb b w).
Proof. intros (Hi & Hp & _). split_and!; simpl; eauto. Qed.

Lemma ready_after_call db w : ready w -> ready (after_call db w).
Proof. done. Qed.

(** Everything but the breaker's counters, the clock and the database. *)
Record same_session (w w' : world t) : Prop := {
  ss_ready : ready w';
  ss_env : w_env w' = w_env w;
  ss_retries : max_retries (w_self w') = max_retries (w_self w);
  ss_clock : w_now w <= w_now w';
}.

(** The breaker of the handler is closed. *)
Definition closed (w : world t) : Prop :=
  exists b, circuit_breaker (w_self w) = Some b /\ CB.state b = CLOSED.

Lemma same_session_refl w : ready w -> same_session w w.
Proof. by split. Qed.

Lemma same_session_trans w1 w2 w3 :
  same_session w1 w2 -> same_session w2 w3 -> same_session w1 w3.
Proof. intros [] []. split; (done || congruence || lia). Qed.

Lemma same_session_set_cb b w w' : same_session w w' -> same_session w (set_cb b w').
Proof. intros []. split; [by apply ready_set_cb|done..]. Qed.

Lemma same_session_after_call db w w' :
  same_session w w' -> same_session w (after_call db w').
Proof. intros []. split; [done..|]. simpl. lia. Qed.

Create HintDb session.
#[local] Hint Resolve same_session_refl same_session_set_cb same_session_after_call
  ready_set_cb ready_after_call : session.

Definition view (id : uuid) (row : mem_row) : ModelMemoryCurrentState :=
  {| cs_memory_id := id; cs_lifecycle_state := lifecycle_state row;
     cs_lifecycle_revision := lifecycle_revision row;
     cs_updated_at := updated_at row |}.

Lemma closed_admit_success b ok b' now now' :
  CB.should_allow_request now b = (ok, b') -> CB.state b = CLOSED ->
  CB.state (CB.record_success now' b') = CLOSED.
Proof.
  unfold CB.should_allow_request, CB.record_success. intros E Hcl.
  rewrite Hcl in E. simplify_eq/=. by rewrite Hcl.
Qed.

Lemma closed_admitted b now : CB.state b = CLOSED -> CB.should_allow_request now b = (true, b).
Proof. unfold CB.should_allow_request. by intros ->. Qed.

Lemma closed_success b now : CB.state b = CLOSED -> CB.state (CB.record_success now b) = CLOSED.
Proof. intros Hcl. eapply (closed_admit_success b true b now); [by apply closed_admitted|done]. Qed.

Lemma fmap_view id o :
  match o with
  | Some r => Some {| cs_memory_id := id; cs_lifecycle_state := lifecycle_state r;
                      cs_lifecycle_revision := lifecycle_revision r;
                      cs_updated_at := updated_at r |}
  | None => None
  end = view id <$> o.
Proof. by destruct o. Qed.

(** What a state read can do. *)
Inductive read_outcome (id : uuid) (w : world t)
    : res (option ModelMemoryCurrentState) -> world t -> Prop :=
  | RO_refused m w' :
      ~ closed w ->
      same_session w w' -> w_db w' = w_db w -> w_calls w' = w_calls w ->
      read_outcome id w (Raise (CircuitBreakerOpenError m)) w'
  | RO_read w' :
      same_session w w' -> w_db w' = next_table w -> w_calls w' = S (w_calls w) ->
      next_outcome w = Completes -> (closed w -> closed w') ->
      read_outcome id w (Ok (view id <$> next_table w !! id)) w'
  | RO_failed e applied w' :
      same_session w w' -> w_db w' = next_table w -> w_calls w' = S (w_calls w) ->
      next_outcome w = Fails e applied ->
      read_outcome id w (Raise e) w'.

Lemma read_current_state_outcome id w :
  ready w -> wp (_read_current_state id) (read_outcome id w) w.
Proof.
  intros Hr. pose proof Hr as (_ & _ & b & Hb). unfold _read_current_state.
  wp_step. rewrite wp_require_ready by done. wp_step.
  rewrite wp_should_allow, Hb.
  destruct (CB.should_allow_request _ _) as [[] b'] eqn:E; simpl.
  - wp_step. change (next_outcome (set_cb b' w)) with (next_outcome w).
    change (next_table (set_cb b' w)) with (next_table w).
    destruct (next_outcome w) as [|e applied] eqn:Eo; simpl.
    + wp_step. unfold record_success. rewrite wp_with_cb. simpl. wp_step.
      rewrite fmap_view. apply RO_read; eauto with session.
      intros (b0 & Hb0 & Hcl). simplify_eq. eexists. split; [done|]. simpl.
      by eapply closed_admit_success.
    + replace (if applied then next_table w else next_table w) with (next_table w)
        by by destruct applied.
      destruct e; simpl; wp_step;
        unfold record_timeout, record_failure; rewrite ?wp_with_cb; simpl; wp_step;
        eapply RO_failed; eauto with session.
  - wp_step. rewrite wp_circuit_state. simpl. wp_step.
    apply RO_refused; auto with session. intros (b0 & Hb0 & Hcl).
    simplify_eq. by rewrite closed_admitted in E.
Qed.

(** The answer [diagnose] makes of what the read returned. *)
Definition diagnosis (command : ModelExpireMemoryCommand)
    (read : res (option ModelMemoryCurrentState))
    (r : res ModelMemoryExpireResult) : Prop :=
  match read with
  | Ok None => exists m, r = Ok (failure_result (memory_id command) false None m)
  | Ok (Some cur) =>
      exists m, r = Ok (failure_result (memory_id command)
        (negb (cs_lifecycle_revision cur =? expected_revision command))
        (Some (cs_lifecycle_state cur)) m)
  | Raise e =>
      match e with
      | CircuitBreakerOpenError _ | TimeoutError _ | PostgresError _
      | InterfaceError _ | InternalClientError _ =>
          exists m, r = Ok (failure_result (memory_id command) false None m)
      | _ => r = Raise e
      end
  end.

(** The breaker lets a request made now pass. *)
Definition admitted (w : world t) : bool :=
  match circuit_breaker (w_self w) with
  | Some b => (CB.should_allow_request (w_now w) b).1
  | None => false
  end.

(** The row an expiration leaves. *)
Definition expired (command : ModelExpireMemoryCommand) (w : world t) (row : mem_row) : mem_row :=
  update_updated_at_column (next_server w)
    (expire_row (default (w_now w) (cmd_expired_at command)) row).

(** What [handle] can do. *)
Inductive handle_outcome (command : ModelExpireMemoryCommand) (w : world t)
    : res ModelMemoryExpireResult -> world t -> Prop :=
  | HO_refused prev m w' :
      admitted w = false ->
      same_session w w' -> w_db w' = w_db w -> w_calls w' = w_calls w ->
      handle_outcome command w
        (Ok (failure_result (memory_id command) false prev m)) w'
  | HO_expired row w' :
      admitted w = true -> expected_revision command < int4_max ->
      (closed w -> closed w') ->
      same_session w w' -> w_calls w' = S (w_calls w) ->
      next_outcome w = Completes ->
      next_table w !! memory_id command = Some row ->
      lifecycle_state row = ACTIVE ->
      lifecycle_revision row = expected_revision command ->
      w_db w' = <[memory_id command := expired command w row]> (next_table w) ->
      handle_outcome command w
        (Ok (Result (memory_id command) true (Some (expected_revision command + 1))
               false None (Some ACTIVE))) w'
  | HO_overflow m w' :
      admitted w = true ->
      overflows (memory_id command) (expected_revision command) ACTIVE (next_table w) ->
      same_session w w' -> w_calls w' = S (w_calls w) ->
      next_outcome w = Completes -> w_db w' = next_table w ->
      handle_outcome command w
        (Ok (failure_result (memory_id command) false None m)) w'
  | HO_failed e applied r w' :
      admitted w = true ->
      same_session w w' -> w_calls w' = S (w_calls w) ->
      next_outcome w = Fails e applied ->
      w_db w' = (if applied
        then (EXPIRE_SQL (memory_id command) (expected_revision command)
                (default (w_now w) (cmd_expired_at command)) (next_server w) (next_table w)).2
        else next_table w) ->
      match accounting e with
      | Some _ => exists m, r = Ok (failure_result (memory_id command) false None m)
      | None => r = Raise e
      end ->
      handle_outcome command w r w'
  | HO_missed w1 read w' r w2 :
      admitted w = true ->
      next_outcome w = Completes ->
      (forall row, next_table w !! memory_id command = Some row ->
         lifecycle_revision row <> expected_revision command \/
         lifecycle_state row <> ACTIVE) ->
      same_session w w1 -> w_db w1 = next_table w -> w_calls w1 = S (w_calls w) ->
      read_outcome (memory_id command) w1 read w' ->
      same_session w w2 -> w_db w2 = w_db w' -> w_calls w2 = w_calls w' ->
      (closed w -> closed w1) -> (closed w' -> closed w2) ->
      diagnosis command read r ->
      handle_outcome command w r w2.

Lemma wp_with_cb_ready f Q w :
  ready w ->
  (forall b, circuit_breaker (w_self w) = Some b -> Q (Ok tt) (set_cb (f (w_now w) b) w)) ->
  wp (with_cb f) Q w.
Proof. intros (_ & _ & b & Hb) HQ. rewrite wp_with_cb, Hb. auto. Qed.

Lemma closed_set_success w b :
  circuit_breaker (w_self w) = Some b ->
  closed w -> closed (set_cb (CB.record_success (w_now w) b) w).
Proof.
  intros Hb (b0 & Hb0 & Hcl). simplify_eq. eexists. split; [done|]. by apply closed_success.
Qed.
#[local] Hint Resolve closed_set_success : session.

Lemma diagnose_outcome command w :
  ready w ->
  wp (diagnose command) (fun r w2 => exists read w',
    read_outcome (memory_id command) w read w' /\ same_session w w2 /\
    w_db w2 = w_db w' /\ w_calls w2 = w_calls w' /\ (closed w' -> closed w2) /\
    diagnosis command read r) w.
Proof.
  intros Hr. unfold diagnose. wp_step.
  eapply wp_mono; [|by apply read_current_state_outcome].
  intros r w' Ho. assert (Hs : same_session w w') by by destruct Ho.
  assert (Hr' : ready w') by apply Hs.
  destruct r as [[cur|]|e].
  - wp_step. destruct (_ =? _) eqn:E; simpl; wp_step;
      (apply wp_with_cb_ready; [done|intros b Hb; wp_step]);
      exists (Ok (Some cur)), w'; split_and!; auto with session;
      simpl; rewrite E; simpl; eauto.
  - wp_step. apply wp_with_cb_ready; [done|]. intros b Hb. wp_step.
    exists (Ok None), w'. split_and!; simpl; eauto with session.
  - destruct e; wp_step; eexists _, w';
      (split_and!; [exact Ho|exact Hs|done|done|done|]); simpl; eauto.
Qed.

Lemma handle_outcome_holds command w :
  ready w -> wp (handle command) (handle_outcome command w) w.
Proof.
  intros Hr. pose proof Hr as (_ & _ & b & Hb). unfold handle.
  wp_step. rewrite wp_require_ready by done. wp_step.
  rewrite wp_should_allow, Hb.
  assert (Hadm : admitted w = (CB.should_allow_request (w_now w) b).1)
    by (unfold admitted; by rewrite Hb).
  destruct (CB.should_allow_request _ _) as [[] b'] eqn:E; simpl in *; wp_step;
    [|eapply HO_refused; auto with session].
  assert (Hcl : forall db, closed w -> closed (after_call db (set_cb b' w))).
  { intros db (b0 & Hb0 & Hst). simplify_eq. rewrite closed_admitted in E by done.
    simplify_eq. by exists b'. }
  change (next_outcome (set_cb b' w)) with (next_outcome w).
  change (next_table (set_cb b' w)) with (next_table w).
  change (next_server (set_cb b' w)) with (next_server w). simpl.
  destruct (next_outcome w) as [|e applied] eqn:Eo.
  - pose proof (update_where_spec (memory_id command) (expected_revision command) ACTIVE
      (expire_row (default (w_now w) (cmd_expired_at command))) (next_server w) (next_table w)) as Hsp.
    fold (EXPIRE_SQL (memory_id command) (expected_revision command)
      (default (w_now w) (cmd_expired_at command)) (next_server w)) in Hsp.
    destruct (EXPIRE_SQL _ _ _ _ _) as [[[rev|]|e] t']; cbn [fst snd] in *.
    + destruct Hsp as (-> & row & Hrow & Hrev & Hst & Hlt & ->). wp_step.
      apply wp_with_cb_ready; [auto with session|]. intros b2 Hb2. wp_step.
      eapply HO_expired; eauto with session.
    + destruct Hsp as [-> Hmiss].
      eapply wp_mono; [|apply diagnose_outcome; auto with session].
      intros r w2 (read & w' & Hread & Hs & Hdb & Hcalls & Hcl2 & Hdiag).
      assert (Hss : same_session w (after_call (next_table w) (set_cb b' w)))
        by auto with session.
      assert (HO : handle_outcome command w r w2)
        by (eapply HO_missed; eauto using same_session_trans).
      destruct r as [r|e]; [done|].
      destruct read as [[cur|]|[]]; simpl in Hdiag;
        first [by destruct Hdiag|by injection Hdiag as ->].
    + destruct Hsp as (-> & -> & Hno). simpl. wp_step.
      apply wp_with_cb_ready; [auto with session|]. intros b2 _. wp_step.
      eapply HO_overflow; auto with session.
  - destruct e; simpl; wp_step;
      try (apply wp_with_cb_ready; [auto with session|intros b2 _; wp_step]);
      (eapply HO_failed; [done|auto with session|done|exact Eo|done|]); simpl; eauto.
Qed.

Lemma handle_run command w r w' :
  ready w -> handle command w = (r, w') -> handle_outcome command w r w'.
Proof. intros Hr Hrun. eapply (wp_run _ _ _ _ _ Hrun). by apply handle_outcome_holds. Qed.
End HandlerMemoryExpire.

(** The adapter: a handler and a flag of its own. Its operations take the flag
    and run on the handler's world. *)
Module AdapterPostgresDeactivateMemory.
Import HandlerMemoryExpire.

Record t : Type := Adapter {
  handler : HandlerMemoryExpire.t;
  initialized : bool;
}.

Definition __init__ : t := Adapter HandlerMemoryExpire.__init__ false.

Definition initialize (max_retries : Z) (cb : option CB.t) (now : micros) (a : t) : res unit * t :=
  match HandlerMemoryExpire.initialize max_retries cb now (handler a) with
  | Raise e => (Raise e, a)
  | Ok h => (Ok tt, Adapter h true)
  end.

Definition shutdown (a : t) : t :=
  if initialized a then Adapter (HandlerMemoryExpire.shutdown (handler a)) false else a.

Definition deactivate (initialized : bool) (id : uuid) (expected : Z) (why : string)
    (at_ : option micros) : M (world HandlerMemoryExpire.t) ModelMemoryExpireResult :=
  if negb initialized then
    raise (RuntimeError ("AdapterPostgresDeactivateMemory not initialized. " +:+
                         "Call initialize() before deactivate()."))
  else
    handle {| memory_id := id; expected_revision := expected; reason := why; cmd_expired_at := at_ |}.

Definition deactivate_with_retry (initialized : bool) (id : uuid) (initial_revision : Z)
    (why : string) (at_ : option micros) : M (world HandlerMemoryExpire.t) ModelMemoryExpireResult :=
  if negb initialized then
    raise (RuntimeError ("AdapterPostgresDeactivateMemory not initialized. " +:+
                         "Call initialize() before deactivate_with_retry()."))
  else handle_with_retry id initial_revision why at_.
End AdapterPostgresDeactivateMemory.

Import HandlerMemoryExpire.

(** ** Properties *)

(** A world to run examples in: one memory, a quiet environment. *)
Definition demo_row (s : EnumLifecycleState) (rev : Z) : mem_row :=
  MemRow "text" "text/plain" 0 None s rev None None None 0.
Definition quiet_call : call_env := CallEnv 100 99 id Completes.
Definition demo_handler (cb : CB.t) : HandlerMemoryExpire.t := Handler true 3 (Some cb) true.
Definition fresh_cb : CB.t := CB.init default_config 0.
Definition demo_world (cb : CB.t) (t : table) (env : nat -> call_env)
    : world HandlerMemoryExpire.t := World (demo_handler cb) t 50 env 0.
Definition demo_command (rev : Z) : ModelExpireMemoryCommand :=
  {| memory_id := "m1"; expected_revision := rev; reason := "ttl_expired";
     cmd_expired_at := None |}.

Lemma demo_ready cb t env : ready (demo_world cb t env).
Proof. split_and!; simpl; eauto. Qed.

(** C9: [handle] reports success exactly when the breaker admits the
    request, the statement completes, and the row is ACTIVE at the expected
    revision (which is not the largest the column can hold). Then that row, and
    no other, becomes EXPIRED at the next revision, which is the one reported:
    its [expired_at] is the command's time, or the handler's clock without one,
    and its [updated_at] is what the table's trigger writes, the clock of the
    server. *)
Theorem expire_success_iff_matched (command : ModelExpireMemoryCommand)
    (w w' : world HandlerMemoryExpire.t) (r : res ModelMemoryExpireResult) :
  ready w -> handle command w = (r, w') ->
  ((exists x, r = Ok x /\ success x = true) <->
     admitted w = true /\ next_outcome w = Completes /\
     updates (memory_id command) (expected_revision command) ACTIVE (next_table w)) /\
  (forall x, r = Ok x -> success x = true ->
     new_revision x = Some (expected_revision command + 1) /\
     exists row, next_table w !! memory_id command = Some row /\
       w_db w' = <[memory_id command :=
         MemRow (content row) (content_type row) (created_at row)
           (Some (default (w_now w) (cmd_expired_at command))) EXPIRED
           (expected_revision command + 1) (metadata row) (archived_at row)
           (archive_path row) (next_server w)]> (next_table w)).
Proof.
  intros Hr Hrun. apply handle_run in Hrun as Ho; [|done].
  clear Hrun.
  destruct Ho as [prev m w0 Ha|row w0 Ha Hlt _ _ _ Hc Hrow Hst Hrev Hdb|m w0 Ha Hov _ _ Hc
                 |e applied r w0 _ _ _ Hf _ Hm|w1 read w2 r w3 _ _ Hmiss _ _ _ _ _ _ _ _ _ Hd].
  - split; naive_solver.
  - split; [split; [intros _; split_and!; [done..|by exists row]|by eauto]|].
    intros x [= <-] _. split; [done|]. exists row. split; [done|]. rewrite Hdb, <- Hrev.
    by destruct row.
  - pose proof (overflows_not_updates _ _ _ _ Hov). split; naive_solver.
  - assert (Hno : forall x, r = Ok x -> success x = false) by (destruct (accounting e); naive_solver).
    clear Hm. split; [split; [|intros (_ & Hcm & _); congruence]|].
    + intros (x & Hx & Hs). specialize (Hno x Hx). congruence.
    + intros x Hx Hs. specialize (Hno x Hx). congruence.
  - assert (Hno : forall x, r = Ok x -> success x = false) by (destruct read as [[]|[]]; naive_solver).
    clear Hd. split; [split|].
    + intros (x & Hx & Hs). specialize (Hno x Hx). congruence.
    + intros (_ & _ & row & Hrow & ? & ? & _). naive_solver.
    + intros x Hx Hs. specialize (Hno x Hx). congruence.
Qed.

Lemma expire_success_iff_matched_witness :
  let w := demo_world fresh_cb {["m1" := demo_row ACTIVE 5]} (fun _ => quiet_call) in
  new_revision (Result "m1" true (Some 6) false None (Some ACTIVE)) = Some 6 /\
  (handle (demo_command 5) w).1 = Ok (Result "m1" true (Some 6) false None (Some ACTIVE)).
Proof.
  intros w. split; [|vm_compute; reflexivity].
  eapply (expire_success_iff_matched (demo_command 5) w (handle (demo_command 5) w).2);
    [apply demo_ready|apply surjective_pairing|vm_compute; reflexivity..].
Defined.

(** When [handle] does not report success and its
    statement did not fail after taking effect, the table holds exactly what
    the other sessions left there, after at most two database calls. *)
Theorem expire_failure_no_effect (command : ModelExpireMemoryCommand)
    (w w' : world HandlerMemoryExpire.t) (r : res ModelMemoryExpireResult) :
  ready w -> handle command w = (r, w') ->
  (forall e, next_outcome w <> Fails e true) ->
  (forall x, r = Ok x -> success x = false) ->
  w_db w' = others (w_env w) (w_calls w) (w_calls w' - w_calls w) (w_db w) /\
  (w_calls w' <= w_calls w + 2)%nat.
Proof.
  intros Hr Hrun Hna Hns. apply handle_run in Hrun as Ho; [|done].
  assert (Hone : forall n, n = S (w_calls w) ->
    others (w_env w) (w_calls w) (n - w_calls w) (w_db w) = next_table w /\
    (n <= w_calls w + 2)%nat).
  { intros n ->. replace (S (w_calls w) - w_calls w)%nat with 1%nat by lia. split; [done|lia]. }
  inversion Ho as [prev m w0 _ Hs Hdb Hc|row w0 _ _ _ Hs Hc|m w0 _ _ Hs Hc Ho1 Hdb
                  |e applied r0 w0 _ Hs Hc Ho1 Hdb _
                  |w1 read w2 r0 w3 _ _ _ Hs1 Hdb1 Hc1 Hread Hs3 Hdb3 Hc3 _ _ _]; subst.
  - rewrite Hc, Nat.sub_diag. split; [done|lia].
  - by specialize (Hns _ eq_refl).
  - rewrite Hdb. destruct (Hone _ Hc) as [-> ?]. done.
  - rewrite Hdb. destruct applied; [by destruct (Hna e)|].
    destruct (Hone _ Hc) as [-> ?]. done.
  - rewrite Hdb3, Hc3.
    destruct Hread as [m0 w4 _ _ Hdb Hc|w4 _ Hdb Hc _ _|e a w4 _ Hdb Hc _].
    + rewrite Hdb, Hdb1. destruct (Hone _ (eq_trans Hc Hc1)) as [-> ?]. done.
    + rewrite Hdb, Hc. split; [|lia].
      replace (S (w_calls w1) - w_calls w)%nat with 2%nat by lia.
      unfold next_table. by rewrite (ss_env _ _ Hs1), Hc1, Hdb1.
    + rewrite Hdb, Hc. split; [|lia].
      replace (S (w_calls w1) - w_calls w)%nat with 2%nat by lia.
      unfold next_table. by rewrite (ss_env _ _ Hs1), Hc1, Hdb1.
Qed.

Lemma expire_failure_no_effect_witness :
  let w := demo_world fresh_cb {["m1" := demo_row ACTIVE 7]} (fun _ => quiet_call) in
  w_db (handle (demo_command 5) w).2 = {["m1" := demo_row ACTIVE 7]}.
Proof.
  intros w.
  destruct (expire_failure_no_effect (demo_command 5) w (handle (demo_command 5) w).2
    (handle (demo_command 5) w).1) as [H _].
  - apply demo_ready.
  - by destruct (handle (demo_command 5) w).
  - discriminate.
  - intros x Hx. apply (f_equal (fun r => match r with Ok x => success x | _ => false end)) in Hx.
    rewrite <- Hx. reflexivity.
  - exact H.
Defined.

(** C2: optimistic locking. Of two expirations of the same
    memory with the same expected revision, run one after the other by the
    same or by different handlers, at most one succeeds, whatever happens in
    between, provided other sessions never take a revision back. *)
Theorem expire_at_most_once (c1 c2 : ModelExpireMemoryCommand)
    (w1 w1' w2 w2' : world HandlerMemoryExpire.t) (r1 r2 : ModelMemoryExpireResult) :
  ready w1 -> ready w2 ->
  memory_id c1 = memory_id c2 -> expected_revision c1 = expected_revision c2 ->
  handle c1 w1 = (Ok r1, w1') ->
  revisions_grow (w_db w1') (w_db w2) ->
  env_well_behaved revisions_grow (w_env w2) ->
  handle c2 w2 = (Ok r2, w2') ->
  success r1 = true -> success r2 = false.
Proof.
  intros Hr1 Hr2 Hid Hrev Hrun1 Hgrow Henv Hrun2 Hs1.
  apply handle_run in Hrun1 as Ho1; [|done]. apply handle_run in Hrun2 as Ho2; [|done].
  inversion Ho1; simplify_eq; try done;
    [|destruct (accounting e); naive_solver|destruct read as [[]|[]]; naive_solver].
  inversion Ho2 as [| row2 w0 _ _ _ _ _ _ Hrow2 _ Hrev2 _| | |]; subst; try done;
    [|destruct (accounting e); naive_solver|destruct read as [[]|[]]; naive_solver].
  exfalso.
  assert (Hg : revisions_grow (w_db w1') (next_table w2))
    by (etransitivity; [exact Hgrow|apply Henv]).
  match goal with Hdb : w_db w1' = _ |- _ => rewrite Hdb in Hg end.
  destruct (Hg (memory_id c1) _ (lookup_insert_eq _ _ _)) as (row' & Hrow' & Hle & _).
  simpl in Hle. rewrite Hid in Hrow'. simplify_eq. lia.
Qed.

Lemma expire_at_most_once_witness :
  let w := demo_world fresh_cb {["m1" := demo_row ACTIVE 5]} (fun _ => quiet_call) in
  let w' := (handle (demo_command 5) w).2 in
  match (handle (demo_command 5) w').1 with
  | Ok r => success r = false
  | Raise _ => False
  end.
Proof.
  intros w w'. destruct (handle (demo_command 5) w') as [[r|e] w2] eqn:E.
  - apply (expire_at_most_once (demo_command 5) (demo_command 5) w w' w' w2
      (Result "m1" true (Some 6) false None (Some ACTIVE)) r).
    + apply demo_ready.
    + split_and!; [vm_compute; reflexivity..|].
      exists (CB.record_success 100 fresh_cb). vm_compute. reflexivity.
    + reflexivity.
    + reflexivity.
    + vm_compute. reflexivity.
    + reflexivity.
    + intros k db. reflexivity.
    + exact E.
    + reflexivity.
  - vm_compute in E. discriminate.
Defined.

(** The failures the handler turns into results. *)
Definition reported (env : nat -> call_env) : Prop :=
  forall k e applied, ce_outcome (env k) = Fails e applied -> is_Some (accounting e).

(** What every result of [handle] for the memory [id] satisfies. *)
Definition well_formed (id : uuid) (x : ModelMemoryExpireResult) : Prop :=
  r_memory_id x = id /\ (success x = true <-> error_message x = None) /\
  (success x = true <-> is_Some (new_revision x)) /\
  (success x = true -> conflict x = false) /\
  (conflict x = true -> exists s, previous_state x = Some s).

Lemma well_formed_failure id c p m :
  (c = true -> is_Some p) -> well_formed id (failure_result id c p m).
Proof.
  intros Hp. unfold well_formed, failure_result, is_Some. simpl.
  split_and!; try done. split; [done|by intros [? ?]].
Qed.

(** One of the database calls between two worlds failed with [e]. *)
Definition call_failed (w w' : world HandlerMemoryExpire.t) (e : exn) : Prop :=
  exists k applied, (w_calls w <= k < w_calls w')%nat /\ ce_outcome (w_env w k) = Fails e applied.

Lemma handle_reports command w :
  ready w ->
  wp (handle command) (fun r w' => same_session w w' /\ (w_calls w' <= w_calls w + 2)%nat /\
    match r with
    | Ok x => well_formed (memory_id command) x
    | Raise e => call_failed w w' e /\ accounting e = None
    end) w.
Proof.
  intros Hr. eapply wp_mono; [|by apply handle_outcome_holds].
  intros r w' Ho.
  destruct Ho as [prev m w0 _ Hs Hdb Hc|row w0 _ _ _ Hs Hc|m w0 _ _ Hs Hc|e applied r w0 _ Hs Hc He _ Hm
                 |w1 read w2 r w3 _ _ _ Hs1 _ Hc1 Hread Hs3 _ Hc3 _ _ Hdiag].
  - split_and!; [done|lia|by apply well_formed_failure].
  - split_and!; [done|lia|]. unfold well_formed, is_Some. simpl. split_and!; try done; split; by eauto.
  - split_and!; [done|lia|by apply well_formed_failure].
  - split_and!; [done|lia|]. destruct (accounting e) eqn:Ha.
    + destruct Hm as [m1 ->]. by apply well_formed_failure.
    + subst r. split; [|done]. exists (w_calls w), applied. split; [lia|exact He].
  - split_and!; [done|destruct Hread; lia|].
    assert (Hdi : (exists c p m, (c = true -> is_Some p) /\
        r = Ok (failure_result (memory_id command) c p m)) \/
      exists e, read = Raise e /\ r = Raise e /\ accounting e = None /\
        forall m, e <> CircuitBreakerOpenError m).
    { destruct read as [[cur|]|e]; simpl in Hdiag.
      - left. destruct Hdiag as [m ->]. eexists _, _, m. split; [|reflexivity]. done.
      - left. destruct Hdiag as [m ->]. by exists false, None, m.
      - destruct e; simpl in Hdiag; try (left; destruct Hdiag as [m ->]; by exists false, None, m);
          right; eexists; by split_and!. }
    destruct Hdi as [(c & p & m & Hp & ->)|(e & -> & -> & Ha & Hncb)]; [by apply well_formed_failure|].
    split; [|done]. inversion Hread as [m| |e0 a w4 _ _ Hc He]; subst; [by destruct (Hncb m)|].
    exists (w_calls w1), a. split; [lia|]. unfold next_outcome in He.
    by rewrite (ss_env _ _ Hs1) in He.
Qed.

Lemma handle_total command w :
  ready w -> reported (w_env w) ->
  wp (handle command) (fun r w' => (exists x, r = Ok x) /\
    same_session w w' /\ (w_calls w' <= w_calls w + 2)%nat) w.
Proof.
  intros Hr Hrep. eapply wp_mono; [|by apply handle_reports].
  intros [x|e] w' (Hs & Hc & H); [by eauto|].
  destruct H as [(k & applied & _ & Hk) Ha]. destruct (Hrep _ _ _ Hk) as [? Hk']. congruence.
Qed.

(** C13: an initialised handler makes at most two database calls and
    then either returns a result that names the memory, has an error message
    exactly when it is not a success and a new revision exactly when it is, is
    never both a success and a conflict, and names the state found when it is a
    conflict; or raises an exception with which one of those calls failed and
    which is neither a timeout nor one of the driver's database and client
    errors. In particular an environment whose calls fail only with those four
    always gets a result; a refused connection ([OSError]) or a cancellation
    escapes. *)
Theorem expire_always_reports (command : ModelExpireMemoryCommand)
    (w w' : world HandlerMemoryExpire.t) (r : res ModelMemoryExpireResult) :
  ready w -> handle command w = (r, w') ->
  (w_calls w' <= w_calls w + 2)%nat /\
  match r with
  | Ok x =>
      r_memory_id x = memory_id command /\
      (success x = true <-> error_message x = None) /\
      (success x = true <-> is_Some (new_revision x)) /\
      (success x = true -> conflict x = false) /\
      (conflict x = true -> exists s, previous_state x = Some s)
  | Raise e =>
      (exists k applied, (w_calls w <= k < w_calls w')%nat /\
         ce_outcome (w_env w k) = Fails e applied) /\
      forall m, e <> TimeoutError m /\ e <> PostgresError m /\
                e <> InterfaceError m /\ e <> InternalClientError m
  end.
Proof.
  intros Hr Hrun.
  destruct (wp_run _ _ _ _ _ Hrun (handle_reports command w Hr)) as (_ & Hc & H).
  split; [done|]. destruct r as [x|e]; [done|]. destruct H as [Hk Ha]. split; [done|].
  intros m. by split_and!; intros ->.
Qed.

(** An environment where the first statement times out after it was applied. *)
Definition timeout_applied : nat -> call_env := fun k =>
  match k with O => CallEnv 100 99 id (Fails (TimeoutError "") true) | _ => quiet_call end.

(** The state read after a missed update is cut off by the cancellation of the
    task. *)
Definition cancelled_read : nat -> call_env := fun k =>
  match k with O => quiet_call | _ => CallEnv 100 99 id (Fails (CancelledError "") false) end.

Lemma expire_always_reports_witness :
  let w := demo_world fresh_cb {["m1" := demo_row ACTIVE 7]} cancelled_read in
  let (r, w') := handle (demo_command 5) w in
  r = Raise (CancelledError "") /\
  exists k applied, (k < w_calls w')%nat /\ ce_outcome (cancelled_read k) = Fails (CancelledError "") applied.
Proof.
  intros w. destruct (handle (demo_command 5) w) as [r w'] eqn:E.
  assert (Hr : r = Raise (CancelledError "")) by (revert E; vm_compute; by intros [= <- _]).
  destruct (expire_always_reports (demo_command 5) w w' r (demo_ready _ _ _) E) as [_ H].
  rewrite Hr in *. split; [done|]. destruct H as [(k & a & Hk & Ho) _].
  exists k, a. split; [lia|exact Ho].
Defined.

Lemma read_total id w :
  ready w -> reported (w_env w) ->
  wp (_read_current_state id) (fun r w' => same_session w w' /\
    (w_calls w' <= w_calls w + 1)%nat /\
    match r with
    | Ok _ => True
    | Raise e => (exists m, e = CircuitBreakerOpenError m) \/ is_Some (accounting e)
    end) w.
Proof.
  intros Hr Hrep. eapply wp_mono; [|by apply read_current_state_outcome].
  intros r w' []; split_and!; (done || lia || eauto).
Qed.

Lemma attempt_total id why at_ rev w :
  ready w -> reported (w_env w) ->
  wp (attempt id why at_ rev) (fun r w' => is_Ok r /\ same_session w w' /\
    (w_calls w' <= w_calls w + 3)%nat) w.
Proof.
  intros Hr Hrep. unfold attempt. wp_step.
  eapply wp_mono; [|by apply handle_total].
  intros r w' ([x ->] & Hs & Hcalls). wp_step.
  destruct (success x || negb (conflict x)).
  { wp_step. split_and!; [by eexists|done|lia]. }
  assert (Hr' : ready w') by apply Hs.
  assert (Hrep' : reported (w_env w')) by by rewrite (ss_env _ _ Hs).
  wp_step. eapply wp_mono; [|by apply (read_total id)].
  intros r2 w2 (Hs2 & Hcalls2 & He).
  assert (same_session w w2 /\ (w_calls w2 <= w_calls w + 3)%nat) as [??]
    by (split; [by eapply same_session_trans|lia]).
  destruct r2 as [[cur|]|e]; wp_step.
  - case_bool_decide; simpl; wp_step; split_and!; (done || by eexists).
  - split_and!; (done || by eexists).
  - destruct e; simpl in *; wp_step;
      first [split_and!; (done || by eexists)|by destruct He as [[? ?]|[? ?]]].
Qed.

(** [handle_with_retry] terminates: in the same environments
    it returns a result after at most three database calls per permitted
    attempt. *)
Theorem expire_retry_bounded (id : uuid) (rev : Z) (why : string) (at_ : option micros)
    (w : world HandlerMemoryExpire.t) :
  ready w -> reported (w_env w) -> 1 <= max_retries (w_self w) ->
  exists r w', handle_with_retry id rev why at_ w = (Ok r, w') /\
    Z.of_nat (w_calls w') <= Z.of_nat (w_calls w) + 3 * max_retries (w_self w).
Proof.
  intros Hr Hrep Hm.
  assert (H : forall n rev w, ready w -> reported (w_env w) ->
    wp (attempts n id why at_ rev) (fun r w' => is_Ok r /\
      (w_calls w' <= w_calls w + 3 * n)%nat) w).
  { clear. induction n as [|n IH]; intros rev w Hr Hrep; simpl; wp_step.
    - split; [by eexists|lia].
    - eapply wp_mono; [|by apply attempt_total].
      intros r w' ([[x|rev'] ->] & Hs & Hc); wp_step; [split; [by eexists|lia]|].
      eapply wp_mono; [|apply IH; [apply Hs|by rewrite (ss_env _ _ Hs)]].
      intros r w2 [? ?]. split; [done|lia]. }
  specialize (H (Z.to_nat (max_retries (w_self w))) rev w Hr Hrep).
  unfold handle_with_retry, bind, gets.
  destruct (attempts _ _ _ _ _ _) as [r w'] eqn:E.
  destruct (wp_run _ _ _ _ _ E H) as [[x ->] Hc]. exists x, w'. split; [done|lia].
Qed.

Lemma expire_retry_bounded_witness :
  let w := demo_world fresh_cb {["m1" := demo_row ACTIVE 9]} timeout_applied in
  exists r w', handle_with_retry "m1" 5 "ttl_expired" None w = (Ok r, w') /\
    Z.of_nat (w_calls w') <= 9.
Proof.
  intros w. apply (expire_retry_bounded "m1" 5 "ttl_expired" None w).
  - apply demo_ready.
  - intros [|k] e applied He; simplify_eq/=. by eexists.
  - vm_compute. discriminate.
Defined.

(** *** Convergence of the retry loop in a quiet environment *)

Lemma quiet_handle_hit command w :
  ready w -> closed w -> quiet (w_env w) ->
  updates (memory_id command) (expected_revision command) ACTIVE (w_db w) ->
  wp (handle command) (fun r w' => exists x row, r = Ok x /\ success x = true /\
    new_revision x = Some (expected_revision command + 1) /\
    w_db w !! memory_id command = Some row /\
    w_db w' = <[memory_id command := expired command w row]> (w_db w)) w.
Proof.
  intros Hr (b & Hb & Hcl) Hq Hu. eapply wp_mono; [|by apply handle_outcome_holds].
  assert (Hnt : next_table w = w_db w) by apply Hq.
  assert (Hno : next_outcome w = Completes) by apply Hq.
  assert (Hadm : admitted w = true)
    by (unfold admitted; rewrite Hb; by rewrite closed_admitted).
  rewrite <- Hnt in *. intros r w' Ho.
  destruct Ho as [prev m w0 Ha|row0 w0 _ Hlt _ Hs Hc Ho Hrow0 Hst0 Hrev0 Hdb0
                 |m w0 _ Hnu|e applied r w0 _ _ _ He _ Hm
                 |w1 read w2 r w3 _ _ Hmiss Hs Hdb Hc Hread Hs3 Hdb3 Hc3 Hcl1 Hcl3 Hdiag];
    [congruence| |by destruct (overflows_not_updates _ _ _ _ Hnu)|congruence|].
  - eexists _, row0. by split_and!.
  - destruct Hu as (row & Hrow & ? & ? & _). by destruct (Hmiss row Hrow).
Qed.

Lemma quiet_handle_stale command w row :
  ready w -> closed w -> quiet (w_env w) ->
  w_db w !! memory_id command = Some row -> lifecycle_state row = ACTIVE ->
  lifecycle_revision row <> expected_revision command ->
  wp (handle command) (fun r w' => exists x, r = Ok x /\ success x = false /\
    conflict x = true /\ same_session w w' /\ closed w' /\ w_db w' = w_db w) w.
Proof.
  intros Hr Hclosed Hq Hrow Hst Hne. eapply wp_mono; [|by apply handle_outcome_holds].
  assert (Hnt : next_table w = w_db w) by apply Hq.
  assert (Hno : next_outcome w = Completes) by apply Hq.
  pose proof Hclosed as (b & Hb & Hcl).
  assert (Hadm : admitted w = true)
    by (unfold admitted; rewrite Hb; by rewrite closed_admitted).
  intros r w' Ho.
  destruct Ho as [prev m w0 Ha|row0 w0 _ Hlt _ Hs Hc Ho Hrow0 Hst0 Hrev0 Hdb0
                 |m w0 _ Hnu|e applied r w0 _ _ _ He _ Hm
                 |w1 read w2 r w3 _ _ Hmiss Hs Hdb Hc Hread Hs3 Hdb3 Hc3 Hcl1 Hcl3 Hdiag];
    [congruence|congruence| |congruence|].
  { destruct Hnu as (row1 & Hrow1 & Hrev1 & _). rewrite Hnt in Hrow1. naive_solver. }
  assert (Hq1 : quiet (w_env w1)) by by rewrite (ss_env _ _ Hs).
  assert (Hnt1 : next_table w1 = w_db w).
  { unfold next_table. destruct (Hq1 (w_calls w1)) as [_ ->]. congruence. }
  destruct Hread as [m w2 Hnc|w2 Hs2 Hdb2 Hc2 _ Hcl2|e a w2 _ _ _ He].
  - destruct Hnc. auto.
  - rewrite Hnt1, Hrow in *. match goal with Hd : diagnosis _ _ _ |- _ => simpl in Hd end.
    rewrite (proj2 (Z.eqb_neq _ _) Hne) in *.
    match goal with Hd : exists m, r = _ |- _ => destruct Hd as [m ->] end.
    eexists. split_and!; [done..|by auto|congruence].
  - destruct (Hq1 (w_calls w1)) as [Hcomp _]. unfold next_outcome in He. congruence.
Qed.

Lemma quiet_read_row id w row :
  ready w -> closed w -> quiet (w_env w) -> w_db w !! id = Some row ->
  wp (_read_current_state id) (fun r w' => r = Ok (Some (view id row)) /\
    same_session w w' /\ closed w' /\ w_db w' = w_db w) w.
Proof.
  intros Hr Hcl Hq Hrow. eapply wp_mono; [|by apply read_current_state_outcome].
  assert (Hnt : next_table w = w_db w) by apply Hq.
  assert (Hno : next_outcome w = Completes) by apply Hq.
  intros r w' Ho. inversion Ho; subst; [done| |congruence].
  rewrite Hnt, Hrow in *. split_and!; (done || auto).
Qed.

(** With the breaker closed, no failures and no other
    sessions, [handle_with_retry] expires an ACTIVE memory whatever revision
    it starts from, as soon as two attempts are allowed, and reports the
    revision after the one it found. *)
Theorem expire_retry_converges (id : uuid) (rev : Z) (why : string) (at_ : option micros)
    (w : world HandlerMemoryExpire.t) (row : mem_row) :
  ready w -> closed w -> quiet (w_env w) -> 2 <= max_retries (w_self w) ->
  w_db w !! id = Some row -> lifecycle_state row = ACTIVE ->
  lifecycle_revision row < int4_max ->
  exists r w' row', handle_with_retry id rev why at_ w = (Ok r, w') /\
    success r = true /\ new_revision r = Some (lifecycle_revision row + 1) /\
    w_db w' = <[id := row']> (w_db w) /\ lifecycle_state row' = EXPIRED /\
    lifecycle_revision row' = lifecycle_revision row + 1.
Proof.
  intros Hr Hcl Hq Hm Hrow Hst Hlt.
  (* an attempt at the right revision wins *)
  assert (Hhit : forall w, ready w -> closed w -> quiet (w_env w) -> w_db w !! id = Some row ->
    wp (attempt id why at_ (lifecycle_revision row)) (fun r w' => exists x row',
      r = Ok (inl x) /\ success x = true /\ new_revision x = Some (lifecycle_revision row + 1) /\
      w_db w' = <[id := row']> (w_db w) /\ lifecycle_state row' = EXPIRED /\
      lifecycle_revision row' = lifecycle_revision row + 1) w).
  { clear - Hst Hlt. intros w Hr Hcl Hq Hrow. unfold attempt. wp_step.
    eapply wp_mono; [|apply quiet_handle_hit; [done..|by exists row]].
    intros r w' (x & row0 & -> & Hs & Hn & Hrow0 & Hdb). simpl in Hrow0. simplify_eq.
    rewrite Hs. simpl. wp_step. eexists _, _. split_and!; [done..|exact Hdb|done|done]. }
  assert (H : wp (handle_with_retry id rev why at_) (fun r w' => exists x row',
      r = Ok x /\ success x = true /\ new_revision x = Some (lifecycle_revision row + 1) /\
      w_db w' = <[id := row']> (w_db w) /\ lifecycle_state row' = EXPIRED /\
      lifecycle_revision row' = lifecycle_revision row + 1) w).
  { unfold handle_with_retry. wp_step.
    destruct (Z.to_nat (max_retries (w_self w))) as [|[|n]] eqn:En; [lia..|].
    simpl. wp_step.
    destruct (decide (rev = lifecycle_revision row)) as [->|Hne].
    { eapply wp_mono; [|by apply Hhit]. intros r w' (x & row' & -> & Hx). wp_step.
      by eexists _, _. }
    unfold attempt at 1. wp_step.
    eapply wp_mono; [|by eapply quiet_handle_stale; eauto].
    intros r w1 (x & -> & Hs & Hc & Hss & Hcl1 & Hdb1). rewrite Hs, Hc. simpl. wp_step.
    assert (Hq1 : quiet (w_env w1)) by by rewrite (ss_env _ _ Hss).
    eapply wp_mono; [|eapply quiet_read_row; [apply Hss|done|done|by rewrite Hdb1]].
    intros r w2 (-> & Hss2 & Hcl2 & Hdb2). wp_step. simpl.
    rewrite bool_decide_eq_true_2 by done. simpl. wp_step.
    eapply wp_mono; [|apply Hhit; [apply Hss2|done|by rewrite (ss_env _ _ Hss2)|congruence]].
    intros r w' (x' & row' & -> & Hx'). wp_step.
    rewrite Hdb2, Hdb1 in Hx'. by eexists _, _. }
  destruct (handle_with_retry _ _ _ _ w) as [r w'] eqn:E.
  destruct (wp_run _ _ _ _ _ E H) as (x & row' & -> & Hx). by exists x, w', row'.
Qed.

Lemma expire_retry_converges_witness :
  let w := demo_world fresh_cb {["m1" := demo_row ACTIVE 9]} (fun _ => quiet_call) in
  exists r w', handle_with_retry "m1" 5 "ttl_expired" None w = (Ok r, w') /\
    new_revision r = Some 10.
Proof.
  intros w.
  destruct (expire_retry_converges "m1" 5 "ttl_expired" None w (demo_row ACTIVE 9))
    as (r & w' & row' & H & _ & Hn & _).
  - apply demo_ready.
  - by exists fresh_cb.
  - by intros k.
  - vm_compute. discriminate.
  - reflexivity.
  - reflexivity.
  - reflexivity.
  - by exists r, w'.
Defined.

(** A request that loses the race is recorded as two
    successes of the database, one by the diagnosing read and one by
    [handle]: a half-open breaker that needs two successes is closed by a
    single conflicting call. *)
Theorem expire_conflict_closes_half_open (command : ModelExpireMemoryCommand)
    (w : world HandlerMemoryExpire.t) (b : CB.t) (row : mem_row) :
  ready w -> quiet (w_env w) -> circuit_breaker (w_self w) = Some b ->
  CB.state b = HALF_OPEN -> CB.success_count b = 0 -> CB.success_threshold (CB.cfg b) = 2 ->
  w_db w !! memory_id command = Some row ->
  lifecycle_revision row <> expected_revision command ->
  exists r w' b', handle command w = (Ok r, w') /\ conflict r = true /\
    circuit_breaker (w_self w') = Some b' /\ CB.state b' = CLOSED /\
    CB.total_calls b' = CB.total_calls b + 2.
Proof.
  intros Hr Hq Hb Hst Hsc Hth Hrow Hne.
  assert (Hnt : forall n (w' : world HandlerMemoryExpire.t), w_env w' = w_env w -> w_db w' = w_db w -> w_calls w' = n ->
    next_outcome w' = Completes /\ next_table w' = w_db w).
  { intros n w' He Hdb _. unfold next_outcome, next_table. rewrite He, Hdb. split; apply Hq. }
  assert (Hmiss : forall server, EXPIRE_SQL (memory_id command) (expected_revision command)
      (default (w_now w) (cmd_expired_at command)) server (w_db w) = (Ok None, w_db w)).
  { intros server. unfold EXPIRE_SQL, update_where. rewrite Hrow, (proj2 (Z.eqb_neq _ _) Hne). done. }
  assert (H : wp (handle command) (fun r w' => exists x b', r = Ok x /\ conflict x = true /\
    circuit_breaker (w_self w') = Some b' /\ CB.state b' = CLOSED /\
    CB.total_calls b' = CB.total_calls b + 2) w).
  { unfold handle. wp_step. rewrite wp_require_ready by done. wp_step.
    rewrite wp_should_allow, Hb. unfold CB.should_allow_request at 1. rewrite Hst. simpl.
    wp_step.
    destruct (Hnt _ (set_cb b w) eq_refl eq_refl eq_refl) as [-> ->].
    simpl. rewrite Hmiss. simpl. unfold diagnose, _read_current_state. wp_step.
    rewrite wp_require_ready by (apply ready_after_call, ready_set_cb, Hr). wp_step.
    rewrite wp_should_allow. simpl. unfold CB.should_allow_request at 1. rewrite Hst. simpl.
    wp_step.
    match goal with |- context [next_outcome ?w2] =>
      destruct (Hnt _ w2 eq_refl eq_refl eq_refl) as [-> ->] end.
    simpl. wp_step. unfold record_success. rewrite wp_with_cb. simpl. wp_step.
    rewrite Hrow. simpl. rewrite (proj2 (Z.eqb_neq _ _) Hne). simpl. wp_step.
    rewrite wp_with_cb. simpl. wp_step. eexists _, _. split_and!; [done..| |].
    all: unfold CB.record_success; simpl; rewrite !Hst; simpl; rewrite !Hsc, !Hth; simpl;
      rewrite ?Hst; simpl; rewrite ?Hth; simpl; (done || lia). }
  destruct (handle command w) as [r w'] eqn:E.
  destruct (wp_run _ _ _ _ _ E H) as (x & b' & -> & Hx). by exists x, w', b'.
Qed.

Definition half_open_cb : CB.t := CB.Mk default_config HALF_OPEN 5 0 9 0 (Some 0) 0.

Lemma expire_conflict_closes_half_open_witness :
  let w := demo_world half_open_cb {["m1" := demo_row ACTIVE 7]} (fun _ => quiet_call) in
  exists r w' b', handle (demo_command 5) w = (Ok r, w') /\
    circuit_breaker (w_self w') = Some b' /\ CB.state b' = CLOSED.
Proof.
  intros w.
  destruct (expire_conflict_closes_half_open (demo_command 5) w half_open_cb (demo_row ACTIVE 7))
    as (r & w' & b' & H & _ & Hb & Hst & _).
  - apply demo_ready.
  - by intros k.
  - reflexivity.
  - reflexivity.
  - reflexivity.
  - reflexivity.
  - reflexivity.
  - discriminate.
  - by exists r, w', b'.
Defined.
