(* ===== verification/RateLimiter.v ===== *)
(** * Sliding-window rate limiting

    Models [ProviderRateLimiter] and [RateLimiterRegistry] of
    src/src/omnimemory/handlers/adapters/adapter_rate_limiter.py. A limiter
    remembers the requests of the last minute in a bounded deque; the
    readings of [time.monotonic()] are whole microseconds, and the float
    arithmetic of the constructor is IEEE 754 double precision. *)

From S2P Require Import Prelude Floats.

(** ** The limiter *)

Definition SECONDS_PER_MINUTE : micros := seconds 60.
Definition DEQUE_SAFETY_CEILING_MULTIPLIER : Z := 2.

(** [ModelRateLimiterConfig]; the backoff multiplier in percent. *)
Record config : Type := Config {
  provider : string;
  model : string;
  requests_per_minute : Z;
  tokens_per_minute : Z;
  burst_multiplier : spec_float;
  initial_backoff : micros;
  max_backoff : micros;
  backoff_percent : Z;
}.

(** The attributes of a limiter; the window is a deque, oldest entry first,
    of (timestamp, tokens). *)
Record limiter : Type := Limiter {
  cfg : config;
  max_requests : Z;
  max_tokens : Z;
  window : list (micros * Z);
}.

Definition new_limiter (c : config) : option limiter :=
  match math_ceil (float_mul (float_of_Z (requests_per_minute c)) (burst_multiplier c)),
        (if 0 <? tokens_per_minute c
         then math_ceil (float_mul (float_of_Z (tokens_per_minute c)) (burst_multiplier c))
         else Some 0) with
  | Some mr, Some mt => Some (Limiter c mr mt [])
  | _, _ => None
  end.

Definition set_window (w : list (micros * Z)) (l : limiter) : limiter :=
  Limiter (cfg l) (max_requests l) (max_tokens l) w.

(** [deque.append] with [maxlen]: a full deque drops its oldest entry. *)
Definition deque_append (maxlen : Z) (w : list (micros * Z)) (x : micros * Z)
    : list (micros * Z) :=
  if Z.of_nat (length w) <? maxlen then w ++ [x] else drop 1 (w ++ [x]).

Fixpoint pop_old (cutoff : micros) (w : list (micros * Z)) : list (micros * Z) :=
  match w with
  | (ts, k) :: w' => if ts <? cutoff then pop_old cutoff w' else w
  | [] => []
  end.

Definition _cleanup_window (now : micros) (l : limiter) : limiter :=
  set_window (pop_old (now - SECONDS_PER_MINUTE) (window l)) l.

Definition token_sum (w : list (micros * Z)) : Z := foldr (fun x acc => x.2 + acc) 0 w.

Definition _get_current_usage (l : limiter) : Z * Z :=
  (Z.of_nat (length (window l)), token_sum (window l)).

(** [try_acquire], its critical section at the clock reading [now]. *)
Definition try_acquire (tokens : Z) (now : micros) (l : limiter) : res bool * limiter :=
  if tokens <? 1 then
    (Raise (ValueError ("tokens must be >= 1, got " +:+ pretty tokens)), l)
  else if (0 <? max_tokens l) && (max_tokens l <? tokens) then (Ok false, l)
  else
    let l := _cleanup_window now l in
    let (request_count, token_count) := _get_current_usage l in
    if max_requests l <=? request_count then (Ok false, l)
    else if (0 <? max_tokens l) && (max_tokens l <? token_count + tokens) then (Ok false, l)
    else
      (Ok true,
       set_window (deque_append (max_requests l * DEQUE_SAFETY_CEILING_MULTIPLIER)
                     (window l) (now, tokens)) l).

Definition get_remaining (l : limiter) : Z :=
  Z.max 0 (max_requests l - Z.of_nat (length (window l))).

Definition get_reset_time (now : micros) (l : limiter) : micros :=
  match window l with
  | [] => 0
  | (oldest, _) :: _ => Z.max 0 (oldest + SECONDS_PER_MINUTE - now)
  end.

(** The loop of [acquire], with fuel. [sleep now w] is the clock after
    [await asyncio.sleep(w)] started at [now]; what other tasks did to the
    limiter meanwhile is [others]. *)
Fixpoint acquire_loop (fuel : nat) (sleep : micros -> micros -> micros)
    (others : limiter -> limiter) (tokens : Z) (now backoff : micros) (l : limiter)
    : option (res micros * limiter) :=
  match fuel with
  | O => None
  | S fuel =>
      match try_acquire tokens now l with
      | (Raise e, l) => Some (Raise e, l)
      | (Ok true, l) => Some (Ok now, l)
      | (Ok false, l) =>
          let wait_time := Z.min (get_reset_time now l) backoff in
          let backoff := Z.min (backoff * backoff_percent (cfg l) / 100) (max_backoff (cfg l)) in
          acquire_loop fuel sleep others tokens (sleep now wait_time) backoff (others l)
      end
  end.

Definition acquire (fuel : nat) (sleep : micros -> micros -> micros)
    (others : limiter -> limiter) (tokens : Z) (now : micros) (l : limiter)
    : option (res micros * limiter) :=
  if tokens <? 1 then
    Some (Raise (ValueError ("tokens must be >= 1, got " +:+ pretty tokens)), l)
  else if (0 <? max_tokens l) && (max_tokens l <? tokens) then
    Some (Raise (ValueError ("tokens (" +:+ pretty tokens +:+ ") exceeds maximum allowed (" +:+
      pretty (max_tokens l) +:+ ") for " +:+ provider (cfg l) +:+ "/" +:+ model (cfg l))), l)
  else acquire_loop fuel sleep others tokens now (initial_backoff (cfg l)) l.

(** ** The window as a view of the history *)

(** A call of [try_acquire] in a history: its clock reading and tokens. *)
Definition call : Type := micros * Z.

(** Serve a call; the granted ones are appended to the history. *)
Definition serve (st : limiter * list (micros * Z)) (c : call) : limiter * list (micros * Z) :=
  match try_acquire c.2 c.1 st.1 with
  | (Ok true, l) => (l, st.2 ++ [c])
  | (_, l) => (l, st.2)
  end.

(** The grants whose timestamps lie in the minute that ends at [t], both ends
    included. *)
Definition in_minute (t : micros) (g : micros * Z) : Prop :=
  t - SECONDS_PER_MINUTE <= g.1 <= t.

#[export] Instance in_minute_dec t g : Decision (in_minute t g).
Proof. unfold in_minute. apply _. Defined.

Definition granted_in_minute (t : micros) (h : list (micros * Z)) : list (micros * Z) :=
  filter (in_minute t) h.

Definition recent (cutoff : micros) (h : list (micros * Z)) : list (micros * Z) :=
  filter (fun g => cutoff <= g.1) h.

(** Timestamps never go down along the list. *)
Definition ascending (h : list (micros * Z)) : Prop :=
  forall i j x y, (i < j)%nat -> h !! i = Some x -> h !! j = Some y -> x.1 <= y.1.

Lemma ascending_cons x h :
  ascending (x :: h) <-> ascending h /\ Forall (fun y => x.1 <= y.1) h.
Proof.
  split.
  - intros Ha. split.
    + intros i j a b Hij Hi Hj. by apply (Ha (S i) (S j) a b); [lia| |].
    + apply Forall_lookup. intros j y Hj. by apply (Ha 0%nat (S j) x y); [lia| |].
  - intros [Ha Hall] [|i] [|j] a b Hij Hi Hj; simplify_eq/=; try lia.
    + by eapply (Forall_lookup_1 _ _ j) in Hall.
    + by apply (Ha i j a b); [lia| |].
Qed.

Lemma ascending_snoc h x :
  ascending h -> Forall (fun y => y.1 <= x.1) h -> ascending (h ++ [x]).
Proof.
  induction h as [|a h IH]; intros Ha Hall; simpl.
  - apply ascending_cons. split; [|done]. intros i j u v _ Hi. by rewrite lookup_nil in Hi.
  - apply ascending_cons in Ha as [Ha Hh]. apply Forall_cons in Hall as [Hax Hall].
    apply ascending_cons. split; [by apply IH|]. apply Forall_app. by split; [|constructor].
Qed.

(** Popping old entries of an ascending deque keeps exactly the recent ones. *)
Lemma pop_old_recent cutoff h : ascending h -> pop_old cutoff h = recent cutoff h.
Proof.
  induction h as [|[ts k] h IH]; intros Ha; [done|].
  apply ascending_cons in Ha as [Ha Hall]. unfold recent in *. simpl.
  destruct (Z.ltb_spec ts cutoff).
  - rewrite filter_cons_False by (simpl; lia). by apply IH.
  - rewrite filter_cons_True by done. f_equal. symmetry. apply filter_all.
    eapply Forall_impl; [exact Hall|]. simpl. lia.
Qed.

Lemma recent_recent c c' h : c <= c' -> recent c' (recent c h) = recent c' h.
Proof.
  intros Hc. unfold recent. rewrite list_filter_filter_l; [done|]. intros x. lia.
Qed.

Lemma Forall_filter {A} (P Q : A -> Prop) `{!forall x, Decision (P x)} (l : list A) :
  Forall Q l -> Forall Q (filter P l).
Proof.
  rewrite !Forall_forall. intros HQ x [_ Hx]%list_elem_of_filter. by apply HQ.
Qed.

Lemma ascending_recent c h : ascending h -> ascending (recent c h).
Proof.
  unfold recent. induction h as [|x h IH]; intros Ha; [done|].
  apply ascending_cons in Ha as [Ha Hall].
  destruct (decide (c <= x.1)).
  - rewrite filter_cons_True by done. apply ascending_cons. split; [by apply IH|].
    by apply Forall_filter.
  - rewrite filter_cons_False by done. by apply IH.
Qed.

Lemma token_sum_app w1 w2 : token_sum (w1 ++ w2) = token_sum w1 + token_sum w2.
Proof. induction w1 as [|x w1 IH]; simpl; [done|]. rewrite IH. lia. Qed.

Lemma token_sum_nonneg w : Forall (fun x => 1 <= x.2) w -> 0 <= token_sum w.
Proof. induction 1; simpl; lia. Qed.

(** A tighter filter keeps fewer entries and fewer tokens. *)
Lemma filter_weaken (P Q : micros * Z -> Prop)
    `{!forall x, Decision (P x), !forall x, Decision (Q x)} w :
  (forall x, P x -> Q x) -> Forall (fun x => 1 <= x.2) w ->
  (length (filter P w) <= length (filter Q w))%nat /\
  token_sum (filter P w) <= token_sum (filter Q w).
Proof.
  intros HPQ. induction 1 as [|x w Hx Hw [IH1 IH2]]; [done|].
  destruct (decide (P x)).
  - rewrite !filter_cons_True by auto. simpl. lia.
  - rewrite (filter_cons_False P) by done. destruct (decide (Q x)).
    + rewrite (filter_cons_True Q) by done. simpl. lia.
    + by rewrite (filter_cons_False Q) by done.
Qed.

(** What the limiter knows after serving calls up to the clock reading [now]:
    its window is the recent part of the grants, and no minute holds too
    many. *)
Record tracks (now : micros) (l : limiter) (h : list (micros * Z)) : Prop := Tracks {
  tracks_ascending : ascending h;
  tracks_past : Forall (fun g => g.1 <= now) h;
  tracks_tokens : Forall (fun g => 1 <= g.2) h;
  tracks_window : exists cutoff, cutoff <= now - SECONDS_PER_MINUTE /\ window l = recent cutoff h;
  tracks_requests t : Z.of_nat (length (granted_in_minute t h)) <= max_requests l;
  tracks_max_tokens t :
    0 < max_tokens l -> token_sum (granted_in_minute t h) <= max_tokens l;
}.

Lemma tracks_later now now' l h : now <= now' -> tracks now l h -> tracks now' l h.
Proof.
  intros Hle [Ha Hp Ht (c & Hc & Hw) Hr Hm]. split; try done.
  - eapply Forall_impl; [exact Hp|]. simpl. lia.
  - exists c. split; [lia|done].
Qed.

Lemma cleanup_tracks now l h :
  tracks now l h ->
  tracks now (_cleanup_window now l) h /\
  window (_cleanup_window now l) = recent (now - SECONDS_PER_MINUTE) h.
Proof.
  intros [Ha Hp Ht (c & Hc & Hw) Hr Hm].
  assert (window (_cleanup_window now l) = recent (now - SECONDS_PER_MINUTE) h) as Hw'.
  { simpl. rewrite Hw, pop_old_recent by (by apply ascending_recent).
    by apply recent_recent. }
  split; [|done]. split; try done. by exists (now - SECONDS_PER_MINUTE).
Qed.

(** The grants of any minute that ends at or after [now] were in the window. *)
Lemma minute_in_recent now t h :
  now <= t -> Forall (fun g => 1 <= g.2) h ->
  (length (granted_in_minute t h) <= length (recent (now - SECONDS_PER_MINUTE)%Z h))%nat /\
  token_sum (granted_in_minute t h) <= token_sum (recent (now - SECONDS_PER_MINUTE) h).
Proof.
  intros Ht Hh. apply filter_weaken; [|done]. unfold in_minute. intros [u k] [H1 H2]. simpl in *. lia.
Qed.

Lemma granted_in_minute_snoc t h x :
  granted_in_minute t (h ++ [x]) =
  granted_in_minute t h ++ (if decide (in_minute t x) then [x] else []).
Proof. unfold granted_in_minute. rewrite filter_app, filter_cons, filter_nil. by case_decide. Qed.

(** A grant at [now], when the cleaned window has room for it. *)
Lemma grant_tracks now k l h :
  tracks now l h ->
  window l = recent (now - SECONDS_PER_MINUTE) h ->
  1 <= k ->
  Z.of_nat (length (window l)) < max_requests l ->
  (0 < max_tokens l -> token_sum (window l) + k <= max_tokens l) ->
  tracks now
    (set_window (deque_append (max_requests l * DEQUE_SAFETY_CEILING_MULTIPLIER)
                   (window l) (now, k)) l) (h ++ [(now, k)]).
Proof.
  intros [Ha Hp Ht _ Hr Hm] Hw Hk Hlen Htok. split; simpl.
  - apply ascending_snoc; done.
  - apply Forall_app. split; [done|]. by repeat constructor.
  - apply Forall_app. split; [done|]. by repeat constructor.
  - exists (now - SECONDS_PER_MINUTE). split; [lia|].
    unfold deque_append, DEQUE_SAFETY_CEILING_MULTIPLIER.
    rewrite Zltb_T by lia. unfold recent. rewrite filter_app, Hw.
    rewrite filter_cons_True; [done|]. unfold SECONDS_PER_MINUTE, seconds. simpl. lia.
  - intros t. specialize (Hr t). rewrite granted_in_minute_snoc.
    destruct (decide (in_minute t (now, k))) as [Hin|_]; [|by rewrite app_nil_r].
    pose proof (minute_in_recent now t h ltac:(apply Hin) Ht) as [Hl _].
    rewrite Hw in Hlen. rewrite length_app. simpl. lia.
  - intros t Hpos. specialize (Hm t Hpos). rewrite granted_in_minute_snoc, token_sum_app.
    destruct (decide (in_minute t (now, k))) as [Hin|_]; [|by simpl; lia].
    pose proof (minute_in_recent now t h ltac:(apply Hin) Ht) as [_ Hl].
    rewrite Hw in Htok. specialize (Htok Hpos). simpl. lia.
Qed.

(** [try_acquire] never changes the limits. *)
Lemma try_acquire_limits k now l r l' :
  try_acquire k now l = (r, l') ->
  cfg l' = cfg l /\ max_requests l' = max_requests l /\ max_tokens l' = max_tokens l.
Proof. unfold try_acquire, _cleanup_window, set_window. intros ?. split_cases; done. Qed.

Lemma serve_tracks now l h c :
  now <= c.1 -> tracks now l h -> tracks c.1 (serve (l, h) c).1 (serve (l, h) c).2.
Proof.
  intros Hle Htr. apply (tracks_later _ c.1) in Htr; [|done]. destruct c as [t k].
  destruct (cleanup_tracks t l h Htr) as [Hc Hw].
  unfold serve, try_acquire, _get_current_usage. cbn [fst snd] in *.
  destruct (k <? 1) eqn:Hk; [done|].
  destruct ((0 <? max_tokens l) && (max_tokens l <? k)); [done|].
  destruct (max_requests _ <=? _) eqn:Hr; [done|].
  destruct ((0 <? max_tokens (_cleanup_window t l)) && _) eqn:Hm; [done|].
  breflect. apply grant_tracks; try done; [lia..|].
  intros Hpos. rewrite Zltb_T in Hm by done. cbn in Hm. breflect. done.
Qed.

Lemma run_tracks cs : forall now l h,
  ascending cs -> Forall (fun c => now <= c.1) cs -> tracks now l h ->
  exists now', tracks now' (run serve (l, h) cs).1 (run serve (l, h) cs).2.
Proof.
  induction cs as [|c cs IH]; intros now l h Ha Hall Htr; [by exists now|].
  apply Forall_cons in Hall as [Hc Hall]. apply ascending_cons in Ha as [Ha Hlater].
  simpl. pose proof (serve_tracks now l h c Hc Htr) as Htr'.
  destruct (serve (l, h) c) as [l1 h1]. by apply (IH c.1).
Qed.

Lemma run_tracks_snoc cs c now l h :
  ascending (cs ++ [c]) -> Forall (fun c => now <= c.1) (cs ++ [c]) -> tracks now l h ->
  tracks c.1 (run serve (l, h) cs).1 (run serve (l, h) cs).2.
Proof.
  revert now l h. induction cs as [|d cs IH]; intros now l h Ha Hall Htr; simpl.
  - apply Forall_cons in Hall as [Hc _]. by apply (tracks_later now).
  - apply Forall_cons in Hall as [Hd Hall]. apply ascending_cons in Ha as [Ha Hlater].
    pose proof (serve_tracks now l h d Hd Htr) as Htr'.
    destruct (serve (l, h) d) as [l1 h1]. by apply (IH d.1).
Qed.

(** What pydantic's constraints on the configuration give. *)
Definition valid_config (c : config) : Prop :=
  1 <= requests_per_minute c /\ 0 <= tokens_per_minute c /\ sf_nonneg (burst_multiplier c) /\
  0 <= initial_backoff c /\ 0 <= max_backoff c /\ 0 <= backoff_percent c.

Lemma new_limiter_spec c l :
  new_limiter c = Some l -> valid_config c ->
  window l = [] /\ cfg l = c /\ 0 <= max_requests l /\ 0 <= max_tokens l.
Proof.
  unfold new_limiter. intros Hnew (Hr & Ht & Hb & _).
  destruct (math_ceil _) as [mr|] eqn:Hmr; [|done].
  destruct (if 0 <? tokens_per_minute c then _ else _) as [mt|] eqn:Hmt; [|done].
  simplify_eq. simpl. split_and!; try done.
  - eapply math_ceil_nonneg, Hmr. apply float_mul_nonneg; [|done].
    apply float_of_Z_nonneg. lia.
  - destruct (0 <? _); [|by simplify_eq].
    eapply math_ceil_nonneg, Hmt. apply float_mul_nonneg; [|done].
    apply float_of_Z_nonneg. lia.
Qed.

Lemma new_limiter_tracks c l now :
  new_limiter c = Some l -> valid_config c -> tracks now l [].
Proof.
  intros Hnew Hc. destruct (new_limiter_spec c l Hnew Hc) as (Hw & _ & Hr & Hm).
  split; try done.
  rewrite Hw. by exists (now - SECONDS_PER_MINUTE).
Qed.

(** The limits of a limiter are those it was built with. *)
Lemma run_limits cs : forall l h,
  max_requests (run serve (l, h) cs).1 = max_requests l /\
  max_tokens (run serve (l, h) cs).1 = max_tokens l.
Proof.
  induction cs as [|c cs IH]; intros l h; [done|]. simpl.
  unfold serve at 2 4. destruct (try_acquire c.2 c.1 (l, h).1) as [r l'] eqn:E.
  cbn [fst snd] in E. apply try_acquire_limits in E as (_ & <- & <-). destruct r as [[]|]; apply IH.
Qed.

(** ** The contract of the limiter *)

(** C5: in whatever way calls arrive, no sixty-second interval ever holds
    more granted requests than [max_requests], nor (when a token limit is set)
    more granted tokens than [max_tokens]; the bounded deque never loses a
    grant that still counts. *)
Theorem rate_limit_sliding_window c l0 cs :
  new_limiter c = Some l0 -> valid_config c -> ascending cs ->
  forall t, let grants := granted_in_minute t (run serve (l0, []) cs).2 in
    Z.of_nat (length grants) <= max_requests l0 /\
    (0 < max_tokens l0 -> token_sum grants <= max_tokens l0).
Proof.
  intros Hnew Hc Ha t grants.
  assert (exists now, Forall (fun c => now <= c.1) cs) as [now Hnow].
  { destruct cs as [|x cs]; [by exists 0|]. apply ascending_cons in Ha as [_ Ha].
    exists x.1. by constructor. }
  pose proof (new_limiter_tracks c l0 now Hnew Hc) as H0.
  destruct (run_tracks cs now l0 [] Ha Hnow H0) as [now' [_ _ _ _ Hr Hm]].
  destruct (run_limits cs l0 []) as [Er Em]. rewrite Er in Hr. rewrite Em in Hm. split; [apply Hr | apply Hm].
Qed.

(** A limiter that tracks a history grants a call exactly when the last
    minute of that history leaves room for it. *)
Definition has_room (l : limiter) (h : list (micros * Z)) (c : call) : Prop :=
  Z.of_nat (length (granted_in_minute c.1 h)) < max_requests l /\
  (0 < max_tokens l -> token_sum (granted_in_minute c.1 h) + c.2 <= max_tokens l).

Lemma minute_is_recent now h :
  Forall (fun g => g.1 <= now) h -> granted_in_minute now h = recent (now - SECONDS_PER_MINUTE) h.
Proof.
  intros Hh. unfold granted_in_minute, recent.
  induction Hh as [|[u k] h Hu Hh IH]; [done|]. rewrite !filter_cons, IH.
  unfold in_minute in *. cbn [fst snd] in *.
  repeat case_decide; try done; lia.
Qed.

Lemma token_sum_recent_nonneg c h : Forall (fun g => 1 <= g.2) h -> 0 <= token_sum (recent c h).
Proof. intros Hh. by apply token_sum_nonneg, Forall_filter. Qed.

Lemma try_acquire_room now l h k :
  tracks now l h -> 1 <= k ->
  (try_acquire k now l).1 = Ok true <-> has_room l h (now, k).
Proof.
  intros Htr Hk. destruct (cleanup_tracks now l h Htr) as [_ Hw]. destruct Htr as [_ Hp Ht _ _ _].
  unfold has_room. cbn [fst snd]. rewrite minute_is_recent, <- Hw by done.
  pose proof (token_sum_recent_nonneg (now - SECONDS_PER_MINUTE) h Ht) as Hpos.
  rewrite <- Hw in Hpos. unfold try_acquire, _get_current_usage. rewrite Zltb_F by done.
  change (max_requests (_cleanup_window now l)) with (max_requests l).
  change (max_tokens (_cleanup_window now l)) with (max_tokens l).
  destruct (0 <? max_tokens l) eqn:Hm; cbn [andb]; breflect.
  - destruct (max_tokens l <? k) eqn:H1; breflect.
    { split; [done|]. intros [_ Hroom]. specialize (Hroom Hm). lia. }
    destruct (max_requests l <=? _) eqn:H2; breflect; [split; [done|intros []; lia]|].
    destruct (max_tokens l <? _) eqn:H3; breflect; [|done].
    split; [done|]. intros [_ Hroom]. specialize (Hroom Hm). lia.
  - destruct (max_requests l <=? _) eqn:H2; breflect; [split; [done|intros []; lia]|].
    split; [|done]. intros _. split; [done|lia].
Qed.

(** After any history of calls, a further call with a positive token
    count is granted exactly when the grants of the last minute number fewer
    than [max_requests] and their tokens plus its own stay within
    [max_tokens]: the limiter neither over-admits nor refuses needlessly. *)
Theorem try_acquire_iff_room c l0 cs k now :
  new_limiter c = Some l0 -> valid_config c -> ascending (cs ++ [(now, k)]) -> 1 <= k ->
  let st := run serve (l0, []) cs in
  (try_acquire k now st.1).1 = Ok true <-> has_room st.1 st.2 (now, k).
Proof.
  intros Hnew Hc Ha Hk st.
  assert (exists t0, Forall (fun c => t0 <= c.1) (cs ++ [(now, k)])) as [t0 Ht0].
  { destruct cs as [|x cs]; [exists now; by repeat constructor|].
    apply ascending_cons in Ha as [_ Ha]. exists x.1. by constructor. }
  pose proof (new_limiter_tracks c l0 t0 Hnew Hc) as H0.
  pose proof (run_tracks_snoc cs (now, k) t0 l0 [] Ha Ht0 H0) as Htr.
  by apply try_acquire_room.
Qed.

(** ** Waiting for a slot *)

Lemma pop_old_all cutoff w : Forall (fun g => g.1 < cutoff) w -> pop_old cutoff w = [].
Proof.
  induction 1 as [|[u k] w Hu _ IH]; [done|]. simpl in *. by rewrite Zltb_T.
Qed.

Lemma pop_old_Forall (P : micros * Z -> Prop) cutoff w : Forall P w -> Forall P (pop_old cutoff w).
Proof.
  induction 1 as [|[u k] w Hu Hw IH]; [constructor|]. simpl.
  destruct (u <? cutoff); [done|]. by constructor.
Qed.

Section waiting.
Variable sleep : micros -> micros -> micros.
Variable overshoot : micros.
(** A sleep lasts at least as long as asked, the clock moves, and it wakes up
    within [overshoot] of the time asked for. *)
Hypothesis sleep_spec : forall now w, 0 <= w ->
  now + w <= sleep now w /\ now < sleep now w <= now + w + overshoot.

(** [d] is a time by which everything in the window has aged out. *)
Definition aged_out (d : micros) (l : limiter) : Prop :=
  Forall (fun g => g.1 + SECONDS_PER_MINUTE <= d) (window l).

Lemma try_acquire_refused d k now l l' :
  aged_out d l -> 1 <= k -> 1 <= max_requests l ->
  (0 < max_tokens l -> k <= max_tokens l) ->
  try_acquire k now l = (Ok false, l') ->
  now <= d /\ aged_out d l' /\ now + get_reset_time now l' <= Z.max now d.
Proof.
  unfold aged_out. intros Hd Hk Hr Hm Htry.
  assert (l' = _cleanup_window now l /\ window l' <> []) as [-> Hne].
  { unfold try_acquire, _get_current_usage in Htry. rewrite Zltb_F in Htry by done.
    change (max_requests (_cleanup_window now l)) with (max_requests l) in Htry.
    change (max_tokens (_cleanup_window now l)) with (max_tokens l) in Htry.
    destruct ((0 <? max_tokens l) && (max_tokens l <? k)) eqn:Hb.
    { breflect. specialize (Hm ltac:(done)). lia. }
    destruct (max_requests l <=? _) eqn:H2; breflect.
    { simplify_eq. split; [done|]. intros Hw. rewrite Hw in H2. simpl in H2. lia. }
    destruct ((0 <? max_tokens l) && (max_tokens l <? _ + k)) eqn:H3; [|done].
    simplify_eq. split; [done|]. intros Hw. rewrite Hw in H3. breflect.
    specialize (Hm ltac:(done)). simpl in *. lia. }
  simpl in *. split_and!.
  - destruct (Z.le_gt_cases now d) as [|Hgt]; [done|]. destruct Hne. apply pop_old_all.
    eapply Forall_impl; [exact Hd|]. intros [u j] Hu. simpl in *. lia.
  - by apply pop_old_Forall.
  - apply (pop_old_Forall _ (now - SECONDS_PER_MINUTE)) in Hd.
    unfold get_reset_time. simpl. destruct (pop_old _ _) as [|[u j] w]; [done|].
    apply Forall_cons in Hd as [Hu _]. simpl in Hu. lia.
Qed.

Lemma get_reset_time_nonneg now l : 0 <= get_reset_time now l.
Proof. unfold get_reset_time. case_match; [lia|]. case_match. lia. Qed.

Lemma acquire_loop_returns d k fuel : forall now backoff l,
  aged_out d l -> 1 <= k -> 1 <= max_requests l ->
  (0 < max_tokens l -> k <= max_tokens l) ->
  0 <= backoff -> 0 <= backoff_percent (cfg l) -> 0 <= max_backoff (cfg l) ->
  Z.max 0 (d + 1 - now) + 1 <= Z.of_nat fuel ->
  exists t l', acquire_loop fuel sleep id k now backoff l = Some (Ok t, l') /\
    now <= t <= Z.max now (d + overshoot).
Proof using sleep_spec.
  induction fuel as [|fuel IH]; intros now backoff l Hd Hk Hr Hm Hb Hp Hx Hfuel; [lia|].
  simpl. destruct (try_acquire k now l) as [r l1] eqn:E.
  pose proof (try_acquire_limits _ _ _ _ _ E) as (Ec & Er & Em).
  destruct r as [[]|e].
  - exists now, l1. split; [done|lia].
  - destruct (try_acquire_refused d k now l l1 Hd Hk Hr Hm E) as (Hnow & Hd' & Hres).
    pose proof (get_reset_time_nonneg now l1) as Hpos.
    set (w := Z.min (get_reset_time now l1) backoff) in *.
    destruct (sleep_spec now w ltac:(lia)) as (Hs1 & Hs2 & Hs3).
    destruct (IH (sleep now w) (Z.min (backoff * backoff_percent (cfg l1) / 100)
      (max_backoff (cfg l1))) l1) as (t & l' & -> & Ht1 & Ht2); rewrite ?Ec, ?Er, ?Em; try done.
    + assert (0 <= backoff * backoff_percent (cfg l) / 100) by (apply Z.div_pos; nia). lia.
    + lia.
    + exists t, l'. split; [done|]. lia.
  - unfold try_acquire in E. rewrite Zltb_F in E by done. split_cases.
Qed.
End waiting.

(** C14: with no other caller, [acquire] of a request the limits allow at
    all always returns, having taken its slot: no later than the moment the
    newest entry of the window is a minute old, plus one overshoot of the
    event loop's sleep. One iteration per clock tick of that minute is enough
    fuel. *)
Theorem acquire_returns sleep overshoot k now l :
  (forall now w, 0 <= w ->
    now + w <= sleep now w /\ now < sleep now w <= now + w + overshoot) ->
  valid_config (cfg l) -> Forall (fun g => g.1 <= now) (window l) ->
  1 <= k -> 1 <= max_requests l -> (0 < max_tokens l -> k <= max_tokens l) ->
  exists t l', acquire (Z.to_nat (SECONDS_PER_MINUTE + 2)) sleep id k now l = Some (Ok t, l') /\
    now <= t <= now + SECONDS_PER_MINUTE + overshoot.
Proof.
  intros Hs (_ & _ & _ & Hi & Hx & Hp) Hpast Hk Hr Hm. unfold acquire.
  rewrite Zltb_F by done.
  assert ((0 <? max_tokens l) && (max_tokens l <? k) = false) as ->.
  { destruct (0 <? max_tokens l) eqn:E; [|done]. breflect. by apply Zltb_F, Hm. }
  destruct (Hs 0 0 ltac:(lia)) as (_ & Ho & Ho').
  destruct (acquire_loop_returns sleep overshoot Hs (now + SECONDS_PER_MINUTE) k
    (Z.to_nat (SECONDS_PER_MINUTE + 2)) now (initial_backoff (cfg l)) l) as (t & l' & -> & Ht);
    try done.
  - eapply Forall_impl; [exact Hpast|]. intros [u j] Hu. simpl in *. lia.
  - rewrite Z2Nat.id; unfold SECONDS_PER_MINUTE, seconds; lia.
  - exists t, l'. split; [done|]. unfold SECONDS_PER_MINUTE, seconds in *. lia.
Qed.

(** ** Burst capacity *)


(** A burst multiplier of 1.0 is strict: for every request limit the
    configuration admits, the IEEE product and its ceiling give back that very
    limit. *)
Lemma unit_burst_is_strict c l :
  burst_multiplier c = one -> 1 <= requests_per_minute c <= 10000 ->
  new_limiter c = Some l -> max_requests l = requests_per_minute c.
Proof.
  intros Hb Hr Hnew.
  assert (Forall (fun n => math_ceil (float_mul (float_of_Z n) one) = Some n) (seqZ 1 10000)) as Hall.
  { apply (bool_decide_unpack _). vm_compute. exact I. }
  rewrite Forall_forall in Hall.
  specialize (Hall (requests_per_minute c) ltac:(apply elem_of_seqZ; lia)).
  unfold new_limiter in Hnew. rewrite Hb, Hall in Hnew. by split_cases.
Qed.

(** ** Concrete inputs *)

Definition demo_config : config :=
  Config "openai" "text-embedding-3-small" 2 100 one (seconds 1) (seconds 5) 200.

Definition demo_limiter : limiter := Limiter demo_config 2 100 [].

Lemma demo_config_valid : valid_config demo_config.
Proof. vm_compute. intuition discriminate. Qed.

Lemma rate_limit_sliding_window_witness :
  let grants := granted_in_minute (seconds 70)
    (run serve (demo_limiter, []) [(0, 60); (seconds 1, 60); (seconds 2, 40); (seconds 61, 30)]).2 in
  Z.of_nat (length grants) <= 2 /\ (0 < 100 -> token_sum grants <= 100).
Proof.
  apply (rate_limit_sliding_window demo_config demo_limiter);
    [vm_compute; reflexivity | exact demo_config_valid |].
  repeat (apply ascending_cons; split); try (repeat constructor; vm_compute; discriminate).
Defined.

Lemma try_acquire_iff_room_witness :
  (try_acquire 40 (seconds 2) (run serve (demo_limiter, []) [(0, 60)]).1).1 = Ok true.
Proof.
  apply (try_acquire_iff_room demo_config demo_limiter [(0, 60)] 40 (seconds 2));
    [vm_compute; reflexivity | exact demo_config_valid | | lia | vm_compute; split; [reflexivity | discriminate]].
  repeat (apply ascending_cons; split); try (repeat constructor; vm_compute; discriminate).
Defined.

Lemma acquire_returns_witness :
  exists t l', acquire (Z.to_nat (SECONDS_PER_MINUTE + 2)) (fun now w => now + Z.max 1 w) id 30
      (seconds 10) (Limiter demo_config 2 100 [(0, 50); (seconds 9, 10)]) = Some (Ok t, l') /\
    seconds 10 <= t <= seconds 10 + SECONDS_PER_MINUTE + 1.
Proof.
  apply (acquire_returns (fun now w => now + Z.max 1 w) 1 30 (seconds 10)
    (Limiter demo_config 2 100 [(0, 50); (seconds 9, 10)])).
  - intros. lia.
  - exact demo_config_valid.
  - repeat constructor; vm_compute; discriminate.
  - lia.
  - vm_compute. discriminate.
  - intros _. vm_compute. discriminate.
Defined.

(** ** The registry *)

Module RateLimiterRegistry.
(** The limiters are shared mutable objects: the registry and its clients hold
    references into [heap]. *)
Record t : Type := T {
  limiters : gmap (string * string) nat;
  heap : list limiter;
}.

Definition new : t := T ∅ [].

(** The characters of [_IDENTIFIER_PATTERN]. *)
Definition identifier_char (c : ascii) : bool :=
  char_in "a"%char "z"%char c || char_in "A"%char "Z"%char c || char_in "0"%char "9"%char c ||
  has_char c "._/-".

Definition _validate_identifier (value field_name : string) : res unit :=
  if bool_decide (value = "") || bool_decide (strip value = "") then
    Raise (ValueError (field_name +:+ " cannot be empty"))
  else if negb (all_chars identifier_char (strip value)) then
    Raise (ValueError (field_name +:+ " contains invalid characters: " +:+ py_repr value +:+
      ". Only alphanumeric characters, hyphens, underscores, periods, and forward slashes are allowed."))
  else Ok tt.

Definition _normalize_key (provider model : string) : res (string * string) :=
  match _validate_identifier provider "provider" with
  | Raise e => Raise e
  | Ok _ =>
      match _validate_identifier model "model" with
      | Raise e => Raise e
      | Ok _ => Ok (strip (lower provider), strip (lower model))
      end
  end.

(** The configuration built for a new key: the field ranges of
    [ModelRateLimiterConfig] and its defaults. Pydantic composes the message
    of its error; it is left empty here. *)
Definition make_config (provider model : string) (rpm tpm : Z) (burst : spec_float) : res config :=
  let provider := strip (lower provider) in
  let model := strip (lower model) in
  if bool_decide (provider = "") || bool_decide (model = "") ||
     negb ((1 <=? rpm) && (rpm <=? 10000)) || negb ((0 <=? tpm) && (tpm <=? 10000000)) ||
     negb (SFleb one burst && SFleb burst (float_of_Z 10))
  then Raise (OtherException "ValidationError" "")
  else Ok (Config provider model rpm tpm burst 100000 (seconds 5) 200).

(** [get_or_create]; the answer is the reference of the limiter. *)
Definition get_or_create (provider model : string) (rpm tpm : Z) (burst : spec_float) (r : t)
    : res nat * t :=
  match _normalize_key provider model with
  | Raise e => (Raise e, r)
  | Ok key =>
      match limiters r !! key with
      | Some loc => (Ok loc, r)
      | None =>
          match make_config provider model rpm tpm burst with
          | Raise e => (Raise e, r)
          | Ok c =>
              match new_limiter c with
              | None => (Raise (OtherException "OverflowError" "cannot convert float infinity to integer"), r)
              | Some l =>
                  let loc := length (heap r) in
                  (Ok loc, T (<[key := loc]> (limiters r)) (heap r ++ [l]))
              end
          end
      end
  end.

Definition get (provider model : string) (r : t) : res (option nat) :=
  match _normalize_key provider model with
  | Raise e => Raise e
  | Ok key => Ok (limiters r !! key)
  end.

Definition remove (provider model : string) (r : t) : res bool * t :=
  match _normalize_key provider model with
  | Raise e => (Raise e, r)
  | Ok key =>
      match limiters r !! key with
      | Some _ => (Ok true, T (delete key (limiters r)) (heap r))
      | None => (Ok false, r)
      end
  end.

Definition clear (r : t) : t := T ∅ (heap r).
Definition count (r : t) : Z := Z.of_nat (size (limiters r)).

(** A client calls a method of the limiter it holds a reference to. *)
Definition acquire_at (loc : nat) (tokens : Z) (now : micros) (r : t) : res bool * t :=
  match heap r !! loc with
  | None => (Raise AssertionError, r)
  | Some l => let (a, l') := try_acquire tokens now l in (a, T (limiters r) (<[loc := l']> (heap r)))
  end.

(** Every key refers to a limiter of its own, built for that key. *)
Definition wf (r : t) : Prop :=
  forall key loc, limiters r !! key = Some loc ->
    (exists l, heap r !! loc = Some l /\ (provider (cfg l), model (cfg l)) = key) /\
    forall key', limiters r !! key' = Some loc -> key' = key.

Lemma new_wf : wf new.
Proof. intros key loc H. cbn in H. by rewrite lookup_empty in H. Qed.

Lemma normalize_key_spec p m key :
  _normalize_key p m = Ok key -> key = (strip (lower p), strip (lower m)).
Proof. unfold _normalize_key. intros ?. by split_cases. Qed.

Lemma new_limiter_cfg c l : new_limiter c = Some l -> cfg l = c.
Proof. unfold new_limiter. intros ?. by split_cases. Qed.

Lemma make_config_key p m rpm tpm b c :
  make_config p m rpm tpm b = Ok c -> (provider c, model c) = (strip (lower p), strip (lower m)).
Proof. unfold make_config. intros ?. by split_cases. Qed.

Lemma get_or_create_wf p m rpm tpm b r :
  wf r -> wf (get_or_create p m rpm tpm b r).2.
Proof.
  intros Hwf. unfold get_or_create. destruct (_normalize_key p m) as [key|] eqn:Hk; [|done].
  destruct (limiters r !! key) as [loc|] eqn:Hl; [done|].
  destruct (make_config _ _ _ _ _) as [c|] eqn:Hc; [|done].
  destruct (new_limiter c) as [l|] eqn:Hn; [|done]. intros k loc. simpl.
  apply normalize_key_spec in Hk. apply new_limiter_cfg in Hn. apply make_config_key in Hc.
  assert (forall k0 n, limiters r !! k0 = Some n -> (n < length (heap r))%nat) as Hbound.
  { intros k0 n H0. apply Hwf in H0 as [(l0 & H0 & _) _]. by eapply lookup_lt_Some. }
  intros H. apply lookup_insert_Some in H as [[<- <-]|[Hne H]].
  - split.
    + exists l. rewrite lookup_app_r, Nat.sub_diag by lia. subst key. by rewrite Hn.
    + intros k' [[<- _]|[_ H']]%lookup_insert_Some; [done|]. apply Hbound in H'. lia.
  - pose proof (Hbound _ _ H) as Hlt. destruct (Hwf _ _ H) as [(l0 & H0 & Ek) Hu]. split.
    + exists l0. by rewrite lookup_app_l.
    + intros k' [[<- <-]|[_ H']]%lookup_insert_Some; [lia|]. by apply Hu.
Qed.

Lemma remove_wf p m r : wf r -> wf (remove p m r).2.
Proof.
  intros Hwf. unfold remove. destruct (_normalize_key p m); [|done].
  destruct (limiters r !! _); [|done]. intros k loc. simpl. intros [_ H]%lookup_delete_Some.
  destruct (Hwf _ _ H) as [Hex Hu]. split; [done|].
  intros k' [_ H']%lookup_delete_Some. by apply Hu.
Qed.

Lemma acquire_at_wf loc k now r : wf r -> wf (acquire_at loc k now r).2.
Proof.
  intros Hwf. unfold acquire_at. destruct (heap r !! loc) as [l|] eqn:Hl; [|done].
  destruct (try_acquire k now l) as [a l'] eqn:Ht. apply try_acquire_limits in Ht as (Ec & _).
  intros key n H. simpl in *. destruct (Hwf _ _ H) as [(l0 & H0 & Ek) Hu]. split; [|done].
  destruct (decide (n = loc)) as [->|Hne].
  - exists l'. simplify_eq. rewrite Ec. split; [|done]. apply list_lookup_insert_eq.
    by eapply lookup_lt_Some.
  - exists l0. by rewrite list_lookup_insert_ne.
Qed.

(** The operations clients interleave on one registry. *)
Inductive op : Type :=
  | GetOrCreate (p m : string) (rpm tpm : Z) (burst : spec_float)
  | Remove (p m : string)
  | Clear
  | AcquireAt (loc : nat) (tokens : Z) (now : micros).

Definition step (r : t) (o : op) : t :=
  match o with
  | GetOrCreate p m rpm tpm b => (get_or_create p m rpm tpm b r).2
  | Remove p m => (remove p m r).2
  | Clear => clear r
  | AcquireAt loc k now => (acquire_at loc k now r).2
  end.

Lemma step_wf r o : wf r -> wf (step r o).
Proof.
  intros Hwf. destruct o; simpl;
    [by apply get_or_create_wf | by apply remove_wf | | by apply acquire_at_wf].
  intros k loc H. cbn in H. by rewrite lookup_empty in H.
Qed.

Lemma run_wf ops r : wf r -> wf (run step r ops).
Proof.
  intros Hwf. apply (run_invariant step wf (fun _ => True)); [|done|by apply Forall_true].
  intros s o Hs _. by apply step_wf.
Qed.

(** A key without intervening removal keeps its limiter. *)
Definition keeps (key : string * string) (o : op) : Prop :=
  match o with
  | Remove p m => (strip (lower p), strip (lower m)) <> key
  | Clear => False
  | _ => True
  end.

Lemma step_keeps key loc r o :
  keeps key o -> limiters r !! key = Some loc -> limiters (step r o) !! key = Some loc.
Proof.
  intros Hk Hl. destruct o; simpl in *.
  - unfold get_or_create. destruct (_normalize_key p m) as [key'|]; [|done].
    destruct (limiters r !! key') eqn:Hn; [done|].
    destruct (make_config _ _ _ _ _); [|done]. destruct (new_limiter _); [|done]. simpl.
    rewrite lookup_insert_ne; [done|]. intros ->. by rewrite Hl in Hn.
  - unfold remove. destruct (_normalize_key p m) as [key'|] eqn:E; [|done].
    apply normalize_key_spec in E as ->.
    destruct (limiters r !! (_, _)); [|done]. simpl. by rewrite lookup_delete_ne.
  - done.
  - unfold acquire_at. destruct (heap r !! loc0); [|done]. by destruct (try_acquire _ _ _).
Qed.

Lemma run_keeps key loc ops : forall r,
  Forall (keeps key) ops -> limiters r !! key = Some loc ->
  limiters (run step r ops) !! key = Some loc.
Proof.
  induction ops as [|o ops IH]; intros r Hops Hl; [done|].
  apply Forall_cons in Hops as [Ho Hops]. simpl. apply IH; [done|]. by apply step_keeps.
Qed.

Lemma get_or_create_stored p m rpm tpm b r loc r' :
  get_or_create p m rpm tpm b r = (Ok loc, r') ->
  limiters r' !! (strip (lower p), strip (lower m)) = Some loc.
Proof.
  unfold get_or_create. destruct (_normalize_key p m) as [key|] eqn:E; [|done].
  apply normalize_key_spec in E as ->.
  destruct (limiters r !! _) eqn:Hn; [by intros; simplify_eq|].
  destruct (make_config _ _ _ _ _); [|done]. destruct (new_limiter _); [|done].
  intros; simplify_eq. apply lookup_insert_eq.
Qed.

(** As long as a key is not removed, every spelling of the same
    provider and model (in case and surrounding blanks) gets the one limiter
    object created first, whatever rates later callers ask for and whatever
    is done in between; and limiters of different keys are different
    objects. *)
Theorem registry_shares_one_limiter p m rpm tpm b r loc r1 ops p' m' rpm' tpm' b' loc' r2 :
  wf r ->
  get_or_create p m rpm tpm b r = (Ok loc, r1) ->
  Forall (keeps (strip (lower p), strip (lower m))) ops ->
  get_or_create p' m' rpm' tpm' b' (run step r1 ops) = (Ok loc', r2) ->
  (loc' = loc <-> strip (lower p') = strip (lower p) /\ strip (lower m') = strip (lower m)) /\
  wf r2.
Proof.
  intros Hwf H1 Hops H2. pose proof (get_or_create_wf p m rpm tpm b r Hwf) as Hwf1.
  rewrite H1 in Hwf1. simpl in Hwf1. apply (run_wf ops) in Hwf1.
  pose proof (get_or_create_wf p' m' rpm' tpm' b' _ Hwf1) as Hwf2. rewrite H2 in Hwf2.
  apply get_or_create_stored, (run_keeps _ _ ops r1 Hops) in H1.
  pose proof (step_keeps _ _ _ (GetOrCreate p' m' rpm' tpm' b') I H1) as H1'.
  simpl in H1'. rewrite H2 in H1'. apply get_or_create_stored in H2. simpl in *.
  split; [|done]. split.
  - intros ->. destruct (Hwf2 _ _ H1') as [_ Hu]. apply Hu in H2. by simplify_eq.
  - intros [E1 E2]. rewrite E1, E2 in H2. congruence.
Qed.

Lemma registry_shares_one_limiter_witness :
  (get_or_create "  OpenAI" "GPT-4 " 5 0 one
    (run step (get_or_create "openai" "gpt-4" 60 0 one new).2
      [GetOrCreate "local" "vllm" 1 0 one; AcquireAt 0 1 0])).1 = Ok 0%nat.
Proof.
  destruct (get_or_create "  OpenAI" "GPT-4 " 5 0 one
    (run step (get_or_create "openai" "gpt-4" 60 0 one new).2
      [GetOrCreate "local" "vllm" 1 0 one; AcquireAt 0 1 0])) as [r r2] eqn:H2.
  assert (exists loc', r = Ok loc') as [loc' ->].
  { apply (f_equal fst) in H2. vm_compute in H2. eexists. symmetry. exact H2. }
  destruct (get_or_create "openai" "gpt-4" 60 0 one new) as [r0 r1] eqn:H1.
  assert (r0 = Ok 0%nat) as ->.
  { apply (f_equal fst) in H1. vm_compute in H1. symmetry. exact H1. }
  cbn [fst snd] in H2 |- *. f_equal.
  apply (registry_shares_one_limiter "openai" "gpt-4" 60 0 one new 0%nat r1
    [GetOrCreate "local" "vllm" 1 0 one; AcquireAt 0 1 0] "  OpenAI" "GPT-4 " 5 0 one loc' r2 new_wf H1).
  - repeat constructor.
  - exact H2.
  - vm_compute. split; reflexivity.
Defined.
End RateLimiterRegistry.
