(* ===== verification/Archive.v ===== *)
(** * Archiving a memory to cold storage

    Models [HandlerMemoryArchive] of
    src/src/omnimemory/nodes/node_memory_lifecycle_orchestrator/handlers/handler_memory_archive.py:
    the read, the checks, the atomic write of the archive file and the guarded
    update of the row, on a table, a file system and an orphan tracker. *)

From S2P Require Import Prelude Breaker Lifecycle Memories.

(** ** Paths and dates *)

(** A path is the list of its [parts], as in [pathlib]. *)
Abbreviation path := (list string).

Definition path_str (p : path) : string :=
  match p with
  | [] => "."
  | "/" :: rest => "/" +:+ String.concat "/" rest
  | _ => String.concat "/" p
  end.

Definition is_relative_to (p base : path) : bool := bool_decide (take (length base) p = base).

Definition parent (p : path) : path :=
  match p with
  | ["/"] => p
  | _ => take (length p - 1) p
  end.

(** Year, month and day of a UTC time, in the proleptic Gregorian calendar. *)
Definition date_of (t : micros) : Z * Z * Z :=
  let z := t / seconds 86400 + 719468 in
  let era := z / 146097 in
  let doe := z mod 146097 in
  let yoe := (doe - doe / 1460 + doe / 36524 - doe / 146096) / 365 in
  let doy := doe - (365 * yoe + yoe / 4 - yoe / 100) in
  let mp := (5 * doy + 2) / 153 in
  let m := if mp <? 10 then mp + 3 else mp - 9 in
  (yoe + era * 400 + (if m <=? 2 then 1 else 0), m, doy - (153 * mp + 2) / 5 + 1).

(** [f"{n:02d}"] of a non-negative number. *)
Definition pad2 (n : Z) : string := if n <? 10 then "0" +:+ pretty n else pretty n.

Module HandlerMemoryArchive.
(** ** Data *)

Record ModelArchiveMemoryCommand : Type := Command {
  memory_id : uuid;
  expected_revision : Z;
  cmd_archive_path : option path;
}.

Record ModelMemoryArchiveResult : Type := Result {
  r_memory_id : uuid;
  success : bool;
  r_archived_at : option micros;
  r_archive_path : option path;
  bytes_written : Z;
  conflict : bool;
  orphaned : bool;
  error_message : option string;
}.

Record ModelArchiveRecord : Type := Record_ {
  rec_memory_id : uuid;
  rec_content : string;
  rec_content_type : string;
  rec_created_at : micros;
  rec_expired_at : micros;
  rec_archived_at : micros;
  rec_lifecycle_revision : Z;
  archive_version : string;
  rec_metadata : option string;
}.

(** The handler's attributes; pool and tracker are there or not. *)
Record t : Type := Handler {
  db_pool : bool;
  archive_base_path : option path;
  orphan_tracker : bool;
  circuit_breaker : option CB.t;
  compression_level : Z;
  initialized : bool;
}.

Definition _DEFAULT_COMPRESSION_LEVEL : Z := 6.
Definition _MIN_COMPRESSION_LEVEL : Z := 1.
Definition _MAX_COMPRESSION_LEVEL : Z := 9.
(** [_CB_*] *)
Definition default_config : CB.config := CB.Config 5 (seconds 60) 2.

Definition __init__ : t := Handler false None false None _DEFAULT_COMPRESSION_LEVEL false.

(** ** The file system and the tracker *)

(** How the system calls of one archive write end: [we_write] is the number
    of bytes [os.write] reports if not all, [we_random] what [mkstemp] puts between its
    prefix and suffix. *)
Record write_env : Type := WriteEnv {
  we_mkdir : option exn;
  we_mkstemp : option exn;
  we_random : string;
  we_write : res (option nat);
  we_fsync : option exn;
  we_close : option exn;
  we_rename : option exn;
  we_unlink : option exn;
}.

Record orphan : Type := Orphan { o_memory_id : uuid; o_path : path; o_reason : string }.

(** What the handler runs on besides the table. [h_resolve] is the symbolic
    link structure, as [Path.resolve] sees it. *)
Record host : Type := Host {
  h_self : t;
  h_resolve : path -> res path;
  files : gmap path string;
  h_disk : nat -> write_env;
  h_writes : nat;
  orphans : list orphan;
  h_tracker : nat -> option exn;
}.

Abbreviation comp := (M (world host)).

Definition upd_self (f : t -> t) (h : host) : host :=
  Host (f (h_self h)) (h_resolve h) (files h) (h_disk h) (h_writes h) (orphans h) (h_tracker h).
Definition upd_files (f : gmap path string -> gmap path string) (h : host) : host :=
  Host (h_self h) (h_resolve h) (f (files h)) (h_disk h) (h_writes h) (orphans h) (h_tracker h).
Definition next_write (h : host) : host :=
  Host (h_self h) (h_resolve h) (files h) (h_disk h) (S (h_writes h)) (orphans h) (h_tracker h).
Definition add_orphan (o : orphan) (h : host) : host :=
  Host (h_self h) (h_resolve h) (files h) (h_disk h) (h_writes h) (orphans h ++ [o]) (h_tracker h).

Definition on_host (f : host -> host) (w : world host) : world host := set_self (f (w_self w)) w.
Definition self (w : world host) : t := h_self (w_self w).

(** ** Life cycle of the handler *)

(** The environment variables [initialize] consults, and the directory
    [tempfile.gettempdir()] returns. [int] of the level is parsed by the
    argument [parse_int]. *)
Record environ : Type := Environ {
  OMNIMEMORY_ARCHIVE_COMPRESSION_LEVEL : option string;
  OMNIMEMORY_ARCHIVE_PATH : option string;
  parse_int : string -> option Z;
  parse_path : string -> path;
  gettempdir : path;
}.

Definition resolve_level (env : environ) (level : option Z) : res (Z * string) :=
  match level with
  | Some l => Ok (l, "constructor argument")
  | None =>
      match OMNIMEMORY_ARCHIVE_COMPRESSION_LEVEL env with
      | Some raw =>
          match parse_int env raw with
          | Some l => Ok (l, "OMNIMEMORY_ARCHIVE_COMPRESSION_LEVEL env var")
          | None => Raise (ValueError
              ("OMNIMEMORY_ARCHIVE_COMPRESSION_LEVEL must be an integer between " +:+
               pretty _MIN_COMPRESSION_LEVEL +:+ " and " +:+ pretty _MAX_COMPRESSION_LEVEL +:+
               " (inclusive), got non-integer value: " +:+ py_repr raw))
          end
      | None => Ok (_DEFAULT_COMPRESSION_LEVEL, "built-in default")
      end
  end.

(** [initialize] assigns the pool and the tracker before it can raise. *)
Definition initialize (env : environ) (pool : bool) (base : option path) (tracker : bool)
    (level : option Z) (now : micros) (h : t) : res unit * t :=
  let h1 := Handler pool (archive_base_path h) tracker (circuit_breaker h)
              (compression_level h) (initialized h) in
  match resolve_level env level with
  | Raise e => (Raise e, h1)
  | Ok (l, source) =>
      if negb ((_MIN_COMPRESSION_LEVEL <=? l) && (l <=? _MAX_COMPRESSION_LEVEL)) then
        (Raise (ValueError ("compression_level must be between " +:+
           pretty _MIN_COMPRESSION_LEVEL +:+ " and " +:+ pretty _MAX_COMPRESSION_LEVEL +:+
           " (inclusive), got " +:+ pretty l +:+ " (from " +:+ source +:+ ")")), h1)
      else
        let base := match base with
          | Some b => b
          | None =>
              match OMNIMEMORY_ARCHIVE_PATH env with
              | Some p => if bool_decide (p = "") then gettempdir env ++ ["omnimemory"; "archives"]
                          else parse_path env p
              | None => gettempdir env ++ ["omnimemory"; "archives"]
              end
          end in
        (Ok tt, Handler pool (Some base) tracker (Some (CB.init default_config now)) l true)
  end.

Definition shutdown (h : t) : t :=
  if initialized h then Handler false None false None _DEFAULT_COMPRESSION_LEVEL false else h.

(** ** The circuit breaker *)

Definition set_cb (b : CB.t) (w : world host) : world host :=
  on_host (upd_self (fun h => Handler (db_pool h) (archive_base_path h) (orphan_tracker h)
    (Some b) (compression_level h) (initialized h))) w.

Definition with_cb (f : micros -> CB.t -> CB.t) : comp unit := fun w =>
  match circuit_breaker (self w) with
  | None => (Raise AssertionError, w)
  | Some b => (Ok tt, set_cb (f (w_now w) b) w)
  end.

Definition record_success : comp unit := with_cb CB.record_success.
Definition record_failure : comp unit := with_cb CB.record_failure.
Definition record_timeout : comp unit := with_cb CB.record_timeout.

Definition should_allow_request : comp bool := fun w =>
  match circuit_breaker (self w) with
  | None => (Raise AssertionError, w)
  | Some b =>
      let (ok, b') := CB.should_allow_request (w_now w) b in
      (Ok ok, set_cb b' w)
  end.

(** ** Paths *)

Definition _get_archive_path (id : uuid) (at_ : micros) : comp path :=
  let! h := gets self in
  match archive_base_path h with
  | None => raise (RuntimeError
      "Archive base path not initialized. This indicates a bug in initialize().")
  | Some base =>
      let '(y, m, d) := date_of at_ in
      ret (base ++ [pretty y; pad2 m; pad2 d; id +:+ ".jsonl.gz"])
  end.

Definition _validate_archive_path (p : path) : comp (option string) :=
  let! h := gets w_self in
  match archive_base_path (h_self h) with
  | None => ret (Some ("Archive base path not initialized. " +:+
                       "Call initialize() before validating paths."))
  | Some base =>
      let check :=
        match h_resolve h base with
        | Raise e => Raise e
        | Ok resolved_base =>
            match h_resolve h p with
            | Raise e => Raise e
            | Ok resolved_archive =>
                if negb (is_relative_to resolved_archive resolved_base) then
                  Ok (Some ("Archive path '" +:+ path_str p +:+ "' is outside allowed directory. " +:+
                    "Path must be under '" +:+ path_str base +:+ "'."))
                else Ok None
            end
        end in
      match check with
      | Ok r => ret r
      | Raise (OSError m | TimeoutError m | ValueError m) =>
          ret (Some ("Failed to validate archive path: " +:+ m))
      | Raise e => raise e
      end
  end.

(** ** The atomic write *)

(** The position of the last dot of a name. *)
Fixpoint last_dot (s : string) : option nat :=
  match s with
  | EmptyString => None
  | String c s =>
      match last_dot s with
      | Some i => Some (S i)
      | None => if Ascii.eqb c "."%char then Some O else None
      end
  end.

Definition name_of (p : path) : string := default "" (last p).

(** [PurePath.stem] *)
Definition stem (p : path) : string :=
  let name := name_of p in
  match last_dot name with
  | Some (S i) => if (S (S i) <? String.length name)%nat then String.substring 0 (S i) name else name
  | _ => name
  end.

(** The name [mkstemp(suffix=".tmp", prefix=f"{stem}.", dir=parent)] makes. *)
Definition temp_path (p : path) (random : string) : path :=
  parent p ++ [stem p +:+ "." +:+ random +:+ ".tmp"].

Definition sys (outcome : option exn) : comp unit :=
  match outcome with Some e => raise e | None => ret tt end.

Definition fs_modify (f : gmap path string -> gmap path string) : comp unit :=
  modify (on_host (upd_files f)).

(** What [os.write] leaves of the bytes in the file. *)
Definition os_write (n : option nat) (bytes : string) : string :=
  match n with None => bytes | Some n => String.substring 0 n bytes end.

(** [Path.rename]: the new name refers to the old one's contents. *)
Definition rename (src dst : path) (fs : gmap path string) : gmap path string :=
  match fs !! src with
  | Some c => <[dst := c]> (delete src fs)
  | None => fs
  end.

(** The cleanup: the temporary file is removed if the system lets us. *)
Definition cleanup (e : write_env) (temp : path) : comp unit :=
  match we_unlink e with
  | Some (OSError _ | TimeoutError _) => ret tt
  | Some x => raise x
  | None => fs_modify (delete temp)
  end.

Definition is_write_error (x : exn) : bool :=
  is_OSError x || match x with ValueError _ => true | _ => false end.

Definition _write_archive_sync (p : path) (compressed_bytes : string) : comp Z :=
  let! h := gets w_self in
  let e := h_disk h (h_writes h) in
  do! modify (on_host next_write);
  do! sys (we_mkdir e);
  do! sys (we_mkstemp e);
  let temp := temp_path p (we_random e) in
  do! fs_modify (<[temp := EmptyString]>);
  try_except
    (do! match we_write e with
         | Raise x => raise x
         | Ok n => fs_modify (<[temp := os_write n compressed_bytes]>)
         end;
     do! sys (we_fsync e);
     do! sys (we_close e);
     do! sys (we_rename e);
     do! fs_modify (rename temp p);
     ret (Z.of_nat (String.length compressed_bytes)))
    (fun x => if is_write_error x then Some (do! cleanup e temp; raise x) else None).

(** ** The two statements *)

(** The number in [re.match(r"UPDATE (\d+)", tag)]. *)
Fixpoint digits (s : string) (acc : Z) : Z :=
  match s with
  | EmptyString => acc
  | String c s =>
      if char_in "0"%char "9"%char c
      then digits s (10 * acc + (Z.of_nat (nat_of_ascii c) - 48)) else acc
  end.

Definition parse_tag (tag : string) : option Z :=
  if negb (String.prefix "UPDATE " tag) then None
  else
    let rest := String.substring 7 (String.length tag - 7) tag in
    match rest with
    | String c _ => if char_in "0"%char "9"%char c then Some (digits rest 0) else None
    | EmptyString => None
    end.

Definition require_pool : comp unit := fun w =>
  if db_pool (self w) then (Ok tt, w)
  else (Raise (RuntimeError ("Database pool not configured. "
                             +:+ "Initialize handler with db_pool parameter.")), w).

Definition _mark_archived (id : uuid) (revision : Z) (at_ : micros) (p : path) : comp bool :=
  do! require_pool;
  let! tag := db_call (MARK_ARCHIVED_SQL id revision at_ (path_str p)) in
  match parse_tag tag with
  | None => raise (RuntimeError ("Unexpected DB result format: " +:+ tag))
  | Some rows_affected => ret (0 <? rows_affected)
  end.

(** [track_orphan] of the configured tracker, which may raise. *)
Definition track_orphan (id : uuid) (p : path) (why : string) : comp unit :=
  let! h := gets w_self in
  if orphan_tracker (h_self h) then
    do! modify (on_host (add_orphan (Orphan id p why)));
    sys (h_tracker h (length (orphans h)))
  else ret tt.

Definition failed (id : uuid) (msg : string) : ModelMemoryArchiveResult :=
  Result id false None None 0 false false (Some msg).

Definition orphaned_result (id : uuid) (p : path) (n : Z) (conflicting : bool) (msg : string)
    : ModelMemoryArchiveResult :=
  Result id false None (Some p) n conflicting true (Some msg).

(** *** The handler, over the serializers it calls *)
Section handle.
(** [ModelGenericMetadata.model_validate], pydantic's [model_dump_json] and
    [gzip.compress] with its level. *)
Variable validate_metadata : string -> res string.
Variable model_dump_json : ModelArchiveRecord -> string.
Variable gzip_compress : Z -> string -> string.

Definition serialize (level : Z) (record : ModelArchiveRecord) : string :=
  gzip_compress level (model_dump_json record +:+ String "010"%char EmptyString).

Definition _read_memory (id : uuid) (revision : Z) : comp (option mem_row) :=
  do! require_pool;
  let! row := db_call (SELECT_ROW id) in
  match row with
  | None => raise (ValueError ("Memory " +:+ id +:+ " not found"))
  | Some row =>
      if negb (lifecycle_revision row =? revision) then ret None
      else
        match metadata row with
        | None => ret (Some row)
        | Some raw =>
            match validate_metadata raw with
            | Raise e => raise e
            | Ok m => ret (Some (MemRow (content row) (content_type row) (created_at row)
                (expired_at row) (lifecycle_state row) (lifecycle_revision row) (Some m)
                (archived_at row) (archive_path row) (updated_at row)))
            end
        end
  end.

Definition read_error (id : uuid) (e : exn)
    : option (comp (option mem_row + ModelMemoryArchiveResult)) :=
  match e with
  | ValueError m => Some (ret (inr (failed id m)))
  | PostgresError m =>
      Some (do! record_failure; ret (inr (failed id ("Database error reading memory: " +:+ m))))
  | InterfaceError m | InternalClientError m =>
      Some (do! record_failure; ret (inr (failed id ("Client error reading memory: " +:+ m))))
  | TimeoutError m =>
      Some (do! record_timeout; ret (inr (failed id ("Query timeout reading memory: " +:+ m))))
  | _ => None
  end.

(** The read with its accounting and its [except] clauses. *)
Definition checked_read (command : ModelArchiveMemoryCommand)
    : comp (option mem_row + ModelMemoryArchiveResult) :=
  try_except
    (let! memory := _read_memory (memory_id command) (expected_revision command) in
     do! match memory with Some _ => record_success | None => ret tt end;
     ret (inl memory))
    (read_error (memory_id command)).

Definition mark_error (id : uuid) (p : path) (n : Z) (e : exn)
    : option (comp (option ModelMemoryArchiveResult)) :=
  let report (count : comp unit) why msg :=
    Some (do! count; do! track_orphan id p why; ret (Some (orphaned_result id p n false msg))) in
  match e with
  | PostgresError m =>
      report record_failure "database_error_during_state_update"
        ("Database error during state update: " +:+ m)
  | InterfaceError m | InternalClientError m =>
      report record_failure "client_error_during_state_update"
        ("Client error during state update: " +:+ m)
  | TimeoutError m =>
      report record_timeout "timeout_during_state_update"
        ("Timeout during state update: " +:+ m)
  | _ => None
  end.

Definition make_record (id : uuid) (row : mem_row) (now : micros) : ModelArchiveRecord :=
  Record_ id (content row) (content_type row) (created_at row)
    (default now (expired_at row)) now (lifecycle_revision row) "1.0" (metadata row).

(** From the update on: [n] bytes are in the file [p]. *)
Definition finish (command : ModelArchiveMemoryCommand) (now : micros) (p : path) (n : Z)
    : comp ModelMemoryArchiveResult :=
  let id := memory_id command in
  let! outcome :=
    try_except
      (let! updated := _mark_archived id (expected_revision command) now p in
       do! record_success;
       if updated then ret None
       else
         do! track_orphan id p "revision_conflict_during_state_update";
         ret (Some (orphaned_result id p n true
           ("Revision conflict during state update. " +:+
            "Archive file written but state not updated."))))
      (mark_error id p n) in
  match outcome with
  | Some r => ret r
  | None => ret (Result id true (Some now) (Some p) n false false None)
  end.

(** From the write on. *)
Definition persist (command : ModelArchiveMemoryCommand) (now : micros) (p : path)
    (compressed_bytes : string) : comp ModelMemoryArchiveResult :=
  let! written :=
    try_except
      (let! n := _write_archive_sync p compressed_bytes in ret (inl n))
      (fun e => if is_OSError e
                then Some (ret (inr (failed (memory_id command)
                       ("Archive write failed: " +:+ exn_str e))))
                else None) in
  match written with
  | inr r => ret r
  | inl n => finish command now p n
  end.

(** From the serialization on: [row] may be archived. *)
Definition store (command : ModelArchiveMemoryCommand) (now : micros) (row : mem_row)
    : comp ModelMemoryArchiveResult :=
  let id := memory_id command in
  let! h := gets self in
  let compressed_bytes := serialize (compression_level h) (make_record id row now) in
  let! p := match cmd_archive_path command with
            | Some p => ret p
            | None => _get_archive_path id now
            end in
  let! validation_error := match cmd_archive_path command with
                           | Some p => _validate_archive_path p
                           | None => ret None
                           end in
  match validation_error with
  | Some msg => ret (failed id msg)
  | None => persist command now p compressed_bytes
  end.

Definition handle (command : ModelArchiveMemoryCommand) : comp ModelMemoryArchiveResult :=
  let id := memory_id command in
  let! h := gets self in
  if negb (initialized h) then
    raise (RuntimeError "Handler not initialized. Call initialize() before handle().")
  else
    let! now := gets w_now in
    match circuit_breaker h with
    | None => raise (RuntimeError
        "Circuit breaker not initialized. This indicates a bug in initialize().")
    | Some _ =>
        let! allowed := should_allow_request in
        if negb allowed then
          ret (failed id ("Database circuit breaker is open. " +:+
                          "Service is protecting against cascading failures."))
        else
          let! read := checked_read command in
          match read with
          | inr r => ret r
          | inl None =>
              ret (Result id false None None 0 true false
                (Some ("Revision conflict: expected " +:+ pretty (expected_revision command) +:+
                       ", memory was modified or not found")))
          | inl (Some row) =>
              if negb (bool_decide (lifecycle_state row = EXPIRED)) then
                ret (failed id ("Cannot archive memory in state " +:+ value (lifecycle_state row) +:+
                  ". Only EXPIRED memories can be archived."))
              else store command now row
          end
    end.

(** ** Specifications *)

(** A handler after [initialize] with a pool. *)
Definition ready (w : world host) : Prop :=
  initialized (self w) = true /\ db_pool (self w) = true /\
  is_Some (archive_base_path (self w)) /\ is_Some (circuit_breaker (self w)).

(** Everything but the breaker, the clock and the three stores. *)
Record same_setup (w w' : world host) : Prop := {
  st_ready : ready w';
  st_env : w_env w' = w_env w;
  st_base : archive_base_path (self w') = archive_base_path (self w);
  st_orphan_tracker : orphan_tracker (self w') = orphan_tracker (self w);
  st_level : compression_level (self w') = compression_level (self w);
  st_resolve : h_resolve (w_self w') = h_resolve (w_self w);
  st_disk : h_disk (w_self w') = h_disk (w_self w);
  st_tracker : h_tracker (w_self w') = h_tracker (w_self w);
  st_clock : w_now w <= w_now w';
}.

Lemma same_setup_refl w : ready w -> same_setup w w.
Proof. by split. Qed.

Lemma same_setup_trans w1 w2 w3 : same_setup w1 w2 -> same_setup w2 w3 -> same_setup w1 w3.
Proof. intros [] []. split; (done || congruence || lia). Qed.

Lemma ready_set_breaker b w : ready w -> ready (set_cb b w).
Proof. by intros (? & ? & ? & _). Qed.

Lemma same_setup_set_cb b w w' : same_setup w w' -> same_setup w (set_cb b w').
Proof. intros []. split; [by apply ready_set_breaker|done..]. Qed.

Lemma same_setup_after_call db w w' : same_setup w w' -> same_setup w (after_call db w').
Proof. intros []. split; [done..|]. simpl. lia. Qed.

Lemma same_setup_files f w w' : same_setup w w' -> same_setup w (on_host (upd_files f) w').
Proof. intros []. by split. Qed.

Lemma same_setup_orphan o w w' : same_setup w w' -> same_setup w (on_host (add_orphan o) w').
Proof. intros []. by split. Qed.

Lemma same_setup_write w w' : same_setup w w' -> same_setup w (on_host next_write w').
Proof. intros []. by split. Qed.

Create HintDb setup.
#[local] Hint Resolve same_setup_refl same_setup_set_cb same_setup_after_call same_setup_files
  same_setup_orphan same_setup_write ready_set_breaker : setup.

(** The stores of the host are as before. *)
Definition same_stores (w w' : world host) : Prop :=
  files (w_self w') = files (w_self w) /\ orphans (w_self w') = orphans (w_self w) /\
  h_writes (w_self w') = h_writes (w_self w).

Lemma wp_with_breaker f Q w :
  is_Some (circuit_breaker (self w)) ->
  (forall b, circuit_breaker (self w) = Some b -> Q (Ok tt) (set_cb (f (w_now w) b) w)) ->
  wp (with_cb f) Q w.
Proof. intros [b Hb] HQ. unfold wp, with_cb. rewrite Hb. by apply HQ. Qed.

Lemma wp_require_pool Q w : db_pool (self w) = true -> wp require_pool Q w <-> Q (Ok tt) w.
Proof. unfold wp, require_pool. by intros ->. Qed.

(** The exceptions the handler turns into results. *)
Definition accounted (e : exn) : Prop :=
  match e with
  | PostgresError _ | InterfaceError _ | InternalClientError _ | TimeoutError _ => True
  | _ => False
  end.

(** [row] is the stored row, its metadata validated. *)
Definition validated (stored row : mem_row) : Prop :=
  content row = content stored /\ content_type row = content_type stored /\
  created_at row = created_at stored /\ expired_at row = expired_at stored /\
  lifecycle_state row = lifecycle_state stored /\
  lifecycle_revision row = lifecycle_revision stored /\
  match metadata stored with
  | None => metadata row = None
  | Some raw => exists m, validate_metadata raw = Ok m /\ metadata row = Some m
  end.

(** A result that claims nothing. *)
Definition refusal (id : uuid) (r : ModelMemoryArchiveResult) : Prop :=
  r_memory_id r = id /\ success r = false /\ orphaned r = false /\
  r_archive_path r = None /\ bytes_written r = 0 /\ is_Some (error_message r).

Lemma failed_refusal id m : refusal id (failed id m).
Proof. unfold refusal. simpl. split_and!; eauto. Qed.
#[local] Hint Resolve failed_refusal : setup.

Definition read_result (command : ModelArchiveMemoryCommand) (w : world host)
    (r : res (option mem_row + ModelMemoryArchiveResult)) : Prop :=
  match r with
  | Ok (inl (Some row)) => next_outcome w = Completes /\
      exists stored, next_table w !! memory_id command = Some stored /\
        lifecycle_revision stored = expected_revision command /\ validated stored row
  | Ok (inl None) => True
  | Ok (inr x) => refusal (memory_id command) x
  | Raise e => ~ accounted e
  end.

Ltac read_done :=
  split; [auto with setup|]; split; [done|]; split; [done|]; split; [done|];
  simpl; auto with setup.

Lemma checked_read_spec command w :
  ready w ->
  wp (checked_read command) (fun r w' => same_setup w w' /\ same_stores w w' /\
    w_db w' = next_table w /\ w_calls w' = S (w_calls w) /\ read_result command w r) w.
Proof.
  intros Hr. pose proof Hr as (_ & Hp & _ & Hb). unfold checked_read, _read_memory. wp_step.
  rewrite wp_require_pool by done. wp_step.
  destruct (next_outcome w) as [|e applied] eqn:Eo; cbn [SELECT_ROW fst snd].
  - destruct (next_table w !! memory_id command) as [row|] eqn:Hrow; wp_step.
    2:{ cbn [read_error]. wp_step. read_done. }
    destruct (lifecycle_revision row =? expected_revision command) eqn:Hrev;
      cbn [negb]; breflect; wp_step; [|read_done].
    destruct (metadata row) as [raw|] eqn:Hm; wp_step.
    + destruct (validate_metadata raw) as [m|e] eqn:Hv; wp_step.
      * apply wp_with_breaker; [done|]. intros b _. wp_step. read_done.
        split; [done|]. exists row. unfold validated. split_and!; try done. simpl. rewrite Hm. eauto.
      * destruct e; cbn [read_error]; wp_step;
          try (apply wp_with_breaker; [done|]; intros b _; wp_step); read_done.
    + apply wp_with_breaker; [done|]. intros b _. wp_step. read_done.
      split; [done|]. exists row. unfold validated. split_and!; try done. by rewrite Hm.
  - replace (if applied then next_table w else next_table w) with (next_table w)
      by by destruct applied.
    destruct e; cbn [read_error]; wp_step;
      try (apply wp_with_breaker; [done|]; intros b _; wp_step); read_done.
Qed.

(** What one archive write can do, at the path [p]: all, or nothing but to
    the temporary file. *)
Definition temp_of (w : world host) (p : path) : path :=
  temp_path p (we_random (h_disk (w_self w) (h_writes (w_self w)))).

(** Every system call of the write went through, [os.write] with [n]. *)
Definition writes (e : write_env) (n : option nat) : Prop :=
  we_mkdir e = None /\ we_mkstemp e = None /\ we_write e = Ok n /\ we_fsync e = None /\
  we_close e = None /\ we_rename e = None.

Inductive write_outcome (p : path) (bytes : string) (w : world host) : res Z -> world host -> Prop :=
  | WO_written n w' :
      writes (h_disk (w_self w) (h_writes (w_self w))) n ->
      files (w_self w') =
        <[p := os_write n bytes]> (delete (temp_of w p) (files (w_self w))) ->
      write_outcome p bytes w (Ok (Z.of_nat (String.length bytes))) w'
  | WO_failed e w' :
      (forall q, q <> temp_of w p -> files (w_self w') !! q = files (w_self w) !! q) ->
      write_outcome p bytes w (Raise e) w'.

(** Nothing but the file system moved. *)
Definition same_rest (w w' : world host) : Prop :=
  w_db w' = w_db w /\ w_calls w' = w_calls w /\ orphans (w_self w') = orphans (w_self w).

Lemma wp_sys o Q w :
  wp (sys o) Q w <-> match o with Some e => Q (Raise e) w | None => Q (Ok tt) w end.
Proof. by destruct o. Qed.

Lemma wp_fs_modify f Q w : wp (fs_modify f) Q w <-> Q (Ok tt) (on_host (upd_files f) w).
Proof. done. Qed.

Lemma cleanup_spec e temp w w0 :
  same_setup w0 w -> same_rest w0 w ->
  wp (cleanup e temp) (fun _ w' => same_setup w0 w' /\ same_rest w0 w' /\
    forall q, q <> temp -> files (w_self w') !! q = files (w_self w) !! q) w.
Proof.
  intros Hs Hr. unfold cleanup. destruct (we_unlink e) as [x|].
  - destruct x; wp_step; done.
  - rewrite wp_fs_modify. split; [auto with setup|]. split; [done|]. intros q Hq. simpl.
    by rewrite lookup_delete_ne.
Qed.

Lemma write_spec p bytes w :
  ready w ->
  wp (_write_archive_sync p bytes) (fun r w' => same_setup w w' /\ same_rest w w' /\
    write_outcome p bytes w r w') w.
Proof.
  intros Hr. unfold _write_archive_sync. wp_step. fold (temp_of w p).
  set (e := h_disk _ _). set (w1 := on_host next_write w).
  assert (Hs1 : same_setup w w1) by (subst w1; auto with setup).
  rewrite wp_sys. destruct (we_mkdir e) eqn:E1; [split; [done|]; by split; [|apply WO_failed]|]. wp_step.
  rewrite wp_sys. destruct (we_mkstemp e) eqn:E2; [split; [done|]; by split; [|apply WO_failed]|]. wp_step.
  change (temp_path p (we_random e)) with (temp_of w p). set (temp := temp_of w p).
  rewrite wp_fs_modify. wp_step. set (w2 := on_host (upd_files (<[temp := EmptyString]>)) w1).
  assert (Hs2 : same_setup w w2) by (subst w2; auto with setup).
  assert (Hraise : forall x w3, same_setup w w3 -> same_rest w w3 ->
    (forall q, q <> temp -> files (w_self w3) !! q = files (w_self w) !! q) ->
    match (if is_write_error x then Some (do! cleanup e temp; raise x) else None) with
    | Some k => wp k (fun r w' => same_setup w w' /\ same_rest w w' /\ write_outcome p bytes w r w') w3
    | None => same_setup w w3 /\ same_rest w w3 /\ write_outcome p bytes w (Raise x) w3
    end).
  { intros x w3 Hs3 Hr3 Hf. destruct (is_write_error x).
    - wp_step. eapply wp_mono; [|by apply (cleanup_spec e temp w3 w)].
      intros r w4 (Hs4 & Hr4 & Hf4).
      assert (Hq : forall q, q <> temp -> files (w_self w4) !! q = files (w_self w) !! q)
        by (intros q Hq; by rewrite Hf4, Hf).
      destruct r; [wp_step|]; (split; [done|]; split; [done|]; by apply WO_failed).
    - split; [done|]. split; [done|]. by apply WO_failed. }
  destruct (we_write e) as [n|x] eqn:Hw; wp_step.
  2:{ apply Hraise; [done..|]. intros q Hq. subst w2. simpl. by rewrite lookup_insert_ne. }
  rewrite wp_fs_modify. wp_step. set (w3 := on_host (upd_files _) w2).
  assert (Hs3 : same_setup w w3) by (subst w3; auto with setup).
  assert (Hf3 : forall q, q <> temp -> files (w_self w3) !! q = files (w_self w) !! q)
    by (intros q Hq; subst w3; simpl; by rewrite !lookup_insert_ne).
  rewrite wp_sys. destruct (we_fsync e) eqn:E3; [by apply Hraise|]. wp_step.
  rewrite wp_sys. destruct (we_close e) eqn:E4; [by apply Hraise|]. wp_step.
  rewrite wp_sys. destruct (we_rename e) eqn:E5; [by apply Hraise|]. wp_step.
  rewrite wp_fs_modify. wp_step. split; [auto with setup|]. split; [done|].
  eapply WO_written; [by split_and!|]. simpl. unfold rename. rewrite lookup_insert_eq.
  by rewrite insert_insert_eq, delete_insert_eq.
Qed.

(** ** The update *)

Definition no_tracker_error (w : world host) : Prop := forall k, h_tracker (w_self w) k = None.

(** The orphan list after tracking [o], if a tracker is configured. *)
Definition tracked (w : world host) (o : orphan) : list orphan :=
  if orphan_tracker (self w) then orphans (w_self w) ++ [o] else orphans (w_self w).

Lemma track_orphan_spec id p why w :
  no_tracker_error w -> ready w ->
  wp (track_orphan id p why) (fun r w' => r = Ok tt /\ same_setup w w' /\
    w_db w' = w_db w /\ w_calls w' = w_calls w /\ files (w_self w') = files (w_self w) /\
    orphans (w_self w') = tracked w (Orphan id p why)) w.
Proof.
  intros Hok Hr. unfold track_orphan, tracked. wp_step. fold (self w).
  destruct (orphan_tracker (self w)); wp_step; [|split_and!; auto with setup].
  rewrite wp_sys. rewrite Hok. split_and!; auto with setup.
Qed.

(** The row a successful archive leaves. *)
Definition archived (server now : micros) (p : path) (row : mem_row) : mem_row :=
  update_updated_at_column server (archive_row now (path_str p) row).

Inductive finish_outcome (command : ModelArchiveMemoryCommand) (now : micros) (p : path) (n : Z)
    (w : world host) : res ModelMemoryArchiveResult -> world host -> Prop :=
  | FO_archived row w' :
      next_outcome w = Completes ->
      next_table w !! memory_id command = Some row -> lifecycle_state row = EXPIRED ->
      lifecycle_revision row = expected_revision command ->
      expected_revision command < int4_max ->
      w_db w' = <[memory_id command := archived (next_server w) now p row]> (next_table w) ->
      orphans (w_self w') = orphans (w_self w) ->
      finish_outcome command now p n w
        (Ok (Result (memory_id command) true (Some now) (Some p) n false false None)) w'
  | FO_orphaned why c msg w' :
      w_db w' = next_table w \/
        w_db w' = (MARK_ARCHIVED_SQL (memory_id command) (expected_revision command) now
                     (path_str p) (next_server w) (next_table w)).2 ->
      (next_outcome w = Completes ->
         ~ updates (memory_id command) (expected_revision command) EXPIRED (next_table w)) ->
      (forall e applied, next_outcome w = Fails e applied -> accounted e) ->
      orphans (w_self w') = tracked w (Orphan (memory_id command) p why) ->
      finish_outcome command now p n w
        (Ok (orphaned_result (memory_id command) p n c msg)) w'
  | FO_escaped e applied w' :
      next_outcome w = Fails e applied -> ~ accounted e ->
      w_db w' = (if applied then
                   (MARK_ARCHIVED_SQL (memory_id command) (expected_revision command) now
                     (path_str p) (next_server w) (next_table w)).2
                 else next_table w) ->
      orphans (w_self w') = orphans (w_self w) ->
      finish_outcome command now p n w (Raise e) w'.

Lemma mark_error_spec id p n e w :
  accounted e -> ready w -> no_tracker_error w ->
  exists k, mark_error id p n e = Some k /\
    wp k (fun r w' => exists (why msg : string), r = Ok (Some (orphaned_result id p n false msg)) /\
      same_setup w w' /\ w_db w' = w_db w /\ w_calls w' = w_calls w /\
      files (w_self w') = files (w_self w) /\
      orphans (w_self w') = tracked w (Orphan id p why)) w.
Proof.
  intros He Hr Hok. pose proof Hr as (_ & _ & _ & Hb).
  destruct e; try done; eexists; (split; [reflexivity|]); wp_step;
    (apply wp_with_breaker; [done|]; intros b _; wp_step);
    (eapply wp_mono; [|apply track_orphan_spec; [done|auto with setup]]);
    intros r w' (-> & Hs & Hdb & Hc & Hf & Ho); wp_step; eexists _, _;
    (split; [reflexivity|]); split_and!; try done;
    (eapply same_setup_trans; [|exact Hs]; auto with setup).
Qed.

Lemma mark_archived_tag id rev at_ p server t0 :
  match MARK_ARCHIVED_SQL id rev at_ (path_str p) server t0 with
  | (Ok tag, t1) =>
      (tag = "UPDATE 1" /\ exists row, t0 !! id = Some row /\ lifecycle_state row = EXPIRED /\
         lifecycle_revision row = rev /\ rev < int4_max /\
         t1 = <[id := archived server at_ p row]> t0) \/
      (tag = "UPDATE 0" /\ t1 = t0 /\ ~ updates id rev EXPIRED t0)
  | (Raise e, t1) => accounted e /\ t1 = t0 /\ ~ updates id rev EXPIRED t0
  end.
Proof.
  unfold MARK_ARCHIVED_SQL. pose proof (update_where_spec id rev EXPIRED (archive_row at_ (path_str p)) server t0) as Hu.
  destruct (update_where _ _ _ _ _ t0) as [[[r|]|e] t1].
  - destruct Hu as (_ & row & ? & ? & ? & ? & ->). left. split; [done|]. by exists row.
  - destruct Hu as [-> Hno]. right. split_and!; try done.
    intros (row & Hrow & ? & ? & _). by destruct (Hno row Hrow).
  - destruct Hu as (-> & -> & Hov). split_and!; [done|done|]. by apply overflows_not_updates.
Qed.

Lemma finish_spec command now p n w :
  ready w -> no_tracker_error w ->
  wp (finish command now p n) (fun r w' => same_setup w w' /\ w_calls w' = S (w_calls w) /\
    files (w_self w') = files (w_self w) /\ finish_outcome command now p n w r w') w.
Proof.
  intros Hr Hok. pose proof Hr as (_ & Hp & _ & Hb). unfold finish, _mark_archived. wp_step.
  rewrite wp_require_pool by done. wp_step.
  set (id := memory_id command). set (rev := expected_revision command).
  pose proof (mark_archived_tag id rev now p (next_server w) (next_table w)) as Ht.
  assert (Herr : forall e db, accounted e ->
    (db = next_table w \/ db = (MARK_ARCHIVED_SQL id rev now (path_str p) (next_server w) (next_table w)).2) ->
    (next_outcome w = Completes -> ~ updates id rev EXPIRED (next_table w)) ->
    (forall e applied, next_outcome w = Fails e applied -> accounted e) ->
    exists k, mark_error id p n e = Some k /\
      wp k (fun r w' => exists (why msg : string), r = Ok (Some (orphaned_result id p n false msg)) /\
        same_setup w w' /\ w_calls w' = S (w_calls w) /\
        files (w_self w') = files (w_self w) /\
        finish_outcome command now p n w (Ok (orphaned_result id p n false msg)) w')
        (after_call db w)).
  { intros e db He Hdb Hno Hacc.
    destruct (mark_error_spec id p n e (after_call db w)) as (k & Hk & Hwp); [done..|].
    exists k. split; [done|].
    eapply wp_mono; [|exact Hwp]. intros r w' (why & msg & -> & Hs & Hdb' & Hc & Hf & Ho).
    exists why, msg. split; [done|].
    split; [eapply same_setup_trans; [|exact Hs]; auto with setup|].
    split_and!; [done..|]. eapply FO_orphaned; [by rewrite Hdb'|done|done|exact Ho]. }
  destruct (next_outcome w) as [|e applied] eqn:Eo.
  - destruct (MARK_ARCHIVED_SQL id rev now (path_str p) (next_server w) (next_table w)) as [[tag|e] t1]; cbn [fst snd].
    + destruct Ht as [(-> & row & Hrow & Hst & Hrv & Hlt & ->)|(-> & -> & Hno)].
      * change (parse_tag "UPDATE 1") with (Some 1). wp_step. apply wp_with_breaker; [done|]. intros b _. cbn [Z.ltb Z.compare]. wp_step.
        split; [auto with setup|]. split_and!; [done..|]. by eapply FO_archived.
      * change (parse_tag "UPDATE 0") with (Some 0). wp_step. apply wp_with_breaker; [done|].
        intros b _. cbn [Z.ltb Z.compare]. wp_step.
        eapply wp_mono; [|apply track_orphan_spec; [done|auto with setup]].
        intros r w' (-> & Hs & Hdb & Hc & Hf & Ho). wp_step.
        split; [eapply same_setup_trans; [|exact Hs]; auto with setup|].
        split_and!; [done..|]. eapply FO_orphaned; [by left|done|congruence|exact Ho].
    + destruct Ht as (He & -> & Hno).
      destruct (Herr e (next_table w) He (or_introl eq_refl) (fun _ => Hno))
        as (k & -> & Hk); [congruence|].
      eapply wp_mono; [|exact Hk]. intros r w' (why & msg & -> & H). by wp_step.
  - assert (Hd : accounted e \/ ~ accounted e) by (destruct e; (by left) || (right; intros [])).
    destruct Hd as [He|He].
    + match goal with |- context [after_call ?d w] =>
        destruct (Herr e d He) as (k & Hk & Hwp);
          [by destruct applied; auto|done|by intros; simplify_eq|rewrite Hk] end.
      eapply wp_mono; [|exact Hwp]. intros r w' (why & msg & -> & H). by wp_step.
    + assert (mark_error id p n e = None) as -> by (by destruct e; try destruct (He I)).
      split; [auto with setup|]. split_and!; [done..|]. eapply FO_escaped; [exact Eo|done|done|done].
Qed.

(** Whatever the end, the table is untouched or the row archived. *)
Lemma finish_table command now p n w r w' :
  finish_outcome command now p n w r w' ->
  w_db w' = next_table w \/ exists row, next_table w !! memory_id command = Some row /\
    lifecycle_state row = EXPIRED /\ lifecycle_revision row = expected_revision command /\
    w_db w' = <[memory_id command := archived (next_server w) now p row]> (next_table w).
Proof.
  assert (Hmark : forall t1, t1 = (MARK_ARCHIVED_SQL (memory_id command) (expected_revision command)
        now (path_str p) (next_server w) (next_table w)).2 ->
      t1 = next_table w \/ exists row, next_table w !! memory_id command = Some row /\
        lifecycle_state row = EXPIRED /\ lifecycle_revision row = expected_revision command /\
        t1 = <[memory_id command := archived (next_server w) now p row]> (next_table w)).
  { intros t1 ->. pose proof (mark_archived_tag (memory_id command) (expected_revision command)
      now p (next_server w) (next_table w)) as Ht.
    destruct (MARK_ARCHIVED_SQL _ _ _ _ _ _) as [[tag|e] t2]; simpl.
    - destruct Ht as [(_ & row2 & ? & ? & ? & _ & ->)|(_ & -> & _)]; [right; by exists row2|by left].
    - destruct Ht as (_ & -> & _). by left. }
  intros [row w2 ? ? ? ? ? Hdb _|why c msg w2 [Hdb|Hdb] _ _ _|e [] w2 _ _ Hdb _]; auto.
  right. by exists row.
Qed.

(** ** The whole handler *)

(** The path an archive goes to: the generated one, or the one asked for,
    which then resolves to a place under the base directory. *)
Definition dated_path (base : path) (now : micros) (id : uuid) : path :=
  let '(y, m, d) := date_of now in base ++ [pretty y; pad2 m; pad2 d; id +:+ ".jsonl.gz"].

Definition path_allowed (command : ModelArchiveMemoryCommand) (w : world host) (p : path) : Prop :=
  exists base, archive_base_path (self w) = Some base /\
    match cmd_archive_path command with
    | None => p = dated_path base (w_now w) (memory_id command)
    | Some q => p = q /\ exists rb rp, h_resolve (w_self w) base = Ok rb /\
        h_resolve (w_self w) p = Ok rp /\ rb `prefix_of` rp
    end.

Definition archive_bytes (w : world host) (id : uuid) (row : mem_row) : string :=
  serialize (compression_level (self w)) (make_record id row (w_now w)).

(** The row the handler has read and may archive. *)
Definition readable (command : ModelArchiveMemoryCommand) (w : world host) (row : mem_row) : Prop :=
  next_outcome w = Completes /\ lifecycle_state row = EXPIRED /\
  exists stored, next_table w !! memory_id command = Some stored /\
    lifecycle_revision stored = expected_revision command /\ validated stored row.

Inductive handle_outcome (command : ModelArchiveMemoryCommand) (w : world host)
    : res ModelMemoryArchiveResult -> world host -> Prop :=
  | HO_refused r w' :
      same_stores w w' ->
      (w_db w' = w_db w /\ w_calls w' = w_calls w) \/
        (w_db w' = next_table w /\ w_calls w' = S (w_calls w)) ->
      match r with Ok x => refusal (memory_id command) x | Raise e => True end ->
      handle_outcome command w r w'
  | HO_unwritten row p e r w' :
      readable command w row -> path_allowed command w p ->
      w_db w' = next_table w -> w_calls w' = S (w_calls w) ->
      orphans (w_self w') = orphans (w_self w) ->
      write_outcome p (archive_bytes w (memory_id command) row) w (Raise e) w' ->
      match r with Ok x => refusal (memory_id command) x | Raise e' => is_OSError e' = false end ->
      handle_outcome command w r w'
  | HO_written row p n w1 r w' :
      readable command w row -> path_allowed command w p ->
      same_setup w w1 -> w_db w1 = next_table w -> w_calls w1 = S (w_calls w) ->
      orphans (w_self w1) = orphans (w_self w) ->
      write_outcome p (archive_bytes w (memory_id command) row) w (Ok n) w1 ->
      files (w_self w') = files (w_self w1) -> w_calls w' = S (w_calls w1) ->
      finish_outcome command (w_now w) p n w1 r w' ->
      handle_outcome command w r w'.

Lemma is_relative_to_prefix p base : is_relative_to p base = true -> base `prefix_of` p.
Proof.
  unfold is_relative_to. intros H. apply bool_decide_eq_true in H. exists (drop (length base) p).
  rewrite <- H at 1. by rewrite take_drop.
Qed.

Lemma validate_spec q w base :
  archive_base_path (self w) = Some base ->
  wp (_validate_archive_path q) (fun r w' => w' = w /\
    match r with
    | Ok None => exists rb rp, h_resolve (w_self w) base = Ok rb /\
        h_resolve (w_self w) q = Ok rp /\ rb `prefix_of` rp
    | Ok (Some _) => True
    | Raise e => True
    end) w.
Proof.
  intros Hb. unfold _validate_archive_path. wp_step. unfold self in Hb. rewrite Hb.
  destruct (h_resolve (w_self w) base) as [rb|e] eqn:E1;
    [|by destruct e].
  destruct (h_resolve (w_self w) q) as [rp|e] eqn:E2;
    [|by destruct e].
  destruct (is_relative_to rp rb) eqn:E; cbn [negb]; wp_step; split; try done.
  exists rb, rp. split_and!; [done..|]. by apply is_relative_to_prefix.
Qed.

Lemma store_spec command w0 w row :
  ready w0 -> same_setup w0 w -> same_stores w0 w -> w_db w = next_table w0 ->
  w_calls w = S (w_calls w0) -> no_tracker_error w0 -> readable command w0 row ->
  wp (store command (w_now w0) row) (handle_outcome command w0) w.
Proof.
  intros Hr0 Hs Hst Hdb Hc Hok Hread. pose proof Hs as [Hr Henv Hbase Htr Hlv Hres Hdisk Htrk Hclk].
  pose proof Hst as (Hfi & Hor & Hwr).
  unfold store. wp_step. destruct Hr0 as (_ & _ & [base Hb] & _).
  set (id := memory_id command).
  set (bytes := serialize _ _).
  assert (Hbytes : bytes = archive_bytes w0 id row) by (unfold archive_bytes, bytes; by rewrite Hlv).
  assert (Hwrite : forall p, path_allowed command w0 p ->
    wp (persist command (w_now w0) p bytes) (handle_outcome command w0) w).
  { intros p Hp. unfold persist. wp_step. eapply wp_mono; [|by apply write_spec].
    intros r w1 (Hs1 & (Hdb1 & Hc1 & Ho1) & Hw).
    assert (Hw0 : write_outcome p (archive_bytes w0 id row) w0 r w1).
    { rewrite <- Hbytes. assert (Ht : temp_of w p = temp_of w0 p)
        by (unfold temp_of; by rewrite Hdisk, Hwr).
      destruct Hw as [n w1 Hn Hf|e w1 Hf].
      - eapply WO_written; [by rewrite <- Hdisk, <- Hwr|by rewrite Hf, Ht, Hfi].
      - apply WO_failed. intros q Hq. by rewrite Hf, Hfi by (by rewrite Ht). }
    destruct r as [n|e]; wp_step.
    - eapply wp_mono; [|apply finish_spec; [apply Hs1|]].
      2:{ intros k. rewrite (st_tracker _ _ Hs1), Htrk. apply Hok. }
      intros r w2 (Hs2 & Hc2 & Hf2 & Hfin).
      eapply (HO_written _ _ row p n w1); try done; try congruence.
      by eapply same_setup_trans.
    - destruct (is_OSError e) eqn:He; wp_step;
        (eapply (HO_unwritten _ _ row p e); try done; try congruence; simpl; auto with setup). }
  destruct (cmd_archive_path command) as [q|] eqn:Hcmd; wp_step.
  - rewrite <- Hbase in Hb. eapply wp_mono; [|by apply validate_spec].
    intros r w1 [-> Hv]. destruct r as [[msg|]|e]; wp_step.
    + apply HO_refused; [done|right; by split|apply failed_refusal].
    + apply Hwrite. exists base. rewrite <- Hbase, Hcmd. split; [done|]. split; [done|].
      by rewrite <- Hres.
    + apply HO_refused; [done|right; by split|done].
  - unfold _get_archive_path. wp_step. rewrite Hbase, Hb.
    pose proof (Hwrite (dated_path base (w_now w0) id)) as H. unfold dated_path in H.
    destruct (date_of (w_now w0)) as [[y m] d] eqn:Hd. wp_step. apply H.
    exists base. rewrite Hcmd. split; [done|]. unfold dated_path. by rewrite Hd.
Qed.

Lemma handle_spec command w :
  ready w -> no_tracker_error w -> wp (handle command) (handle_outcome command w) w.
Proof.
  intros Hr Hok. pose proof Hr as (Hi & Hp & Hbase & [b Hb]). unfold handle. wp_step.
  rewrite Hi, Hb. cbn [negb]. wp_step. unfold wp at 1, should_allow_request.
  rewrite Hb. destruct (CB.should_allow_request (w_now w) b) as [ok b'].
  cbn [fst snd]. destruct ok; cbn [negb]; wp_step.
  2:{ apply HO_refused; [done|by left|apply failed_refusal]. }
  eapply wp_mono; [|apply checked_read_spec; auto with setup].
  intros r w1 (Hs & Hst & Hdb & Hc & Hread).
  assert (Hs' : same_setup w w1) by (eapply same_setup_trans; [|exact Hs]; auto with setup).
  destruct r as [[[row|]|x]|e]; wp_step.
  - destruct (bool_decide (lifecycle_state row = EXPIRED)) eqn:E; cbn [negb]; wp_step.
    + breflect. apply store_spec; try done. by destruct Hread.
    + apply HO_refused; [done|right; by split|apply failed_refusal].
  - apply HO_refused; [done|right; by split|]. unfold refusal. simpl. split_and!; eauto.
  - apply HO_refused; [done|right; by split|done].
  - apply HO_refused; [done|right; by split|done].
Qed.

Lemma archive_handle_run command w r w' :
  ready w -> no_tracker_error w -> handle command w = (r, w') -> handle_outcome command w r w'.
Proof. intros Hr Hok Hrun. eapply (wp_run _ _ _ _ _ Hrun). by apply handle_spec. Qed.
End handle.
End HandlerMemoryArchive.

Import HandlerMemoryArchive.

(** ** Properties *)

(** [os.write] writes all it is given, when it does not fail. *)
Definition full_writes (w : world host) : Prop :=
  forall k n, we_write (h_disk (w_self w) k) <> Ok (Some n).


Lemma written_file p bytes w n w' :
  full_writes w -> write_outcome p bytes w (Ok n) w' ->
  files (w_self w') !! p = Some bytes /\ n = Z.of_nat (String.length bytes).
Proof.
  intros Hf Hw. inversion Hw as [k w1 (_ & _ & Hk & _) Hfi|]; subst. rewrite Hfi, lookup_insert_eq.
  destruct k as [k|]; [by destruct (Hf _ _ Hk)|done].
Qed.

Section properties.
Context (validate_metadata : string -> res string) (model_dump_json : ModelArchiveRecord -> string)
  (gzip_compress : Z -> string -> string).
Abbreviation handle := (HandlerMemoryArchive.handle validate_metadata model_dump_json gzip_compress).
Abbreviation bytes_of := (archive_bytes model_dump_json gzip_compress).



(** C3: however the call ends, a row is marked ARCHIVED only once its
    archive was written, flushed to the disk, closed and renamed into place
    without an error. If the table is not what the other sessions left, then
    exactly that row was moved from EXPIRED at the expected revision to ARCHIVED
    with the archive path and the server's clock as [updated_at], and the file
    at that path holds the archive of the row that was read: all of its bytes
    unless [os.write] reported fewer, else that many. *)
Theorem archive_file_before_row (command : ModelArchiveMemoryCommand)
    (w w' : world host) (r : res ModelMemoryArchiveResult) :
  ready w -> no_tracker_error w -> handle command w = (r, w') ->
  w_db w' = undisturbed w w' \/
  exists p row stored n, path_allowed command w p /\ readable validate_metadata command w stored /\
    writes (h_disk (w_self w) (h_writes (w_self w))) n /\
    files (w_self w') !! p = Some (os_write n (bytes_of w (memory_id command) stored)) /\
    undisturbed w w' !! memory_id command = Some row /\ lifecycle_state row = EXPIRED /\
    lifecycle_revision row = expected_revision command /\
    w_db w' = <[memory_id command :=
      MemRow (content row) (content_type row) (created_at row) (expired_at row) ARCHIVED
        (expected_revision command + 1) (metadata row) (Some (w_now w)) (Some (path_str p))
        (ce_server (w_env w (S (w_calls w))))]> (undisturbed w w').
Proof.
  intros Hr Hok Hrun. apply archive_handle_run in Hrun; [|done..].
  inversion Hrun as [x w2 _ [[Hdb Hc]|[Hdb Hc]] _|row p e x w2 _ _ Hdb Hc _ _ _
                    |row p n w1 x w2 Hread Hpath Hs Hdb Hc Ho Hw Hfi Hc2 Hfin]; subst.
  - left. by rewrite undisturbed_none.
  - left. by rewrite undisturbed_one.
  - left. by rewrite undisturbed_one.
  - inversion Hw as [k w3 Hk Hfile|]; subst. rewrite (undisturbed_two w w1) by (apply Hs || done).
    destruct (finish_table _ _ _ _ _ _ _ Hfin) as [?|(row2 & ? & ? & Hrev & Hdb2)]; [by left|right].
    exists p, row2, row, k. split_and!; try done; [by rewrite Hfi, Hfile, lookup_insert_eq|].
    rewrite Hdb2. unfold archived, next_server. rewrite (st_env _ _ Hs), Hc, <- Hrev.
    by destruct row2.
Qed.

(** No run leaves a partial archive or touches a file it should
    not. Besides its own temporary file a run changes at most one file; that
    file's path is the dated one under the base directory, or the requested
    one if it resolves to a place under the resolved base directory; and it
    holds either what it held before or the complete archive. *)
Theorem archive_write_atomic (command : ModelArchiveMemoryCommand)
    (w w' : world host) (r : res ModelMemoryArchiveResult) :
  ready w -> no_tracker_error w -> full_writes w -> handle command w = (r, w') ->
  files (w_self w') = files (w_self w) \/
  exists p row, path_allowed command w p /\ readable validate_metadata command w row /\
    (forall q, q <> p -> q <> temp_of w p -> files (w_self w') !! q = files (w_self w) !! q) /\
    (p <> temp_of w p -> files (w_self w') !! p = files (w_self w) !! p \/
     files (w_self w') !! p = Some (bytes_of w (memory_id command) row)).
Proof.
  intros Hr Hok Hfull Hrun. apply archive_handle_run in Hrun; [|done..].
  inversion Hrun as [x w2 (Hfi & _) _ _|row p e x w2 Hread Hpath _ _ _ Hw _
                    |row p n w1 x w2 Hread Hpath Hs Hdb Hc Ho Hw Hfi Hc2 Hfin]; subst.
  - by left.
  - right. exists p, row. split_and!; [done..| |].
    + inversion Hw as [|e' w2 Hf]; subst. intros q _ Hq. by apply Hf.
    + inversion Hw as [|e' w2 Hf]; subst. intros Hq. left. by apply Hf.
  - right. exists p, row. split_and!; [done..| |].
    + inversion Hw as [k w2 Hk Hf|]; subst. intros q Hqp Hqt. rewrite Hfi, Hf.
      by rewrite lookup_insert_ne, lookup_delete_ne by done.
    + apply written_file in Hw as [Hfile _]; [|done]. intros _. right. by rewrite Hfi.
Qed.

(** A result accounts for the file. It says [orphaned] only when
    the complete archive is at the path it reports, and then the configured
    tracker was told this memory and path; otherwise the tracker was told
    nothing; and a result that is neither a success nor [orphaned] leaves the
    table to the other sessions. *)
Theorem archive_orphans_reported (command : ModelArchiveMemoryCommand)
    (w w' : world host) (r : ModelMemoryArchiveResult) :
  ready w -> no_tracker_error w -> full_writes w -> handle command w = (Ok r, w') ->
  (orphaned r = true -> exists p row why, r_archive_path r = Some p /\ success r = false /\
     files (w_self w') !! p = Some (bytes_of w (memory_id command) row) /\
     orphans (w_self w') = tracked w (Orphan (memory_id command) p why)) /\
  (orphaned r = false -> orphans (w_self w') = orphans (w_self w)) /\
  (orphaned r = false -> success r = false -> w_db w' = undisturbed w w').
Proof.
  intros Hr Hok Hfull Hrun. apply archive_handle_run in Hrun; [|done..].
  inversion Hrun as [x w2 (Hfi & Hor & _) Hdb Href
                    |row p e x w2 Hread Hpath Hdb Hc Hor Hw Href
                    |row p n w1 x w2 Hread Hpath Hs Hdb Hc Hor Hw Hfi Hc2 Hfin]; subst.
  - destruct Href as (_ & _ & Hno & _). split; [congruence|]. split; [done|]. intros _ _. destruct Hdb as [[-> Hc]|[-> Hc]].
    + by rewrite undisturbed_none.
    + by rewrite undisturbed_one.
  - destruct Href as (_ & _ & Hno & _). split; [congruence|]. split; [done|].
    by rewrite undisturbed_one.
  - apply written_file in Hw as [Hfile _]; [|done].
    inversion Hfin as [row2 w2 _ _ _ _ _ _ Ho2|why c msg w2 _ _ _ Ho2|]; subst; simpl.
    + split_and!; [done|congruence|done].
    + split_and!; [|done|done]. intros _. exists p, row, why. split_and!; [done|done|congruence|].
      rewrite Ho2. unfold tracked. by rewrite (st_orphan_tracker _ _ Hs), Hor.
Qed.

(** An error of the update that is neither a database error, a client
    error nor a timeout, a refused or reset connection ([OSError]) for
    example, escapes from [handle] with the complete archive in place and
    nobody told: the orphan is neither reported nor tracked. *)
Theorem archive_connection_loss_untracked (command : ModelArchiveMemoryCommand)
    (w w' : world host) (r : res ModelMemoryArchiveResult) m :
  ready w -> no_tracker_error w -> full_writes w -> handle command w = (r, w') ->
  ce_outcome (w_env w (S (w_calls w))) = Fails (OSError m) false ->
  w_calls w' = S (S (w_calls w)) ->
  r = Raise (OSError m) /\ orphans (w_self w') = orphans (w_self w) /\
  w_db w' = undisturbed w w' /\
  exists p row, path_allowed command w p /\
    files (w_self w') !! p = Some (bytes_of w (memory_id command) row).
Proof.
  intros Hr Hok Hfull Hrun Hout Hcalls. apply archive_handle_run in Hrun; [|done..].
  inversion Hrun as [x w2 _ [[_ Hc]|[_ Hc]] _|row p e x w2 _ _ _ Hc _ _ _
                    |row p n w1 x w2 Hread Hpath Hs Hdb Hc Hor Hw Hfi Hc2 Hfin]; subst; try lia.
  apply written_file in Hw as [Hfile _]; [|done].
  assert (Hn : next_outcome w1 = Fails (OSError m) false)
    by (unfold next_outcome; by rewrite (st_env _ _ Hs), Hc).
  rewrite (undisturbed_two w w1) by (apply Hs || done).
  inversion Hfin as [row2 w2 Ho2|why c msg w2 _ _ Ho2 _|e applied w2 He _ Hdb2 Ho2]; subst.
  - congruence.
  - by destruct (Ho2 _ _ Hn).
  - rewrite Hn in He. simplify_eq. split_and!; try done; [congruence|].
    exists p, row. by rewrite Hfi.
Qed.

(** Two handlers that archive the same memory on the same day write
    the same file. The one that loses the race for the row reports its
    archive as orphaned and hands its path to the cleanup tracker, although
    the row, ARCHIVED by the winner, refers to that very file. *)
Theorem archive_race_orphans_live_file (command : ModelArchiveMemoryCommand)
    (w w' : world host) (r : res ModelMemoryArchiveResult) (base : path) (at_ server : micros) :
  ready w -> no_tracker_error w -> full_writes w -> handle command w = (r, w') ->
  w_calls w' = S (S (w_calls w)) ->
  cmd_archive_path command = None -> orphan_tracker (self w) = true ->
  archive_base_path (self w) = Some base -> expected_revision command < int4_max ->
  let p := dated_path base (w_now w) (memory_id command) in
  w_env w (S (w_calls w)) = CallEnv at_ server (fun db => (MARK_ARCHIVED_SQL (memory_id command)
    (expected_revision command) at_ (path_str p) server db).2) Completes ->
  exists x why row, r = Ok x /\ orphaned x = true /\ r_archive_path x = Some p /\
    orphans (w_self w') = orphans (w_self w) ++ [Orphan (memory_id command) p why] /\
    w_db w' !! memory_id command = Some row /\ lifecycle_state row = ARCHIVED /\
    archive_path row = Some (path_str p).
Proof.
  intros Hr Hok Hfull Hrun Hcalls Hcmd Htr Hbase Hlt p Henv. apply archive_handle_run in Hrun; [|done..].
  inversion Hrun as [x w2 _ [[_ Hc]|[_ Hc]] _|row p' e x w2 _ _ _ Hc _ _ _
                    |row p' n w1 x w2 Hread Hpath Hs Hdb Hc Hor Hw Hfi Hc2 Hfin]; subst; try lia.
  destruct Hpath as (base' & Hb' & Hp'). rewrite Hcmd in Hp'. simplify_eq. fold p in Hfin.
  destruct Hread as (_ & Hex & stored & Hst & Hrv & Hval).
  assert (Hexp : lifecycle_state stored = EXPIRED) by (destruct Hval as (_ & _ & _ & _ & <- & _); done).
  assert (Hnt : next_table w1 = <[memory_id command := archived server at_ p stored]> (next_table w)).
  { unfold next_table at 1. rewrite (st_env _ _ Hs), Hc, Henv, Hdb. simpl.
    destruct (update_where_hit (memory_id command) (expected_revision command) EXPIRED
      (archive_row at_ (path_str p)) server (next_table w)) as (row2 & Hrow2 & _ & _ & Hu);
      [by exists stored|].
    unfold MARK_ARCHIVED_SQL. rewrite Hu. by simplify_eq. }
  assert (Hno : next_outcome w1 = Completes) by (unfold next_outcome; by rewrite (st_env _ _ Hs), Hc, Henv).
  assert (Hlook : next_table w1 !! memory_id command = Some (archived server at_ p stored))
    by (rewrite Hnt; apply lookup_insert_eq).
  inversion Hfin as [row2 w2 _ Hrow2 Hst2|why c msg w2 Hdb2 Hnu _ Ho2|e applied w2 He]; subst.
  - rewrite Hlook in Hrow2. by simplify_eq.
  - eexists _, why, (archived server at_ p stored). split_and!; [done|done|done| | |done|done].
    + rewrite Ho2. unfold tracked. by rewrite (st_orphan_tracker _ _ Hs), Htr, Hor.
    + destruct Hdb2 as [->| ->]; [exact Hlook|].
      pose proof (mark_archived_tag (memory_id command) (expected_revision command) (w_now w)
        p (next_server w1) (next_table w1)) as Ht.
      destruct (MARK_ARCHIVED_SQL _ _ _ _ _ (next_table w1)) as [[tag|e] t1]; simpl.
      * destruct Ht as [(_ & row2 & Hr2 & Hs2 & _)|(_ & -> & _)]; [|exact Hlook].
        rewrite Hlook in Hr2. by simplify_eq.
      * destruct Ht as (_ & -> & _). exact Hlook.
  - congruence.
Qed.

(** The number of bytes [os.write] really wrote is never looked at.
    When it wrote only [k] of them, a successful archive consists of the
    first [k] bytes, while the result reports them all and the row is
    ARCHIVED. *)
Theorem archive_short_write_undetected (command : ModelArchiveMemoryCommand)
    (w w' : world host) (r : ModelMemoryArchiveResult) k :
  ready w -> no_tracker_error w -> handle command w = (Ok r, w') -> success r = true ->
  we_write (h_disk (w_self w) (h_writes (w_self w))) = Ok (Some k) ->
  exists p row bytes, r_archive_path r = Some p /\ bytes_written r = Z.of_nat (String.length bytes) /\
    files (w_self w') !! p = Some (String.substring 0 k bytes) /\
    w_db w' !! memory_id command = Some row /\ lifecycle_state row = ARCHIVED.
Proof.
  intros Hr Hok Hrun Hsucc Hk. apply archive_handle_run in Hrun; [|done..].
  inversion Hrun as [x w2 _ _ Href|row p e x w2 _ _ _ _ _ _ Href
                    |row p n w1 x w2 Hread Hpath Hs Hdb Hc Ho Hw Hfi Hc2 Hfin]; subst.
  - destruct Href as (_ & ? & _). congruence.
  - destruct Href as (_ & ? & _). congruence.
  - inversion Hw as [n' w2 (_ & _ & Hn & _) Hf|]; subst. rewrite Hk in Hn. simplify_eq.
    inversion Hfin as [row2 w2 _ _ _ _ _ Hdb2 _|? ? ? ? _ _ _ _|]; subst; [|by simplify_eq/=].
    exists p, (archived (next_server w1) (w_now w) p row2), (bytes_of w (memory_id command) row).
    split_and!; try done.
    + by rewrite Hfi, Hf, lookup_insert_eq.
    + rewrite Hdb2. apply lookup_insert_eq.
Qed.
End properties.

(** ** Concrete inputs *)

(** A stand-in for the serializers: the JSON is the content, the compression
    a one-letter header. *)
Definition demo_json (r : ModelArchiveRecord) : string := rec_content r.
Definition demo_gzip (level : Z) (s : string) : string := String "z"%char s.
Definition demo_validate (s : string) : res string := Ok s.
Abbreviation demo_handle := (handle demo_validate demo_json demo_gzip).

Definition demo_archive_row : mem_row :=
  MemRow "some text" "text/plain" 0 (Some 7) EXPIRED 5 None None None 0.
Definition demo_disk (n : res (option nat)) : nat -> write_env := fun _ =>
  WriteEnv None None "k3v9" n None None None None.
Definition demo_host (n : res (option nat)) : host :=
  Host (Handler true (Some ["/"; "srv"; "archives"]) true (Some (CB.init default_config 0)) 6 true)
    (fun p => Ok p) ∅ (demo_disk n) 0 [] (fun _ => None).
Definition demo_archive_world (n : res (option nat)) (env : nat -> call_env) : world host :=
  World (demo_host n) {["m1" := demo_archive_row]} 1769342400000000 env 0.
Definition calm : nat -> call_env := fun _ => CallEnv 0 3 id Completes.
Definition demo_archive_command : ModelArchiveMemoryCommand := Command "m1" 5 None.
Definition demo_path : path := ["/"; "srv"; "archives"; "2026"; "01"; "25"; "m1.jsonl.gz"].

(** The second call fails, or loses the race. *)
Definition second (c : call_env) : nat -> call_env := fun k => if (k =? 1)%nat then c else CallEnv 0 3 id Completes.

(** A run and its two components, the first by evaluation. *)
Lemma run_fst {S A} (c : res A * S) (r : res A) : c.1 = r -> c = (r, c.2).
Proof. by destruct c as [x s]; simpl; intros ->. Qed.

Lemma demo_archive_ready n env : ready (demo_archive_world n env).
Proof. split_and!; [reflexivity|reflexivity|by eexists|by eexists]. Qed.

Lemma demo_full env : full_writes (demo_archive_world (Ok None) env).
Proof. intros k n. discriminate. Qed.


Lemma archive_file_before_row_witness :
  let w := demo_archive_world (Ok (Some 4%nat)) (second (CallEnv 9 8 id (Fails (TimeoutError "") true))) in
  let w' := (demo_handle demo_archive_command w).2 in
  w_db w' = undisturbed w w' \/ exists p bytes, files (w_self w') !! p = Some (os_write (Some 4%nat) bytes).
Proof.
  intros w w'.
  destruct (archive_file_before_row demo_validate demo_json demo_gzip demo_archive_command w w'
    (demo_handle demo_archive_command w).1)
    as [H|(p & row & stored & n & _ & _ & (_ & _ & Hn & _) & H & _)].
  - apply demo_archive_ready.
  - intros k. reflexivity.
  - apply surjective_pairing.
  - left. exact H.
  - right. injection Hn as <-. eexists _, _. exact H.
Defined.

Lemma archive_write_atomic_witness :
  let w := demo_archive_world (Raise (OSError "No space left on device")) calm in
  let w' := (demo_handle demo_archive_command w).2 in
  files (w_self w') = files (w_self w) \/
  exists p, path_allowed demo_archive_command w p.
Proof.
  intros w w'.
  destruct (archive_write_atomic demo_validate demo_json demo_gzip demo_archive_command w w'
    (demo_handle demo_archive_command w).1) as [H|(p & row & H & _)].
  - apply demo_archive_ready.
  - intros k. reflexivity.
  - intros k n. discriminate.
  - apply surjective_pairing.
  - left. exact H.
  - right. exists p. exact H.
Defined.

Lemma archive_orphans_reported_witness :
  let w := demo_archive_world (Ok None) (second (CallEnv 9 8 id (Fails (PostgresError "deadlock") false))) in
  exists p row why,
    files (w_self (demo_handle demo_archive_command w).2) !! p =
      Some (archive_bytes demo_json demo_gzip w "m1" row) /\
    orphans (w_self (demo_handle demo_archive_command w).2) = [Orphan "m1" p why].
Proof.
  intros w.
  destruct (archive_orphans_reported demo_validate demo_json demo_gzip demo_archive_command w
    (demo_handle demo_archive_command w).2
    (orphaned_result "m1" demo_path 11 false "Database error during state update: deadlock"))
    as [H _].
  - apply demo_archive_ready.
  - intros k. reflexivity.
  - apply demo_full.
  - apply run_fst. vm_compute. reflexivity.
  - destruct (H eq_refl) as (p & row & why & _ & _ & Hf & Ho). exists p, row, why.
    split; [exact Hf|exact Ho].
Defined.

Lemma archive_connection_loss_untracked_witness :
  let w := demo_archive_world (Ok None)
    (second (CallEnv 9 8 id (Fails (OSError "Connection reset by peer") false))) in
  (demo_handle demo_archive_command w).1 = Raise (OSError "Connection reset by peer").
Proof.
  intros w.
  apply (archive_connection_loss_untracked demo_validate demo_json demo_gzip demo_archive_command w
    (demo_handle demo_archive_command w).2).
  - apply demo_archive_ready.
  - intros k. reflexivity.
  - apply demo_full.
  - apply surjective_pairing.
  - reflexivity.
  - vm_compute. reflexivity.
Defined.

Lemma archive_race_orphans_live_file_witness :
  let w := demo_archive_world (Ok None) (second (CallEnv 9 8
    (fun db => (MARK_ARCHIVED_SQL "m1" 5 9 (path_str demo_path) 8 db).2) Completes)) in
  exists x why, (demo_handle demo_archive_command w).1 = Ok x /\
    orphans (w_self (demo_handle demo_archive_command w).2) = [Orphan "m1" demo_path why].
Proof.
  intros w.
  destruct (archive_race_orphans_live_file demo_validate demo_json demo_gzip demo_archive_command w
    (demo_handle demo_archive_command w).2 (demo_handle demo_archive_command w).1
    ["/"; "srv"; "archives"] 9 8) as (x & why & row & Hx & _ & _ & Ho & _).
  - apply demo_archive_ready.
  - intros k. reflexivity.
  - apply demo_full.
  - apply surjective_pairing.
  - vm_compute. reflexivity.
  - reflexivity.
  - reflexivity.
  - reflexivity.
  - reflexivity.
  - reflexivity.
  - exists x, why. split; [exact Hx|exact Ho].
Defined.

Lemma archive_short_write_undetected_witness :
  let w := demo_archive_world (Ok (Some 4%nat)) calm in
  exists p bytes, Z.of_nat (String.length bytes) = 11 /\
    files (w_self (demo_handle demo_archive_command w).2) !! p = Some (String.substring 0 4 bytes).
Proof.
  intros w.
  destruct (archive_short_write_undetected demo_validate demo_json demo_gzip demo_archive_command w
    (demo_handle demo_archive_command w).2
    (Result "m1" true (Some 1769342400000000) (Some demo_path) 11 false false None) 4)
    as (p & row & bytes & _ & Hn & Hf & _).
  - apply demo_archive_ready.
  - intros k. reflexivity.
  - apply run_fst. vm_compute. reflexivity.
  - reflexivity.
  - reflexivity.
  - exists p, bytes. split; [symmetry; exact Hn|exact Hf].
Defined.
