(* ===== verification/LifecycleSafety.v ===== *)
(** * The two lifecycle handlers together

    What the expire and archive handlers do to the table, seen from the
    lifecycle state machine of Lifecycle.v. *)

From S2P Require Import Prelude Breaker Lifecycle Memories Expire Archive.

(** From one table to the next, only the row [id] may change, and only by a
    transition the validator accepts, at the next revision. *)
Definition lawful (id : uuid) (t t' : table) : Prop :=
  forall i row, t !! i = Some row ->
    exists row', t' !! i = Some row' /\
      (row' = row \/
       i = id /\ lifecycle_revision row' = lifecycle_revision row + 1 /\
       ValidatorLifecycleTransition.is_valid (lifecycle_state row) (lifecycle_state row') = true).

Lemma lawful_refl id t : lawful id t t.
Proof. intros i row H. exists row. auto. Qed.

Lemma lawful_update id rev required upd server t :
  (forall row, lifecycle_revision (upd row) = lifecycle_revision row + 1) ->
  (forall row, ValidatorLifecycleTransition.is_valid required (lifecycle_state (upd row)) = true) ->
  lawful id t (update_where id rev required upd server t).2.
Proof.
  intros Hrev Hst. pose proof (update_where_spec id rev required upd server t) as H.
  destruct (update_where id rev required upd server t) as [[[n|]|e] t']; simpl.
  - destruct H as (_ & row & Hrow & _ & Hs & _ & ->). intros i r Hi.
    destruct (decide (i = id)) as [->|Hne].
    + simplify_eq. exists (update_updated_at_column server (upd row)). rewrite lookup_insert_eq.
      split; [done|]. right. simpl. auto.
    + exists r. rewrite lookup_insert_ne by done. auto.
  - destruct H as [-> _]. apply lawful_refl.
  - destruct H as [-> _]. apply lawful_refl.
Qed.

Lemma lawful_expire id rev at_ server t : lawful id t (EXPIRE_SQL id rev at_ server t).2.
Proof. by apply lawful_update. Qed.

Lemma lawful_archive id rev at_ p server t :
  lawful id t (MARK_ARCHIVED_SQL id rev at_ p server t).2.
Proof.
  unfold MARK_ARCHIVED_SQL.
  pose proof (lawful_update id rev EXPIRED (archive_row at_ p) server t) as H.
  destruct (update_where _ _ _ _ _ _) as [r t']. apply H; done.
Qed.

Lemma expire_lawful command w r w' :
  HandlerMemoryExpire.handle_outcome command w r w' ->
  lawful (HandlerMemoryExpire.memory_id command) (undisturbed w w') (w_db w').
Proof.
  intros Ho.
  destruct Ho as [prev m w0 _ _ Hdb Hc|row w0 _ Hlt _ _ Hc _ Hrow Hst Hrev Hdb|m w0 _ _ _ Hc _ Hdb
                 |e applied r w0 _ _ Hc _ Hdb _
                 |w1 read w2 r w3 _ _ _ Hs1 Hdb1 Hc1 Hread _ Hdb3 Hc3 _ _ _].
  - rewrite undisturbed_none, Hdb by done. apply lawful_refl.
  - rewrite undisturbed_one, Hdb by done. intros i row0 Hi.
    destruct (decide (i = HandlerMemoryExpire.memory_id command)) as [->|Hne].
    + simplify_eq. eexists. rewrite lookup_insert_eq. split; [done|]. right. simpl.
      rewrite Hst. split_and!; [done|lia|done].
    + exists row0. rewrite lookup_insert_ne by done. auto.
  - rewrite undisturbed_one, Hdb by done. apply lawful_refl.
  - rewrite undisturbed_one, Hdb by done. destruct applied; [apply lawful_expire|apply lawful_refl].
  - rewrite Hdb3. pose proof (HandlerMemoryExpire.ss_env _ _ Hs1) as He.
    destruct Hread as [m0 w4 _ _ Hdb Hc|w4 _ Hdb Hc _ _|e a w4 _ Hdb Hc _].
    + rewrite undisturbed_one, Hdb, Hdb1 by congruence. apply lawful_refl.
    + rewrite (undisturbed_two w w1), Hdb by congruence. apply lawful_refl.
    + rewrite (undisturbed_two w w1), Hdb by congruence. apply lawful_refl.
Qed.

Lemma archive_lawful vm dj gz command w r w' :
  HandlerMemoryArchive.handle_outcome vm dj gz command w r w' ->
  lawful (HandlerMemoryArchive.memory_id command) (undisturbed w w') (w_db w').
Proof.
  intros Ho.
  destruct Ho as [x w2 _ [[Hdb Hc]|[Hdb Hc]] _|row p e x w2 _ _ Hdb Hc _ _ _
                 |row p n w1 x w2 _ _ Hs Hdb Hc _ _ _ Hc2 Hfin].
  - rewrite undisturbed_none, Hdb by done. apply lawful_refl.
  - rewrite undisturbed_one, Hdb by done. apply lawful_refl.
  - rewrite undisturbed_one, Hdb by done. apply lawful_refl.
  - rewrite (undisturbed_two w w1) by (apply Hs || done).
    destruct Hfin as [row2 w2 _ Hrow Hst Hrev _ Hdb2 _|why c msg w2 [Hdb2|Hdb2] _ _ _|e [] w2 _ _ Hdb2 _];
      rewrite Hdb2; try apply lawful_refl; try apply lawful_archive.
    intros i row0 Hi. destruct (decide (i = HandlerMemoryArchive.memory_id command)) as [->|Hne].
    + simplify_eq. eexists. rewrite lookup_insert_eq. split; [done|]. right. simpl.
      rewrite Hst. split_and!; [done|lia|done].
    + exists row0. rewrite lookup_insert_ne by done. auto.
Qed.

(** C4: whatever the environment does (failures before or after a
    statement took effect, other sessions in between), a run of either
    handler changes only the memory of its command, and only by a transition
    that the lifecycle validator permits, taking the revision up by one. *)
Theorem lifecycle_handlers_lawful :
  (forall command (w w' : world HandlerMemoryExpire.t) r, HandlerMemoryExpire.ready w ->
     HandlerMemoryExpire.handle command w = (r, w') ->
     lawful (HandlerMemoryExpire.memory_id command) (undisturbed w w') (w_db w')) /\
  (forall validate_metadata dump_json gzip command (w w' : world HandlerMemoryArchive.host) r,
     HandlerMemoryArchive.ready w -> HandlerMemoryArchive.no_tracker_error w ->
     HandlerMemoryArchive.handle validate_metadata dump_json gzip command w = (r, w') ->
     lawful (HandlerMemoryArchive.memory_id command) (undisturbed w w') (w_db w')).
Proof.
  split.
  - intros command w w' r Hr Hrun. by eapply expire_lawful, HandlerMemoryExpire.handle_run.
  - intros vm dj gz command w w' r Hr Hok Hrun.
    by eapply archive_lawful, HandlerMemoryArchive.archive_handle_run.
Qed.

Lemma lifecycle_handlers_lawful_witness :
  (let w := demo_world fresh_cb {["m1" := demo_row ACTIVE 5]} timeout_applied in
   lawful "m1" (undisturbed w (HandlerMemoryExpire.handle (demo_command 5) w).2)
     (w_db (HandlerMemoryExpire.handle (demo_command 5) w).2)) /\
  (let w := demo_archive_world (Ok None) calm in
   let w' := (HandlerMemoryArchive.handle demo_validate demo_json demo_gzip demo_archive_command w).2 in
   lawful "m1" (undisturbed w w') (w_db w')).
Proof.
  split; intros w.
  - refine (proj1 lifecycle_handlers_lawful (demo_command 5) w _
      (HandlerMemoryExpire.handle (demo_command 5) w).1 _ _);
      [apply demo_ready | apply surjective_pairing].
  - refine (proj2 lifecycle_handlers_lawful demo_validate demo_json demo_gzip demo_archive_command w _
      (HandlerMemoryArchive.handle demo_validate demo_json demo_gzip demo_archive_command w).1 _ _ _);
      [apply demo_archive_ready | intros k; reflexivity | apply surjective_pairing].
Defined.
