(* ===== verification/Tick.v ===== *)
(** * The periodic scan for memories to expire and to archive

    Models [HandlerMemoryTick] of
    src/src/omnimemory/nodes/node_memory_lifecycle_orchestrator/handlers/handler_memory_tick.py:
    two guarded queries of a projection reader, and the events made of what
    they return. *)

From S2P Require Import Prelude Breaker Lifecycle.

Module HandlerMemoryTick.
(** ** Data *)

Record ModelMemoryLifecycleProjection : Type := Projection {
  entity_id : uuid;
  lifecycle_state : string;
  expires_at : option micros;
  expired_at : option micros;
  archived_at : option micros;
  lifecycle_revision : Z;
  expiration_emitted_at : option micros;
  archive_initiated_at : option micros;
}.

Record ModelMemoryExpiredEvent : Type := ExpiredEvent {
  xe_entity_id : uuid;
  xe_memory_id : uuid;
  xe_correlation_id : uuid;
  xe_causation_id : uuid;
  xe_emitted_at : micros;
  xe_expires_at : micros;
  xe_lifecycle_revision : Z;
}.

Record ModelMemoryArchiveInitiated : Type := ArchiveInitiated {
  ai_entity_id : uuid;
  ai_memory_id : uuid;
  ai_correlation_id : uuid;
  ai_causation_id : uuid;
  ai_emitted_at : micros;
  ai_expired_at : option micros;
  ai_lifecycle_revision : Z;
}.

(** The fields of [ModelRuntimeTick] the handler reads. *)
Record ModelRuntimeTick : Type := RuntimeTick {
  tick_now : micros;
  tick_id : uuid;
  sequence_number : Z;
}.

Record ModelMemoryTickResult : Type := TickResult {
  expired_count : Z;
  archive_initiated_count : Z;
  r_tick_id : uuid;
  r_sequence_number : Z;
  evaluated_at : micros;
}.

(** The two kinds of event an output carries, in order, with the result. *)
Record output : Type := Output {
  expired_events : list ModelMemoryExpiredEvent;
  archive_events : list ModelMemoryArchiveInitiated;
  result : ModelMemoryTickResult;
}.

Definition is_none {A} (o : option A) : bool := match o with None => true | Some _ => false end.

Definition needs_expiration_event (p : ModelMemoryLifecycleProjection) (now : micros) : bool :=
  bool_decide (lifecycle_state p = value ACTIVE) &&
  match expires_at p with Some e => e <=? now | None => false end &&
  is_none (expiration_emitted_at p).

Definition needs_archive_event (p : ModelMemoryLifecycleProjection) (now : micros) : bool :=
  bool_decide (lifecycle_state p = value EXPIRED) &&
  is_none (archived_at p) && is_none (archive_initiated_at p).

(** ** The handler *)

Record t : Type := Handler {
  projection_reader : bool;
  batch_size : Z;
  circuit_breaker : option CB.t;
  initialized : bool;
}.

Definition default_config : CB.config := CB.Config 5 (seconds 30) 2.

Definition __init__ : t := Handler false 100 None false.

Definition initialize (reader : bool) (batch : Z) (cb : option CB.t) (now : micros) (h : t) : t :=
  Handler reader batch (Some (default (CB.init default_config now) cb)) true.

Definition shutdown (h : t) : t :=
  if initialized h then Handler false (batch_size h) None false else h.

(** A query of the reader under its timeout: how it ends, and the clock
    then. A timeout is the result [Raise (TimeoutError _)]. *)
Record reader_call : Type := ReaderCall {
  rc_now : micros;
  rc_result : res (list ModelMemoryLifecycleProjection);
}.

(** The handler, the clock of its breaker and the reader's two queries. *)
Record world : Type := World {
  self : t;
  clock : micros;
  get_expired_candidates : reader_call;
  get_archive_candidates : reader_call;
}.

Abbreviation comp := (M world).

Definition set_cb (b : CB.t) (w : world) : world :=
  World (Handler (projection_reader (self w)) (batch_size (self w)) (Some b) (initialized (self w)))
    (clock w) (get_expired_candidates w) (get_archive_candidates w).

Definition with_cb (f : micros -> CB.t -> CB.t) : comp unit := fun w =>
  match circuit_breaker (self w) with
  | None => (Raise AssertionError, w)
  | Some b => (Ok tt, set_cb (f (clock w) b) w)
  end.

Definition should_allow_request : comp bool := fun w =>
  match circuit_breaker (self w) with
  | None => (Raise AssertionError, w)
  | Some b => let (ok, b') := CB.should_allow_request (clock w) b in (Ok ok, set_cb b' w)
  end.

(** The two queries. *)
Inductive scan : Type := EXPIRATIONS | ARCHIVES.

Definition answer (q : scan) (w : world) : reader_call :=
  match q with
  | EXPIRATIONS => get_expired_candidates w
  | ARCHIVES => get_archive_candidates w
  end.

Definition query (q : scan) : comp (list ModelMemoryLifecycleProjection) := fun w =>
  (rc_result (answer q w),
   World (self w) (Z.max (clock w) (rc_now (answer q w)))
     (get_expired_candidates w) (get_archive_candidates w)).

(** The guarded query both checks start with: [None] when the check gives up
    with no events. The last clause, [except Exception], lets a cancellation
    pass. *)
Definition candidates (q : scan)
    : comp (option (list ModelMemoryLifecycleProjection)) :=
  let! h := gets self in
  if negb (projection_reader h) then ret None
  else
    let! allowed := should_allow_request in
    if negb allowed then ret None
    else
      try_except
        (let! l := query q in
         do! with_cb CB.record_success;
         ret (Some l))
        (fun e => match e with
         | TimeoutError _ => Some (do! with_cb CB.record_timeout; ret None)
         | CircuitBreakerOpenError _ => Some (ret None)
         | _ => if is_Exception e then Some (do! with_cb CB.record_failure; ret None) else None
         end).

Fixpoint expired_of (tick : ModelRuntimeTick) (correlation : uuid)
    (l : list ModelMemoryLifecycleProjection) : list ModelMemoryExpiredEvent :=
  match l with
  | [] => []
  | p :: l =>
      if negb (needs_expiration_event p (tick_now tick)) then expired_of tick correlation l
      else
        match expires_at p with
        | None => expired_of tick correlation l
        | Some e =>
            ExpiredEvent (entity_id p) (entity_id p) correlation (tick_id tick) (tick_now tick) e
              (lifecycle_revision p) :: expired_of tick correlation l
        end
  end.

Fixpoint initiated_of (tick : ModelRuntimeTick) (correlation : uuid)
    (l : list ModelMemoryLifecycleProjection) : list ModelMemoryArchiveInitiated :=
  match l with
  | [] => []
  | p :: l =>
      if negb (needs_archive_event p (tick_now tick)) then initiated_of tick correlation l
      else
        ArchiveInitiated (entity_id p) (entity_id p) correlation (tick_id tick) (tick_now tick)
          (expired_at p) (lifecycle_revision p) :: initiated_of tick correlation l
  end.

Definition _check_memory_expirations (tick : ModelRuntimeTick) (correlation : uuid)
    : comp (list ModelMemoryExpiredEvent) :=
  let! found := candidates EXPIRATIONS in
  ret (match found with None => [] | Some l => expired_of tick correlation l end).

Definition _check_archive_candidates (tick : ModelRuntimeTick) (correlation : uuid)
    : comp (list ModelMemoryArchiveInitiated) :=
  let! found := candidates ARCHIVES in
  ret (match found with None => [] | Some l => initiated_of tick correlation l end).

Definition handle (tick : ModelRuntimeTick) (correlation : uuid) : comp output :=
  let! expired := _check_memory_expirations tick correlation in
  let! archived := _check_archive_candidates tick correlation in
  ret (Output expired archived
    (TickResult (Z.of_nat (length expired)) (Z.of_nat (length archived)) (tick_id tick)
       (sequence_number tick) (tick_now tick))).

(** ** Specifications *)

(** After [initialize]; also before it and after [shutdown], when there is no
    reader. *)
Definition sane (w : world) : Prop :=
  projection_reader (self w) = true -> is_Some (circuit_breaker (self w)).


Lemma shutdown_sane h c q1 q2 :
  sane (World h c q1 q2) -> sane (World (shutdown h) c q1 q2).
Proof. unfold sane, shutdown. simpl. by destruct (initialized h). Qed.

(** The breaker lets a query made now pass. *)
Definition admits (w : world) : bool :=
  match circuit_breaker (self w) with
  | Some b => (CB.should_allow_request (clock w) b).1
  | None => false
  end.

(** Nothing but the breaker and the clock changes. *)
Definition same_config (w w' : world) : Prop :=
  sane w' /\ projection_reader (self w') = projection_reader (self w) /\
  batch_size (self w') = batch_size (self w) /\ initialized (self w') = initialized (self w) /\
  get_expired_candidates w' = get_expired_candidates w /\
  get_archive_candidates w' = get_archive_candidates w /\ clock w <= clock w'.

Lemma candidates_spec q w :
  sane w ->
  wp (candidates q) (fun r w' => same_config w w' /\
    r = (if projection_reader (self w) && admits w
         then match rc_result (answer q w) with
              | Ok l => Ok (Some l)
              | Raise e => if is_Exception e then Ok None else Raise e
              end
         else Ok None)) w.
Proof.
  intros Hs. unfold candidates, admits. wp_step.
  destruct (projection_reader (self w)) eqn:Hp; cbn [negb andb]; wp_step.
  2:{ split; [|done]. by repeat split. }
  destruct (Hs Hp) as [b Hb]. unfold wp at 1, should_allow_request. rewrite Hb.
  destruct (CB.should_allow_request (clock w) b) as [[] b'] eqn:E; cbn [fst snd negb]; wp_step.
  2:{ split; [|done]. split; [by eexists|]. simpl. split_and!; (done || lia). }
  unfold wp at 1, query. change (answer q (set_cb b' w)) with (answer q w). cbn [fst snd].
  set (w1 := World _ _ _ _).
  assert (Hcb : forall f Q, Q (Ok tt) (set_cb (f (clock w1) b') w1) -> wp (with_cb f) Q w1) by done.
  assert (Hc : forall b2, same_config w (set_cb b2 w1)).
  { intros b2. split; [by eexists|]. simpl. split_and!; (done || lia). }
  assert (Hw1 : same_config w w1).
  { split; [by eexists|]. simpl. split_and!; (done || lia). }
  destruct (rc_result (answer q w)) as [l|[]]; simpl; try destruct (negb _); wp_step;
    try (by split); (apply Hcb; wp_step; split; [apply Hc|done]).
Qed.

(** What a scan finds: the reader's answer, or nothing if the query is not
    made or fails. *)
Definition found (asked : bool) (q : reader_call) : list ModelMemoryLifecycleProjection :=
  if asked then match rc_result q with Ok l => l | Raise _ => [] end else [].

(** A scan is cut off: its query is made and is cancelled with [e]. *)
Definition cancelled (asked : bool) (q : reader_call) (e : exn) : Prop :=
  asked = true /\ rc_result q = Raise e /\ is_Exception e = false.

Lemma asked_query (asked : bool) (q : reader_call) :
  match (if asked
         then match rc_result q with
              | Ok l => Ok (Some l)
              | Raise e => if is_Exception e then Ok None else Raise e
              end
         else Ok None) with
  | Ok o => found asked q = match o with Some l => l | None => [] end
  | Raise e => cancelled asked q e
  end.
Proof.
  unfold found, cancelled. destruct asked; [|done]. destruct (rc_result q) as [l|e]; [done|].
  by destruct (is_Exception e) eqn:E.
Qed.

Lemma tick_handle_spec tick correlation w :
  sane w ->
  wp (handle tick correlation) (fun r w' => same_config w w' /\ exists w1, same_config w w1 /\
    match r with
    | Ok out =>
        expired_events out = expired_of tick correlation
          (found (projection_reader (self w) && admits w) (get_expired_candidates w)) /\
        archive_events out = initiated_of tick correlation
          (found (projection_reader (self w) && admits w1) (get_archive_candidates w)) /\
        result out = TickResult (Z.of_nat (length (expired_events out)))
          (Z.of_nat (length (archive_events out))) (tick_id tick) (sequence_number tick) (tick_now tick)
    | Raise e =>
        cancelled (projection_reader (self w) && admits w) (get_expired_candidates w) e \/
        cancelled (projection_reader (self w) && admits w1) (get_archive_candidates w) e
    end) w.
Proof.
  intros Hs. unfold handle, _check_memory_expirations, _check_archive_candidates. wp_step.
  eapply wp_mono; [|by apply candidates_spec]. intros r w1 [Hc1 ->].
  change (answer EXPIRATIONS w) with (get_expired_candidates w).
  pose proof (asked_query (projection_reader (self w) && admits w) (get_expired_candidates w)) as H1.
  destruct (if projection_reader (self w) && admits w then _ else _) as [o1|e]; wp_step; [|by eauto].
  eapply wp_mono; [|apply candidates_spec, Hc1]. intros r w2 [Hc2 ->].
  destruct Hc1 as (Hs1 & Hp1 & Hb1 & Hi1 & Hg1 & Ha1 & Ht1).
  destruct Hc2 as (Hs2 & Hp2 & Hb2 & Hi2 & Hg2 & Ha2 & Ht2).
  change (answer ARCHIVES w1) with (get_archive_candidates w1). rewrite Hp1, Ha1.
  assert (Hc2 : same_config w w2) by (repeat split; first [done|congruence|lia]).
  assert (Hc1 : same_config w w1) by (repeat split; first [done|congruence|lia]).
  pose proof (asked_query (projection_reader (self w) && admits w1) (get_archive_candidates w)) as H2.
  destruct (if projection_reader (self w) && admits w1 then _ else _) as [o2|e]; wp_step; [|by eauto].
  split; [done|]. exists w1. split; [done|]. simpl. rewrite H1, H2.
  by destruct o1, o2.
Qed.

(** ** The events of a list of candidates *)

Definition should_expire (now : micros) (p : ModelMemoryLifecycleProjection) : Prop :=
  lifecycle_state p = value ACTIVE /\ (exists e, expires_at p = Some e /\ e <= now) /\
  expiration_emitted_at p = None.

Definition should_archive (p : ModelMemoryLifecycleProjection) : Prop :=
  lifecycle_state p = value EXPIRED /\ archived_at p = None /\ archive_initiated_at p = None.

Lemma is_none_spec {A} (o : option A) : is_none o = true <-> o = None.
Proof. by destruct o. Qed.

Lemma needs_expiration_spec p now : needs_expiration_event p now = true <-> should_expire now p.
Proof.
  unfold needs_expiration_event, should_expire. rewrite !andb_true_iff, bool_decide_eq_true, is_none_spec.
  destruct (expires_at p) as [e|]; [|naive_solver]. rewrite Z.leb_le. naive_solver.
Qed.

Lemma needs_archive_spec p now : needs_archive_event p now = true <-> should_archive p.
Proof.
  unfold needs_archive_event, should_archive.
  rewrite !andb_true_iff, bool_decide_eq_true, !is_none_spec. naive_solver.
Qed.

#[export] Instance should_expire_dec now p : Decision (should_expire now p).
Proof. destruct (needs_expiration_event p now) eqn:E; [left|right]; rewrite <- needs_expiration_spec; congruence. Defined.

#[export] Instance should_archive_dec p : Decision (should_archive p).
Proof. destruct (needs_archive_event p 0) eqn:E; [left|right]; rewrite <- (needs_archive_spec p 0); congruence. Defined.

(** The identifiers of the events are those of the candidates that qualify,
    in the reader's order. *)
Lemma expired_of_ids tick c l :
  xe_entity_id <$> expired_of tick c l = entity_id <$> filter (should_expire (tick_now tick)) l.
Proof.
  induction l as [|p l IH]; [done|]. csimpl. rewrite filter_cons.
  destruct (needs_expiration_event p (tick_now tick)) eqn:E; csimpl.
  - apply needs_expiration_spec in E as Hs. destruct Hs as (_ & (e & -> & _) & _).
    rewrite decide_True by by apply needs_expiration_spec. csimpl. by rewrite IH.
  - rewrite decide_False; [done|]. rewrite <- needs_expiration_spec. congruence.
Qed.

Lemma initiated_of_ids tick c l :
  ai_entity_id <$> initiated_of tick c l = entity_id <$> filter should_archive l.
Proof.
  induction l as [|p l IH]; [done|]. csimpl. rewrite filter_cons.
  destruct (needs_archive_event p (tick_now tick)) eqn:E; csimpl.
  - rewrite decide_True by by apply (needs_archive_spec _ (tick_now tick)). csimpl. by rewrite IH.
  - rewrite decide_False; [done|]. rewrite <- (needs_archive_spec _ (tick_now tick)). congruence.
Qed.




End HandlerMemoryTick.

(** The adapter: a handler and a flag of its own. *)
Module AdapterRuntimeTickMemory.
Import HandlerMemoryTick.

Record t : Type := Adapter {
  handler : HandlerMemoryTick.t;
  initialized : bool;
}.

Definition __init__ : t := Adapter HandlerMemoryTick.__init__ false.

Definition initialize (reader : bool) (batch : Z) (cb : option CB.t) (now : micros) (a : t) : t :=
  Adapter (HandlerMemoryTick.initialize reader batch cb now (handler a)) true.

Definition shutdown (a : t) : t :=
  if initialized a then Adapter (HandlerMemoryTick.shutdown (handler a)) false else a.

Definition process_tick (initialized : bool) (tick : ModelRuntimeTick) (correlation : uuid)
    : M world output :=
  if negb initialized then
    raise (RuntimeError ("AdapterRuntimeTickMemory not initialized. " +:+
                         "Call initialize() before process_tick()."))
  else handle tick correlation.
End AdapterRuntimeTickMemory.

Import HandlerMemoryTick.

(** ** Properties *)


(** *** A sequence of ticks over a projection *)

Abbreviation store := (gmap uuid ModelMemoryLifecycleProjection).

(** One tick: the tick, what the reader answers, and what the projection's
    writers do to the store after the events are delivered. *)
Record round : Type := Round {
  rd_tick : ModelRuntimeTick;
  rd_correlation : uuid;
  rd_expired : reader_call;
  rd_archive : reader_call;
  rd_write : list ModelMemoryExpiredEvent -> store -> store;
}.

(** The handler, the store and the expirations announced so far. *)
Definition state : Type := t * micros * store * list uuid.

Definition play (st : state) (rd : round) : state :=
  let '(h, now, s, log) := st in
  let (r, w') := handle (rd_tick rd) (rd_correlation rd) (World h now (rd_expired rd) (rd_archive rd)) in
  let events := match r with Ok out => expired_events out | Raise _ => [] end in
  (self w', clock w', rd_write rd events s, log ++ (xe_entity_id <$> events)).

(** The marker that deduplicates expirations is set in [s], or the memory is
    not there. *)
Definition marked (s : store) (id : uuid) : Prop :=
  forall p, s !! id = Some p -> expiration_emitted_at p <> None.

(** What the handler relies on: the reader returns distinct entries of the
    projection, and the projection sets the marker of every announced memory
    and never clears it. *)
Definition faithful (st : state) (rd : round) : Prop :=
  let '(h, now, s, log) := st in
  (forall l, rc_result (rd_expired rd) = Ok l ->
     NoDup (entity_id <$> l) /\ Forall (fun p => s !! entity_id p = Some p) l) /\
  (forall events id, id ∈ xe_entity_id <$> events -> marked (rd_write rd events s) id) /\
  (forall events id, id ∈ log -> marked s id -> marked (rd_write rd events s) id).

Fixpoint faithful_rounds (st : state) (rds : list round) : Prop :=
  match rds with
  | [] => True
  | rd :: rds => faithful st rd /\ faithful_rounds (play st rd) rds
  end.

Definition once (st : state) : Prop :=
  let '(h, now, s, log) := st in
  (projection_reader h = true -> is_Some (circuit_breaker h)) /\
  NoDup log /\ forall id, id ∈ log -> marked s id.

Lemma play_once st rd : once st -> faithful st rd -> once (play st rd).
Proof.
  destruct st as [[[h now] s] log]. intros (Hs & Hnd & Hm) (Hread & Hset & Hkeep).
  unfold play. set (w := World h now (rd_expired rd) (rd_archive rd)).
  destruct (handle (rd_tick rd) (rd_correlation rd) w) as [r w'] eqn:E.
  destruct (wp_run _ _ _ _ _ E (tick_handle_spec (rd_tick rd) (rd_correlation rd) w Hs))
    as (Hc & w1 & _ & He). simpl in *. split; [apply Hc|].
  destruct r as [out|e]; [|simpl; rewrite app_nil_r; by auto].
  destruct He as (He & _). rewrite He, expired_of_ids. unfold found.
  destruct (projection_reader h && admits w); simpl.
  2:{ rewrite app_nil_r. split; [done|]. auto. }
  destruct (rc_result (rd_expired rd)) as [l|e] eqn:El.
  2:{ simpl. rewrite app_nil_r. split; [done|]. auto. }
  destruct (Hread l eq_refl) as [Hdl Hl]. split.
  - apply NoDup_app. split; [done|]. split.
    + intros id Hid (p & -> & Hp)%list_elem_of_fmap.
      apply list_elem_of_filter in Hp as [(_ & _ & Hnone) Hp].
      rewrite Forall_forall in Hl. by apply (Hm _ Hid p (Hl p Hp)).
    + eapply sublist_NoDup; [exact Hdl|apply fmap_sublist, sublist_filter].
  - intros id [Hid|Hid]%elem_of_app; [by apply Hkeep, Hm|].
    apply Hset. by rewrite expired_of_ids.
Qed.

(** C7: over any sequence of ticks, with a reader that may fail or be
    refused at any of them, no memory is announced as expired twice, provided
    the projection sets the emission marker of announced memories before the
    next tick and does not clear it. *)
Theorem tick_expires_once (h : t) (now : micros) (s : store) (rds : list round) :
  (projection_reader h = true -> is_Some (circuit_breaker h)) ->
  faithful_rounds (h, now, s, []) rds ->
  NoDup (run play (h, now, s, []) rds).2.
Proof.
  intros Hs Hf.
  assert (H : forall st, once st -> faithful_rounds st rds -> once (run play st rds)).
  { clear. induction rds as [|rd rds IH]; intros st Ho Hf; [done|]. destruct Hf as [Hf Hfs].
    apply IH; [by apply play_once|done]. }
  specialize (H (h, now, s, [])). destruct (run play (h, now, s, []) rds) as [[[h' now'] s'] log'].
  destruct H as (_ & Hnd & _); [|done|done]. split; [done|]. split; [constructor|].
  intros id Hid. by apply not_elem_of_nil in Hid.
Qed.

(** ** Concrete inputs *)

Definition demo_projection (id : uuid) (marker : option micros) : ModelMemoryLifecycleProjection :=
  Projection id "active" (Some 5) None None 3 marker None.
Definition demo_tick_handler : t := initialize true 100 None 0 __init__.
Definition demo_tick : ModelRuntimeTick := RuntimeTick 10 "tick-1" 1.
Definition no_answer : reader_call := ReaderCall 0 (Raise (TimeoutError "")).


(** The projection sets the marker of every announced memory. *)
Definition set_marker (events : list ModelMemoryExpiredEvent) (s : store) : store :=
  foldr (fun e s => <[xe_entity_id e := demo_projection (xe_entity_id e) (Some (xe_emitted_at e))]> s) s events.

Lemma set_marker_keeps events id s : marked s id -> marked (set_marker events s) id.
Proof.
  intros Hm. induction events as [|e events IH]; [done|]. simpl. intros p Hp.
  apply lookup_insert_Some in Hp as [[_ <-]|[_ Hp]]; [done|]. by apply IH.
Qed.

Lemma set_marker_sets events id s :
  id ∈ xe_entity_id <$> events -> marked (set_marker events s) id.
Proof.
  induction events as [|e events IH]; simpl; [by intros ?%not_elem_of_nil|].
  intros [->|Hid]%elem_of_cons; intros p Hp; apply lookup_insert_Some in Hp as [[Hid' Hp]|[Hne Hp]].
  - by subst p.
  - done.
  - by subst p.
  - by apply IH.
Qed.

Lemma tick_expires_once_witness :
  let s : store := {["m1" := demo_projection "m1" None]} in
  let rds := [Round demo_tick "c" (ReaderCall 1 (Ok [demo_projection "m1" None])) no_answer set_marker;
              Round demo_tick "c" no_answer no_answer set_marker] in
  NoDup (run play (demo_tick_handler, 0, s, []) rds).2.
Proof.
  intros s rds. apply tick_expires_once.
  - intros _. by eexists.
  - split; [|split; [|exact I]].
    + split.
      { intros l Hl. cbn in Hl. simplify_eq. split; [apply NoDup_singleton|].
        constructor; [reflexivity|constructor]. }
      split; intros; [by apply set_marker_sets|by apply set_marker_keeps].
    + destruct (play _ _) as [[[h now] s1] log]. split; [intros l Hl; cbn in Hl; discriminate|].
      split; intros; [by apply set_marker_sets|by apply set_marker_keeps].
Defined.
