(* ===== verification/Sync.v ===== *)
(** * The priority lock and the fair semaphore

    Models [PriorityLock] and [FairSemaphore] of
    src/src/omnimemory/adapters/adapter_concurrency.py as transition systems.
    A step is what one task does between two suspension points: asyncio runs
    nothing else in between, so the bodies of [async with self._lock] blocks
    that do not await are atomic. *)

From Stdlib Require Import QArith.
From S2P Require Import Prelude.
Open Scope Z_scope.

Inductive LockPriority : Type := LOW | NORMAL | HIGH | CRITICAL.

(** [LockPriority.value] *)
Definition priority_value (p : LockPriority) : Z :=
  match p with LOW => 1 | NORMAL => 2 | HIGH => 3 | CRITICAL => 4 end.

(** How the body of an [async with] ends. *)
Inductive body_end : Type := Completes | RaisesTimeoutError | RaisesOther.

(** The running mean and maximum of the hold times, in exact arithmetic. *)
Definition mean_update (mean : Q) (releases : Z) (hold : micros) : Q :=
  ((mean * inject_Z (releases - 1) + inject_Z hold) / inject_Z releases)%Q.

Module PriorityLock.
Record LockRequest : Type := Request {
  request_id : uuid;
  priority : LockPriority;
  requested_at_monotonic : micros;
  timeout : option micros;
}.

(** [_stats] *)
Record stats : Type := Stats {
  total_acquisitions : Z;
  total_releases : Z;
  total_timeouts : Z;
  average_hold_time : Q;
  max_hold_time : micros;
}.

Record t : Type := Lock {
  _queue : list LockRequest;
  _current_holder : option LockRequest;
  _stats : stats;
}.

Definition new : t := Lock [] None (Stats 0 0 0 0%Q 0).

(** [_enqueue_request]: before the first queued request of lower priority. *)
Fixpoint insert_request (request : LockRequest) (queue : list LockRequest) : list LockRequest :=
  match queue with
  | [] => [request]
  | queued :: rest =>
      if priority_value (priority queued) <? priority_value (priority request)
      then request :: queue
      else queued :: insert_request request rest
  end.

Definition _enqueue_request (request : LockRequest) (l : t) : t :=
  Lock (insert_request request (_queue l)) (_current_holder l) (_stats l).

(** One pass of the loop of [_wait_for_turn]. *)
Inductive turn : Type := Granted | StillWaiting | TimedOut.

Definition _wait_for_turn (request : LockRequest) (now : micros) (l : t) : turn * t :=
  match _queue l, _current_holder l with
  | head :: rest, None =>
      if bool_decide (request_id head = request_id request)
      then (Granted, Lock rest None (_stats l))
      else
        match timeout request with
        | Some d => if negb (d =? 0) && (d <=? now - requested_at_monotonic request)
                    then (TimedOut, l) else (StillWaiting, l)
        | None => (StillWaiting, l)
        end
  | _, _ =>
      match timeout request with
      | Some d => if negb (d =? 0) && (d <=? now - requested_at_monotonic request)
                  then (TimedOut, l) else (StillWaiting, l)
      | None => (StillWaiting, l)
      end
  end.

(** What [acquire] does when its turn has come. *)
Definition take (request : LockRequest) (l : t) : t :=
  let s := _stats l in
  Lock (_queue l) (Some request)
    (Stats (total_acquisitions s + 1) (total_releases s) (total_timeouts s)
       (average_hold_time s) (max_hold_time s)).

Definition count_timeout (l : t) : t :=
  let s := _stats l in
  Lock (_queue l) (_current_holder l)
    (Stats (total_acquisitions s) (total_releases s) (total_timeouts s + 1)
       (average_hold_time s) (max_hold_time s)).

Definition _cleanup_request (request : LockRequest) (acquired_at : option micros) (now : micros)
    (l : t) : t :=
  let s := _stats l in
  let s' := match acquired_at with
    | None => s
    | Some at_ =>
        let releases := total_releases s + 1 in
        Stats (total_acquisitions s) releases (total_timeouts s)
          (mean_update (average_hold_time s) releases (now - at_))
          (Z.max (max_hold_time s) (now - at_))
    end in
  Lock (filter (fun r => request_id r <> request_id request) (_queue l))
    match _current_holder l with
    | Some h => if bool_decide (request_id h = request_id request) then None else Some h
    | None => None
    end s'.

(** ** The tasks that use the lock *)

(** A task inside [acquire]: waiting for its turn, or in the body since a
    time. *)
Inductive phase : Type := Waiting | Inside (acquired_at : micros).

Record system : Type := System {
  lock : t;
  tasks : gmap uuid (LockRequest * phase);
}.

Definition start : system := System new ∅.

(** Arrival, one poll of a waiting task, the end of a body, and a
    cancellation while waiting; each at a clock reading. *)
Inductive event : Type :=
  | Arrive (request : LockRequest)
  | Poll (id : uuid) (now : micros)
  | Leave (id : uuid) (how : body_end) (now : micros)
  | Cancel (id : uuid) (now : micros).

Definition step (s : system) (e : event) : system :=
  match e with
  | Arrive r =>
      match tasks s !! request_id r with
      | Some _ => s
      | None => System (_enqueue_request r (lock s)) (<[request_id r := (r, Waiting)]> (tasks s))
      end
  | Poll id now =>
      match tasks s !! id with
      | Some (r, Waiting) =>
          match _wait_for_turn r now (lock s) with
          | (Granted, l) => System (take r l) (<[id := (r, Inside now)]> (tasks s))
          | (StillWaiting, l) => System l (tasks s)
          | (TimedOut, l) =>
              System (_cleanup_request r None now (count_timeout l)) (delete id (tasks s))
          end
      | _ => s
      end
  | Leave id how now =>
      match tasks s !! id with
      | Some (r, Inside at_) =>
          let l := match how with RaisesTimeoutError => count_timeout (lock s) | _ => lock s end in
          System (_cleanup_request r (Some at_) now l) (delete id (tasks s))
      | _ => s
      end
  | Cancel id now =>
      match tasks s !! id with
      | Some (r, Waiting) => System (_cleanup_request r None now (lock s)) (delete id (tasks s))
      | _ => s
      end
  end.

(** ** Invariant *)

(** The service order: higher priority first, then earlier request. *)
Definition served_before (r1 r2 : LockRequest) : Prop :=
  priority_value (priority r2) < priority_value (priority r1) \/
  priority_value (priority r2) = priority_value (priority r1) /\
  requested_at_monotonic r1 <= requested_at_monotonic r2.

(** The queue holds exactly the waiting tasks, in service order; the holder is
    the one task in the body. *)
Record consistent (s : system) : Prop := Consistent {
  c_sorted : StronglySorted served_before (_queue (lock s));
  c_nodup : NoDup (request_id <$> _queue (lock s));
  c_queue r : r ∈ _queue (lock s) <-> tasks s !! request_id r = Some (r, Waiting);
  c_ids id r ph : tasks s !! id = Some (r, ph) -> request_id r = id;
  c_holder r : _current_holder (lock s) = Some r <->
    exists at_, tasks s !! request_id r = Some (r, Inside at_);
  c_counts : total_acquisitions (_stats (lock s)) - total_releases (_stats (lock s)) =
    match _current_holder (lock s) with Some _ => 1 | None => 0 end;
}.

Lemma start_consistent : consistent start.
Proof.
  split; try done.
  - constructor.
  - constructor.
  - intros r. simpl. rewrite lookup_empty. split; [by intros ?%not_elem_of_nil|done].
  - intros r. simpl. split; [done|]. intros [at_ H]. by rewrite lookup_empty in H.
Qed.

(** A request that has come last is inserted in service order. *)
Lemma elem_of_insert r q x : x ∈ insert_request r q <-> x = r \/ x ∈ q.
Proof.
  induction q as [|h q IH]; simpl; [rewrite list_elem_of_singleton, elem_of_nil; tauto|].
  case_match; rewrite !elem_of_cons; [tauto|]. rewrite IH. tauto.
Qed.

Lemma insert_request_perm r q : insert_request r q ≡ₚ r :: q.
Proof.
  induction q as [|h q IH]; simpl; [done|]. case_match; [done|]. rewrite IH. apply Permutation_swap.
Qed.

Lemma insert_sorted r q :
  StronglySorted served_before q ->
  Forall (fun x => requested_at_monotonic x <= requested_at_monotonic r) q ->
  StronglySorted served_before (insert_request r q).
Proof.
  induction 1 as [|h q Hs IH Hh]; intros Hall; simpl; [by repeat constructor|].
  apply Forall_cons in Hall as [Hhr Hall].
  destruct (_ <? _) eqn:E; breflect.
  - constructor; [by constructor|]. constructor; [by left|].
    eapply Forall_impl; [exact Hh|]. unfold served_before. intros x [?|[? ?]]; left; lia.
  - constructor; [by apply IH|]. rewrite Forall_forall. intros x [->|Hx]%elem_of_insert.
    + unfold served_before. destruct (Z.eq_dec (priority_value (priority r)) (priority_value (priority h)));
        [right; lia|left; lia].
    + rewrite Forall_forall in Hh. by apply Hh.
Qed.

Lemma filter_sorted {A} (R : A -> A -> Prop) (P : A -> Prop) `{!forall x, Decision (P x)} l :
  StronglySorted R l -> StronglySorted R (filter P l).
Proof.
  induction 1 as [|x l Hs IH Hx]; [constructor|]. rewrite filter_cons. case_decide; [|done].
  constructor; [done|]. rewrite Forall_forall in Hx |- *.
  intros y [_ Hy]%list_elem_of_filter. by apply Hx.
Qed.

(** *** Preservation *)

Lemma arrive_consistent r s :
  consistent s -> tasks s !! request_id r = None ->
  Forall (fun x => requested_at_monotonic x <= requested_at_monotonic r) (_queue (lock s)) ->
  consistent (System (_enqueue_request r (lock s)) (<[request_id r := (r, Waiting)]> (tasks s))).
Proof.
  intros [Hso Hnd Hq Hid Hh Hc] Hnew Hpast. split; simpl.
  - by apply insert_sorted.
  - rewrite insert_request_perm. csimpl. constructor; [|done].
    intros (x & Hx & Hin)%list_elem_of_fmap. apply Hq in Hin. rewrite Hx in Hnew. congruence.
  - intros x. rewrite elem_of_insert, Hq. split.
    + intros [->|Hx]; [by rewrite lookup_insert_eq|].
      rewrite lookup_insert_ne; [done|]. intros E. rewrite E in Hnew. congruence.
    + intros [[? ?]|[? ?]]%lookup_insert_Some; [left; by simplify_eq|by right].
  - intros id x ph [[<- ?]|[_ ?]]%lookup_insert_Some; [by simplify_eq|by eapply Hid].
  - intros x. rewrite Hh. split.
    + intros [at_ Hx]. exists at_. rewrite lookup_insert_ne; [done|].
      intros E. rewrite E in Hnew. congruence.
    + intros [at_ [[_ ?]|[_ ?]]%lookup_insert_Some]; [by simplify_eq|by exists at_].
  - done.
Qed.

(** Two locks that differ in the timeout count and hold times only. *)
Definition same_core (l l' : t) : Prop :=
  _queue l' = _queue l /\ _current_holder l' = _current_holder l /\
  total_acquisitions (_stats l') = total_acquisitions (_stats l) /\
  total_releases (_stats l') = total_releases (_stats l).

Lemma remove_consistent s id r ph l now :
  consistent s -> tasks s !! id = Some (r, ph) -> same_core (lock s) l ->
  consistent (System
    (_cleanup_request r (match ph with Waiting => None | Inside at_ => Some at_ end) now l)
    (delete id (tasks s))).
Proof.
  intros [Hso Hnd Hq Hid Hh Hc] Ht (Eq & Eh & Ea & Er).
  pose proof (Hid _ _ _ Ht) as Hrid. subst id. split; simpl; rewrite ?Eq, ?Eh.
  - by apply filter_sorted.
  - eapply sublist_NoDup; [exact Hnd|apply fmap_sublist, sublist_filter].
  - intros x. rewrite list_elem_of_filter, Hq, lookup_delete_Some. naive_solver.
  - intros id x ph' [_ ?]%lookup_delete_Some. by eapply Hid.
  - intros x. destruct (_current_holder (lock s)) as [h|] eqn:E.
    + case_bool_decide as Hhr; split; try done.
      * intros [at_ [Hne Hx]%lookup_delete_Some].
        assert (Some h = Some x) by (apply Hh; by exists at_). by simplify_eq.
      * intros ?. simplify_eq. destruct (proj1 (Hh x) eq_refl) as [at_ Hx]. exists at_.
        by rewrite lookup_delete_ne.
      * intros [at_ [Hne Hx]%lookup_delete_Some]. apply Hh. by exists at_.
    + split; [done|]. intros [at_ [Hne Hx]%lookup_delete_Some]. apply Hh. by exists at_.
  - destruct ph as [|at_]; simpl.
    + rewrite Ea, Er, Hc. destruct (_current_holder (lock s)) as [h|] eqn:E; [|done].
      rewrite bool_decide_eq_false_2; [done|]. intros E2.
      destruct (proj1 (Hh h) eq_refl) as [at_ Hx]. rewrite E2 in Hx. congruence.
    + assert (_current_holder (lock s) = Some r) as E by (apply Hh; by exists at_).
      rewrite E in Hc |- *. rewrite bool_decide_eq_true_2 by done. rewrite Ea, Er. lia.
Qed.

Lemma wait_for_turn_granted r now l l' :
  _wait_for_turn r now l = (Granted, l') ->
  exists head rest, _queue l = head :: rest /\ request_id head = request_id r /\
    _current_holder l = None /\ l' = Lock rest None (_stats l).
Proof.
  unfold _wait_for_turn. destruct (_queue l) as [|head rest]; [by split_cases|].
  destruct (_current_holder l); [by split_cases|]. case_bool_decide; [|by split_cases].
  intros ?. simplify_eq. by exists head, rest.
Qed.

Lemma wait_for_turn_same r now l a l' :
  _wait_for_turn r now l = (a, l') -> a <> Granted -> l' = l.
Proof. unfold _wait_for_turn. intros ? ?. by split_cases. Qed.

Lemma grant_consistent s id r now l :
  consistent s -> tasks s !! id = Some (r, Waiting) ->
  _wait_for_turn r now (lock s) = (Granted, l) ->
  consistent (System (take r l) (<[id := (r, Inside now)]> (tasks s))) /\
  exists rest, _queue (lock s) = r :: rest.
Proof.
  intros [Hso Hnd Hq Hid Hh Hc] Ht (head & rest & Eq & Ehead & Eh & ->)%wait_for_turn_granted.
  pose proof (Hid _ _ _ Ht) as Hrid. subst id.
  assert (head = r) as ->.
  { assert (Hin : head ∈ _queue (lock s)) by (rewrite Eq; left).
    apply Hq in Hin. rewrite Ehead in Hin. congruence. }
  split; [|by exists rest]. rewrite Eq in Hso, Hnd, Hq. rewrite Eh in Hh, Hc.
  apply StronglySorted_inv in Hso as [Hso _]. apply NoDup_cons in Hnd as [Hni Hnd].
  split; simpl; try done.
  - intros x. rewrite lookup_insert_Some. split.
    + intros Hx. right. split; [|apply Hq; by right].
      intros E. apply Hni. rewrite E. by apply (list_elem_of_fmap_2 request_id).
    + intros [[_ ?]|[Hne Hx]]; [by simplify_eq|]. apply Hq, elem_of_cons in Hx as [->|]; done.
  - intros id x ph [[<- ?]|[_ ?]]%lookup_insert_Some; [by simplify_eq|by eapply Hid].
  - intros x. split.
    + intros ?. simplify_eq. exists now. apply lookup_insert_eq.
    + intros [at_ [[_ ?]|[_ Hx]]%lookup_insert_Some]; [by simplify_eq|].
      assert (None = Some x) by (apply Hh; by exists at_). done.
  - lia.
Qed.

(** Requests read a monotonic clock before they are queued. *)
Definition timely (s : system) (e : event) : Prop :=
  match e with
  | Arrive r => Forall (fun x => requested_at_monotonic x <= requested_at_monotonic r) (_queue (lock s))
  | _ => True
  end.

Lemma step_consistent s e : consistent s -> timely s e -> consistent (step s e).
Proof.
  intros Hcs Ht. destruct e as [r|id now|id how now|id now]; simpl.
  - destruct (tasks s !! request_id r) eqn:E; [done|]. by apply arrive_consistent.
  - destruct (tasks s !! id) as [[r []]|] eqn:E; [|done..].
    destruct (_wait_for_turn r now (lock s)) as [[] l] eqn:Ew.
    + by eapply grant_consistent.
    + apply wait_for_turn_same in Ew; [|done]. subst l. by destruct s.
    + apply wait_for_turn_same in Ew; [|done]. subst l.
      by apply (remove_consistent s id r Waiting).
  - destruct (tasks s !! id) as [[r [|at_]]|] eqn:E; [done| |done].
    apply (remove_consistent s id r (Inside at_)); [done..|]. by destruct how.
  - destruct (tasks s !! id) as [[r []]|] eqn:E; [|done..].
    by apply (remove_consistent s id r Waiting).
Qed.

Fixpoint timely_run (s : system) (es : list event) : Prop :=
  match es with
  | [] => True
  | e :: es => timely s e /\ timely_run (step s e) es
  end.

Lemma run_consistent es : forall s, consistent s -> timely_run s es -> consistent (run step s es).
Proof.
  induction es as [|e es IH]; intros s Hs Ht; [done|]. destruct Ht as [He Hes].
  apply IH; [by apply step_consistent|done].
Qed.

(** A task is in the body. *)
Definition inside (s : system) (id : uuid) : Prop :=
  exists r at_, tasks s !! id = Some (r, Inside at_).
Definition waiting (s : system) (id : uuid) (r : LockRequest) : Prop :=
  tasks s !! id = Some (r, Waiting).
End PriorityLock.

(** C8: in every history of arrivals, polls, timeouts, cancellations and
    bodies that end in any way: at most one task is in the body at a time;
    the task whose poll is granted comes before every other waiting task, by
    priority and then by time of request; and whenever the lock is free and
    tasks wait, the next poll of one of them is granted, so no wake-up is
    lost. *)
Theorem priority_lock_correct (es : list PriorityLock.event) :
  PriorityLock.timely_run PriorityLock.start es ->
  let s := run PriorityLock.step PriorityLock.start es in
  (forall id1 id2, PriorityLock.inside s id1 -> PriorityLock.inside s id2 -> id1 = id2) /\
  (forall id r now, PriorityLock.waiting s id r ->
     PriorityLock.inside (PriorityLock.step s (PriorityLock.Poll id now)) id ->
     (forall id', ~ PriorityLock.inside s id') /\
     forall id' r', PriorityLock.waiting s id' r' -> id' <> id -> PriorityLock.served_before r r') /\
  ((forall id, ~ PriorityLock.inside s id) -> (exists id r, PriorityLock.waiting s id r) ->
   exists id r, PriorityLock.waiting s id r /\
     forall now, PriorityLock.inside (PriorityLock.step s (PriorityLock.Poll id now)) id).
Proof.
  intros Ht s. pose proof (PriorityLock.run_consistent es _ PriorityLock.start_consistent Ht) as Hcs.
  fold s in Hcs. clearbody s. clear Ht. pose proof Hcs as [Hso Hnd Hq Hid Hh Hc].
  unfold PriorityLock.inside, PriorityLock.waiting. split; [|split].
  - intros id1 id2 (r1 & a1 & H1) (r2 & a2 & H2).
    pose proof (Hid _ _ _ H1) as E1. pose proof (Hid _ _ _ H2) as E2. subst id1 id2.
    assert (PriorityLock._current_holder (PriorityLock.lock s) = Some r1) by (apply Hh; eauto).
    assert (PriorityLock._current_holder (PriorityLock.lock s) = Some r2) by (apply Hh; eauto).
    congruence.
  - intros id r now Hw (r2 & a2 & Hin). simpl in Hin. rewrite Hw in Hin.
    destruct (PriorityLock._wait_for_turn r now (PriorityLock.lock s)) as [[] l] eqn:Ew; simpl in Hin.
    2:{ congruence. }
    2:{ by rewrite lookup_delete_eq in Hin. }
    pose proof (PriorityLock.wait_for_turn_granted _ _ _ _ Ew) as (_ & _ & _ & _ & Hfree & _).
    destruct (PriorityLock.grant_consistent s id r now l Hcs Hw Ew) as [_ [rest Eq]]. split.
    + intros id' (r' & a' & H'). pose proof (Hid _ _ _ H') as E. subst id'.
      assert (PriorityLock._current_holder (PriorityLock.lock s) = Some r') by (apply Hh; eauto).
      congruence.
    + intros id' r' H' Hne. pose proof (Hid _ _ _ H') as E. subst id'. apply Hq in H'.
      rewrite Eq in Hso, H'. apply elem_of_cons in H' as [->|H'].
      { by rewrite (Hid _ _ _ Hw) in Hne. }
      apply StronglySorted_inv in Hso as [_ Hall]. rewrite Forall_forall in Hall. by apply Hall.
  - intros Hfree (id & r & Hw). pose proof (Hid _ _ _ Hw) as E. subst id. apply Hq in Hw.
    destruct (PriorityLock._queue (PriorityLock.lock s)) as [|head rest] eqn:Eq;
      [by apply not_elem_of_nil in Hw|].
    assert (Hhead : PriorityLock.tasks s !! PriorityLock.request_id head = Some (head, PriorityLock.Waiting))
      by (apply Hq; left).
    exists (PriorityLock.request_id head), head. split; [done|]. intros now. simpl. rewrite Hhead.
    assert (Hnone : PriorityLock._current_holder (PriorityLock.lock s) = None).
    { destruct (PriorityLock._current_holder (PriorityLock.lock s)) as [h|] eqn:E; [|done].
      destruct (proj1 (Hh h) eq_refl) as [at_ Hx]. by destruct (Hfree (PriorityLock.request_id h)); eauto. }
    unfold PriorityLock._wait_for_turn. rewrite Eq, Hnone, bool_decide_eq_true_2 by done.
    exists head, now. apply lookup_insert_eq.
Qed.

Definition demo_requests : list PriorityLock.event :=
  [PriorityLock.Arrive (PriorityLock.Request "a" LOW 1 None);
   PriorityLock.Arrive (PriorityLock.Request "b" HIGH 2 (Some 50));
   PriorityLock.Poll "a" 3; PriorityLock.Poll "b" 3].

Lemma priority_lock_correct_witness :
  PriorityLock.inside (run PriorityLock.step PriorityLock.start demo_requests) "b" /\
  forall id, PriorityLock.inside (run PriorityLock.step PriorityLock.start demo_requests) id -> id = "b".
Proof.
  assert (Hb : PriorityLock.inside (run PriorityLock.step PriorityLock.start demo_requests) "b").
  { eexists _, _. vm_compute. reflexivity. }
  split; [exact Hb|]. intros id Hid. revert Hid Hb.
  apply (priority_lock_correct demo_requests).
  split; [constructor|]. split; [|split; [exact I|split; [exact I|exact I]]].
  constructor; [vm_compute; discriminate|constructor].
Defined.

(** ** The fair semaphore *)

Module FairSemaphore.
(** [SemaphoreStats], without the hold times. *)
Record stats : Type := Stats {
  total_permits : Z;
  available_permits : Z;
  waiting_count : Z;
  total_acquisitions : Z;
  total_releases : Z;
  total_timeouts : Z;
}.

(** Where a task is in [acquire]: waiting for a permit, holding one but not
    yet registered (it awaits the inner lock), or in the body. *)
Inductive phase : Type := Waiting | Taken | Holding.

(** [permits] is the counter of the [asyncio.Semaphore]. *)
Record t : Type := Sem {
  permits : Z;
  _active_holders : gset uuid;
  _stats : stats;
  tasks : gmap uuid phase;
}.

Definition new (value : Z) : t := Sem value ∅ (Stats value value 0 0 0 0) ∅.

(** [Enter] up to the wait; [Take]: the semaphore grants a permit; [Register];
    [Expire]: the wait times out; [Leave]: the body ends; [Cancel]: the task
    is cancelled at its current suspension point. *)
Inductive event : Type :=
  | Enter (id : uuid)
  | Take (id : uuid)
  | Register (id : uuid)
  | Expire (id : uuid)
  | Leave (id : uuid) (how : body_end)
  | Cancel (id : uuid).

Definition on_stats (f : stats -> stats) (s : t) : t :=
  Sem (permits s) (_active_holders s) (f (_stats s)) (tasks s).

(** [except TimeoutError]. *)
Definition count_timeout (x : stats) : stats :=
  Stats (total_permits x) (available_permits x) (waiting_count x - 1)
    (total_acquisitions x) (total_releases x) (total_timeouts x + 1).

(** [finally], when the permit was taken. *)
Definition give_back (id : uuid) (s : t) : t :=
  let x := _stats s in
  Sem (permits s + 1) (_active_holders s ∖ {[id]})
    (Stats (total_permits x) (available_permits x + 1) (waiting_count x)
       (total_acquisitions x) (total_releases x + 1) (total_timeouts x))
    (delete id (tasks s)).

Definition drop (id : uuid) (s : t) : t :=
  Sem (permits s) (_active_holders s) (_stats s) (delete id (tasks s)).

Definition step (s : t) (e : event) : t :=
  let x := _stats s in
  match e with
  | Enter id =>
      match tasks s !! id with
      | Some _ => s
      | None =>
          Sem (permits s) (_active_holders s)
            (Stats (total_permits x) (available_permits x) (waiting_count x + 1)
               (total_acquisitions x) (total_releases x) (total_timeouts x))
            (<[id := Waiting]> (tasks s))
      end
  | Take id =>
      match tasks s !! id with
      | Some Waiting =>
          if 0 <? permits s
          then Sem (permits s - 1) (_active_holders s) x (<[id := Taken]> (tasks s))
          else s
      | _ => s
      end
  | Register id =>
      match tasks s !! id with
      | Some Taken =>
          Sem (permits s) (_active_holders s ∪ {[id]})
            (Stats (total_permits x) (available_permits x - 1) (waiting_count x - 1)
               (total_acquisitions x + 1) (total_releases x) (total_timeouts x))
            (<[id := Holding]> (tasks s))
      | _ => s
      end
  | Expire id =>
      match tasks s !! id with
      | Some Waiting => drop id (on_stats count_timeout s)
      | _ => s
      end
  | Leave id how =>
      match tasks s !! id with
      | Some Holding =>
          give_back id (match how with
                        | RaisesTimeoutError => on_stats count_timeout s
                        | _ => s
                        end)
      | _ => s
      end
  | Cancel id =>
      match tasks s !! id with
      | Some Waiting => drop id s
      | Some (Taken | Holding) => give_back id s
      | None => s
      end
  end.

(** ** Invariants *)

(** How many tasks are in a phase, and how many own a permit. *)
Definition count (P : phase -> bool) (m : gmap uuid phase) : Z :=
  map_fold (fun _ ph n => (if P ph then 1 else 0) + n) 0 m.

Definition owns (ph : phase) : bool := match ph with Waiting => false | _ => true end.
Definition pending (ph : phase) : bool := match ph with Holding => false | _ => true end.
Definition holds (ph : phase) : bool := match ph with Holding => true | _ => false end.

Lemma count_insert P m id ph :
  m !! id = None -> count P (<[id := ph]> m) = (if P ph then 1 else 0) + count P m.
Proof.
  intros Hid. unfold count. rewrite map_fold_insert_L; [done| |done].
  intros j1 j2 z1 z2 y _ _ _. repeat case_match; lia.
Qed.

Lemma count_delete P m id ph :
  m !! id = Some ph -> count P m = (if P ph then 1 else 0) + count P (delete id m).
Proof.
  intros Hid. rewrite <- (insert_id m id ph) at 1 by done.
  rewrite <- insert_delete_eq. apply count_insert, lookup_delete_eq.
Qed.

Lemma count_update P m id ph ph' :
  m !! id = Some ph ->
  count P (<[id := ph']> m) = count P m - (if P ph then 1 else 0) + (if P ph' then 1 else 0).
Proof.
  intros Hid. rewrite <- insert_delete_eq, count_insert by apply lookup_delete_eq.
  rewrite (count_delete P m id ph) by done. lia.
Qed.

Lemma count_nonneg P m : 0 <= count P m.
Proof.
  unfold count. apply (map_fold_weak_ind (fun r _ => 0 <= r)); [lia|].
  intros i x m' r _ Hr. case_match; lia.
Qed.

(** Whatever happens, a permit is either in the semaphore or owned by exactly
    one task, and the registered holders are the tasks in the body. *)
Record sound (n : Z) (s : t) : Prop := Sound {
  s_permits : permits s + count owns (tasks s) = n;
  s_nonneg : 0 <= permits s;
  s_total : total_permits (_stats s) = n;
  s_holders id : id ∈ _active_holders s <-> tasks s !! id = Some Holding;
}.

(** While no body raises [TimeoutError] and no task is cancelled, the
    statistics are right too. *)
Definition orderly (e : event) : Prop :=
  match e with
  | Leave _ RaisesTimeoutError | Cancel _ => False
  | _ => True
  end.

Record accounted (s : t) : Prop := Accounted {
  a_waiting : waiting_count (_stats s) = count pending (tasks s);
  a_available : available_permits (_stats s) = total_permits (_stats s) - count holds (tasks s);
  a_totals : total_acquisitions (_stats s) = total_releases (_stats s) + count holds (tasks s);
}.

Lemma new_sound n : 0 <= n -> sound n (new n).
Proof.
  intros Hn. split; [|done|done|done]. simpl. unfold count. rewrite map_fold_empty. lia.
Qed.

Lemma new_accounted n : accounted (new n).
Proof. split; simpl; unfold count; rewrite map_fold_empty; lia. Qed.

Lemma step_sound n s e : sound n s -> sound n (step s e).
Proof.
  intros Hs. pose proof Hs as [Hp Hnn Ht Hh].
  assert (Hdel : forall id ph m, tasks s !! id = Some ph ->
    owns ph = false -> m = delete id (tasks s) -> forall i, i ∈ _active_holders s <-> m !! i = Some Holding).
  { intros id ph m Hid Hph -> i. rewrite Hh, lookup_delete_Some. naive_solver. }
  assert (Hgive : forall id ph f, tasks s !! id = Some ph -> owns ph = true ->
    total_permits (f (_stats s)) = n -> sound n (give_back id (on_stats f s))).
  { intros id ph f Hid Hph Hf. pose proof (count_delete owns _ _ _ Hid) as Hc. rewrite Hph in Hc.
    split; simpl; [lia|lia|done|]. intros i. rewrite lookup_delete_Some.
    rewrite elem_of_difference, elem_of_singleton, Hh. naive_solver. }
  destruct e as [id|id|id|id|id how|id]; simpl; destruct (tasks s !! id) as [[]|] eqn:E; try done.
  - split; simpl; [rewrite count_insert by done; simpl; lia|done|done|].
    intros i. rewrite Hh, lookup_insert_Some. naive_solver.
  - destruct (0 <? permits s) eqn:Ep; [|done]. breflect.
    split; simpl; [rewrite (count_update _ _ _ Waiting) by done; simpl; lia|lia|done|].
    intros i. rewrite Hh, lookup_insert_Some. naive_solver.
  - split; simpl; [rewrite (count_update _ _ _ Taken) by done; simpl; lia|done|done|].
    intros i. rewrite lookup_insert_Some, elem_of_union, elem_of_singleton, Hh. naive_solver.
  - pose proof (count_delete owns _ _ _ E) as Hc. simpl in Hc.
    split; simpl; [lia|done|done|]. by eapply Hdel.
  - destruct how; [by apply (Hgive id Holding (fun x => x))|by apply (Hgive id Holding count_timeout)
      |by apply (Hgive id Holding (fun x => x))].
  - pose proof (count_delete owns _ _ _ E) as Hc. simpl in Hc.
    split; simpl; [lia|done|done|]. by eapply Hdel.
  - by apply (Hgive id Taken (fun x => x)).
  - by apply (Hgive id Holding (fun x => x)).
Qed.

Lemma step_accounted s e : orderly e -> accounted s -> accounted (step s e).
Proof.
  intros Hord [Hw Ha Ht].
  destruct e as [id|id|id|id|id how|id]; simpl; try done;
    destruct (tasks s !! id) as [[]|] eqn:E; try done.
  - split; simpl; rewrite count_insert by done; simpl; lia.
  - destruct (0 <? permits s); [|done].
    split; simpl; rewrite (count_update _ _ _ Waiting) by done; simpl; lia.
  - split; simpl; rewrite (count_update _ _ _ Taken) by done; simpl; lia.
  - pose proof (count_delete pending _ _ _ E) as Hp. pose proof (count_delete holds _ _ _ E) as Hh.
    split; simpl in *; lia.
  - pose proof (count_delete pending _ _ _ E) as Hp. pose proof (count_delete holds _ _ _ E) as Hh.
    destruct how; [|done|]; split; simpl in *; lia.
Qed.

Lemma run_sound n es : 0 <= n -> sound n (run step (new n) es).
Proof.
  intros Hn. apply (run_invariant step (sound n) (fun _ => True)); [|by apply new_sound|by apply Forall_true].
  intros s e Hs _. by apply step_sound.
Qed.

Lemma run_accounted n es : Forall orderly es -> accounted (run step (new n) es).
Proof.
  intros Hes. apply (run_invariant step accounted orderly); [|by apply new_accounted|done].
  intros s e Hs He. by apply step_accounted.
Qed.

Lemma count_holds_owns m : count holds m <= count owns m.
Proof.
  induction m as [|id ph m Hid IH] using map_ind; [done|].
  rewrite !count_insert by done. destruct ph; simpl in *; lia.
Qed.
End FairSemaphore.

(** C12: in every history (timeouts, cancellations at any suspension point,
    bodies that raise) no permit is lost or made up: free permits and tasks
    that own one add up to the initial value, so never more than that many
    tasks are in the body; and a waiting task is granted a free permit at its
    next turn. *)
Theorem semaphore_conserves_permits (n : Z) (es : list FairSemaphore.event) :
  0 <= n ->
  let s := run FairSemaphore.step (FairSemaphore.new n) es in
  0 <= FairSemaphore.permits s /\
  FairSemaphore.permits s + FairSemaphore.count FairSemaphore.owns (FairSemaphore.tasks s) = n /\
  FairSemaphore.count FairSemaphore.holds (FairSemaphore.tasks s) <= n /\
  (forall id, id ∈ FairSemaphore._active_holders s <->
     FairSemaphore.tasks s !! id = Some FairSemaphore.Holding) /\
  (forall id, FairSemaphore.tasks s !! id = Some FairSemaphore.Waiting ->
     FairSemaphore.count FairSemaphore.owns (FairSemaphore.tasks s) < n ->
     FairSemaphore.tasks (FairSemaphore.step s (FairSemaphore.Take id)) !! id =
       Some FairSemaphore.Taken).
Proof.
  intros Hn s. destruct (FairSemaphore.run_sound n es Hn) as [Hp Hnn Ht Hh]. fold s in Hp, Hnn, Hh.
  split_and!; [done|done| |done|].
  - pose proof (FairSemaphore.count_holds_owns (FairSemaphore.tasks s)). lia.
  - intros id Hid Hlt. simpl. rewrite Hid, Zltb_T by lia. apply lookup_insert_eq.
Qed.

Definition demo_sem_events : list FairSemaphore.event :=
  [FairSemaphore.Enter "a"; FairSemaphore.Enter "b"; FairSemaphore.Take "a";
   FairSemaphore.Take "b"; FairSemaphore.Register "a"].

Lemma semaphore_conserves_permits_witness :
  FairSemaphore.permits (run FairSemaphore.step (FairSemaphore.new 1) demo_sem_events) = 0 /\
  FairSemaphore.count FairSemaphore.holds
    (FairSemaphore.tasks (run FairSemaphore.step (FairSemaphore.new 1) demo_sem_events)) <= 1.
Proof.
  split; [vm_compute; reflexivity|].
  apply (semaphore_conserves_permits 1 demo_sem_events). lia.
Defined.

(** As long as no body raises [TimeoutError] and no task is
    cancelled, the statistics are exact: the waiting count is the number of
    tasks that have not registered yet, the available permits are the total
    less the registered holders, and acquisitions exceed releases by exactly
    those holders. *)
Theorem semaphore_stats_accurate (n : Z) (es : list FairSemaphore.event) :
  0 <= n -> Forall FairSemaphore.orderly es ->
  let s := run FairSemaphore.step (FairSemaphore.new n) es in
  let x := FairSemaphore._stats s in
  FairSemaphore.waiting_count x = FairSemaphore.count FairSemaphore.pending (FairSemaphore.tasks s) /\
  FairSemaphore.available_permits x =
    n - FairSemaphore.count FairSemaphore.holds (FairSemaphore.tasks s) /\
  0 <= FairSemaphore.available_permits x <= n /\ 0 <= FairSemaphore.waiting_count x /\
  FairSemaphore.total_acquisitions x - FairSemaphore.total_releases x =
    FairSemaphore.count FairSemaphore.holds (FairSemaphore.tasks s).
Proof.
  intros Hn Hes s x. destruct (FairSemaphore.run_accounted n es Hes) as [Hw Ha Ht].
  destruct (FairSemaphore.run_sound n es Hn) as [Hp Hnn Htot _]. fold s in Hw, Ha, Ht, Hp, Hnn, Htot.
  subst x. pose proof (FairSemaphore.count_holds_owns (FairSemaphore.tasks s)).
  pose proof (FairSemaphore.count_nonneg FairSemaphore.holds (FairSemaphore.tasks s)).
  pose proof (FairSemaphore.count_nonneg FairSemaphore.pending (FairSemaphore.tasks s)).
  split_and!; lia.
Qed.

Lemma semaphore_stats_accurate_witness :
  FairSemaphore.waiting_count
    (FairSemaphore._stats (run FairSemaphore.step (FairSemaphore.new 1) demo_sem_events)) = 1.
Proof.
  destruct (semaphore_stats_accurate 1 demo_sem_events) as [H _].
  - lia.
  - repeat constructor.
  - rewrite H. vm_compute. reflexivity.
Defined.

(** A [TimeoutError] raised by the body is taken for a timeout of the
    acquisition: it is counted as one and takes the waiting count down a
    second time, below the number of tasks that wait, and to minus one when
    none does. *)
Theorem semaphore_body_timeout_drift (s : FairSemaphore.t) (id : uuid) :
  FairSemaphore.accounted s ->
  FairSemaphore.tasks s !! id = Some FairSemaphore.Holding ->
  let s' := FairSemaphore.step s (FairSemaphore.Leave id RaisesTimeoutError) in
  FairSemaphore.waiting_count (FairSemaphore._stats s') =
    FairSemaphore.count FairSemaphore.pending (FairSemaphore.tasks s') - 1 /\
  FairSemaphore.total_timeouts (FairSemaphore._stats s') =
    FairSemaphore.total_timeouts (FairSemaphore._stats s) + 1.
Proof.
  intros [Hw _ _] E. simpl. rewrite E. simpl.
  pose proof (FairSemaphore.count_delete FairSemaphore.pending _ _ _ E) as Hp. simpl in Hp. lia.
Qed.

Lemma semaphore_body_timeout_drift_witness :
  FairSemaphore.waiting_count (FairSemaphore._stats (FairSemaphore.step
    (run FairSemaphore.step (FairSemaphore.new 1)
       [FairSemaphore.Enter "a"; FairSemaphore.Take "a"; FairSemaphore.Register "a"])
    (FairSemaphore.Leave "a" RaisesTimeoutError))) = -1.
Proof.
  destruct (semaphore_body_timeout_drift (run FairSemaphore.step (FairSemaphore.new 1)
    [FairSemaphore.Enter "a"; FairSemaphore.Take "a"; FairSemaphore.Register "a"]) "a") as [H _].
  - apply FairSemaphore.run_accounted. repeat constructor.
  - vm_compute. reflexivity.
  - rewrite H. vm_compute. reflexivity.
Defined.
