(* ===== verification/ResourcePool.v ===== *)
(** * Pools of resources and their manager

    Models [ResourceHandle], [ResourcePool] and [ResourceManager] of
    src/src/omnimemory/adapters/adapter_resource_manager.py. Handles are
    shared mutable objects and live in a heap; the critical sections of the
    pool's lock contain no suspension point and are atomic. *)

From S2P Require Import Prelude.

Inductive ResourceType : Type := DATABASE | MEMORY | CACHE | NETWORK | STORAGE | FILE.
Inductive ResourceStatus : Type := ACTIVE | RELEASED | EXPIRED | FAILED.

#[export] Instance ResourceType_eq_dec : EqDecision ResourceType.
Proof. solve_decision. Defined.
#[export] Instance ResourceStatus_eq_dec : EqDecision ResourceStatus.
Proof. solve_decision. Defined.

(** [ResourceType.value] *)
Definition type_value (r : ResourceType) : string :=
  match r with
  | DATABASE => "database" | MEMORY => "memory" | CACHE => "cache"
  | NETWORK => "network" | STORAGE => "storage" | FILE => "file"
  end.

(** A resource is known by its identity, [id(resource)]. *)
Definition resource : Type := nat.

Module ResourceHandle.
Record t : Type := Handle {
  res_of : resource;
  status : ResourceStatus;
  created_at : micros;
  ttl : option micros;
}.

(** [healthy] is what the resource's own [is_healthy] answers, or [true]
    when it has none. *)
Definition is_healthy (healthy : bool) (h : t) : bool :=
  if negb (bool_decide (status h = ACTIVE)) then false else healthy.

Definition is_expired (now : micros) (h : t) : bool :=
  match ttl h with
  | None => false
  | Some d => d <=? now - created_at h
  end.

Definition release (h : t) : t := Handle (res_of h) RELEASED (created_at h) (ttl h).
End ResourceHandle.

Module ResourcePool.
Record t : Type := Pool {
  min_size : Z;
  max_size : Z;
  _timeout : micros;
  _ttl : option micros;
  available_resources : list (resource * micros);
  (** [active_resources]: from identities to handles, by their references *)
  active_resources : gmap resource nat;
  current_size : Z;
  _available_event : bool;
  _initialized : bool;
  (** the handles made so far, and the next fresh identity *)
  handles : list ResourceHandle.t;
  next_resource : resource;
}.

Definition new (min_size max_size : Z) (timeout : micros) (ttl : option micros) : t :=
  Pool min_size max_size timeout ttl [] ∅ 0 false false [] O.

(** [_create_resource]: the factory succeeds, with a new object, or fails. *)
Definition _create_resource (succeeds : bool) (p : t) : option resource * t :=
  if succeeds then
    (Some (next_resource p),
     Pool (min_size p) (max_size p) (_timeout p) (_ttl p) (available_resources p)
       (active_resources p) (current_size p) (_available_event p) (_initialized p)
       (handles p) (S (next_resource p)))
  else (None, p).

(** The loop of [initialize]; [factory] says which calls of it succeed. *)
Fixpoint fill (n : nat) (factory : nat -> bool) (now : micros) (p : t) : t :=
  match n with
  | O => p
  | S n =>
      let p :=
        match _create_resource (factory n) p with
        | (Some r, p) =>
            Pool (min_size p) (max_size p) (_timeout p) (_ttl p)
              (available_resources p ++ [(r, now)]) (active_resources p) (current_size p + 1)
              (_available_event p) (_initialized p) (handles p) (next_resource p)
        | (None, p) => p
        end in
      fill n factory now p
  end.

Definition initialize (factory : nat -> bool) (now : micros) (p : t) : t :=
  if _initialized p then p
  else
    let p := fill (Z.to_nat (min_size p)) factory now p in
    Pool (min_size p) (max_size p) (_timeout p) (_ttl p) (available_resources p)
      (active_resources p) (current_size p)
      (match available_resources p with [] => _available_event p | _ => true end)
      true (handles p) (next_resource p).

(** Hand out the resource [r]: a new handle, in [active_resources]. *)
Definition hand_out (r : resource) (now : micros) (p : t) : nat * t :=
  (length (handles p),
   Pool (min_size p) (max_size p) (_timeout p) (_ttl p) (available_resources p)
     (<[r := length (handles p)]> (active_resources p)) (current_size p) (_available_event p)
     (_initialized p) (handles p ++ [ResourceHandle.Handle r ACTIVE now (_ttl p)])
     (next_resource p)).

(** One pass through the critical section of [acquire]: [Got] a handle, the
    factory [Failed], or the task must wait. *)
Inductive attempt : Type := Got (ref : nat) | Failed | MustWait.

Definition try_acquire (factory : bool) (now : micros) (p : t) : attempt * t :=
  match last (available_resources p) with
  | Some (r, _) =>
      let p' := Pool (min_size p) (max_size p) (_timeout p) (_ttl p)
        (take (length (available_resources p) - 1) (available_resources p))
        (active_resources p) (current_size p) (_available_event p) (_initialized p)
        (handles p) (next_resource p) in
      let (ref, p'') := hand_out r now p' in (Got ref, p'')
  | None =>
      if current_size p <? max_size p then
        match _create_resource factory p with
        | (Some r, p') =>
            let p' := Pool (min_size p') (max_size p') (_timeout p') (_ttl p')
              (available_resources p') (active_resources p') (current_size p' + 1)
              (_available_event p') (_initialized p') (handles p') (next_resource p') in
            let (ref, p'') := hand_out r now p' in (Got ref, p'')
        | (None, p') => (Failed, p')
        end
      else
        (MustWait,
         Pool (min_size p) (max_size p) (_timeout p) (_ttl p) (available_resources p)
           (active_resources p) (current_size p) false (_initialized p)
           (handles p) (next_resource p))
  end.

Definition set_handle (ref : nat) (h : ResourceHandle.t) (p : t) : t :=
  Pool (min_size p) (max_size p) (_timeout p) (_ttl p) (available_resources p)
    (active_resources p) (current_size p) (_available_event p) (_initialized p)
    (<[ref := h]> (handles p)) (next_resource p).

Definition release (ref : nat) (healthy : bool) (now : micros) (p : t) : t :=
  match handles p !! ref with
  | None => p
  | Some h =>
      let p := Pool (min_size p) (max_size p) (_timeout p) (_ttl p) (available_resources p)
        (delete (ResourceHandle.res_of h) (active_resources p)) (current_size p)
        (_available_event p) (_initialized p) (handles p) (next_resource p) in
      let should_return_to_pool :=
        ResourceHandle.is_healthy healthy h && negb (ResourceHandle.is_expired now h) in
      let p := set_handle ref (ResourceHandle.release h) p in
      if should_return_to_pool then
        Pool (min_size p) (max_size p) (_timeout p) (_ttl p)
          (available_resources p ++ [(ResourceHandle.res_of h, now)]) (active_resources p)
          (current_size p) true (_initialized p) (handles p) (next_resource p)
      else p
  end.

(** The loop of [acquire] after its first pass. Each time the task waits,
    either the wait times out, or the event was set and the task runs again
    at some time, with what other tasks did to the pool meanwhile. *)
Inductive wakeup : Type :=
  | WaitTimedOut
  | Woken (now : micros) (others : t -> t) (factory : bool).

Definition timeout_error (type : ResourceType) : exn :=
  OtherException "ResourceTimeoutError" ("Timeout acquiring " +:+ type_value type +:+ " resource").

Fixpoint acquire (type : ResourceType) (effective_timeout start_time : micros)
    (factory : bool) (now : micros) (wakeups : list wakeup) (p : t) : option (res nat * t) :=
  match try_acquire factory now p with
  | (Got ref, p) => Some (Ok ref, p)
  | (Failed, p) =>
      Some (Raise (OtherException "ResourceAllocationError"
        ("Failed to create " +:+ type_value type +:+ " resource")), p)
  | (MustWait, p) =>
      if effective_timeout <=? now - start_time then Some (Raise (timeout_error type), p)
      else
        match wakeups with
        | [] => None
        | WaitTimedOut :: _ => Some (Raise (timeout_error type), p)
        | Woken now others factory :: wakeups =>
            acquire type effective_timeout start_time factory now wakeups (others p)
        end
  end.

(** [ResourceManager._check_resource_expiration] on one pool: the resources
    that stay available, and those to close. *)
Definition fresh_enough (ttl now : micros) (x : resource * micros) : bool := now - x.2 <? ttl.

Definition check_expiration (now : micros) (p : t) : t :=
  match _ttl p with
  | None => p
  | Some d =>
      let valid := filter (fun x => fresh_enough d now x = true) (available_resources p) in
      let expired := filter (fun x => fresh_enough d now x <> true) (available_resources p) in
      Pool (min_size p) (max_size p) (_timeout p) (_ttl p) valid (active_resources p)
        (current_size p - Z.of_nat (length expired)) (_available_event p) (_initialized p)
        (handles p) (next_resource p)
  end.

(** [ResourceManager.shutdown] on one pool: only the handles that
    [active_resources] knows are marked. *)
Definition shutdown (p : t) : t :=
  Pool (min_size p) (max_size p) (_timeout p) (_ttl p) [] ∅ 0 (_available_event p) (_initialized p)
    (imap (fun ref h =>
       if bool_decide (active_resources p !! ResourceHandle.res_of h = Some ref)
       then ResourceHandle.release h else h) (handles p))
    (next_resource p).

(** ** Histories *)

Inductive op : Type :=
  | Acquire (factory : bool) (now : micros)
  | Release (ref : nat) (healthy : bool) (now : micros)
  | Expire (now : micros)
  | Shutdown.

Definition step (p : t) (o : op) : t :=
  match o with
  | Acquire factory now => (try_acquire factory now p).2
  | Release ref healthy now => release ref healthy now p
  | Expire now => check_expiration now p
  | Shutdown => shutdown p
  end.

(** The resources lent out: those of the handles still ACTIVE. *)
Definition lent (hs : list ResourceHandle.t) : list resource :=
  ResourceHandle.res_of <$> filter (fun h => ResourceHandle.status h = ACTIVE) hs.

Definition idle (p : t) : list resource := (available_resources p).*1.

(** No resource is in two places: twice among the available ones, lent twice,
    or available while lent. *)
Record exclusive (p : t) : Prop := Exclusive {
  x_nodup : NoDup (idle p ++ lent (handles p));
  x_known : Forall (fun r => r < next_resource p)%nat (idle p ++ lent (handles p));
}.

(** The pool's accounts: every idle or lent resource is counted. *)
Record bounded (p : t) : Prop := Bounded {
  b_count : Z.of_nat (length (idle p ++ lent (handles p))) <= current_size p;
  b_max : current_size p <= max_size p;
}.

Lemma lent_app hs1 hs2 : lent (hs1 ++ hs2) = lent hs1 ++ lent hs2.
Proof. unfold lent. by rewrite filter_app, fmap_app. Qed.

Lemma lent_cons h hs :
  lent (h :: hs) = if decide (ResourceHandle.status h = ACTIVE)
                   then ResourceHandle.res_of h :: lent hs else lent hs.
Proof. unfold lent. rewrite filter_cons. by case_decide. Qed.

(** Releasing a handle takes its resource off the lent ones, if it was ACTIVE. *)
Lemma lent_release hs ref h :
  hs !! ref = Some h ->
  if decide (ResourceHandle.status h = ACTIVE)
  then lent hs ≡ₚ ResourceHandle.res_of h :: lent (<[ref := ResourceHandle.release h]> hs)
  else lent (<[ref := ResourceHandle.release h]> hs) = lent hs.
Proof.
  intros Hh. destruct (list_elem_of_split_length hs ref h Hh) as (l1 & l2 & -> & ->).
  rewrite insert_app_r_alt, Nat.sub_diag by done. simpl. rewrite !lent_app, !lent_cons.
  rewrite (decide_False (P := ResourceHandle.status (ResourceHandle.release h) = ACTIVE)) by done.
  destruct (decide (ResourceHandle.status h = ACTIVE)); [|done].
  symmetry. apply Permutation_middle.
Qed.

(** All the places a resource is in. *)
Definition places (p : t) : list resource := idle p ++ lent (handles p).

(** How an operation moves resources between the places. *)
Inductive moved (p p' : t) : Prop :=
  | Kept : places p' ≡ₚ places p -> current_size p' = current_size p ->
      next_resource p' = next_resource p -> moved p p'
  | Created : places p' ≡ₚ next_resource p :: places p -> current_size p < max_size p ->
      current_size p' = current_size p + 1 -> next_resource p' = S (next_resource p) -> moved p p'
  | Lost r : places p ≡ₚ r :: places p' -> current_size p' = current_size p ->
      next_resource p' = next_resource p -> moved p p'
  | Removed gone : places p ≡ₚ gone ++ places p' ->
      current_size p' = current_size p - Z.of_nat (length gone) ->
      next_resource p' = next_resource p -> moved p p'.

Lemma lent_snoc r now ttl hs :
  lent (hs ++ [ResourceHandle.Handle r ACTIVE now ttl]) = lent hs ++ [r].
Proof. by rewrite lent_app, lent_cons, decide_True. Qed.

Lemma try_acquire_moved factory now p : moved p (try_acquire factory now p).2.
Proof.
  unfold try_acquire. destruct (last (available_resources p)) as [[r at_]|] eqn:El.
  - apply last_Some in El as [av Eav]. apply Kept; [|done|done].
    unfold places, idle. simpl. rewrite Eav, length_app. simpl.
    rewrite take_app_length' by lia. rewrite lent_snoc, fmap_app. simpl.
    rewrite <- app_assoc. apply Permutation_app_head. simpl. symmetry. apply Permutation_cons_append.
  - destruct (current_size p <? max_size p) eqn:E; breflect; [|by apply Kept].
    destruct factory; simpl; [|by apply Kept]. apply Created; [|done..].
    unfold places, idle. simpl. rewrite lent_snoc, app_assoc. symmetry. apply Permutation_cons_append.
Qed.

Lemma release_moved ref healthy now p : moved p (release ref healthy now p).
Proof.
  unfold release. destruct (handles p !! ref) as [h|] eqn:Eh; [|by apply Kept].
  pose proof (lent_release _ _ _ Eh) as Hl. unfold ResourceHandle.is_healthy.
  case_bool_decide as Hs; simpl.
  - rewrite decide_True in Hl by done. destruct (healthy && _); simpl.
    + apply Kept; [|done|done]. unfold places, idle. simpl. rewrite fmap_app. simpl.
      rewrite <- app_assoc. by rewrite Hl.
    + eapply Lost; [|done|done]. unfold places, idle. simpl. rewrite Hl. symmetry.
      apply Permutation_middle.
  - rewrite decide_False in Hl by done. apply Kept; [|done|done]. unfold places. simpl. by rewrite Hl.
Qed.

Lemma expire_moved now p : moved p (check_expiration now p).
Proof.
  unfold check_expiration. destruct (_ttl p) as [d|]; [|by apply Kept].
  apply (Removed _ _ (filter (fun x => fresh_enough d now x <> true) (available_resources p)).*1);
    [|by rewrite length_fmap|done].
  unfold places, idle. simpl. rewrite app_assoc. apply Permutation_app_tail.
  rewrite <- fmap_app. apply fmap_Permutation. rewrite Permutation_app_comm.
  induction (available_resources p) as [|x l IH]; [done|]. rewrite !filter_cons.
  destruct (decide (fresh_enough d now x = true)).
  - rewrite decide_False by naive_solver. simpl. by constructor.
  - rewrite decide_True by done. rewrite <- Permutation_middle. by constructor.
Qed.

Lemma moved_exclusive p p' : moved p p' -> exclusive p -> exclusive p'.
Proof.
  intros Hm [Hnd Hk]. fold (places p) in Hnd, Hk.
  destruct Hm as [Hp Hc Hn|Hp Hlt Hc Hn|r Hp Hc Hn|gone Hp Hc Hn]; split; fold (places p').
  - by rewrite Hp.
  - by rewrite Hp, Hn.
  - rewrite Hp. constructor; [|done]. rewrite Forall_forall in Hk. intros Hin.
    specialize (Hk _ Hin). simpl in Hk. lia.
  - rewrite Hp, Hn. constructor; [lia|]. eapply Forall_impl; [exact Hk|]. simpl. lia.
  - rewrite Hp in Hnd. by apply NoDup_cons in Hnd as [_ ?].
  - rewrite Hp in Hk. rewrite Hn. by apply Forall_cons in Hk as [_ ?].
  - rewrite Hp in Hnd. by apply NoDup_app in Hnd as (_ & _ & ?).
  - rewrite Hp in Hk. rewrite Hn. by apply Forall_app in Hk as [_ ?].
Qed.

Lemma moved_bounded p p' :
  moved p p' -> max_size p' = max_size p -> bounded p -> bounded p'.
Proof.
  intros Hm Emax [Hc Hmax]. fold (places p) in Hc.
  destruct Hm as [Hp E Hn|Hp Hlt E Hn|r Hp E Hn|gone Hp E Hn]; split; fold (places p');
    rewrite ?Hp in *; rewrite ?length_cons, ?length_app in *; lia.
Qed.

Lemma shutdown_lent hs (P : nat -> ResourceHandle.t -> bool) :
  lent (imap (fun ref h => if P ref h then ResourceHandle.release h else h) hs) `sublist_of` lent hs.
Proof.
  revert P. induction hs as [|h hs IH]; intros P; [done|].
  rewrite imap_cons, !lent_cons. specialize (IH (fun ref => P (S ref))).
  destruct (P O h).
  - rewrite (decide_False (P := ResourceHandle.status (ResourceHandle.release h) = ACTIVE)) by done.
    case_decide; [by constructor|done].
  - case_decide; [by constructor|done].
Qed.

Lemma step_exclusive p o : exclusive p -> exclusive (step p o).
Proof.
  intros Hx. destruct o as [factory now|ref healthy now|now|]; simpl.
  { eapply moved_exclusive; [apply try_acquire_moved|done]. }
  { eapply moved_exclusive; [apply release_moved|done]. }
  { eapply moved_exclusive; [apply expire_moved|done]. }
  destruct Hx as [Hnd Hk]. apply NoDup_app in Hnd as (_ & _ & Hnd). apply Forall_app in Hk as [_ Hk].
  pose proof (shutdown_lent (handles p) (fun ref h =>
    bool_decide (active_resources p !! ResourceHandle.res_of h = Some ref))) as Hsub.
  split; simpl.
  - by eapply sublist_NoDup.
  - rewrite Forall_forall in Hk |- *. intros r Hr. apply Hk. by eapply sublist_subseteq.
Qed.

Lemma step_sizes p o :
  max_size (step p o) = max_size p /\ min_size (step p o) = min_size p.
Proof.
  destruct o as [factory now|ref healthy now|now|]; simpl; [| | |done].
  - unfold try_acquire. destruct (last _) as [[r at_]|]; [done|].
    destruct (_ <? _); [|done]. by destruct factory.
  - unfold release. destruct (handles p !! ref); [|done]. by destruct (_ && _).
  - unfold check_expiration. by destruct (_ttl p).
Qed.

Definition not_shutdown (o : op) : Prop := match o with Shutdown => False | _ => True end.

Lemma step_bounded p o : not_shutdown o -> bounded p -> bounded (step p o).
Proof.
  intros Ho Hb. pose proof (step_sizes p o) as [Hm _].
  destruct o as [factory now|ref healthy now|now|]; simpl in *; [| | |done].
  - eapply moved_bounded; [apply try_acquire_moved|exact Hm|done].
  - eapply moved_bounded; [apply release_moved|exact Hm|done].
  - eapply moved_bounded; [apply expire_moved|exact Hm|done].
Qed.

(** *** The pool after [initialize] *)

Lemma fill_spec n factory now : forall p, exclusive p -> bounded p -> lent (handles p) = [] ->
  current_size p + Z.of_nat n <= max_size p ->
  let p' := fill n factory now p in
  exclusive p' /\ bounded p' /\ max_size p' = max_size p /\ handles p' = handles p.
Proof.
  induction n as [|n IH]; intros p Hx Hb Hl Hn; [done|]. simpl.
  destruct (factory n); simpl.
  - set (p1 := Pool _ _ _ _ _ _ _ _ _ _ _).
    assert (Hm : moved p p1).
    { apply Created; simpl; try lia. unfold places, idle. simpl. rewrite Hl, !app_nil_r, fmap_app.
      symmetry. apply Permutation_cons_append. }
    apply (IH p1); [by eapply moved_exclusive|by eapply moved_bounded|done|simpl; lia].
  - apply IH; (done || lia).
Qed.

Lemma initialize_spec factory now min max timeout ttl :
  0 <= min <= max ->
  let p := initialize factory now (new min max timeout ttl) in
  exclusive p /\ bounded p /\ max_size p = max /\ handles p = [].
Proof.
  intros Hmin p. unfold p, initialize. simpl.
  destruct (fill_spec (Z.to_nat min) factory now (new min max timeout ttl)) as (Hx & Hb & Hm & Hh).
  - split; [constructor|constructor].
  - split; simpl; lia.
  - done.
  - simpl. lia.
  - split; [by destruct Hx|]. split; [by destruct Hb|]. done.
Qed.

(** *** A pool without idle resources or room for new ones *)

Definition exhausted (p : t) : Prop := places p = [] /\ max_size p <= current_size p.

Lemma exhausted_step p o : not_shutdown o -> exhausted p -> exhausted (step p o).
Proof.
  intros Ho [Hpl Hc]. unfold places in Hpl. apply app_nil in Hpl as [Hi Hl].
  unfold idle in Hi. apply fmap_nil_inv in Hi.
  destruct o as [factory now|ref healthy now|now|]; simpl; [| | |done].
  - unfold try_acquire. rewrite Hi. simpl. rewrite Zltb_F by done. simpl. split; [|done].
    unfold places, idle. simpl. by rewrite ?Hi, Hl.
  - unfold release. destruct (handles p !! ref) as [h|] eqn:Eh.
    2:{ split; [|done]. unfold places, idle. by rewrite ?Hi, Hl. }
    pose proof (lent_release _ _ _ Eh) as Hr. rewrite Hl in Hr. case_decide as Hs.
    { by apply Permutation_nil_cons in Hr. }
    unfold ResourceHandle.is_healthy. rewrite bool_decide_eq_false_2 by done. simpl.
    split; [|done]. unfold places, idle. simpl. by rewrite ?Hi, Hr.
  - unfold check_expiration. destruct (_ttl p) as [d|].
    2:{ split; [|done]. unfold places, idle. by rewrite ?Hi, Hl. }
    split; simpl; [unfold places, idle; simpl; by rewrite ?Hi, Hl|].
    rewrite Hi. rewrite filter_nil. simpl. lia.
Qed.

Lemma exhausted_waits p factory now : exhausted p -> (try_acquire factory now p).1 = MustWait.
Proof.
  intros [Hpl Hc]. unfold places in Hpl. apply app_nil in Hpl as [Hi _].
  apply fmap_nil_inv in Hi. unfold try_acquire. rewrite Hi. simpl. by rewrite Zltb_F.
Qed.

(** Acquiring and giving back, unhealthy, the [ref]-th handle. *)
Definition spoil (now : micros) (ref : nat) : list op :=
  [Acquire true now; Release ref false now].

Fixpoint spoils (now : micros) (ref n : nat) : list op :=
  match n with
  | O => []
  | S n => spoil now ref ++ spoils now (S ref) n
  end.

(** What is left to spoil. *)
Definition spare (p : t) : Z := Z.of_nat (length (idle p)) + max_size p - current_size p.

Lemma acquire_shape p now :
  lent (handles p) = [] -> 0 < spare p -> current_size p <= max_size p ->
  exists r, let p1 := (try_acquire true now p).2 in
    handles p1 = handles p ++ [ResourceHandle.Handle r ACTIVE now (_ttl p)] /\
    spare p1 = spare p - 1 /\ max_size p1 = max_size p /\ current_size p1 <= max_size p1.
Proof.
  intros Hl Hs Hc. unfold try_acquire, spare, idle in *.
  destruct (last (available_resources p)) as [[r at_]|] eqn:El.
  - exists r. simpl. split_and!; try done.
    apply last_Some in El as [av ->]. rewrite !length_fmap, length_app in *. simpl in *.
    rewrite length_take, length_app. simpl. lia.
  - apply last_None in El. rewrite El in *. simpl in *. rewrite Zltb_T by lia.
    exists (next_resource p). simpl. rewrite ?El. simpl. split_and!; (done || lia).
Qed.

Lemma spoil_shape p now ref :
  lent (handles p) = [] -> 0 < spare p -> current_size p <= max_size p -> length (handles p) = ref ->
  let p' := run step p (spoil now ref) in
  lent (handles p') = [] /\ spare p' = spare p - 1 /\ max_size p' = max_size p /\
  current_size p' <= max_size p' /\ length (handles p') = S ref.
Proof.
  intros Hl Hs Hc <-. simpl.
  destruct (acquire_shape p now Hl Hs Hc) as (r & Hh & Hs1 & Hm1 & Hc1).
  set (p1 := (try_acquire true now p).2) in *.
  set (h := ResourceHandle.Handle r ACTIVE now (_ttl p)) in *.
  assert (Eh : handles p1 !! length (handles p) = Some h).
  { rewrite Hh, lookup_app_r, Nat.sub_diag by lia. done. }
  pose proof (lent_release _ _ _ Eh) as Hr. rewrite decide_True in Hr by done.
  rewrite Hh in Hr at 1. rewrite lent_app, Hl, lent_cons, decide_True in Hr by done. simpl in Hr.
  apply Permutation_cons_inv in Hr. symmetry in Hr. apply Permutation_nil_r in Hr.
  unfold release. rewrite Eh. simpl. unfold spare, idle in *. simpl.
  split_and!; try done. by rewrite length_insert, Hh, length_app, Nat.add_1_r.
Qed.

Lemma spoils_shape n now : forall p ref,
  lent (handles p) = [] -> Z.of_nat n <= spare p -> current_size p <= max_size p ->
  length (handles p) = ref ->
  let p' := run step p (spoils now ref n) in
  lent (handles p') = [] /\ spare p' = spare p - Z.of_nat n /\ max_size p' = max_size p /\
  current_size p' <= max_size p'.
Proof.
  induction n as [|n IH]; intros p ref Hl Hs Hc Hh; [simpl; split_and!; (done || lia)|].
  cbn [spoils]. rewrite run_app.
  destruct (spoil_shape p now ref) as (Hl1 & Hs1 & Hm1 & Hc1 & Hh1); [done|lia|done|done|].
  destruct (IH (run step p (spoil now ref)) (S ref)) as (Hl2 & Hs2 & Hm2 & Hc2);
    [done|lia|done|done|]. split_and!; try done; [lia|congruence].
Qed.

Lemma no_spare_exhausted p :
  lent (handles p) = [] -> spare p <= 0 -> current_size p <= max_size p -> exhausted p.
Proof.
  unfold spare, exhausted, places. intros Hl Hs Hc. split; [|lia]. rewrite Hl, app_nil_r.
  apply nil_length_inv. lia.
Qed.
End ResourcePool.

(** ** The manager *)

Definition type_index (r : ResourceType) : nat :=
  match r with DATABASE => 0 | MEMORY => 1 | CACHE => 2 | NETWORK => 3 | STORAGE => 4 | FILE => 5 end.
Definition type_of_index (n : nat) : ResourceType :=
  match n with 0 => DATABASE | 1 => MEMORY | 2 => CACHE | 3 => NETWORK | 4 => STORAGE | _ => FILE end%nat.

#[export] Program Instance ResourceType_countable : Countable ResourceType :=
  inj_countable' type_index type_of_index _.
Next Obligation. by intros []. Qed.

Module ResourceManager.
(** The pools by type, and [_metrics]; [total_errors] is never changed. *)
Record t : Type := Manager {
  resource_pools : gmap ResourceType ResourcePool.t;
  total_operations : Z;
  total_acquisitions : Z;
  total_releases : Z;
}.

Definition __init__ : t := Manager ∅ 0 0 0.

(** A pool registered anew for a type replaces the old one; the handles that
    were made, and the identities in use, outlive it. *)
Definition register_pool (type : ResourceType) (min_size max_size : Z) (timeout : micros)
    (ttl : option micros) (factory : nat -> bool) (now : micros) (m : t) : t :=
  let fresh := ResourcePool.new min_size max_size timeout ttl in
  let fresh := match resource_pools m !! type with
    | None => fresh
    | Some old => ResourcePool.Pool min_size max_size timeout ttl [] ∅ 0 false false
        (ResourcePool.handles old) (ResourcePool.next_resource old)
    end in
  Manager (<[type := ResourcePool.initialize factory now fresh]> (resource_pools m))
    (total_operations m) (total_acquisitions m) (total_releases m).

(** [acquire], with what happens while it waits; [None] if it waits still. *)
Definition acquire (type : ResourceType) (timeout : option micros) (factory : bool) (now : micros)
    (wakeups : list ResourcePool.wakeup) (m : t) : option (res nat * t) :=
  match resource_pools m !! type with
  | None => Some (Raise (ValueError ("No pool registered for " +:+ type_value type)), m)
  | Some pool =>
      let pool := ResourcePool.initialize (fun _ => factory) now pool in
      match ResourcePool.acquire type (default (ResourcePool._timeout pool) timeout) now factory now
              wakeups pool with
      | None => None
      | Some (r, pool) =>
          Some (r, Manager (<[type := pool]> (resource_pools m)) (total_operations m + 1)
                     (total_acquisitions m + 1) (total_releases m))
      end
  end.

Definition release (type : ResourceType) (ref : nat) (healthy : bool) (now : micros) (m : t) : t :=
  match resource_pools m !! type with
  | None => m
  | Some pool =>
      Manager (<[type := ResourcePool.release ref healthy now pool]> (resource_pools m))
        (total_operations m + 1) (total_acquisitions m) (total_releases m + 1)
  end.

Definition _check_resource_expiration (type : ResourceType) (now : micros) (m : t) : t :=
  match resource_pools m !! type with
  | None => m
  | Some pool =>
      Manager (<[type := ResourcePool.check_expiration now pool]> (resource_pools m))
        (total_operations m) (total_acquisitions m) (total_releases m)
  end.

Definition shutdown (m : t) : t :=
  Manager (ResourcePool.shutdown <$> resource_pools m)
    (total_operations m) (total_acquisitions m) (total_releases m).
End ResourceManager.

(** ** Limited concurrency around a circuit breaker *)

Module AsyncResourceManager.
(** Where a task is in [managed_resource] with a semaphore limit: waiting for
    the semaphore, calling the acquire function through the breaker, using
    the resource. *)
Inductive phase : Type := Waiting | Calling | Using.

#[export] Instance phase_eq_dec : EqDecision phase.
Proof. solve_decision. Defined.

Record t : Type := Managed {
  permits : Z;
  tasks : gmap uuid phase;
}.

Definition new (semaphore_limit : Z) : t := Managed semaphore_limit ∅.

(** [Return] and [Raises]: how the guarded call ends; [Leave]: the body ends,
    in any way; [Cancel]: the task is cancelled where it is suspended. *)
Inductive event : Type :=
  | Enter (id : uuid)
  | Take (id : uuid)
  | Return (id : uuid)
  | Raises (id : uuid)
  | Leave (id : uuid)
  | Cancel (id : uuid).

(** The [finally] clause: it releases the semaphore on every way out of the
    [try] block, which the wait for the semaphore is part of. *)
Definition finally (id : uuid) (s : t) : t := Managed (permits s + 1) (delete id (tasks s)).

Definition managed_resource (s : t) (e : event) : t :=
  match e with
  | Enter id =>
      match tasks s !! id with
      | None => Managed (permits s) (<[id := Waiting]> (tasks s))
      | Some _ => s
      end
  | Take id =>
      match tasks s !! id with
      | Some Waiting =>
          if 0 <? permits s then Managed (permits s - 1) (<[id := Calling]> (tasks s)) else s
      | _ => s
      end
  | Return id =>
      match tasks s !! id with
      | Some Calling => Managed (permits s) (<[id := Using]> (tasks s))
      | _ => s
      end
  | Raises id =>
      match tasks s !! id with Some Calling => finally id s | _ => s end
  | Leave id =>
      match tasks s !! id with Some Using => finally id s | _ => s end
  | Cancel id =>
      match tasks s !! id with Some _ => finally id s | None => s end
  end.

(** Tasks past the semaphore. *)
Definition admitted (m : gmap uuid phase) : gmap uuid phase :=
  filter (fun x => x.2 <> Waiting) m.

Definition in_use (s : t) : Z := Z.of_nat (size (admitted (tasks s))).

(** The event cancels a task that waits for the semaphore. *)
Definition cancels_wait (s : t) (e : event) : bool :=
  match e with
  | Cancel id => bool_decide (tasks s !! id = Some Waiting)
  | _ => false
  end.

(** How many times that happens along a history. *)
Fixpoint wait_cancellations (s : t) (es : list event) : Z :=
  match es with
  | [] => 0
  | e :: es => (if cancels_wait s e then 1 else 0) + wait_cancellations (managed_resource s e) es
  end.

Lemma size_admitted_insert m id ph :
  m !! id = None ->
  Z.of_nat (size (admitted (<[id := ph]> m))) =
    Z.of_nat (size (admitted m)) + (if decide (ph = Waiting) then 0 else 1).
Proof.
  intros Hid. unfold admitted. destruct (decide (ph = Waiting)) as [->|Hne].
  - rewrite map_filter_insert_False, map_filter_delete, delete_id by (try (simpl; tauto);
      apply map_lookup_filter_None; by left). lia.
  - rewrite map_filter_insert_True by done.
    rewrite map_size_insert_None; [lia|]. apply map_lookup_filter_None. by left.
Qed.

Lemma size_admitted_delete m id ph :
  m !! id = Some ph ->
  Z.of_nat (size (admitted m)) =
    Z.of_nat (size (admitted (delete id m))) + (if decide (ph = Waiting) then 0 else 1).
Proof.
  intros Hid. rewrite <- (insert_id m id ph) at 1 by done. rewrite <- insert_delete_eq.
  by apply size_admitted_insert, lookup_delete_eq.
Qed.

Lemma size_admitted_update m id ph ph' :
  m !! id = Some ph ->
  Z.of_nat (size (admitted (<[id := ph']> m))) =
    Z.of_nat (size (admitted m)) - (if decide (ph = Waiting) then 0 else 1)
      + (if decide (ph' = Waiting) then 0 else 1).
Proof.
  intros Hid. rewrite <- insert_delete_eq, size_admitted_insert by apply lookup_delete_eq.
  rewrite (size_admitted_delete m id ph) by done. lia.
Qed.

Lemma finally_accounts id s ph :
  tasks s !! id = Some ph ->
  permits (finally id s) + in_use (finally id s) =
    permits s + in_use s + (if decide (ph = Waiting) then 1 else 0).
Proof.
  intros Hid. unfold in_use. simpl. rewrite (size_admitted_delete _ _ _ Hid).
  case_decide; lia.
Qed.

Lemma managed_accounts s e :
  permits (managed_resource s e) + in_use (managed_resource s e) =
    permits s + in_use s + (if cancels_wait s e then 1 else 0).
Proof.
  destruct e as [id|id|id|id|id|id]; simpl; destruct (tasks s !! id) as [[]|] eqn:E; try lia.
  - unfold in_use. simpl. rewrite size_admitted_insert, decide_True by done. lia.
  - destruct (0 <? permits s); [|lia]. unfold in_use. simpl.
    rewrite (size_admitted_update _ _ Waiting) by done. simpl. lia.
  - unfold in_use. simpl. rewrite (size_admitted_update _ _ Calling) by done. simpl. lia.
  - rewrite (finally_accounts id s Calling) by done. simpl. lia.
  - rewrite (finally_accounts id s Using) by done. simpl. lia.
  - rewrite (finally_accounts id s Waiting), bool_decide_eq_true_2 by done. simpl. lia.
  - rewrite (finally_accounts id s Calling) by done. by rewrite bool_decide_eq_false_2.
  - rewrite (finally_accounts id s Using) by done. by rewrite bool_decide_eq_false_2.
  - rewrite bool_decide_eq_false_2 by done. lia.
Qed.

Lemma managed_permits_nonneg s e : 0 <= permits s -> 0 <= permits (managed_resource s e).
Proof.
  intros Hp. destruct e as [id|id|id|id|id|id]; simpl; destruct (tasks s !! id) as [[]|]; simpl; try lia.
  destruct (0 <? permits s) eqn:E; simpl; breflect; lia.
Qed.

Lemma run_accounts es : forall s, 0 <= permits s ->
  let s' := run managed_resource s es in
  permits s' + in_use s' = permits s + in_use s + wait_cancellations s es /\ 0 <= permits s'.
Proof.
  induction es as [|e es IH]; intros s Hp; simpl; [split; lia|].
  destruct (IH (managed_resource s e)) as [H Hn]; [by apply managed_permits_nonneg|].
  pose proof (managed_accounts s e). split; [|done]. unfold run in *. lia.
Qed.
End AsyncResourceManager.

(** ** Properties *)

(** C11: over any history of acquisitions, releases (of stale handles and
    repeated ones too), expirations and shutdowns, from any initialized
    pool, no resource is in two places: it is never lent through two live
    handles, nor available while lent, nor available twice. Without a
    shutdown, the idle and the lent resources together never exceed
    [current_size], nor that the maximum. *)
Theorem pool_exclusive_and_bounded (factory : nat -> bool) (now : micros) (min max : Z)
    (timeout : micros) (ttl : option micros) (ops : list ResourcePool.op) :
  0 <= min <= max ->
  let p := run ResourcePool.step
    (ResourcePool.initialize factory now (ResourcePool.new min max timeout ttl)) ops in
  NoDup (ResourcePool.places p) /\
  (Forall ResourcePool.not_shutdown ops ->
   Z.of_nat (length (ResourcePool.places p)) <= ResourcePool.current_size p <= max).
Proof.
  intros Hmin p.
  destruct (ResourcePool.initialize_spec factory now min max timeout ttl Hmin) as (Hx & Hb & Hm & _).
  set (p0 := ResourcePool.initialize _ _ _) in *. split.
  - apply (run_invariant ResourcePool.step ResourcePool.exclusive (fun _ => True));
      [|done|by apply Forall_true]. intros s o Hs _. by apply ResourcePool.step_exclusive.
  - intros Hops.
    assert (H : ResourcePool.bounded p /\ ResourcePool.max_size p = max).
    { apply (run_invariant ResourcePool.step
        (fun s => ResourcePool.bounded s /\ ResourcePool.max_size s = max)
        ResourcePool.not_shutdown); [|done|done].
      intros s o [Hs Hms] Ho. split; [by apply ResourcePool.step_bounded|].
      by rewrite (proj1 (ResourcePool.step_sizes s o)). }
    destruct H as [[Hc Hmax] Hms]. rewrite Hms in Hmax. split; [exact Hc|exact Hmax].
Qed.

Lemma pool_exclusive_and_bounded_witness :
  let p := run ResourcePool.step
    (ResourcePool.initialize (fun _ => true) 0 (ResourcePool.new 1 2 30 None))
    [ResourcePool.Acquire true 1; ResourcePool.Acquire true 2; ResourcePool.Release 0 true 3;
     ResourcePool.Release 0 true 4; ResourcePool.Acquire true 5] in
  Z.of_nat (length (ResourcePool.places p)) <= ResourcePool.current_size p <= 2.
Proof.
  intros p. apply (pool_exclusive_and_bounded (fun _ => true) 0 1 2 30 None
    [ResourcePool.Acquire true 1; ResourcePool.Acquire true 2; ResourcePool.Release 0 true 3;
     ResourcePool.Release 0 true 4; ResourcePool.Acquire true 5]).
  - lia.
  - repeat constructor.
Defined.

(** A resource that comes back unhealthy is dropped but stays counted
    in [current_size]. After as many such returns as the pool has room for,
    nothing is idle and nothing is lent, and yet every acquisition waits, in
    vain, whatever is acquired, released or expired afterwards. *)
Theorem pool_unhealthy_returns_exhaust (factory : nat -> bool) (now : micros) (min max : Z)
    (timeout : micros) (ttl : option micros) :
  0 <= min <= max ->
  let p0 := ResourcePool.initialize factory now (ResourcePool.new min max timeout ttl) in
  exists n, Z.of_nat n <= max /\
    let p := run ResourcePool.step p0 (ResourcePool.spoils now 0 n) in
    ResourcePool.places p = [] /\
    forall later factory' now', Forall ResourcePool.not_shutdown later ->
      (ResourcePool.try_acquire factory' now' (run ResourcePool.step p later)).1 =
        ResourcePool.MustWait.
Proof.
  intros Hmin p0.
  destruct (ResourcePool.initialize_spec factory now min max timeout ttl Hmin) as (_ & Hb & Hm & Hh).
  fold p0 in Hb, Hm, Hh. destruct Hb as [Hcount Hmax]. rewrite Hh, app_nil_r in Hcount.
  assert (Hs : 0 <= ResourcePool.spare p0 <= max).
  { unfold ResourcePool.spare. lia. }
  exists (Z.to_nat (ResourcePool.spare p0)). split; [lia|]. intros p.
  destruct (ResourcePool.spoils_shape (Z.to_nat (ResourcePool.spare p0)) now p0 0)
    as (Hl & Hsp & Hm' & Hc'); [by rewrite Hh|lia|done|by rewrite Hh|]. fold p in Hl, Hsp, Hm', Hc'.
  assert (Hex : ResourcePool.exhausted p) by (apply ResourcePool.no_spare_exhausted; [done|lia|done]).
  split; [apply Hex|]. intros later factory' now' Hlater.
  apply ResourcePool.exhausted_waits.
  apply (run_invariant ResourcePool.step ResourcePool.exhausted ResourcePool.not_shutdown); [|done|done].
  intros s o Hs' Ho. by apply ResourcePool.exhausted_step.
Qed.

Lemma pool_unhealthy_returns_exhaust_witness :
  exists n, Z.of_nat n <= 3 /\
    (ResourcePool.try_acquire true 9 (run ResourcePool.step
      (ResourcePool.initialize (fun _ => true) 0 (ResourcePool.new 1 3 30 None))
      (ResourcePool.spoils 0 0 n))).1 = ResourcePool.MustWait.
Proof.
  destruct (pool_unhealthy_returns_exhaust (fun _ => true) 0 1 3 30 None) as (n & Hn & _ & H); [lia|].
  exists n. split; [exact Hn|]. apply (H [] true 9). constructor.
Defined.

(** The free permits of a limited resource and the tasks past its
    semaphore add up to the limit plus the number of tasks that were
    cancelled while they waited for the semaphore: without such
    cancellations the limit holds, and each of them raises it by one for
    good, because the [finally] clause releases a permit that was never
    acquired. *)
Theorem managed_resource_limit (limit : Z) (es : list AsyncResourceManager.event) :
  0 <= limit ->
  let s := run AsyncResourceManager.managed_resource (AsyncResourceManager.new limit) es in
  AsyncResourceManager.permits s + AsyncResourceManager.in_use s =
    limit + AsyncResourceManager.wait_cancellations (AsyncResourceManager.new limit) es /\
  AsyncResourceManager.in_use s <=
    limit + AsyncResourceManager.wait_cancellations (AsyncResourceManager.new limit) es.
Proof.
  intros Hl s. destruct (AsyncResourceManager.run_accounts es (AsyncResourceManager.new limit) Hl)
    as [H Hn]. fold s in H, Hn.
  assert (AsyncResourceManager.in_use (AsyncResourceManager.new limit) = 0) as E by done.
  simpl in H. rewrite E in H. lia.
Qed.

Definition demo_managed : list AsyncResourceManager.event :=
  [AsyncResourceManager.Enter "a"; AsyncResourceManager.Take "a"; AsyncResourceManager.Enter "b";
   AsyncResourceManager.Cancel "b"; AsyncResourceManager.Enter "c"; AsyncResourceManager.Take "c"].

Lemma managed_resource_limit_witness :
  AsyncResourceManager.in_use (run AsyncResourceManager.managed_resource
    (AsyncResourceManager.new 1) demo_managed) = 2 /\
  AsyncResourceManager.permits (run AsyncResourceManager.managed_resource
    (AsyncResourceManager.new 1) demo_managed) +
  AsyncResourceManager.in_use (run AsyncResourceManager.managed_resource
    (AsyncResourceManager.new 1) demo_managed) =
  1 + AsyncResourceManager.wait_cancellations (AsyncResourceManager.new 1) demo_managed.
Proof.
  split; [vm_compute; reflexivity|]. apply (managed_resource_limit 1 demo_managed). lia.
Defined.
