(* ===== verification/Subscription.v ===== *)
(** * Subscriptions: a table, a cache and an event bus

    Models [HandlerSubscription] of
    src/src/omnimemory/handlers/handler_subscription.py on the table of
    src/deployment/database/migrations/001_create_subscription_tables.sql, a
    Valkey cache and the messages published. *)

From S2P Require Import Prelude.

Inductive EnumSubscriptionStatus : Type := ACTIVE | SUSPENDED | DELETED.

#[export] Instance EnumSubscriptionStatus_eq_dec : EqDecision EnumSubscriptionStatus.
Proof. solve_decision. Defined.

(** [ModelSubscription], and a row of the table. The metadata column holds
    the dictionary itself: its JSON text is not represented. The reason of a
    suspension, which nothing sets, is left out. *)
Record ModelSubscription : Type := Subscription {
  id : uuid;
  agent_id : string;
  topic : string;
  status : EnumSubscriptionStatus;
  created_at : micros;
  updated_at : micros;
  metadata : option (gmap string string);
}.

Abbreviation table := (gmap uuid ModelSubscription).

(** ** The statements *)

(** The row of an agent and a topic: UNIQUE(agent_id, topic). *)
Definition of_pair (agent t : string) (r : ModelSubscription) : Prop :=
  agent_id r = agent /\ topic r = t.

#[export] Instance of_pair_dec agent t r : Decision (of_pair agent t r).
Proof. unfold of_pair. apply _. Defined.

Definition find_pair (agent t : string) (db : table) : option ModelSubscription :=
  head (filter (of_pair agent t) (map_to_list db).*2).

(** [_get_subscription_by_agent_and_topic]: the row, unless it is deleted. *)
Definition SELECT_PAIR (agent t : string) (db : table) : option ModelSubscription :=
  match find_pair agent t db with
  | Some r => if decide (status r = DELETED) then None else Some r
  | None => None
  end.

Definition with_values (st : EnumSubscriptionStatus) (at_ : micros)
    (meta : option (gmap string string)) (r : ModelSubscription) : ModelSubscription :=
  Subscription (id r) (agent_id r) (topic r) st (created_at r) at_ meta.

(** [UPDATE subscriptions SET status, updated_at, metadata WHERE id]; the
    table's trigger sets [updated_at] to the time of the statement. *)
Definition UPDATE_BY_ID (sub_id : uuid) (st : EnumSubscriptionStatus) (now : micros)
    (meta : option (gmap string string)) (db : table) : table :=
  match db !! sub_id with
  | Some r => <[sub_id := with_values st now meta r]> db
  | None => db
  end.

(** [UPDATE subscriptions SET status = 'deleted', updated_at WHERE id]. *)
Definition SOFT_DELETE (sub_id : uuid) (now : micros) (db : table) : table :=
  match db !! sub_id with
  | Some r => <[sub_id := with_values DELETED now (metadata r) r]> db
  | None => db
  end.

(** [INSERT ... ON CONFLICT (agent_id, topic) DO UPDATE SET status,
    updated_at, metadata]: the row that is there keeps its id. The column
    [agent_id] is a VARCHAR(255). *)
Definition INSERT_OR_UPDATE (s : ModelSubscription) (now : micros) (db : table) : res unit * table :=
  if (255 <? String.length (agent_id s))%nat
  then (Raise (PostgresError "value too long for type character varying(255)"), db)
  else match find_pair (agent_id s) (topic s) db with
  | Some r => (Ok tt, <[id r := with_values (status s) now (metadata s) r]> db)
  | None =>
      match db !! id s with
      | Some _ => (Raise (PostgresError "duplicate key value violates unique constraint"), db)
      | None => (Ok tt, <[id s := s]> db)
      end
  end.

Lemma INSERT_OR_UPDATE_short s now db :
  (String.length (agent_id s) <= 255)%nat ->
  INSERT_OR_UPDATE s now db =
    match find_pair (agent_id s) (topic s) db with
    | Some r => (Ok tt, <[id r := with_values (status s) now (metadata s) r]> db)
    | None =>
        match db !! id s with
        | Some _ => (Raise (PostgresError "duplicate key value violates unique constraint"), db)
        | None => (Ok tt, <[id s := s]> db)
        end
    end.
Proof.
  intros Hl. unfold INSERT_OR_UPDATE.
  assert ((255 <? String.length (agent_id s))%nat = false) as -> by by apply Nat.ltb_ge.
  done.
Qed.

Definition active_of_agent (agent : string) (db : table) : list ModelSubscription :=
  filter (fun r => agent_id r = agent /\ status r = ACTIVE) (map_to_list db).*2.

Definition active_ids_of_topic (t : string) (db : table) : gset uuid :=
  list_to_set (id <$> filter (fun r => topic r = t /\ status r = ACTIVE) (map_to_list db).*2).

(** The primary key, a UUID (so never blank), and UNIQUE(agent_id, topic). *)
Record well_formed (db : table) : Prop := WellFormed {
  wf_id i r : db !! i = Some r -> id r = i;
  wf_uuid i r : db !! i = Some r -> strip i <> "";
  wf_pair i j r s : db !! i = Some r -> db !! j = Some s ->
    agent_id r = agent_id s -> topic r = topic s -> i = j;
}.

Lemma elem_of_rows (db : table) r : r ∈ (map_to_list db).*2 <-> exists i, db !! i = Some r.
Proof.
  rewrite list_elem_of_fmap. split.
  - intros ([i r'] & -> & H%elem_of_map_to_list). by exists i.
  - intros [i H]. exists (i, r). split; [done|]. by apply elem_of_map_to_list.
Qed.

Lemma find_pair_Some agent t db r :
  well_formed db -> find_pair agent t db = Some r -> db !! id r = Some r /\ of_pair agent t r.
Proof.
  intros Hwf Hf. unfold find_pair in Hf.
  destruct (filter _ _) as [|x l] eqn:E; [done|]. simpl in Hf. simplify_eq.
  assert (Hin : r ∈ filter (of_pair agent t) (map_to_list db).*2) by (rewrite E; left).
  apply list_elem_of_filter in Hin as [Hp [i Hi]%elem_of_rows].
  by rewrite (wf_id db Hwf i r Hi).
Qed.

Lemma find_pair_None agent t db i r :
  find_pair agent t db = None -> db !! i = Some r -> ~ of_pair agent t r.
Proof.
  unfold find_pair. intros Hf Hi Hp. destruct (filter _ _) as [|x l] eqn:E; [|done].
  assert (r ∈ filter (of_pair agent t) (map_to_list db).*2) as Hin.
  { apply list_elem_of_filter. split; [done|]. apply elem_of_rows. by exists i. }
  rewrite E in Hin. by apply not_elem_of_nil in Hin.
Qed.

Lemma find_pair_is agent t db i r :
  well_formed db -> db !! i = Some r -> of_pair agent t r -> find_pair agent t db = Some r.
Proof.
  intros Hwf Hi Hp. destruct (find_pair agent t db) as [r'|] eqn:E.
  - apply find_pair_Some in E as [Hr' Hp']; [|done]. destruct Hp as [? ?], Hp' as [? ?].
    rewrite (wf_pair db Hwf i (id r') r r') in Hi by congruence. congruence.
  - by destruct (find_pair_None _ _ _ _ _ E Hi).
Qed.

Lemma well_formed_update db r st at_ meta :
  well_formed db -> db !! id r = Some r ->
  well_formed (<[id r := with_values st at_ meta r]> db).
Proof.
  intros Hwf Hr. split.
  - intros i x [[<- <-]|[_ Hx]]%lookup_insert_Some; [done|by eapply wf_id].
  - intros i x [[<- <-]|[_ Hx]]%lookup_insert_Some; by eapply wf_uuid.
  - intros i j x y Hx Hy Ha Ht.
    apply lookup_insert_Some in Hx as [[<- <-]|[Hi Hx]];
      apply lookup_insert_Some in Hy as [[<- <-]|[Hj Hy]]; try done; simpl in *.
    + by eapply wf_pair.
    + by eapply wf_pair.
    + by eapply wf_pair.
Qed.

Lemma well_formed_insert db s :
  well_formed db -> strip (id s) <> "" -> db !! id s = None -> find_pair (agent_id s) (topic s) db = None ->
  well_formed (<[id s := s]> db).
Proof.
  intros Hwf Hs Hnew Hf. split.
  - intros i x [[<- <-]|[_ Hx]]%lookup_insert_Some; [done|by eapply wf_id].
  - intros i x [[<- <-]|[_ Hx]]%lookup_insert_Some; [done|by eapply wf_uuid].
  - intros i j x y Hx Hy Ha Ht.
    apply lookup_insert_Some in Hx as [[<- <-]|[Hi Hx]];
      apply lookup_insert_Some in Hy as [[<- <-]|[Hj Hy]]; try done.
    + by destruct (find_pair_None _ _ _ _ _ Hf Hy).
    + by destruct (find_pair_None _ _ _ _ _ Hf Hx).
    + by eapply wf_pair.
Qed.

(** [ORDER BY created_at DESC] and [ORDER BY id]. *)
Definition newer (r1 r2 : ModelSubscription) : Prop := (created_at r2 <=? created_at r1) = true.
Definition id_le (r1 r2 : ModelSubscription) : Prop := String.leb (id r1) (id r2) = true.

#[export] Instance newer_dec : RelDecision newer.
Proof. unfold RelDecision, newer. apply _. Defined.
#[export] Instance id_le_dec : RelDecision id_le.
Proof. unfold RelDecision, id_le. apply _. Defined.

Definition newest_first (l : list ModelSubscription) : list ModelSubscription :=
  merge_sort newer l.

Definition active_by_id (db : table) : list ModelSubscription :=
  merge_sort id_le (filter (fun r => status r = ACTIVE) (map_to_list db).*2).

(** [LIMIT l OFFSET o] *)
Definition page {A} (limit offset : Z) (l : list A) : list A :=
  take (Z.to_nat limit) (drop (Z.to_nat offset) l).

(** ** The cache *)

(** The keys [topic:...:subscribers], [agent:...:subscriptions] and
    [subscription:...]; an absent set is empty. *)
Record cache : Type := Cache {
  topics : gmap string (gset uuid);
  agents : gmap string (gset uuid);
  subs : gmap uuid ModelSubscription;
}.

Definition smembers (k : string) (m : gmap string (gset uuid)) : gset uuid := default ∅ (m !! k).
Definition sadd (k : string) (ids : gset uuid) (m : gmap string (gset uuid)) :=
  <[k := smembers k m ∪ ids]> m.
Definition srem (k : string) (i : uuid) (m : gmap string (gset uuid)) :=
  <[k := smembers k m ∖ {[i]}]> m.

(** The pipeline that caches one subscription under the id [i]. *)
Definition cache_subscription (i : uuid) (s : ModelSubscription) (c : cache) : cache :=
  Cache (sadd (topic s) {[i]} (topics c)) (sadd (agent_id s) {[i]} (agents c)) (<[i := s]> (subs c)).

Module HandlerSubscription.
(** ** The handler *)

Record ModelHandlerSubscriptionConfig : Type := Config {
  kafka_notification_topic : string;
  pagination_max_limit : Z;
  cache_rebuild_batch_size : Z;
}.

Record ModelSubscriptionMetrics : Type := Metrics {
  notifications_published : Z;
  subscriptions_created : Z;
  subscriptions_updated : Z;
  subscriptions_deleted : Z;
}.

Record ModelNotificationEvent : Type := Event {
  event_topic : string;
  event_body : string;
}.

(** A message on the bus: its topic, its key, its value. *)
Record message : Type := Message { m_topic : string; m_key : string; m_value : ModelNotificationEvent }.

(** What surrounds one call of the database, the cache or the bus: the clock
    when it ends, what other processes did to the table and the cache before
    it (expiry of keys included), and the exception it raises, if any, before
    or after it took effect. *)
Record call_env : Type := CallEnv {
  ce_now : micros;
  ce_table : table -> table;
  ce_cache : cache -> cache;
  ce_fail : option (exn * bool);
}.

Record world : Type := World {
  initialized : bool;
  cfg : ModelHandlerSubscriptionConfig;
  metrics : ModelSubscriptionMetrics;
  db : table;
  valkey : cache;
  published : list message;
  w_now : micros;
  env : nat -> call_env;
  calls : nat;
  uuid4 : nat -> uuid;
  uuids : nat;
}.

Abbreviation comp := (M world).

(** *** Calls *)

(** The world when a call is served, or has failed. *)
Definition arrive (w : world) : world :=
  let e := env w (calls w) in
  World (initialized w) (cfg w) (metrics w) (ce_table e (db w)) (ce_cache e (valkey w))
    (published w) (Z.max (w_now w) (ce_now e)) (env w) (S (calls w)) (uuid4 w) (uuids w).

Definition call {A} (f : world -> res A * world) : comp A := fun w =>
  match ce_fail (env w (calls w)) with
  | Some (e, applied) => (Raise e, if applied : bool then (f (arrive w)).2 else arrive w)
  | None => f (arrive w)
  end.

Definition set_db (t : table) (w : world) : world :=
  World (initialized w) (cfg w) (metrics w) t (valkey w) (published w) (w_now w) (env w) (calls w)
    (uuid4 w) (uuids w).
Definition set_valkey (c : cache) (w : world) : world :=
  World (initialized w) (cfg w) (metrics w) (db w) c (published w) (w_now w) (env w) (calls w)
    (uuid4 w) (uuids w).
Definition set_initialized (b : bool) (w : world) : world :=
  World b (cfg w) (metrics w) (db w) (valkey w) (published w) (w_now w) (env w) (calls w)
    (uuid4 w) (uuids w).

Definition query {A} (f : table -> A) : comp A := call (fun w => (Ok (f (db w)), w)).
Definition execute (f : micros -> table -> res unit * table) : comp unit :=
  call (fun w => let (r, t) := f (w_now w) (db w) in (r, set_db t w)).
Definition cache_read {A} (f : cache -> A) : comp A := call (fun w => (Ok (f (valkey w)), w)).
Definition cache_write (f : cache -> cache) : comp unit :=
  call (fun w => (Ok tt, set_valkey (f (valkey w)) w)).

Definition publish (m : message) : comp unit := call (fun w =>
  (Ok tt, World (initialized w) (cfg w) (metrics w) (db w) (valkey w) (published w ++ [m])
            (w_now w) (env w) (calls w) (uuid4 w) (uuids w))).

Definition new_uuid : comp uuid := fun w =>
  (Ok (uuid4 w (uuids w)),
   World (initialized w) (cfg w) (metrics w) (db w) (valkey w) (published w) (w_now w) (env w)
     (calls w) (uuid4 w) (S (uuids w))).

Definition increment_metric (f : ModelSubscriptionMetrics -> ModelSubscriptionMetrics) : comp unit :=
  modify (fun w => World (initialized w) (cfg w) (f (metrics w)) (db w) (valkey w) (published w)
    (w_now w) (env w) (calls w) (uuid4 w) (uuids w)).

Definition bump_published (m : ModelSubscriptionMetrics) :=
  Metrics (notifications_published m + 1) (subscriptions_created m) (subscriptions_updated m)
    (subscriptions_deleted m).
Definition bump_created (m : ModelSubscriptionMetrics) :=
  Metrics (notifications_published m) (subscriptions_created m + 1) (subscriptions_updated m)
    (subscriptions_deleted m).
Definition bump_updated (m : ModelSubscriptionMetrics) :=
  Metrics (notifications_published m) (subscriptions_created m) (subscriptions_updated m + 1)
    (subscriptions_deleted m).
Definition bump_deleted (m : ModelSubscriptionMetrics) :=
  Metrics (notifications_published m) (subscriptions_created m) (subscriptions_updated m)
    (subscriptions_deleted m + 1).

(** [try: c / except Exception: log]. *)
Definition best_effort (c : comp unit) : comp unit := try_Exception c (fun _ => ret tt).

Definition _ensure_initialized : comp ModelHandlerSubscriptionConfig := fun w =>
  if initialized w then (Ok (cfg w), w)
  else (Raise (RuntimeError "HandlerSubscription not initialized. Call initialize(config) first."), w).

(** *** Topics *)

Definition lower_letter (c : ascii) : bool := char_in "a"%char "z"%char c.
Definition name_char (c : ascii) : bool :=
  lower_letter c || char_in "0"%char "9"%char c || Ascii.eqb c "_"%char.

(** [[a-z][a-z0-9_]*] as far as it goes: the rest of the text, or [None] when
    it does not start with a letter. *)
Fixpoint skip_name (s : string) : string :=
  match s with
  | String c s' => if name_char c then skip_name s' else s
  | EmptyString => EmptyString
  end.

Definition match_name (s : string) : option string :=
  match s with
  | String c s' => if lower_letter c then Some (skip_name s') else None
  | EmptyString => None
  end.

(** [TOPIC_PATTERN.match]: in Python [$] also matches before a final line
    feed. *)
Definition topic_matches (s : string) : bool :=
  if negb (String.prefix "memory." s) then false
  else
    match match_name (String.substring 7 (String.length s - 7) s) with
    | Some (String c rest) =>
        Ascii.eqb c "."%char &&
        match match_name rest with
        | Some EmptyString => true
        | Some (String d EmptyString) => Ascii.eqb d "010"%char
        | _ => false
        end
    | _ => false
    end.

(** The constructor of [ModelSubscription]: pydantic's checks; the text of
    its error is left out. *)
Definition validate_subscription (s : ModelSubscription) : comp ModelSubscription :=
  if bool_decide (strip (id s) = "") || bool_decide (strip (agent_id s) = "") ||
     negb (topic_matches (topic s)) || (256 <? String.length (topic s))%nat
  then raise (OtherException "ValidationError" "")
  else ret s.

(** *** Operations *)

Definition stored_metadata (m : option (gmap string string)) : option (gmap string string) :=
  match m with Some d => if decide (d = ∅) then None else Some d | None => None end.

Definition _persist_subscription (s : ModelSubscription) (is_update : bool) : comp unit :=
  do! _ensure_initialized;
  if is_update then
    execute (fun now t => (Ok tt, UPDATE_BY_ID (id s) (status s) now (stored_metadata (metadata s)) t))
  else
    execute (fun now t => INSERT_OR_UPDATE
      (Subscription (id s) (agent_id s) (topic s) (status s) (created_at s) (updated_at s)
         (stored_metadata (metadata s))) now t).

Definition _get_subscription_by_agent_and_topic (agent t : string)
    : comp (option ModelSubscription) :=
  do! _ensure_initialized; query (SELECT_PAIR agent t).

(** The end of [subscribe]: its metric, the cache on best effort. *)
Definition count_and_cache (is_update : bool) (s : ModelSubscription) : comp ModelSubscription :=
  do! increment_metric (if is_update then bump_updated else bump_created);
  do! best_effort (cache_write (cache_subscription (id s) s));
  ret s.

Definition subscribe (agent t : string) (meta : option (gmap string string))
    : comp ModelSubscription :=
  do! _ensure_initialized;
  if negb (topic_matches t) then
    raise (ValueError ("subscribe() received invalid topic format: '" +:+ t +:+ "'. " +:+
      "Expected pattern: memory.<entity>.<event> (e.g., memory.item.created)"))
  else
    let! fresh := new_uuid in
    let! now := gets w_now in
    let! existing := _get_subscription_by_agent_and_topic agent t in
    let subscription_id := match existing with Some r => id r | None => fresh end in
    let! subscription := validate_subscription
      (Subscription subscription_id agent t ACTIVE
         (match existing with Some r => created_at r | None => now end) now meta) in
    let is_update := if existing is Some _ then true else false in
    do! _persist_subscription subscription is_update;
    count_and_cache is_update subscription.

Definition _soft_delete_subscription (i : uuid) : comp unit :=
  do! _ensure_initialized; execute (fun now t => (Ok tt, SOFT_DELETE i now t)).

(** The three commands that drop an id from the cache. *)
Definition uncache (agent t : string) (i : uuid) : comp unit :=
  do! cache_write (fun c => Cache (srem t i (topics c)) (agents c) (subs c));
  do! cache_write (fun c => Cache (topics c) (srem agent i (agents c)) (subs c));
  cache_write (fun c => Cache (topics c) (agents c) (delete i (subs c))).

Definition unsubscribe (agent t : string) : comp bool :=
  do! _ensure_initialized;
  let! existing := _get_subscription_by_agent_and_topic agent t in
  match existing with
  | None => ret false
  | Some s =>
      do! _soft_delete_subscription (id s);
      do! increment_metric bump_deleted;
      do! best_effort (uncache agent t (id s));
      ret true
  end.

(** The cached set if it is not empty, else the table's, which is then
    cached. *)
Definition _get_subscribers_for_topic (t : string) : comp (gset uuid) :=
  do! _ensure_initialized;
  let! cached := try_Exception
    (let! ids := cache_read (fun c => smembers t (topics c)) in
     if bool_decide (ids = ∅) then ret None
     else do! best_effort (cache_write (fun c => c)); ret (Some ids))
    (fun _ => ret None) in
  match cached with
  | Some ids => ret ids
  | None =>
      let! ids := query (active_ids_of_topic t) in
      do! (if bool_decide (ids = ∅) then ret tt
           else best_effort (cache_write (fun c => Cache (sadd t ids (topics c)) (agents c) (subs c))));
      ret ids
  end.

Definition notify (t : string) (event : ModelNotificationEvent) (strict : bool) : comp Z :=
  let! config := _ensure_initialized in
  if negb (bool_decide (event_topic event = t)) then
    raise (ValueError ("Event topic mismatch: event.topic='" +:+ event_topic event +:+
      "' does not match topic argument='" +:+ t +:+
      "'. Ensure the event is being sent to the correct topic."))
  else
    let! subscriber_ids := _get_subscribers_for_topic t in
    let subscriber_count := Z.of_nat (size subscriber_ids) in
    if subscriber_count =? 0 then ret 0
    else
      let! sent := try_Exception
        (do! publish (Message (kafka_notification_topic config) t event); ret true)
        (fun e => if strict then raise e else ret false) in
      if sent then do! increment_metric bump_published; ret subscriber_count
      else ret 0.

(** [_load_subscriptions]: from the cache where it can, else from the table. *)
Definition _load_subscriptions (ids : list uuid) : comp (list ModelSubscription) :=
  do! _ensure_initialized;
  let! cached := try_Exception
    (let! values := cache_read (fun c =>
       (omap (fun i => subs c !! i) ids, filter (fun i => subs c !! i = None) ids)) in
     do! (if values.1 is [] then ret tt else best_effort (cache_write (fun c => c)));
     ret values)
    (fun _ => ret ([], ids)) in
  let (found, missing) := cached in
  match missing with
  | [] => ret found
  | _ =>
      if (10000 <? length missing)%nat then
        raise (ValueError ("count exceeds maximum (10000) for safety, got " +:+
                           pretty (Z.of_nat (length missing))))
      else
        let! rows := query (fun tab => omap (fun i => tab !! i) missing) in
        do! foldr (fun s k => do! best_effort
              (cache_write (fun c => Cache (topics c) (agents c) (<[id s := s]> (subs c)))); k)
            (ret tt) rows;
        ret (found ++ rows)
  end.

Definition _get_subscriptions_from_db (agent : string) : comp (list ModelSubscription) :=
  do! _ensure_initialized; query (fun tab => newest_first (active_of_agent agent tab)).

(** [list_subscriptions] without a limit. *)
Definition list_all (agent : string) : comp (list ModelSubscription) :=
  let! cached := try_Exception
    (let! ids := cache_read (fun c => smembers agent (agents c)) in
     if bool_decide (ids = ∅) then ret None
     else
       let! l := _load_subscriptions (elements ids) in
       ret (Some (filter (fun s => status s = ACTIVE) l)))
    (fun _ => ret None) in
  match cached with
  | Some l => ret l
  | None => _get_subscriptions_from_db agent
  end.

(** A page and the total count, which the statement returns with each of its
    rows. *)
Definition _get_subscriptions_with_count_from_db (agent : string) (limit offset : Z)
    : comp (list ModelSubscription * Z) :=
  do! _ensure_initialized;
  query (fun tab =>
    match page limit offset (newest_first (active_of_agent agent tab)) with
    | [] => ([], 0)
    | rows => (rows, Z.of_nat (length (active_of_agent agent tab)))
    end).

Definition list_subscriptions (agent : string) (limit : option Z) (offset : Z)
    : comp (list ModelSubscription + list ModelSubscription * Z) :=
  let! config := _ensure_initialized in
  if offset <? 0 then raise (ValueError ("offset must be non-negative, got " +:+ pretty offset))
  else match limit with
  | None => let! l := list_all agent in ret (inl l)
  | Some limit =>
      if limit <=? 0 then
        raise (ValueError ("limit must be positive when provided, got " +:+ pretty limit))
      else if pagination_max_limit config <? limit then
        raise (ValueError ("limit exceeds maximum (" +:+ pretty (pagination_max_limit config) +:+
                           "), got " +:+ pretty limit))
      else
        let! p := _get_subscriptions_with_count_from_db agent limit offset in ret (inr p)
  end.

(** *** Start *)

(** The loop of [_rebuild_cache_from_db], with fuel. *)
Fixpoint rebuild_loop (fuel : nat) (batch total offset : Z) : comp unit :=
  match fuel with
  | O => ret tt
  | S fuel =>
      if offset <? total then
        let! rows := query (fun tab => page batch offset (active_by_id tab)) in
        match rows with
        | [] => ret tt
        | _ =>
            do! cache_write (fun c => fold_left (fun c s => cache_subscription (id s) s c) rows c);
            rebuild_loop fuel batch total (offset + batch)
        end
      else ret tt
  end.

Definition _rebuild_cache_from_db : comp unit :=
  let! config := gets cfg in
  let! total_count := query (fun tab => Z.of_nat (length (active_by_id tab))) in
  if total_count =? 0 then ret tt
  else rebuild_loop (Z.to_nat total_count) (cache_rebuild_batch_size config) total_count 0.

(** [initialize], after the connections are made ([startup] is the exception
    making them raises, if any). *)
Definition initialize (startup : option exn) : comp unit :=
  let! already := gets initialized in
  if already then ret tt
  else
    try_Exception
      (do! match startup with Some e => raise e | None => ret tt end;
       do! _rebuild_cache_from_db;
       modify (set_initialized true))
      (fun e => raise (RuntimeError ("Initialization failed: " +:+ exn_str e))).

Definition shutdown : comp unit := modify (set_initialized false).

(** ** Quiet runs *)

(** No failure, and nobody else changes the table or the cache. *)
Definition quiet (w : world) : Prop :=
  forall k, ce_fail (env w k) = None /\ (forall t, ce_table (env w k) t = t) /\
    (forall c, ce_cache (env w k) c = c).

(** Everything but the table, the cache, the metrics and the clock. *)
Record calm (w w' : world) : Prop := Calm {
  c_initialized : initialized w' = initialized w;
  c_cfg : cfg w' = cfg w;
  c_env : env w' = env w;
  c_uuid4 : uuid4 w' = uuid4 w;
  c_clock : w_now w <= w_now w';
}.

Lemma calm_refl w : calm w w.
Proof. split; (done || lia). Qed.

Lemma calm_trans w1 w2 w3 : calm w1 w2 -> calm w2 w3 -> calm w1 w3.
Proof. intros [] []. split; (congruence || lia). Qed.

Lemma calm_quiet w w' : calm w w' -> quiet w -> quiet w'.
Proof. intros [_ _ He _ _] Hq k. rewrite He. apply Hq. Qed.

Lemma quiet_arrive w : quiet w ->
  calm w (arrive w) /\ db (arrive w) = db w /\ valkey (arrive w) = valkey w /\
  published (arrive w) = published w /\ metrics (arrive w) = metrics w /\ uuids (arrive w) = uuids w.
Proof.
  intros Hq. destruct (Hq (calls w)) as (_ & Ht & Hc). split; [split; simpl; (done || lia)|].
  simpl. rewrite Ht, Hc. done.
Qed.

Lemma wp_call {A} (f : world -> res A * world) Q w :
  quiet w -> wp (call f) Q w <-> Q (f (arrive w)).1 (f (arrive w)).2.
Proof. intros Hq. unfold wp, call. by destruct (Hq (calls w)) as (-> & _). Qed.

Section steps.
Context (w : world) (Hq : quiet w).

(** [w'] follows [w], with table [t] and cache [c], nothing published. *)
Definition next (t : table) (c : cache) (w' : world) : Prop :=
  calm w w' /\ quiet w' /\ db w' = t /\ valkey w' = c /\ published w' = published w /\
  uuids w' = uuids w.

Lemma wp_query {A} (f : table -> A) (Q : res A -> world -> Prop) :
  (forall w', next (db w) (valkey w) w' -> Q (Ok (f (db w))) w') -> wp (query f) Q w.
Proof using Hq.
  intros HQ. unfold query. rewrite wp_call by done. simpl.
  destruct (quiet_arrive w Hq) as (Hc & Hd & Hv & Hp & _ & Hu). 
  destruct (Hq (calls w)) as (_ & -> & _). apply HQ.
  split; [exact Hc|]. split; [by eapply calm_quiet|]. done.
Qed.

Lemma wp_execute f (Q : res unit -> world -> Prop) :
  (forall now w', w_now w <= now -> next (f now (db w)).2 (valkey w) w' ->
     Q (f now (db w)).1 w') -> wp (execute f) Q w.
Proof using Hq.
  intros HQ. unfold execute. rewrite wp_call by done.
  destruct (quiet_arrive w Hq) as (Hc & Hd & Hv & Hp & _ & Hu). rewrite Hd.
  specialize (HQ (w_now (arrive w))).
  destruct (f (w_now (arrive w)) (db w)) as [r t]. simpl in HQ |- *. apply HQ; [lia|].
  split; [by destruct Hc|]. split; [by eapply calm_quiet|]. done.
Qed.

Lemma wp_cache_read {A} (f : cache -> A) (Q : res A -> world -> Prop) :
  (forall w', next (db w) (valkey w) w' -> Q (Ok (f (valkey w))) w') -> wp (cache_read f) Q w.
Proof using Hq.
  intros HQ. unfold cache_read. rewrite wp_call by done. simpl.
  destruct (quiet_arrive w Hq) as (Hc & Hd & Hv & Hp & _ & Hu).
  destruct (Hq (calls w)) as (_ & _ & ->). apply HQ.
  split; [exact Hc|]. split; [by eapply calm_quiet|]. done.
Qed.

Lemma wp_cache_write f (Q : res unit -> world -> Prop) :
  (forall w', next (db w) (f (valkey w)) w' -> Q (Ok tt) w') -> wp (cache_write f) Q w.
Proof using Hq.
  intros HQ. unfold cache_write. rewrite wp_call by done. cbn [fst snd].
  destruct (quiet_arrive w Hq) as (Hc & Hd & Hv & Hp & _ & Hu). rewrite Hv. apply HQ.
  split; [by destruct Hc|]. split; [by eapply calm_quiet|]. done.
Qed.

Lemma wp_publish m (Q : res unit -> world -> Prop) :
  (forall w', calm w w' -> quiet w' -> db w' = db w -> valkey w' = valkey w ->
     published w' = published w ++ [m] -> Q (Ok tt) w') -> wp (publish m) Q w.
Proof using Hq.
  intros HQ. unfold publish. rewrite wp_call by done. cbn [fst snd].
  destruct (quiet_arrive w Hq) as (Hc & Hd & Hv & Hp & _ & Hu). apply HQ; try done.
  by destruct Hc.
Qed.

Lemma wp_metric f (Q : res unit -> world -> Prop) :
  (forall w', next (db w) (valkey w) w' -> Q (Ok tt) w') -> wp (increment_metric f) Q w.
Proof using Hq.
  intros HQ. apply HQ. split; [split; simpl; (done || lia)|]. by split_and!.
Qed.

Lemma wp_ensure (Q : res ModelHandlerSubscriptionConfig -> world -> Prop) :
  initialized w = true -> Q (Ok (cfg w)) w -> wp _ensure_initialized Q w.
Proof. intros Hi HQ. unfold wp, _ensure_initialized. by rewrite Hi. Qed.

Lemma wp_best_effort c (Q : res unit -> world -> Prop) :
  wp c (fun r w' => r = Ok tt /\ Q (Ok tt) w') w -> wp (best_effort c) Q w.
Proof.
  unfold best_effort. rewrite wp_try_Exception. apply wp_mono. by intros r w' [-> ?].
Qed.
End steps.

Lemma next_trans w1 t1 c1 w2 t2 c2 w3 : next w1 t1 c1 w2 -> next w2 t2 c2 w3 -> next w1 t2 c2 w3.
Proof.
  intros (H1 & _ & _ & _ & Hp1 & Hu1) (H2 & Hq2 & Hd2 & Hc2 & Hp2 & Hu2).
  split; [by eapply calm_trans|]. split_and!; try done; congruence.
Qed.

Lemma next_init w t c w' : next w t c w' -> initialized w' = initialized w.
Proof. intros [[] _]. done. Qed.

Lemma next_quiet w t c w' : next w t c w' -> quiet w'.
Proof. intros (_ & ? & _). done. Qed.

(** *** subscribe and unsubscribe *)

(** What a request to subscribe must satisfy. *)
Definition acceptable (agent t fresh : string) : Prop :=
  topic_matches t = true /\ strip agent <> "" /\ strip fresh <> "" /\
  (String.length t <= 256)%nat /\ (String.length agent <= 255)%nat.

Lemma validate_ok s w Q :
  acceptable (agent_id s) (topic s) (id s) -> Q (Ok s) w -> wp (validate_subscription s) Q w.
Proof.
  intros (Ht & Ha & Hi & Hl & _) HQ. unfold validate_subscription.
  rewrite !bool_decide_eq_false_2 by done. rewrite Ht. cbn [orb negb].
  assert ((256 <? String.length (topic s))%nat = false) as -> by by apply Nat.ltb_ge.
  done.
Qed.

Definition chosen_id (existing : option ModelSubscription) (fresh : uuid) : uuid :=
  match existing with Some r => id r | None => fresh end.

Lemma count_and_cache_spec is_update s w (Q : res ModelSubscription -> world -> Prop) :
  quiet w ->
  (forall w', next w (db w) (cache_subscription (id s) s (valkey w)) w' -> Q (Ok s) w') ->
  wp (count_and_cache is_update s) Q w.
Proof.
  intros Hq HQ. unfold count_and_cache. wp_step. apply wp_metric; [done|]. intros w1 H1.
  wp_step. apply wp_best_effort, wp_cache_write; [by eapply next_quiet|]. intros w2 H2. split; [done|]. wp_step.
  apply HQ. pose proof (next_trans _ _ _ _ _ _ _ H1 H2) as H.
  destruct H1 as (_ & _ & Hd & Hv & _). by rewrite Hd, Hv in H.
Qed.

(** What [_persist_subscription] makes of the table. *)
Definition persisted (s : ModelSubscription) (is_update : bool) (now : micros) (t : table) : table :=
  if is_update then UPDATE_BY_ID (id s) (status s) now (stored_metadata (metadata s)) t
  else (INSERT_OR_UPDATE
    (Subscription (id s) (agent_id s) (topic s) (status s) (created_at s) (updated_at s)
       (stored_metadata (metadata s))) now t).2.

Lemma persist_spec s is_update w (Q : res unit -> world -> Prop) :
  quiet w -> initialized w = true -> (String.length (agent_id s) <= 255)%nat ->
  (is_update = false -> db w !! id s = None) ->
  (forall now w', next w (persisted s is_update now (db w)) (valkey w) w' -> Q (Ok tt) w') ->
  wp (_persist_subscription s is_update) Q w.
Proof.
  intros Hq Hi Hl Hnew HQ. unfold _persist_subscription. wp_step. apply wp_ensure; [done|].
  destruct is_update; apply wp_execute; try done; intros now w' _ Hn.
  - by eapply HQ.
  - assert (Hok : (INSERT_OR_UPDATE (Subscription (id s) (agent_id s) (topic s) (status s)
        (created_at s) (updated_at s) (stored_metadata (metadata s))) now (db w)).1 = Ok tt).
    { rewrite INSERT_OR_UPDATE_short by done. simpl. destruct (find_pair _ _ _); [done|].
      by rewrite Hnew. }
    rewrite Hok. by eapply HQ.
Qed.

Lemma subscribe_spec agent t meta w (Q : res ModelSubscription -> world -> Prop) :
  quiet w -> initialized w = true ->
  let existing := SELECT_PAIR agent t (db w) in
  let is_update := if existing is Some _ then true else false in
  let i := chosen_id existing (uuid4 w (uuids w)) in
  acceptable agent t i ->
  (existing = None -> db w !! i = None) ->
  (forall s now w', id s = i -> agent_id s = agent -> topic s = t -> status s = ACTIVE ->
     calm w w' -> quiet w' -> published w' = published w -> uuids w' = S (uuids w) ->
     db w' = persisted s is_update now (db w) ->
     valkey w' = cache_subscription i s (valkey w) -> Q (Ok s) w') ->
  wp (subscribe agent t meta) Q w.
Proof.
  intros Hq Hi existing is_update i Hacc Hfresh HQ. unfold subscribe. wp_step.
  apply wp_ensure; [done|]. rewrite (proj1 Hacc). cbn [negb]. wp_step.
  unfold wp at 1, new_uuid. cbn [fst snd].
  set (w1 := World _ _ _ _ _ _ _ _ _ _ _).
  assert (Hq1 : quiet w1) by done. wp_step.
  unfold _get_subscription_by_agent_and_topic. wp_step. apply wp_ensure; [done|].
  apply wp_query; [done|]. intros w2 Hn2. change (db w1) with (db w) in *.
  change (valkey w1) with (valkey w) in *. fold existing.
  fold (chosen_id existing (uuid4 w (uuids w))). fold i is_update. wp_step.
  apply validate_ok; [done|]. set (s := Subscription i agent t ACTIVE _ _ meta).
  assert (Hd2 : db w2 = db w) by apply Hn2.
  wp_step. apply persist_spec; [by eapply next_quiet|by rewrite (next_init _ _ _ _ Hn2)|apply Hacc| |].
  { unfold is_update. destruct existing; [done|]. intros _. rewrite Hd2. by apply Hfresh. }
  intros now w3 Hn3. apply count_and_cache_spec; [by eapply next_quiet|]. intros w4 Hn4.
  pose proof (next_trans _ _ _ _ _ _ _ Hn2 Hn3) as H23.
  assert (Hd3 : db w3 = persisted s is_update now (db w)) by (rewrite <- Hd2; apply Hn3).
  assert (Hv3 : valkey w3 = valkey w) by (destruct Hn2 as (_ & _ & _ & <- & _); apply Hn3).
  pose proof (next_trans _ _ _ _ _ _ _ H23 Hn4) as (Hc & Hq4 & Hd4 & Hv4 & Hp4 & Hu4).
  apply (HQ s now w4); try done.
  - destruct Hc. by split.
  - by rewrite Hd4, Hd3.
  - by rewrite Hv4, Hv3.
Qed.

Definition uncached (agent t : string) (i : uuid) (c : cache) : cache :=
  Cache (srem t i (topics c)) (srem agent i (agents c)) (delete i (subs c)).

Lemma unsubscribe_spec agent t w (Q : res bool -> world -> Prop) :
  quiet w -> initialized w = true ->
  (SELECT_PAIR agent t (db w) = None ->
     forall w', next w (db w) (valkey w) w' -> Q (Ok false) w') ->
  (forall r now w', SELECT_PAIR agent t (db w) = Some r ->
     next w (SOFT_DELETE (id r) now (db w)) (uncached agent t (id r) (valkey w)) w' ->
     Q (Ok true) w') ->
  wp (unsubscribe agent t) Q w.
Proof.
  intros Hq Hi HN HS. unfold unsubscribe. wp_step. apply wp_ensure; [done|].
  unfold _get_subscription_by_agent_and_topic. wp_step. apply wp_ensure; [done|].
  apply wp_query; [done|]. intros w1 H1. destruct (SELECT_PAIR agent t (db w)) as [r|] eqn:E.
  2: { wp_step. by apply HN. }
  assert (Hd1 : db w1 = db w) by apply H1. assert (Hv1 : valkey w1 = valkey w) by apply H1.
  unfold _soft_delete_subscription. wp_step. apply wp_ensure; [by rewrite (next_init _ _ _ _ H1)|].
  apply wp_execute; [by eapply next_quiet|]. intros now w2 _ H2. cbn [fst snd] in *.
  wp_step. apply wp_metric; [by eapply next_quiet|]. intros w3 H3. wp_step.
  pose proof (next_trans _ _ _ _ _ _ _ (next_trans _ _ _ _ _ _ _ H1 H2) H3) as H13.
  apply wp_best_effort. unfold uncache. wp_step.
  apply wp_cache_write; [by eapply next_quiet|]. intros w4 H4. wp_step.
  apply wp_cache_write; [by eapply next_quiet|]. intros w5 H5.
  apply wp_cache_write; [by eapply next_quiet|]. intros w6 H6. split; [done|]. wp_step.
  apply (HS r now); [done|].
  pose proof (next_trans _ _ _ _ _ _ _
    (next_trans _ _ _ _ _ _ _ (next_trans _ _ _ _ _ _ _ H13 H4) H5) H6) as H.
  assert (db w5 = SOFT_DELETE (id r) now (db w)) as Hd5.
  { destruct H5 as (_ & _ & -> & _). destruct H4 as (_ & _ & -> & _).
    destruct H3 as (_ & _ & -> & _). destruct H2 as (_ & _ & -> & _). by rewrite Hd1. }
  destruct H5 as (_ & _ & _ & Hv5 & _). destruct H4 as (_ & _ & _ & Hv4 & _).
  destruct H3 as (_ & _ & _ & Hv3 & _). destruct H2 as (_ & _ & _ & Hv2 & _).
  rewrite Hd5, Hv5, Hv4, Hv3, Hv2, Hv1 in H. exact H.
Qed.

(** *** The cache as a mirror of the table *)

(** The agent and topic of an id, when its row is active. *)
Definition active_key (t : table) (i : uuid) : option (string * string) :=
  match t !! i with
  | Some r => if decide (status r = ACTIVE) then Some (agent_id r, topic r) else None
  | None => None
  end.

(** Every cached set and every cached subscription is that of the active
    rows. *)
Record mirrors (t : table) (c : cache) : Prop := Mirrors {
  mi_topic k i : i ∈ smembers k (topics c) <-> exists a, active_key t i = Some (a, k);
  mi_agent k i : i ∈ smembers k (agents c) <-> exists tp, active_key t i = Some (k, tp);
  mi_subs i : (fun s => (agent_id s, topic s)) <$> subs c !! i = active_key t i;
}.

Lemma smembers_sadd k k' ids m i :
  i ∈ smembers k (sadd k' ids m) <-> i ∈ smembers k m \/ (k = k' /\ i ∈ ids).
Proof.
  unfold sadd. destruct (decide (k = k')) as [->|Hk].
  - unfold smembers at 1. rewrite lookup_insert_eq. simpl. set_solver.
  - unfold smembers. rewrite lookup_insert_ne by done. naive_solver.
Qed.

Lemma smembers_srem k k' j m i :
  i ∈ smembers k (srem k' j m) <-> i ∈ smembers k m /\ ~ (k = k' /\ i = j).
Proof.
  unfold srem. destruct (decide (k = k')) as [->|Hk].
  - unfold smembers at 1. rewrite lookup_insert_eq. simpl. set_solver.
  - unfold smembers. rewrite lookup_insert_ne by done. naive_solver.
Qed.

Lemma mirrors_cache t t' c i s :
  mirrors t c ->
  (active_key t i = None \/ active_key t i = Some (agent_id s, topic s)) ->
  (forall j, active_key t' j = if decide (j = i) then Some (agent_id s, topic s)
                              else active_key t j) ->
  mirrors t' (cache_subscription i s c).
Proof.
  intros Hm Hold Hnew. split; simpl.
  - intros k j. rewrite smembers_sadd, (mi_topic t c Hm), Hnew, elem_of_singleton.
    case_decide; subst; naive_solver.
  - intros k j. rewrite smembers_sadd, (mi_agent t c Hm), Hnew, elem_of_singleton.
    case_decide; subst; naive_solver.
  - intros j. rewrite Hnew. case_decide as Hj.
    + subst j. by rewrite lookup_insert_eq.
    + rewrite lookup_insert_ne by done. apply (mi_subs t c Hm).
Qed.

Lemma mirrors_uncache t t' c i a k :
  mirrors t c ->
  (active_key t i = None \/ active_key t i = Some (a, k)) ->
  (forall j, active_key t' j = if decide (j = i) then None else active_key t j) ->
  mirrors t' (uncached a k i c).
Proof.
  intros Hm Hold Hnew. split; simpl.
  - intros k' j. rewrite smembers_srem, (mi_topic t c Hm), Hnew.
    case_decide; subst; naive_solver.
  - intros k' j. rewrite smembers_srem, (mi_agent t c Hm), Hnew.
    case_decide; subst; naive_solver.
  - intros j. rewrite Hnew. case_decide as Hj.
    + subst j. by rewrite lookup_delete_eq.
    + rewrite lookup_delete_ne by done. apply (mi_subs t c Hm).
Qed.

Lemma SELECT_PAIR_Some agent t db r :
  well_formed db -> SELECT_PAIR agent t db = Some r ->
  db !! id r = Some r /\ of_pair agent t r /\ status r <> DELETED.
Proof.
  unfold SELECT_PAIR. intros Hwf H. destruct (find_pair _ _ _) as [r'|] eqn:E; [|done].
  case_decide; simplify_eq. by apply find_pair_Some in E as [? ?].
Qed.

(** A pair's active row is the one the selection finds. *)
Lemma active_key_pair agent t db i :
  well_formed db -> active_key db i = Some (agent, t) ->
  exists r, SELECT_PAIR agent t db = Some r /\ id r = i.
Proof.
  unfold active_key. intros Hwf H. destruct (db !! i) as [r|] eqn:E; [|done].
  case_decide as Ha; simplify_eq. exists r. split; [|by eapply wf_id].
  unfold SELECT_PAIR. erewrite find_pair_is; [|done..]. rewrite decide_False; [done|]. by rewrite Ha.
Qed.

Lemma active_key_insert db i r j :
  active_key (<[i := r]> db) j =
  if decide (j = i) then (if decide (status r = ACTIVE) then Some (agent_id r, topic r) else None)
  else active_key db j.
Proof.
  unfold active_key. case_decide as Hj.
  - subst j. by rewrite lookup_insert_eq.
  - by rewrite lookup_insert_ne.
Qed.

Lemma SOFT_DELETE_spec db r now :
  well_formed db -> db !! id r = Some r ->
  well_formed (SOFT_DELETE (id r) now db) /\
  forall j, active_key (SOFT_DELETE (id r) now db) j =
            if decide (j = id r) then None else active_key db j.
Proof.
  intros Hwf Hr. unfold SOFT_DELETE. rewrite Hr. split; [by apply well_formed_update|].
  intros j. by rewrite active_key_insert.
Qed.

(** What [subscribe] stores when the pair has no deleted row. *)
Lemma persisted_spec s now db :
  let existing := SELECT_PAIR (agent_id s) (topic s) db in
  well_formed db -> status s = ACTIVE -> strip (id s) <> "" ->
  (String.length (agent_id s) <= 255)%nat ->
  match existing with
  | Some r => id s = id r
  | None => find_pair (agent_id s) (topic s) db = None /\ db !! id s = None
  end ->
  let db' := persisted s (if existing is Some _ then true else false) now db in
  well_formed db' /\
  (active_key db (id s) = None \/ active_key db (id s) = Some (agent_id s, topic s)) /\
  forall j, active_key db' j = if decide (j = id s) then Some (agent_id s, topic s)
                              else active_key db j.
Proof.
  intros existing Hwf Ha Hs Hl. unfold existing. destruct (SELECT_PAIR _ _ db) as [r|] eqn:E; simpl.
  - intros Hi. apply SELECT_PAIR_Some in E as (Hr & [Hra Hrt] & _); [|done].
    unfold UPDATE_BY_ID. rewrite Hi, Hr, Ha. split; [by apply well_formed_update|]. split.
    + unfold active_key. rewrite Hr. case_decide; [right|by left]. by rewrite Hra, Hrt.
    + intros j. rewrite active_key_insert. simpl. by rewrite Hra, Hrt.
  - intros [Hf Hn]. rewrite INSERT_OR_UPDATE_short by done. simpl. rewrite Hf, Hn. simpl.
    split; [by apply (well_formed_insert db (Subscription _ _ _ _ _ _ _))|]. split.
    + left. unfold active_key. by rewrite Hn.
    + intros j. rewrite active_key_insert. simpl. by rewrite Ha.
Qed.

(** A request that passes the checks, with a fresh uuid. *)
Definition good_request (agent t : string) (w : world) : Prop :=
  topic_matches t = true /\ strip agent <> "" /\ (String.length t <= 256)%nat /\
  (String.length agent <= 255)%nat /\
  strip (uuid4 w (uuids w)) <> "" /\ db w !! uuid4 w (uuids w) = None.

(** [subscribe] without failures or interference, when the pair
    was never unsubscribed, makes the pair's row active (reusing the row that
    is there), leaves every other pair alone and keeps the cache a mirror of
    the table. *)
Theorem subscribe_keeps_mirror agent t meta w :
  well_formed (db w) -> mirrors (db w) (valkey w) -> quiet w -> initialized w = true ->
  good_request agent t w ->
  (forall r, find_pair agent t (db w) = Some r -> status r <> DELETED) ->
  let w' := (subscribe agent t meta w).2 in
  exists s, (subscribe agent t meta w).1 = Ok s /\
    id s = chosen_id (SELECT_PAIR agent t (db w)) (uuid4 w (uuids w)) /\
    well_formed (db w') /\ mirrors (db w') (valkey w') /\
    (forall j, active_key (db w') j = if decide (j = id s) then Some (agent, t)
                                     else active_key (db w) j) /\
    published w' = published w.
Proof.
  intros Hwf Hm Hq Hi (Ht & Ha & Hl & Hla & Hu & Hfresh) Hdel.
  assert (Hnone : SELECT_PAIR agent t (db w) = None -> find_pair agent t (db w) = None).
  { unfold SELECT_PAIR. destruct (find_pair _ _ _) as [r|] eqn:E; [|done].
    rewrite decide_False; [done|]. by apply Hdel. }
  set (i := chosen_id (SELECT_PAIR agent t (db w)) (uuid4 w (uuids w))).
  assert (Hs : strip i <> "").
  { unfold i. destruct (SELECT_PAIR _ _ _) as [r|] eqn:E; [|done]. simpl.
    apply SELECT_PAIR_Some in E as (Hr & _); [|done]. by eapply wf_uuid. }
  assert (Hmatch : match SELECT_PAIR agent t (db w) with
    | Some r => i = id r | None => find_pair agent t (db w) = None /\ db w !! i = None end).
  { unfold i. destruct (SELECT_PAIR agent t (db w)) as [r|]; [done|]. split; [by apply Hnone|done]. }
  change (wp (subscribe agent t meta) (fun r w' => exists s, r = Ok s /\ id s = i /\
    well_formed (db w') /\ mirrors (db w') (valkey w') /\
    (forall j, active_key (db w') j = if decide (j = id s) then Some (agent, t)
                                     else active_key (db w) j) /\
    published w' = published w) w).
  apply subscribe_spec; [done|done| | |].
  { by split_and!. }
  { intros E. fold i. rewrite E in Hmatch. apply Hmatch. }
  intros s now w' His Has Hts Hst Hc Hq' Hp _ Hd Hv. exists s.
  pose proof (persisted_spec s now (db w) Hwf Hst) as Hspec. rewrite His, Has, Hts in Hspec.
  destruct (Hspec Hs Hla Hmatch) as (Hwf' & Hold & Hnew). rewrite <- Hd in Hwf', Hnew.
  split_and!; try done.
  - rewrite Hv. eapply mirrors_cache; [done|by rewrite Has, Hts|by rewrite Has, Hts].
  - by rewrite His.
Qed.

(** C10: [unsubscribe] without failures or interference answers
    whether the pair had a row that was not deleted; afterwards no row of the
    pair is active, every other pair is as before and the cache still mirrors
    the table. *)
Theorem unsubscribe_withdraws agent t w :
  well_formed (db w) -> mirrors (db w) (valkey w) -> quiet w -> initialized w = true ->
  let w' := (unsubscribe agent t w).2 in
  (unsubscribe agent t w).1 = Ok (if SELECT_PAIR agent t (db w) is Some _ then true else false) /\
  well_formed (db w') /\ mirrors (db w') (valkey w') /\
  (forall j, active_key (db w') j <> Some (agent, t)) /\
  (forall j, active_key (db w) j <> Some (agent, t) -> active_key (db w') j = active_key (db w) j) /\
  published w' = published w.
Proof.
  intros Hwf Hm Hq Hi.
  change (wp (unsubscribe agent t) (fun r w' =>
    r = Ok (if SELECT_PAIR agent t (db w) is Some _ then true else false) /\
    well_formed (db w') /\ mirrors (db w') (valkey w') /\
    (forall j, active_key (db w') j <> Some (agent, t)) /\
    (forall j, active_key (db w) j <> Some (agent, t) -> active_key (db w') j = active_key (db w) j) /\
    published w' = published w) w).
  apply unsubscribe_spec; [done..| |].
  - intros E w' (_ & _ & -> & -> & -> & _). rewrite E. split_and!; try done.
    intros j Hj. apply active_key_pair in Hj as (r & Hr & _); [|done]. congruence.
  - intros r now w' E (_ & _ & -> & -> & -> & _). rewrite E.
    destruct (SELECT_PAIR_Some _ _ _ _ Hwf E) as (Hr & [Hra Hrt] & _).
    destruct (SOFT_DELETE_spec (db w) r now Hwf Hr) as [Hwf' Hnew].
    split_and!; try done.
    + eapply mirrors_uncache; [done| |done].
      unfold active_key. rewrite Hr. case_decide; [right|by left]. by rewrite Hra, Hrt.
    + intros j. rewrite Hnew. case_decide as Hj; [done|]. intros Hk.
      apply active_key_pair in Hk as (r' & Hr' & ?); [|done]. congruence.
    + intros j Hk. rewrite Hnew. case_decide as Hj; [|done]. subst j.
      unfold active_key in *. rewrite Hr in *. case_decide; [|done]. by rewrite Hra, Hrt in Hk.
Qed.

(** ** Notification *)

(** A step that publishes nothing. *)
Definition silent {A} (c : comp A) : Prop :=
  forall w, wp c (fun _ w' => published w' = published w /\ env w' = env w /\
    (calls w <= calls w')%nat) w.

Lemma silent_ret {A} (a : A) : silent (ret a).
Proof. done. Qed.

Lemma silent_raise {A} e : silent (raise (A := A) e).
Proof. done. Qed.

Lemma silent_bind {A B} (c : comp A) (k : A -> comp B) :
  silent c -> (forall a, silent (k a)) -> silent (bind c k).
Proof.
  intros Hc Hk w. wp_step. eapply wp_mono; [|apply Hc]. intros [a|e] w' (Hp & He & Hw'); [|done].
  eapply wp_mono; [|apply Hk]. intros _ w'' (-> & -> & ?). split_and!; (done || lia).
Qed.

Lemma silent_try_Exception {A} (c : comp A) k :
  silent c -> (forall e, silent (k e)) -> silent (try_Exception c k).
Proof.
  intros Hc Hk w. wp_step. eapply wp_mono; [|apply Hc]. intros [a|e] w' (Hp & He & Hw'); [done|].
  destruct (is_Exception e); [|done].
  eapply wp_mono; [|by eapply Hk]. intros _ w'' (-> & -> & ?). split_and!; (done || lia).
Qed.

Lemma silent_call {A} (f : world -> res A * world) :
  (forall w, published (f w).2 = published w /\ env (f w).2 = env w /\ calls (f w).2 = calls w) ->
  silent (call f).
Proof.
  intros Hf w. unfold wp, call. destruct (ce_fail _) as [[e []]|]; simpl;
    try (destruct (Hf (arrive w)) as (-> & -> & ->); simpl); split_and!; (done || lia).
Qed.

Lemma silent_query {A} (f : table -> A) : silent (query f).
Proof. by apply silent_call. Qed.

Lemma silent_cache_read {A} (f : cache -> A) : silent (cache_read f).
Proof. by apply silent_call. Qed.

Lemma silent_cache_write f : silent (cache_write f).
Proof. by apply silent_call. Qed.

Lemma silent_ensure : silent _ensure_initialized.
Proof. intros w. unfold wp, _ensure_initialized. by destruct (initialized w). Qed.

Lemma silent_best_effort c : silent c -> silent (best_effort c).
Proof. intros Hc. apply silent_try_Exception; [done|]. intros e. apply silent_ret. Qed.

Create HintDb silent.
#[export] Hint Resolve silent_ret silent_raise silent_bind silent_query silent_cache_read
  silent_cache_write silent_ensure silent_best_effort : silent.

Lemma silent_get_subscribers t : silent (_get_subscribers_for_topic t).
Proof.
  apply silent_bind; [apply silent_ensure|intros _].
  apply silent_bind.
  - apply silent_try_Exception; [|auto with silent].
    apply silent_bind; [auto with silent|]. intros ids. case_match; auto with silent.
  - intros [ids|]; [auto with silent|]. apply silent_bind; [auto with silent|]. intros ids.
    case_match; auto with silent.
Qed.

(** The ids [_get_subscribers_for_topic] answers with. *)
Definition served (t : string) (tab : table) (c : cache) : gset uuid :=
  if decide (smembers t (topics c) = ∅) then active_ids_of_topic t tab else smembers t (topics c).

Lemma get_subscribers_spec t w Q :
  quiet w -> initialized w = true ->
  (forall c w', next w (db w) c w' -> Q (Ok (served t (db w) (valkey w))) w') ->
  wp (_get_subscribers_for_topic t) Q w.
Proof.
  intros Hq Hi HQ. unfold _get_subscribers_for_topic. wp_step. apply wp_ensure; [done|].
  wp_step. apply wp_cache_read; [done|]. intros w1 H1. unfold served in HQ.
  assert (db w1 = db w) as Hd1 by apply H1.
  destruct (decide (smembers t (topics (valkey w)) = ∅)) as [He|He].
  - rewrite bool_decide_eq_true_2 by done. wp_step. apply wp_query; [by eapply next_quiet|].
    rewrite Hd1. intros w2 H2. wp_step.
    pose proof (next_trans _ _ _ _ _ _ _ H1 H2) as H12. case_bool_decide; wp_step; [by eapply HQ|].
    apply wp_best_effort, wp_cache_write; [by eapply next_quiet|]. intros w3 H3. split; [done|]. wp_step.
    eapply HQ. assert (db w2 = db w) as Hd2 by apply H2. rewrite Hd2 in H3.
    by eapply next_trans.
  - rewrite bool_decide_eq_false_2 by done. wp_step.
    apply wp_best_effort, wp_cache_write; [by eapply next_quiet|]. intros w2 H2. split; [done|]. wp_step.
    eapply HQ. rewrite Hd1 in H2. by eapply next_trans.
Qed.

Lemma elem_of_active_ids t tab i :
  well_formed tab -> i ∈ active_ids_of_topic t tab <-> exists a, active_key tab i = Some (a, t).
Proof.
  intros Hwf. unfold active_ids_of_topic, active_key. rewrite elem_of_list_to_set, list_elem_of_fmap.
  split.
  - intros (r & -> & [[<- Ha] [j Hj]%elem_of_rows]%list_elem_of_filter).
    rewrite (wf_id tab Hwf j r Hj). exists (agent_id r). rewrite Hj. by rewrite decide_True.
  - intros [a Ha]. destruct (tab !! i) as [r|] eqn:E; [|done]. case_decide; simplify_eq.
    exists r. split; [by rewrite (wf_id tab Hwf i r E)|]. apply list_elem_of_filter.
    split; [done|]. apply elem_of_rows. by exists i.
Qed.

Lemma served_mirror t tab c :
  well_formed tab -> mirrors tab c -> served t tab c = active_ids_of_topic t tab.
Proof.
  intros Hwf Hm. unfold served. case_decide; [done|]. apply set_eq. intros i.
  by rewrite (mi_topic tab c Hm), elem_of_active_ids.
Qed.

(** The [k]-th call failed with [e] although it had taken effect. *)
Definition lost_answer (w : world) (k : nat) (e : exn) : Prop :=
  ce_fail (env w k) = Some (e, true).

(** C16: whatever fails and whatever other processes do, [notify]
    publishes nothing or one message, the event on the configured Kafka topic
    with the subscription topic as its key. It publishes it when it answers a
    positive number. When it answers 0 or raises, the message is out only if
    the bus took it and the publication, the last call made, failed all the
    same, with the exception raised; for an answer of 0 the caller then asked
    for no strictness and the failure was an [Exception]. *)
Theorem notify_publishes_once t event strict w :
  let w' := (notify t event strict w).2 in
  let sent := published w ++ [Message (kafka_notification_topic (cfg w)) t event] in
  match (notify t event strict w).1 with
  | Ok n =>
      (0 < n /\ event_topic event = t /\ published w' = sent) \/
      (n = 0 /\ published w' = published w) \/
      (n = 0 /\ event_topic event = t /\ published w' = sent /\ strict = false /\
       exists k e, (calls w <= k)%nat /\ calls w' = S k /\ lost_answer w k e /\ is_Exception e = true)
  | Raise e =>
      published w' = published w \/
      (event_topic event = t /\ published w' = sent /\
       (strict = true \/ is_Exception e = false) /\
       exists k, (calls w <= k)%nat /\ calls w' = S k /\ lost_answer w k e)
  end.
Proof.
  intros w' sent.
  change (wp (notify t event strict) (fun r w' =>
    match r with
    | Ok n =>
        (0 < n /\ event_topic event = t /\ published w' = sent) \/
        (n = 0 /\ published w' = published w) \/
        (n = 0 /\ event_topic event = t /\ published w' = sent /\ strict = false /\
         exists k e, (calls w <= k)%nat /\ calls w' = S k /\ lost_answer w k e /\ is_Exception e = true)
    | Raise e =>
        published w' = published w \/
        (event_topic event = t /\ published w' = sent /\
         (strict = true \/ is_Exception e = false) /\
         exists k, (calls w <= k)%nat /\ calls w' = S k /\ lost_answer w k e)
    end) w).
  clear w'. unfold notify. wp_step. unfold wp at 1, _ensure_initialized.
  destruct (initialized w); [|by left]. cbn [fst snd].
  case_bool_decide as Ht; cbn [negb]; [|by left]. wp_step.
  eapply wp_mono; [|apply silent_get_subscribers]. intros [ids|e] w1 (Hp1 & He1 & Hc1); [|by left].
  destruct (Z.of_nat (size ids) =? 0) eqn:E; [right; by left|]. wp_step.
  unfold wp at 1, publish, call. unfold lost_answer. rewrite <- He1.
  destruct (ce_fail (env w1 (calls w1))) as [[e applied]|] eqn:Ef; cbn [fst snd].
  - destruct (is_Exception e) eqn:Ee, applied, strict; wp_step; cbn [published calls arrive];
      rewrite ?Hp1; eauto 10.
    all: right; right; eauto 10.
  - wp_step. left. cbn [published arrive]. rewrite Hp1. breflect. split; [lia|done].
Qed.

Lemma notify_served t event strict w :
  quiet w -> initialized w = true -> event_topic event = t ->
  let ids := served t (db w) (valkey w) in
  let w' := (notify t event strict w).2 in
  (notify t event strict w).1 = Ok (Z.of_nat (size ids)) /\ db w' = db w /\
  published w' = published w ++
    (if decide (ids = ∅) then []
     else [Message (kafka_notification_topic (cfg w)) t event]).
Proof.
  intros Hq Hi Ht ids.
  change (wp (notify t event strict) (fun r w' => r = Ok (Z.of_nat (size ids)) /\ db w' = db w /\
    published w' = published w ++ (if decide (ids = ∅) then []
      else [Message (kafka_notification_topic (cfg w)) t event])) w).
  unfold notify. wp_step. apply wp_ensure; [done|].
  rewrite bool_decide_eq_true_2 by done. cbn [negb]. wp_step.
  apply get_subscribers_spec; [done..|]. intros c w1 (_ & Hq1 & Hd1 & _ & Hp1 & _). fold ids.
  case_decide as He.
  - rewrite He, size_empty. simpl. wp_step. by rewrite app_nil_r.
  - assert ((Z.of_nat (size ids) =? 0) = false) as ->.
    { apply Z.eqb_neq. intros H0. apply He, leibniz_equiv, size_empty_inv. lia. }
    wp_step. apply wp_publish; [done|]. intros w2 _ Hq2 Hd2 _ Hp2. wp_step.
    apply wp_metric; [done|]. intros w3 (_ & _ & Hd3 & _ & Hp3 & _). wp_step.
    split; [done|]. split; [by rewrite Hd3, Hd2, Hd1|]. by rewrite Hp3, Hp2, Hp1.
Qed.

Lemma size_positive (X : gset uuid) i : i ∈ X -> (0 < size X)%nat.
Proof.
  intros Hi. destruct (size X) as [|n] eqn:E; [|lia].
  apply size_empty_inv in E. set_solver.
Qed.

(** [notify] without failures or interference, the cache
    mirroring the table, answers the number of active subscriptions to the
    topic, publishes exactly when there is one, and changes no row. *)
Theorem notify_counts_active t event strict w :
  well_formed (db w) -> mirrors (db w) (valkey w) -> quiet w -> initialized w = true ->
  event_topic event = t ->
  let ids := active_ids_of_topic t (db w) in
  let w' := (notify t event strict w).2 in
  (notify t event strict w).1 = Ok (Z.of_nat (size ids)) /\
  (forall i, i ∈ ids <-> exists a, active_key (db w) i = Some (a, t)) /\
  db w' = db w /\
  published w' = published w ++
    (if decide (ids = ∅) then []
     else [Message (kafka_notification_topic (cfg w)) t event]).
Proof.
  intros Hwf Hm Hq Hi Ht ids w'. destruct (notify_served t event strict w Hq Hi Ht) as (Hn & Hd & Hp).
  rewrite served_mirror in Hn, Hp by done. split_and!; try done.
  intros i. by apply elem_of_active_ids.
Qed.

(** ** Subscribing again *)

(** A deleted row is there, but [subscribe] does not see it: the statement
    reactivates the row under the id it has, and the fresh one is cached. *)
Lemma persisted_conflict s r now db :
  well_formed db -> find_pair (agent_id s) (topic s) db = Some r -> status s = ACTIVE ->
  (String.length (agent_id s) <= 255)%nat ->
  let db' := persisted s false now db in
  well_formed db' /\
  forall j, active_key db' j = if decide (j = id r) then Some (agent_id s, topic s)
                              else active_key db j.
Proof.
  intros Hwf Hf Ha Hl. simpl. rewrite INSERT_OR_UPDATE_short by done. simpl. rewrite Hf. simpl.
  apply find_pair_Some in Hf as [Hr [Hra Hrt]]; [|done].
  split; [by apply well_formed_update|]. intros j. rewrite active_key_insert. simpl.
  by rewrite Ha, Hra, Hrt.
Qed.

(** [subscribe] on a pair with a deleted row. *)
Lemma resubscribe_spec agent t meta r w :
  well_formed (db w) -> quiet w -> initialized w = true -> good_request agent t w ->
  find_pair agent t (db w) = Some r -> status r = DELETED ->
  let w1 := (subscribe agent t meta w).2 in
  (exists s, (subscribe agent t meta w).1 = Ok s /\ id s = uuid4 w (uuids w)) /\
  calm w w1 /\ quiet w1 /\ well_formed (db w1) /\ published w1 = published w /\
  (forall j, active_key (db w1) j = if decide (j = id r) then Some (agent, t)
                                   else active_key (db w) j) /\
  uuid4 w (uuids w) ∈ smembers t (topics (valkey w1)).
Proof.
  intros Hwf Hq Hi (Ht & Ha & Hl & Hla & Hu & Hnew) Hf Hdel.
  assert (Hsel : SELECT_PAIR agent t (db w) = None)
    by (unfold SELECT_PAIR; by rewrite Hf, decide_True).
  change (wp (subscribe agent t meta) (fun x w1 =>
    (exists s, x = Ok s /\ id s = uuid4 w (uuids w)) /\
    calm w w1 /\ quiet w1 /\ well_formed (db w1) /\ published w1 = published w /\
    (forall j, active_key (db w1) j = if decide (j = id r) then Some (agent, t)
                                     else active_key (db w) j) /\
    uuid4 w (uuids w) ∈ smembers t (topics (valkey w1))) w).
  apply subscribe_spec; [done|done|rewrite Hsel; by split_and!|by rewrite Hsel|].
  rewrite Hsel. intros s now w' His Has Hts Hst Hc Hq' Hp _ Hd Hv.
  destruct (persisted_conflict s r now (db w)) as [Hwf' Hk];
    [done|by rewrite Has, Hts|done|by rewrite Has|].
  rewrite <- Hd, ?Has, ?Hts in *. split_and!; try done; [by exists s|].
  rewrite Hv. unfold cache_subscription. cbn [topics]. apply smembers_sadd. right.
  split; [done|]. simpl. set_solver.
Qed.

(** [unsubscribe] touches no id but that of the pair's row. *)
Lemma unsubscribe_other agent t r w :
  well_formed (db w) -> quiet w -> initialized w = true ->
  SELECT_PAIR agent t (db w) = Some r ->
  let w2 := (unsubscribe agent t w).2 in
  (unsubscribe agent t w).1 = Ok true /\
  calm w w2 /\ quiet w2 /\ published w2 = published w /\
  (forall j, active_key (db w2) j = if decide (j = id r) then None else active_key (db w) j) /\
  (forall j, j <> id r -> j ∈ smembers t (topics (valkey w)) ->
     j ∈ smembers t (topics (valkey w2))).
Proof.
  intros Hwf Hq Hi Hsel.
  change (wp (unsubscribe agent t) (fun x w2 => x = Ok true /\
    calm w w2 /\ quiet w2 /\ published w2 = published w /\
    (forall j, active_key (db w2) j = if decide (j = id r) then None else active_key (db w) j) /\
    (forall j, j <> id r -> j ∈ smembers t (topics (valkey w)) ->
       j ∈ smembers t (topics (valkey w2)))) w).
  apply unsubscribe_spec; [done|done|congruence|].
  intros r' now w' Hr' (Hc & Hq' & Hd & Hv & Hp & _). assert (r' = r) as -> by congruence.
  destruct (SELECT_PAIR_Some _ _ _ _ Hwf Hsel) as (Hr & _).
  destruct (SOFT_DELETE_spec (db w) r now Hwf Hr) as [_ Hk]. rewrite <- Hd in Hk.
  split_and!; try done. intros j Hj Hin. rewrite Hv. simpl. apply smembers_srem.
  split; [done|]. by intros [_ ?].
Qed.

(** When the pair was unsubscribed before, [subscribe] returns
    and caches an id that is no row's; the next [unsubscribe] deletes the row
    but leaves that id cached, and [notify] goes on counting it and publishing
    although the topic's pair has no active row. *)
Theorem resubscribe_leaves_phantom agent t meta event r w :
  well_formed (db w) -> quiet w -> initialized w = true -> good_request agent t w ->
  find_pair agent t (db w) = Some r -> status r = DELETED -> event_topic event = t ->
  let fresh := uuid4 w (uuids w) in
  let w1 := (subscribe agent t meta w).2 in
  let w2 := (unsubscribe agent t w1).2 in
  let w3 := (notify t event true w2).2 in
  (exists s, (subscribe agent t meta w).1 = Ok s /\ id s = fresh /\
     active_key (db w1) fresh = None /\ active_key (db w1) (id r) = Some (agent, t)) /\
  (unsubscribe agent t w1).1 = Ok true /\
  (forall j, active_key (db w2) j <> Some (agent, t)) /\
  fresh ∈ smembers t (topics (valkey w2)) /\
  (exists n, (notify t event true w2).1 = Ok n /\ 0 < n) /\
  published w3 = published w ++ [Message (kafka_notification_topic (cfg w)) t event].
Proof.
  intros Hwf Hq Hi Hgood Hf Hdel Het fresh w1 w2 w3.
  assert (Hnew : db w !! fresh = None) by apply Hgood.
  destruct (find_pair_Some _ _ _ _ Hwf Hf) as [Hr Hpair].
  assert (Hne : fresh <> id r) by congruence.
  destruct (resubscribe_spec agent t meta r w Hwf Hq Hi Hgood Hf Hdel)
    as ((s & Hs & His) & Hc1 & Hq1 & Hwf1 & Hp1 & Hk1 & Hin1).
  fold fresh in His, Hin1. fold w1 in Hc1, Hq1, Hwf1, Hp1, Hk1, Hin1.
  assert (Hi1 : initialized w1 = true) by (rewrite (c_initialized _ _ Hc1); done).
  destruct (active_key_pair agent t (db w1) (id r) Hwf1) as (r1 & Hsel1 & Hid1).
  { by rewrite Hk1, decide_True. }
  destruct (unsubscribe_other agent t r1 w1 Hwf1 Hq1 Hi1 Hsel1)
    as (Hu2 & Hc2 & Hq2 & Hp2 & Hk2 & Hin2). fold w2 in Hc2, Hq2, Hp2, Hk2, Hin2.
  rewrite Hid1 in Hk2, Hin2. specialize (Hin2 fresh Hne Hin1).
  assert (Hi2 : initialized w2 = true) by (rewrite (c_initialized _ _ Hc2); done).
  destruct (notify_served t event true w2 Hq2 Hi2 Het) as (Hn & _ & Hp3). fold w3 in Hp3.
  assert (Hserved : served t (db w2) (valkey w2) = smembers t (topics (valkey w2))).
  { unfold served. rewrite decide_False; [done|]. set_solver. }
  rewrite Hserved in Hn, Hp3. rewrite decide_False in Hp3 by set_solver.
  split.
  { exists s. rewrite !Hk1, decide_False, decide_True by done. unfold active_key.
    by rewrite Hnew. }
  split_and!; try done.
  - intros j. rewrite Hk2. case_decide as Hj; [done|]. intros Hk.
    apply active_key_pair in Hk as (? & ? & ?); [|done]. congruence.
  - eexists. split; [exact Hn|]. apply size_positive in Hin2. lia.
  - by rewrite Hp3, Hp2, Hp1, (c_cfg _ _ Hc2), (c_cfg _ _ Hc1).
Qed.

(** ** The rebuild *)

Definition cache_rows (l : list ModelSubscription) (c : cache) : cache :=
  fold_left (fun c s => cache_subscription (id s) s c) l c.

Lemma page_step {A} batch offset (l : list A) :
  0 < batch -> 0 <= offset ->
  page batch offset l ++ drop (Z.to_nat (offset + batch)) l = drop (Z.to_nat offset) l.
Proof.
  intros Hb Ho. unfold page. rewrite Z2Nat.inj_add by lia. rewrite <- drop_drop.
  apply take_drop.
Qed.

(** With as much fuel as there are rows left, the loop caches them all. *)
Lemma rebuild_loop_spec fuel batch offset w (Q : res unit -> world -> Prop) :
  quiet w -> 0 < batch -> 0 <= offset ->
  Z.of_nat (length (active_by_id (db w))) - offset <= Z.of_nat fuel ->
  (forall w', next w (db w)
     (cache_rows (drop (Z.to_nat offset) (active_by_id (db w))) (valkey w)) w' -> Q (Ok tt) w') ->
  wp (rebuild_loop fuel batch (Z.of_nat (length (active_by_id (db w)))) offset) Q w.
Proof.
  revert offset w. induction fuel as [|fuel IH]; intros offset w Hq Hb Ho Hf HQ.
  - apply HQ. rewrite drop_ge by lia. split; [apply calm_refl|]. by split_and!.
  - cbn [rebuild_loop]. destruct (offset <? _) eqn:E; breflect.
    2: { apply HQ. rewrite drop_ge by lia. split; [apply calm_refl|]. by split_and!. }
    wp_step. apply wp_query; [done|]. intros w1 H1.
    pose proof (page_step batch offset (active_by_id (db w)) Hb Ho) as Hpage.
    destruct (page batch offset _) as [|x xs] eqn:Ex.
    { apply (f_equal length) in Ex. unfold page in Ex.
      rewrite length_take, length_drop in Ex. simpl in Ex. lia. }
    wp_step. apply wp_cache_write; [by eapply next_quiet|]. intros w2 H2.
    pose proof (next_trans _ _ _ _ _ _ _ H1 H2) as H12.
    assert (Hd1 : db w1 = db w) by apply H1. assert (Hv1 : valkey w1 = valkey w) by apply H1.
    rewrite Hd1, Hv1 in H12. assert (Hd2 : db w2 = db w) by apply H12.
    rewrite <- Hd2. apply IH; [by eapply next_quiet|done|lia|rewrite Hd2; lia|].
    rewrite Hd2. intros w3 H3. apply HQ. rewrite <- Hpage.
    unfold cache_rows. rewrite fold_left_app. eapply next_trans; [exact H12|].
    destruct H12 as (_ & _ & _ & Hv2 & _). by rewrite Hv2 in H3.
Qed.

Lemma topics_cache_rows l c k i :
  i ∈ smembers k (topics (cache_rows l c)) <->
  i ∈ smembers k (topics c) \/ exists s, s ∈ l /\ id s = i /\ topic s = k.
Proof.
  revert c. induction l as [|s l IH]; intros c; simpl.
  - split; [by left|]. intros [?|(s & Hs & _)]; [done|]. by apply not_elem_of_nil in Hs.
  - rewrite IH. simpl. rewrite smembers_sadd, elem_of_singleton. setoid_rewrite elem_of_cons.
    naive_solver.
Qed.

Lemma agents_cache_rows l c k i :
  i ∈ smembers k (agents (cache_rows l c)) <->
  i ∈ smembers k (agents c) \/ exists s, s ∈ l /\ id s = i /\ agent_id s = k.
Proof.
  revert c. induction l as [|s l IH]; intros c; simpl.
  - split; [by left|]. intros [?|(s & Hs & _)]; [done|]. by apply not_elem_of_nil in Hs.
  - rewrite IH. simpl. rewrite smembers_sadd, elem_of_singleton. setoid_rewrite elem_of_cons.
    naive_solver.
Qed.

Lemma subs_cache_rows l c i :
  (forall s s', s ∈ l -> s' ∈ l -> id s = id s' -> s = s') ->
  (forall s, s ∈ l -> id s = i -> subs (cache_rows l c) !! i = Some s) /\
  ((forall s, s ∈ l -> id s <> i) -> subs (cache_rows l c) !! i = subs c !! i).
Proof.
  revert c. induction l as [|x l IH]; intros c Hinj; simpl.
  - split; [|done]. intros s Hs. by apply not_elem_of_nil in Hs.
  - destruct (IH (cache_subscription (id x) x c)) as [IH1 IH2]; [set_solver|].
    split.
    + intros s [->|Hs]%elem_of_cons Hi; [|by apply IH1].
      destruct (decide (Exists (fun y => id y = i) l)) as [(y & Hy & Hyi)%Exists_exists|Hno].
      * rewrite (IH1 y); [|done..].
        f_equal. apply Hinj; [by right|by left|congruence].
      * rewrite IH2; [simpl; rewrite Hi; apply lookup_insert_eq|].
        intros y Hy Hyi. apply Hno, Exists_exists. by exists y.
    + intros Hno. rewrite IH2; [|intros s Hs; apply Hno; by right].
      simpl. apply lookup_insert_ne. apply Hno. by left.
Qed.

Lemma elem_of_active_by_id tab r :
  well_formed tab -> r ∈ active_by_id tab <-> tab !! id r = Some r /\ status r = ACTIVE.
Proof.
  intros Hwf. unfold active_by_id. rewrite merge_sort_Permutation, list_elem_of_filter, elem_of_rows.
  split.
  - intros [Ha [i Hi]]. by rewrite (wf_id tab Hwf i r Hi).
  - intros [Hr Ha]. split; [done|]. by exists (id r).
Qed.

Lemma active_rows_key tab i (P : string * string -> Prop) :
  well_formed tab ->
  (exists s, s ∈ active_by_id tab /\ id s = i /\ P (agent_id s, topic s)) <->
  (exists k, active_key tab i = Some k /\ P k).
Proof.
  intros Hwf. unfold active_key. split.
  - intros (s & [Hs Ha]%elem_of_active_by_id & <- & HP); [|done].
    rewrite Hs, decide_True by done. by eexists.
  - intros (k & Hk & HP). destruct (tab !! i) as [r|] eqn:E; [|done]. case_decide; simplify_eq.
    exists r. rewrite elem_of_active_by_id by done. rewrite (wf_id tab Hwf i r E). done.
Qed.

Lemma rebuild_spec w (Q : res unit -> world -> Prop) :
  quiet w -> 0 < cache_rebuild_batch_size (cfg w) ->
  (forall w', next w (db w) (cache_rows (active_by_id (db w)) (valkey w)) w' -> Q (Ok tt) w') ->
  wp _rebuild_cache_from_db Q w.
Proof.
  intros Hq Hb HQ. unfold _rebuild_cache_from_db. wp_step. apply wp_query; [done|]. intros w1 H1.
  assert (Hd1 : db w1 = db w) by apply H1. assert (Hv1 : valkey w1 = valkey w) by apply H1.
  destruct (_ =? 0) eqn:E; breflect.
  - apply HQ. destruct (active_by_id (db w)); [|done]. exact H1.
  - rewrite <- Hd1. apply rebuild_loop_spec; [by eapply next_quiet|done|lia|lia|].
    rewrite Hd1, Hv1. intros w2 H2. apply HQ. by eapply next_trans.
Qed.

(** The ids and the rows a rebuild finds. *)
Lemma rebuilt_subs tab c i :
  well_formed tab ->
  subs (cache_rows (active_by_id tab) c) !! i =
    if decide (active_key tab i = None) then subs c !! i else tab !! i.
Proof.
  intros Hwf. destruct (subs_cache_rows (active_by_id tab) c i) as [Hin Hout].
  { intros s s' [Hs _]%elem_of_active_by_id [Hs' _]%elem_of_active_by_id Hid; [|done..].
    rewrite Hid in Hs. congruence. }
  unfold active_key in *. destruct (tab !! i) as [r|] eqn:E.
  - pose proof (wf_id tab Hwf i r E) as Hid.
    destruct (decide (status r = ACTIVE)) as [Ha|Ha].
    + rewrite decide_False by done. apply Hin; [|done].
      apply elem_of_active_by_id; [done|]. by rewrite Hid.
    + rewrite decide_True by done. apply Hout.
      intros s [Hs Has]%elem_of_active_by_id Hi; [|done]. rewrite Hi in Hs. congruence.
  - rewrite decide_True by done. apply Hout.
    intros s [Hs Has]%elem_of_active_by_id Hi; [|done]. rewrite Hi in Hs. congruence.
Qed.

(** The rebuild, without failures or interference, ends; every
    cached set then has what it had before and the ids of the active rows, so
    that it mirrors the table when the cache was empty, and an id that is
    stale before the restart is stale after it. *)
Theorem rebuild_adds_active_rows w :
  well_formed (db w) -> quiet w -> 0 < cache_rebuild_batch_size (cfg w) ->
  let w' := (_rebuild_cache_from_db w).2 in
  (_rebuild_cache_from_db w).1 = Ok tt /\ db w' = db w /\ published w' = published w /\
  (forall k i, i ∈ smembers k (topics (valkey w')) <->
     i ∈ smembers k (topics (valkey w)) \/ exists a, active_key (db w) i = Some (a, k)) /\
  (forall k i, i ∈ smembers k (agents (valkey w')) <->
     i ∈ smembers k (agents (valkey w)) \/ exists tp, active_key (db w) i = Some (k, tp)) /\
  (forall i, subs (valkey w') !! i =
     if decide (active_key (db w) i = None) then subs (valkey w) !! i else db w !! i) /\
  (valkey w = Cache ∅ ∅ ∅ -> mirrors (db w) (valkey w')).
Proof.
  intros Hwf Hq Hb.
  assert (Hw : wp _rebuild_cache_from_db (fun r w' => r = Ok tt /\ db w' = db w /\
    published w' = published w /\
    valkey w' = cache_rows (active_by_id (db w)) (valkey w)) w).
  { apply rebuild_spec; [done..|]. by intros w' (_ & _ & -> & -> & -> & _). }
  destruct Hw as (Hr & Hd & Hp & Hv). cbv zeta. rewrite Hv.
  assert (Ht : forall k i c, i ∈ smembers k (topics (cache_rows (active_by_id (db w)) c)) <->
     i ∈ smembers k (topics c) \/ exists a, active_key (db w) i = Some (a, k)).
  { intros k i c. rewrite topics_cache_rows, (active_rows_key (db w) i (fun p => p.2 = k)) by done.
    split; (intros [?|Hx]; [by left|right]).
    - destruct Hx as ([a b] & Hx & Hk). simpl in Hk. subst. by exists a.
    - destruct Hx as [a Hx]. by eexists. }
  assert (Ha : forall k i c, i ∈ smembers k (agents (cache_rows (active_by_id (db w)) c)) <->
     i ∈ smembers k (agents c) \/ exists t, active_key (db w) i = Some (k, t)).
  { intros k i c. rewrite agents_cache_rows, (active_rows_key (db w) i (fun p => p.1 = k)) by done.
    split; (intros [?|Hx]; [by left|right]).
    - destruct Hx as ([a b] & Hx & Hk). simpl in Hk. subst. by exists b.
    - destruct Hx as [a Hx]. by eexists. }
  split_and!; try done.
  - intros i. by apply rebuilt_subs.
  - intros Hc. rewrite Hc. split; [intros k i; rewrite Ht|intros k i; rewrite Ha|].
    + simpl. unfold smembers. rewrite lookup_empty. simpl. set_solver.
    + simpl. unfold smembers. rewrite lookup_empty. simpl. set_solver.
    + intros i. rewrite rebuilt_subs by done. simpl. case_decide as Hk.
      * by rewrite Hk, lookup_empty.
      * unfold active_key in *. destruct (db w !! i) as [r|]; [|done]. simpl. by case_decide.
Qed.

(** ** Examples *)

(** One subscriber, whose row has the status [st], and an idle
    surrounding. *)
Definition sample_row (st : EnumSubscriptionStatus) : ModelSubscription :=
  Subscription "id-1" "agent-1" "memory.item.created" st 0 0 None.

Definition sample_table (st : EnumSubscriptionStatus) : table := {[ "id-1" := sample_row st ]}.

Definition empty_cache : cache := Cache ∅ ∅ ∅.

Definition sample_world (st : EnumSubscriptionStatus) (c : cache) : world :=
  World true (Config "memory-events" 1000 100) (Metrics 0 0 0 0) (sample_table st) c [] 0
    (fun _ => CallEnv 0 (fun t => t) (fun c => c) None) 0 (fun _ => "id-2") 0.

Definition sample_event : ModelNotificationEvent := Event "memory.item.created" "{}".

Definition cached_world : world :=
  sample_world ACTIVE (cache_subscription "id-1" (sample_row ACTIVE) empty_cache).

Lemma sample_quiet st c : quiet (sample_world st c).
Proof. by intros k. Qed.

Lemma sample_well_formed st : well_formed (sample_table st).
Proof.
  unfold sample_table. split.
  - by intros i r [<- <-]%lookup_singleton_Some.
  - by intros i r [<- _]%lookup_singleton_Some.
  - by intros i j r s [<- _]%lookup_singleton_Some [<- _]%lookup_singleton_Some.
Qed.

Lemma cached_mirror : mirrors (db cached_world) (valkey cached_world).
Proof.
  change (mirrors (sample_table ACTIVE) (cache_subscription "id-1" (sample_row ACTIVE) empty_cache)).
  apply (mirrors_cache ∅).
  - split; intros; unfold smembers, active_key; simpl; rewrite ?lookup_empty; simpl; set_solver.
  - by left.
  - intros j. unfold sample_table. change {["id-1" := sample_row ACTIVE]} with
      (<["id-1" := sample_row ACTIVE]> (∅ : table)). by rewrite active_key_insert.
Qed.

Lemma sample_request agent st c :
  agent = "agent-1" \/ agent = "agent-2" ->
  good_request agent "memory.item.created" (sample_world st c).
Proof. intros [-> | ->]; split_and!; vm_compute; (done || lia). Qed.

(** A second agent subscribes: two active rows, two cached ids. *)
Lemma subscribe_keeps_mirror_witness :
  exists s, (subscribe "agent-2" "memory.item.created" None cached_world).1 = Ok s /\ id s = "id-2".
Proof.
  destruct (subscribe_keeps_mirror "agent-2" "memory.item.created" None cached_world)
    as (s & Hs & Hid & _).
  - apply sample_well_formed.
  - apply cached_mirror.
  - apply sample_quiet.
  - reflexivity.
  - apply sample_request. by right.
  - vm_compute. done.
  - exists s. split; [exact Hs|]. rewrite Hid. reflexivity.
Defined.

Lemma unsubscribe_withdraws_witness :
  (unsubscribe "agent-1" "memory.item.created" cached_world).1 = Ok true /\
  active_key (db (unsubscribe "agent-1" "memory.item.created" cached_world).2) "id-1" <>
    Some ("agent-1", "memory.item.created").
Proof.
  destruct (unsubscribe_withdraws "agent-1" "memory.item.created" cached_world)
    as (Hr & _ & _ & Hno & _).
  - apply sample_well_formed.
  - apply cached_mirror.
  - apply sample_quiet.
  - reflexivity.
  - split; [exact Hr|apply Hno].
Defined.

Lemma notify_counts_active_witness :
  (notify "memory.item.created" sample_event true cached_world).1 = Ok 1 /\
  published (notify "memory.item.created" sample_event true cached_world).2 =
    [Message "memory-events" "memory.item.created" sample_event].
Proof.
  destruct (notify_counts_active "memory.item.created" sample_event true cached_world)
    as (Hr & _ & _ & Hp).
  - apply sample_well_formed.
  - apply cached_mirror.
  - apply sample_quiet.
  - reflexivity.
  - reflexivity.
  - split; [rewrite Hr|rewrite Hp]; reflexivity.
Defined.

Lemma resubscribe_leaves_phantom_witness :
  let w := sample_world DELETED empty_cache in
  let w1 := (subscribe "agent-1" "memory.item.created" None w).2 in
  let w2 := (unsubscribe "agent-1" "memory.item.created" w1).2 in
  "id-2" ∈ smembers "memory.item.created" (topics (valkey w2)) /\
  published (notify "memory.item.created" sample_event true w2).2 =
    [Message "memory-events" "memory.item.created" sample_event].
Proof.
  destruct (resubscribe_leaves_phantom "agent-1" "memory.item.created" None sample_event
    (sample_row DELETED) (sample_world DELETED empty_cache)) as (_ & _ & _ & Hin & _ & Hp).
  - apply sample_well_formed.
  - apply sample_quiet.
  - reflexivity.
  - apply sample_request. by left.
  - reflexivity.
  - reflexivity.
  - reflexivity.
  - split; [exact Hin|exact Hp].
Defined.

Lemma rebuild_adds_active_rows_witness :
  (_rebuild_cache_from_db (sample_world ACTIVE empty_cache)).1 = Ok tt /\
  mirrors (sample_table ACTIVE)
    (valkey (_rebuild_cache_from_db (sample_world ACTIVE empty_cache)).2).
Proof.
  destruct (rebuild_adds_active_rows (sample_world ACTIVE empty_cache))
    as (Hr & _ & _ & _ & _ & _ & Hm).
  - apply sample_well_formed.
  - apply sample_quiet.
  - reflexivity.
  - split; [exact Hr|apply Hm; reflexivity].
Defined.
End HandlerSubscription.
