(* ===== verification/Crawler.v ===== *)
(** * The file-system crawler

    Models [HandlerFilesystemCrawler] of
    src/src/omnimemory/nodes/node_filesystem_crawler_effect/handler_filesystem_crawler.py
    on a table of crawl states that other processes may change, a view of the
    file system and the events it publishes. *)

From S2P Require Import Prelude.

(** ** Paths

    [pathlib.PurePosixPath]: the root (empty for a relative path) and the
    components below it. *)
Record path : Type := Path { root : string; names : list string }.

#[export] Instance path_eq_dec : EqDecision path.
Proof. solve_decision. Defined.

Definition slash : ascii := "/"%char.

(** The components of a text: what lies between slashes, empty ones and dots
    dropped. *)
Fixpoint components (acc : string) (s : string) : list string :=
  let close rest := if bool_decide (acc = "" \/ acc = ".") then rest else acc :: rest in
  match s with
  | EmptyString => close []
  | String c s => if Ascii.eqb c slash then close (components "" s)
                  else components (acc +:+ String c "") s
  end.

(** Exactly two leading slashes are a root of their own. *)
Definition root_of (s : string) : string :=
  if String.prefix "//" s && negb (String.prefix "///" s) then "//"
  else if String.prefix "/" s then "/" else "".

Definition to_path (s : string) : path := Path (root_of s) (components "" s).

Definition str_path (p : path) : string :=
  match root p, names p with
  | "", [] => "."
  | r, l => r +:+ String.concat "/" l
  end.

Definition parts (p : path) : list string :=
  if bool_decide (root p = "") then names p else root p :: names p.

Definition is_absolute (p : path) : bool := negb (bool_decide (root p = "")).

Definition path_name (p : path) : string := default "" (last (names p)).

Definition path_parent (p : path) : path := Path (root p) (removelast (names p)).

Fixpoint is_prefix (l1 l2 : list string) : bool :=
  match l1, l2 with
  | [], _ => true
  | x :: l1, y :: l2 => bool_decide (x = y) && is_prefix l1 l2
  | _, [] => false
  end.

Definition is_relative_to (p q : path) : bool :=
  bool_decide (root p = root q) && is_prefix (names q) (names p).

(** ** Documents *)

Inductive EnumDetectedDocType : Type :=
  CLAUDE_MD | DESIGN_DOC | ARCHITECTURE_DOC | PLAN | HANDOFF | README | TICKET
| LINEAR_DOCUMENT | DEEP_DIVE | UNKNOWN_MD.

Definition doc_type_value (d : EnumDetectedDocType) : string :=
  match d with
  | CLAUDE_MD => "claude_md"
  | DESIGN_DOC => "design_doc"
  | ARCHITECTURE_DOC => "architecture_doc"
  | PLAN => "plan"
  | HANDOFF => "handoff"
  | README => "readme"
  | TICKET => "ticket"
  | LINEAR_DOCUMENT => "linear_document"
  | DEEP_DIVE => "deep_dive"
  | UNKNOWN_MD => "unknown_md"
  end.

Inductive EnumContextSourceType : Type :=
  STATIC_STANDARDS | REPO_DERIVED | MEMORY_HOOK | MEMORY_PATTERN | LINEAR_TICKET.

Inductive EnumCrawlerType : Type := FILESYSTEM | GIT_REPO | LINEAR | WATCHDOG.

#[export] Instance EnumCrawlerType_eq_dec : EqDecision EnumCrawlerType.
Proof. solve_decision. Defined.

#[export] Instance EnumCrawlerType_countable : Countable EnumCrawlerType.
Proof.
  refine (inj_countable'
    (fun c => match c with FILESYSTEM => 0 | GIT_REPO => 1 | LINEAR => 2 | WATCHDOG => 3 end)%nat
    (fun n => match n with 0 => FILESYSTEM | 1 => GIT_REPO | 2 => LINEAR | _ => WATCHDOG end)%nat _).
  by intros [].
Defined.

Definition DEFAULT_SCOPE_REF : string := "omninode/shared".

Definition _SKIP_DIRS : list string := ["src"; "docs"; "design"; "plans"; "handoffs"].

Definition deep_dive_name (name_upper : string) : bool :=
  bool_decide (name_upper = "DEEP_DIVE.MD") || String.prefix "DEEP_DIVE_" name_upper ||
  ends_with "_DEEP_DIVE.MD" name_upper.

Definition overview_name (name_upper : string) : bool :=
  contains "ARCHITECTURE" name_upper || contains "OVERVIEW" name_upper.

Definition among (x : string) (l : list string) : bool := bool_decide (x ∈ l).

Definition _detect_doc_type (p : path) : EnumDetectedDocType :=
  let name_upper := upper (path_name p) in
  let parts_lower := lower <$> parts p in
  if bool_decide (path_name p = "CLAUDE.md") then CLAUDE_MD
  else if deep_dive_name name_upper then DEEP_DIVE
  else if ends_with ".MD" name_upper && overview_name name_upper then ARCHITECTURE_DOC
  else if bool_decide (name_upper = "README.MD") then README
  else if among "design" parts_lower then DESIGN_DOC
  else if among "plans" parts_lower || among "plan" parts_lower then PLAN
  else if among "handoffs" parts_lower || among "handoff" parts_lower then HANDOFF
  else UNKNOWN_MD.

(** The body of the loop of [_scope_ref_for_path]: the best prefix length and
    scope so far. *)
Definition scope_step (p : path) (best : Z * string) (mapping : string * string) : Z * string :=
  let prefix_path := to_path mapping.1 in
  let prefix_parts_len := Z.of_nat (length (parts prefix_path)) in
  if is_relative_to p prefix_path && (best.1 <? prefix_parts_len)
  then (prefix_parts_len, mapping.2) else best.

Definition _scope_ref_for_path (p : path) (scope_mappings : list (string * string)) : string :=
  (fold_left (scope_step p) scope_mappings (-1, DEFAULT_SCOPE_REF)).2.

Definition _extract_tags (p : path) (doc_type : EnumDetectedDocType) : list string :=
  [str_path p; "doctype:" +:+ doc_type_value doc_type] ++
  match filter (fun part => part ∉ _SKIP_DIRS /\ String.prefix "." part = false)
          (reverse (removelast (parts p))) with
  | part :: _ => ["repo:" +:+ part]
  | [] => []
  end.

(** Bytes of a file, and readings of a modification time ([st_mtime], of
    which only equality matters). *)
Abbreviation bytes := (list Byte.byte).
Definition mtime : Type := Z.

Record stat_result : Type := Stat { st_size : Z; st_mtime : mtime }.

(** What the walk finds at one path: where it resolves to, its [stat] and its
    contents when they are read, [None] where that raises [OSError]. *)
Record entry : Type := Entry {
  resolved : path;
  stat : option stat_result;
  content : option bytes;
}.

(** A configured prefix: [None] when it does not exist, else where it resolves
    to and what [rglob] collects, as far as it gets. *)
Abbreviation prefix_view := (option (path * list entry)).

Record ModelFilesystemCrawlerConfig : Type := Config {
  path_prefixes : list string;
  publish_topic_discovered : string;
  publish_topic_changed : string;
  publish_topic_removed : string;
  publish_topic_indexed : string;
  max_file_size_bytes : Z;
  max_files_per_crawl : Z;
}.

Record ModelCrawlStateRecord : Type := StateRecord {
  source_ref : string;
  crawler_type : EnumCrawlerType;
  scope_ref : string;
  content_fingerprint : string;
  source_version : option string;
  last_crawled_at_utc : micros;
  last_changed_at_utc : option micros;
  last_known_mtime : option mtime;
}.

(** The primary key. *)
Abbreviation state_key := (string * EnumCrawlerType * string)%type.
Abbreviation table := (gmap state_key ModelCrawlStateRecord).

Definition key_of (r : ModelCrawlStateRecord) : state_key :=
  (source_ref r, crawler_type r, scope_ref r).

(** What a crawl was asked for, and when it started. *)
Record request : Type := Request {
  correlation_id : uuid;
  crawl_scope : string;
  trigger_source : string;
  now_utc : micros;
}.

Record document : Type := Document {
  d_source_ref : string;
  d_source_type : EnumContextSourceType;
  d_scope_ref : string;
  d_fingerprint : string;
}.

Record description : Type := Description {
  d_blob_ref : string;
  d_token_estimate : Z;
  d_doc_type : EnumDetectedDocType;
  d_tags : list string;
  d_priority_hint : Z;
}.

(** The four events; an event's own random identifier is left out. *)
Inductive event : Type :=
  | Discovered (r : request) (d : document) (x : description)
  | Changed (r : request) (d : document) (x : description)
      (previous_content_fingerprint : string) (previous_source_version : option string)
  | Indexed (r : request) (d : document)
  | Removed (r : request) (d : document) (last_known_source_version : option string).

(** ** The world *)

Module HandlerFilesystemCrawler.

(** What happens around one call of the repository: what other processes did
    to the table before it, and the exception it raises, if any, before or
    after it took effect. *)
Record call_env : Type := CallEnv {
  ce_table : table -> table;
  ce_fail : option (exn * bool);
}.

(** [attempts] are the calls of the publish callback, in order, and
    [pub_fail n] the exception the one numbered [n] raises, if any, a
    cancellation included. *)
Record world : Type := World {
  states : table;
  attempts : list (string * event);
  env : nat -> call_env;
  calls : nat;
  pub_fail : nat -> option exn;
}.

(** The events that got through. *)
Definition published (w : world) : list (string * event) :=
  omap (fun '(n, ev) => match pub_fail w n with None => Some ev | Some _ => None end)
    (imap (fun n ev => (n, ev)) (attempts w)).

Abbreviation comp := (M world).

Definition arrive (w : world) : world :=
  World (ce_table (env w (calls w)) (states w)) (attempts w) (env w) (S (calls w)) (pub_fail w).

Definition call {A} (f : world -> A * world) : comp A := fun w =>
  match ce_fail (env w (calls w)) with
  | Some (e, applied) => (Raise e, if applied : bool then (f (arrive w)).2 else arrive w)
  | None => let (a, w') := f (arrive w) in (Ok a, w')
  end.

Definition get_state (k : state_key) : comp (option ModelCrawlStateRecord) :=
  call (fun w => (states w !! k, w)).

Definition set_states (f : table -> table) (w : world) : world :=
  World (f (states w)) (attempts w) (env w) (calls w) (pub_fail w).

Definition upsert_state (r : ModelCrawlStateRecord) : comp unit :=
  call (fun w => (tt, set_states <[key_of r := r]> w)).

Definition delete_state (k : state_key) : comp unit :=
  call (fun w => (tt, set_states (delete k) w)).

Definition of_scope (scope : string) (t : table) : list ModelCrawlStateRecord :=
  filter (fun r => crawler_type r = FILESYSTEM /\ scope_ref r = scope) (map_to_list t).*2.

Definition list_states_for_scope (scope : string) : comp (list ModelCrawlStateRecord) :=
  call (fun w => (of_scope scope (states w), w)).

Definition publish_callback (topic : string) (ev : event) : comp unit := fun w =>
  (match pub_fail w (length (attempts w)) with None => Ok tt | Some e => Raise e end,
   World (states w) (attempts w ++ [(topic, ev)]) (env w) (calls w) (pub_fail w)).

(** [_publish_event]: an error of the callback is logged and dropped; a
    cancellation ends the crawl. *)
Definition _publish_event (topic : string) (ev : event) : comp unit :=
  try_Exception (publish_callback topic ev) (fun _ => ret tt).

(** ** Progress

    The local variables of [crawl]. *)
Record progress : Type := Progress {
  files_walked : Z;
  discovered_count : Z;
  changed_count : Z;
  unchanged_count : Z;
  skipped_count : Z;
  mtime_skipped_count : Z;
  indexed_count : Z;
  error_count : Z;
  truncated : bool;
  walked_paths : gset string;
  scope_refs_seen : gset string;
}.

Definition start : progress := Progress 0 0 0 0 0 0 0 0 false ∅ ∅.

Definition add_walked p := let '(Progress fw d c u s m i e t wp ss) := p in
  Progress (fw + 1) d c u s m i e t wp ss.
Definition add_discovered p := let '(Progress fw d c u s m i e t wp ss) := p in
  Progress fw (d + 1) c u s m i e t wp ss.
Definition add_changed p := let '(Progress fw d c u s m i e t wp ss) := p in
  Progress fw d (c + 1) u s m i e t wp ss.
Definition add_unchanged p := let '(Progress fw d c u s m i e t wp ss) := p in
  Progress fw d c (u + 1) s m i e t wp ss.
Definition add_skipped p := let '(Progress fw d c u s m i e t wp ss) := p in
  Progress fw d c u (s + 1) m i e t wp ss.
Definition add_mtime_skipped p := let '(Progress fw d c u s m i e t wp ss) := p in
  Progress fw d c u s (m + 1) i e t wp ss.
Definition add_indexed p := let '(Progress fw d c u s m i e t wp ss) := p in
  Progress fw d c u s m (i + 1) e t wp ss.
Definition add_error p := let '(Progress fw d c u s m i e t wp ss) := p in
  Progress fw d c u s m i (e + 1) t wp ss.
Definition set_truncated p := let '(Progress fw d c u s m i e t wp ss) := p in
  Progress fw d c u s m i e true wp ss.
Definition see (source scope : string) p := let '(Progress fw d c u s m i e t wp ss) := p in
  Progress fw d c u s m i e t ({[source]} ∪ wp) ({[scope]} ∪ ss).

Record ModelFilesystemCrawlResult : Type := Result {
  counts : progress;
  removed_count : Z;
}.

Section crawler.
(** SHA-256 and the number of characters of a decoded text, and the directory
    [~/.claude]. *)
Context (sha256 : bytes -> string) (decoded_length : bytes -> Z) (claude_dir : string).
Context (cfg : ModelFilesystemCrawlerConfig) (scope_mappings : list (string * string)).
Context (req : request).

(** ** Classification *)

Definition _STATIC_STANDARDS_PREFIXES : list string := [claude_dir].

Definition under_static_standards (p : path) : bool :=
  existsb (fun prefix => is_relative_to p (to_path prefix)) _STATIC_STANDARDS_PREFIXES.

Definition _source_type_for_path (p : path) : EnumContextSourceType :=
  if under_static_standards p then STATIC_STANDARDS
  else if bool_decide (path_name p = "CLAUDE.md") then STATIC_STANDARDS
  else REPO_DERIVED.

Definition _priority_hint_for_path (p : path) : Z :=
  let name_upper := upper (path_name p) in
  let parts_lower := lower <$> parts p in
  if under_static_standards p && bool_decide (path_name p = "CLAUDE.md") then 95
  else if bool_decide (path_name p = "CLAUDE.md") then 85
  else if among "design" parts_lower && overview_name name_upper then 80
  else if among "design" parts_lower then 70
  else if among "plans" parts_lower || among "plan" parts_lower then 65
  else if among "handoffs" parts_lower || among "handoff" parts_lower then 60
  else if bool_decide (name_upper = "README.MD") &&
          among (str_path (path_parent p)) (path_prefixes cfg) then 55
  else if deep_dive_name name_upper then 45
  else 35.

Definition scope_of (p : path) : string := _scope_ref_for_path p scope_mappings.

Definition document_at (p : path) (fingerprint : string) : document :=
  Document (str_path p) (_source_type_for_path p) (scope_of p) fingerprint.

Definition describe (p : path) (bs : bytes) : description :=
  let doc_type := _detect_doc_type p in
  Description ("sha256:" +:+ sha256 bs) (decoded_length bs / 4) doc_type
    (_extract_tags p doc_type) (_priority_hint_for_path p).

(** ** One file *)

Definition file_key (p : path) : state_key := (str_path p, FILESYSTEM, scope_of p).

Definition state_of (p : path) (fingerprint : string) (version : option string)
    (changed_at : option micros) (m : mtime) : ModelCrawlStateRecord :=
  StateRecord (str_path p) FILESYSTEM (scope_of p) fingerprint version (now_utc req) changed_at
    (Some m).

(** The file is new or has a new modification time. *)
Definition examine (p : path) (m : mtime) (bs : bytes) (prior : option ModelCrawlStateRecord)
    (pr : progress) : comp progress :=
  let fingerprint := sha256 bs in
  let d := document_at p fingerprint in
  match prior with
  | None =>
      do! _publish_event (publish_topic_discovered cfg) (Discovered req d (describe p bs));
      do! _publish_event (publish_topic_indexed cfg) (Indexed req d);
      do! upsert_state (state_of p fingerprint None (Some (now_utc req)) m);
      ret (add_indexed (add_discovered pr))
  | Some prior =>
      if bool_decide (content_fingerprint prior = fingerprint) then
        do! upsert_state
          (state_of p fingerprint (source_version prior) (last_changed_at_utc prior) m);
        ret (add_unchanged pr)
      else
        do! _publish_event (publish_topic_changed cfg)
          (Changed req d (describe p bs) (content_fingerprint prior) (source_version prior));
        do! _publish_event (publish_topic_indexed cfg) (Indexed req d);
        do! upsert_state (state_of p fingerprint None (Some (now_utc req)) m);
        ret (add_indexed (add_changed pr))
  end.

Definition read_and_examine (e : entry) (m : mtime) (prior : option ModelCrawlStateRecord)
    (pr : progress) : comp progress :=
  match content e with
  | None => ret (add_error pr)
  | Some bs => examine (resolved e) m bs prior pr
  end.

(** The body of the loop over the files of a prefix. *)
Definition crawl_file (resolved_prefix : path) (e : entry) (pr : progress) : comp progress :=
  let p := resolved e in
  if negb (is_relative_to p resolved_prefix) then ret (add_skipped pr)
  else
    let pr := add_walked pr in
    match stat e with
    | None => ret (add_error pr)
    | Some st =>
        if max_file_size_bytes cfg <? st_size st then ret (add_skipped pr)
        else
          let pr := see (str_path p) (scope_of p) pr in
          let! prior := get_state (file_key p) in
          match prior with
          | Some r =>
              if bool_decide (last_known_mtime r = Some (st_mtime st)) then
                do! upsert_state (state_of p (content_fingerprint r) (source_version r)
                       (last_changed_at_utc r) (st_mtime st));
                ret (add_mtime_skipped pr)
              else read_and_examine e (st_mtime st) prior pr
          | None => read_and_examine e (st_mtime st) prior pr
          end
    end.

Fixpoint crawl_entries (resolved_prefix : path) (es : list entry) (pr : progress)
    : comp progress :=
  match es with
  | [] => ret pr
  | e :: es =>
      if max_files_per_crawl cfg <=? files_walked pr then ret (set_truncated pr)
      else
        let! pr := crawl_file resolved_prefix e pr in
        crawl_entries resolved_prefix es pr
  end.

Fixpoint crawl_prefixes (views : list prefix_view) (pr : progress) : comp progress :=
  match views with
  | [] => ret pr
  | None :: views => crawl_prefixes views pr
  | Some (resolved_prefix, es) :: views =>
      let! pr := crawl_entries resolved_prefix es pr in
      if truncated pr then ret pr else crawl_prefixes views pr
  end.

(** ** Removals *)

Definition affected_scopes (pr : progress) : gset string :=
  let prefix_scopes := (fun prefix => scope_of (to_path prefix)) <$> path_prefixes cfg in
  if bool_decide (scope_refs_seen pr = ∅) then list_to_set prefix_scopes
  else if among DEFAULT_SCOPE_REF prefix_scopes then {[DEFAULT_SCOPE_REF]} ∪ scope_refs_seen pr
  else scope_refs_seen pr.

Definition removal_of (scope : string) (r : ModelCrawlStateRecord) : event :=
  Removed req (Document (source_ref r) (_source_type_for_path (to_path (source_ref r))) scope
    (content_fingerprint r)) (source_version r).

Fixpoint remove_records (scope : string) (walked : gset string)
    (rs : list ModelCrawlStateRecord) (removed : Z) : comp Z :=
  match rs with
  | [] => ret removed
  | r :: rs =>
      if bool_decide (source_ref r ∈ walked) then remove_records scope walked rs removed
      else
        do! _publish_event (publish_topic_removed cfg) (removal_of scope r);
        do! delete_state (source_ref r, FILESYSTEM, scope);
        remove_records scope walked rs (removed + 1)
  end.

Fixpoint remove_scopes (walked : gset string) (scopes : list string) (removed : Z) : comp Z :=
  match scopes with
  | [] => ret removed
  | scope :: scopes =>
      let! known_records := list_states_for_scope scope in
      let! removed := remove_records scope walked known_records removed in
      remove_scopes walked scopes removed
  end.

Definition _detect_and_emit_removals (pr : progress) : comp Z :=
  remove_scopes (walked_paths pr) (elements (affected_scopes pr)) 0.

(** ** The crawl *)

Fixpoint check_prefixes (prefixes : list string) : comp unit :=
  match prefixes with
  | [] => ret tt
  | prefix :: prefixes =>
      if is_absolute (to_path prefix) then check_prefixes prefixes
      else raise (ValueError ("path_prefix must be absolute: " +:+ py_repr prefix))
  end.

(** [view] is what the walk finds below each prefix. *)
Definition crawl (view : string -> prefix_view) : comp ModelFilesystemCrawlResult :=
  do! check_prefixes (path_prefixes cfg);
  let! pr := crawl_prefixes (view <$> path_prefixes cfg) start in
  let! removed := (if truncated pr then ret 0 else _detect_and_emit_removals pr) in
  ret (Result pr removed).

(** ** What each file amounts to

    The specification of change detection: a verdict on a file, given the
    table, and what follows from it. *)
Inductive verdict : Type :=
  | Escaped
  | Unstatable
  | TooLarge
  | SameMtime (m : mtime) (r : ModelCrawlStateRecord)
  | Unreadable
  | New (m : mtime) (bs : bytes)
  | SameContent (m : mtime) (r : ModelCrawlStateRecord)
  | Edited (m : mtime) (bs : bytes) (r : ModelCrawlStateRecord).

Definition judge (m : mtime) (prior : option ModelCrawlStateRecord) (bs : option bytes) : verdict :=
  match prior, bs with
  | Some r, None => if decide (last_known_mtime r = Some m) then SameMtime m r else Unreadable
  | Some r, Some bs =>
      if decide (last_known_mtime r = Some m) then SameMtime m r
      else if decide (content_fingerprint r = sha256 bs) then SameContent m r
      else Edited m bs r
  | None, None => Unreadable
  | None, Some bs => New m bs
  end.

Definition classify (resolved_prefix : path) (t : table) (e : entry) : verdict :=
  if negb (is_relative_to (resolved e) resolved_prefix) then Escaped
  else match stat e with
  | None => Unstatable
  | Some st =>
      if max_file_size_bytes cfg <? st_size st then TooLarge
      else judge (st_mtime st) (t !! file_key (resolved e)) (content e)
  end.

Definition announced (e : entry) (v : verdict) : list (string * event) :=
  let p := resolved e in
  match v with
  | New _ bs =>
      let d := document_at p (sha256 bs) in
      [(publish_topic_discovered cfg, Discovered req d (describe p bs));
       (publish_topic_indexed cfg, Indexed req d)]
  | Edited _ bs r =>
      let d := document_at p (sha256 bs) in
      [(publish_topic_changed cfg,
        Changed req d (describe p bs) (content_fingerprint r) (source_version r));
       (publish_topic_indexed cfg, Indexed req d)]
  | _ => []
  end.

Definition recorded (e : entry) (v : verdict) : option ModelCrawlStateRecord :=
  let p := resolved e in
  match v with
  | SameMtime m r | SameContent m r =>
      Some (state_of p (content_fingerprint r) (source_version r) (last_changed_at_utc r) m)
  | New m bs | Edited m bs _ => Some (state_of p (sha256 bs) None (Some (now_utc req)) m)
  | Escaped | Unstatable | TooLarge | Unreadable => None
  end.

Definition tallied (e : entry) (v : verdict) (pr : progress) : progress :=
  let p := resolved e in
  let seen := see (str_path p) (scope_of p) (add_walked pr) in
  match v with
  | Escaped => add_skipped pr
  | Unstatable => add_error (add_walked pr)
  | TooLarge => add_skipped (add_walked pr)
  | SameMtime _ _ => add_mtime_skipped seen
  | Unreadable => add_error seen
  | New _ _ => add_indexed (add_discovered seen)
  | SameContent _ _ => add_unchanged seen
  | Edited _ _ _ => add_indexed (add_changed seen)
  end.

Definition store (r : option ModelCrawlStateRecord) (t : table) : table :=
  match r with Some r => <[key_of r := r]> t | None => t end.

(** ** Quiet runs *)

(** The repository never fails, nobody else writes the table and nobody cancels
    the crawl; the publish callback may fail at any time. *)
Definition quiet (w : world) : Prop :=
  (forall k, ce_fail (env w k) = None /\ forall t, ce_table (env w k) t = t) /\
  forall n e, pub_fail w n = Some e -> is_Exception e = true.

(** [w'] follows [w] with the table [t] and the further attempts [evs]. *)
Definition follows (w : world) (t : table) (evs : list (string * event)) (w' : world) : Prop :=
  states w' = t /\ attempts w' = attempts w ++ evs /\ env w' = env w /\ pub_fail w' = pub_fail w.

Lemma follows_quiet w t evs w' : follows w t evs w' -> quiet w -> quiet w'.
Proof. intros (_ & _ & He & Hp) [Hq Hc]. split; [intros k; by rewrite He|by rewrite Hp]. Qed.

Lemma follows_states w t evs w' : follows w t evs w' -> states w' = t.
Proof. by intros [? _]. Qed.

Lemma follows_refl w : follows w (states w) [] w.
Proof. unfold follows. by rewrite app_nil_r. Qed.

Lemma follows_trans w t1 l1 w1 t2 l2 w2 :
  follows w t1 l1 w1 -> follows w1 t2 l2 w2 -> follows w t2 (l1 ++ l2) w2.
Proof.
  intros (_ & Hp1 & He1 & Hf1) (Ht2 & Hp2 & He2 & Hf2). split; [done|].
  by rewrite Hp2, Hp1, He2, He1, Hf2, Hf1, app_assoc.
Qed.

Section quiet_calls.
Context (w : world) (Hq : quiet w).

Lemma wp_repo_call {A} (f : world -> A * world) Q :
  wp (call f) Q w <->
  let w1 := World (states w) (attempts w) (env w) (S (calls w)) (pub_fail w) in
  Q (Ok (f w1).1) (f w1).2.
Proof using Hq.
  unfold wp, call, arrive. destruct (proj1 Hq (calls w)) as [-> ->]. by destruct (f _).
Qed.

Lemma wp_get_state k Q :
  (forall w', follows w (states w) [] w' -> Q (Ok (states w !! k)) w') -> wp (get_state k) Q w.
Proof using Hq. intros HQ. apply wp_repo_call, HQ. unfold follows. by rewrite app_nil_r. Qed.

Lemma wp_upsert r Q :
  (forall w', follows w (<[key_of r := r]> (states w)) [] w' -> Q (Ok tt) w') ->
  wp (upsert_state r) Q w.
Proof using Hq. intros HQ. apply wp_repo_call, HQ. unfold follows. by rewrite app_nil_r. Qed.

Lemma wp_delete k Q :
  (forall w', follows w (delete k (states w)) [] w' -> Q (Ok tt) w') -> wp (delete_state k) Q w.
Proof using Hq. intros HQ. apply wp_repo_call, HQ. unfold follows. by rewrite app_nil_r. Qed.

Lemma wp_list_states scope Q :
  (forall w', follows w (states w) [] w' -> Q (Ok (of_scope scope (states w))) w') ->
  wp (list_states_for_scope scope) Q w.
Proof using Hq. intros HQ. apply wp_repo_call, HQ. unfold follows. by rewrite app_nil_r. Qed.
End quiet_calls.

Lemma wp_event w topic ev Q :
  quiet w -> (forall w', follows w (states w) [(topic, ev)] w' -> Q (Ok tt) w') ->
  wp (_publish_event topic ev) Q w.
Proof.
  intros [_ Hc] HQ. unfold _publish_event. wp_step. unfold wp, publish_callback. cbn [fst snd].
  destruct (pub_fail w _) as [e|] eqn:E; [rewrite (Hc _ _ E)|]; by apply HQ.
Qed.

(** Two events and the new record. *)
Lemma wp_announce {A} w topic1 ev1 topic2 ev2 r (a : A) Q :
  quiet w ->
  (forall w', follows w (<[key_of r := r]> (states w)) [(topic1, ev1); (topic2, ev2)] w' ->
     Q (Ok a) w') ->
  wp (do! _publish_event topic1 ev1; do! _publish_event topic2 ev2; do! upsert_state r; ret a) Q w.
Proof.
  intros Hq HQ. wp_step. apply wp_event; [done|]. intros w1 H1.
  wp_step. apply wp_event; [by eapply follows_quiet|]. intros w2 H2. wp_step.
  pose proof (follows_trans _ _ _ _ _ _ _ H1 H2) as H12.
  apply wp_upsert; [by eapply follows_quiet|]. intros w3 H3. wp_step. apply HQ.
  rewrite (follows_states _ _ _ _ H12), (follows_states _ _ _ _ H1) in H3.
  exact (follows_trans _ _ _ _ _ _ _ H12 H3).
Qed.

(** A file's visit is its verdict carried out. *)
Lemma crawl_file_classified prefix e pr w Q :
  quiet w ->
  let v := classify prefix (states w) e in
  (forall w', follows w (store (recorded e v) (states w)) (announced e v) w' ->
     Q (Ok (tallied e v pr)) w') ->
  wp (crawl_file prefix e pr) Q w.
Proof.
  intros Hq v HQ. subst v. unfold crawl_file, classify, judge in *.
  destruct (is_relative_to _ _); cbn [negb] in *; [|by apply HQ, follows_refl].
  destruct (stat e) as [st|]; [|by apply HQ, follows_refl].
  destruct (max_file_size_bytes cfg <? st_size st); [by apply HQ, follows_refl|].
  wp_step. apply wp_get_state; [done|]. intros w1 H1.
  assert (Ht1 := follows_states _ _ _ _ H1). rewrite <- Ht1 in HQ.
  assert (Hq1 := follows_quiet _ _ _ _ H1 Hq).
  rewrite <- Ht1. unfold read_and_examine, examine.
  destruct (states w1 !! file_key (resolved e)) as [r|].
  - destruct (decide (last_known_mtime r = Some (st_mtime st))) as [Hm|Hm].
    + rewrite bool_decide_eq_true_2 by done. wp_step. apply wp_upsert; [done|].
      intros w2 H2. wp_step.
      destruct (content e); apply HQ; exact (follows_trans _ _ _ _ _ _ _ H1 H2).
    + rewrite bool_decide_eq_false_2 by done.
      destruct (content e) as [bs|]; [|apply HQ; simpl; by rewrite Ht1].
      destruct (decide (content_fingerprint r = sha256 bs)) as [Hf|Hf].
      * rewrite bool_decide_eq_true_2 by done. wp_step. apply wp_upsert; [done|].
        intros w2 H2. wp_step. apply HQ. simpl. rewrite Hf.
        exact (follows_trans _ _ _ _ _ _ _ H1 H2).
      * rewrite bool_decide_eq_false_2 by done. apply wp_announce; [done|].
        intros w2 H2. apply HQ. exact (follows_trans _ _ _ _ _ _ _ H1 H2).
  - destruct (content e) as [bs|]; [|apply HQ; simpl; by rewrite Ht1].
    apply wp_announce; [done|]. intros w2 H2. apply HQ.
    exact (follows_trans _ _ _ _ _ _ _ H1 H2).
Qed.

(** ** The walk *)

(** The files of all prefixes, each with the prefix it must stay in. *)
Definition found (views : list prefix_view) : list (path * entry) :=
  concat ((fun v => match v with
                    | Some (prefix, es) => (fun e => (prefix, e)) <$> es
                    | None => []
                    end) <$> views).

(** The two loops as one, on the table alone. *)
Fixpoint walk (files : list (path * entry)) (t : table) (pr : progress)
    : progress * table * list (string * event) :=
  match files with
  | [] => (pr, t, [])
  | (prefix, e) :: files =>
      if max_files_per_crawl cfg <=? files_walked pr then (set_truncated pr, t, [])
      else
        let v := classify prefix t e in
        let '(pr', t', evs) := walk files (store (recorded e v) t) (tallied e v pr) in
        (pr', t', announced e v ++ evs)
  end.

Lemma tallied_truncated e v pr : truncated (tallied e v pr) = truncated pr.
Proof. by destruct pr, v. Qed.

Lemma walk_app l1 l2 t pr :
  truncated pr = false ->
  walk (l1 ++ l2) t pr =
    let '(pr1, t1, evs1) := walk l1 t pr in
    if truncated pr1 then (pr1, t1, evs1)
    else let '(pr2, t2, evs2) := walk l2 t1 pr1 in (pr2, t2, evs1 ++ evs2).
Proof.
  revert t pr. induction l1 as [|[prefix e] l1 IH]; intros t pr Htr; simpl.
  - rewrite Htr. by destruct (walk l2 t pr) as [[? ?] ?].
  - destruct (_ <=? _); [by destruct pr|].
    rewrite IH by by rewrite tallied_truncated.
    destruct (walk l1 _ _) as [[pr1 t1] evs1]. destruct (truncated pr1); [done|].
    destruct (walk l2 _ _) as [[pr2 t2] evs2]. by rewrite app_assoc.
Qed.

Lemma crawl_entries_walk prefix es pr w Q :
  quiet w ->
  let '(pr', t', evs) := walk ((fun e => (prefix, e)) <$> es) (states w) pr in
  (forall w', follows w t' evs w' -> Q (Ok pr') w') -> wp (crawl_entries prefix es pr) Q w.
Proof.
  revert pr w Q. induction es as [|e es IH]; intros pr w Q Hq.
  { intros HQ. apply HQ, follows_refl. }
  rewrite fmap_cons. cbn [walk crawl_entries].
  destruct (_ <=? _); [intros HQ; apply HQ, follows_refl|].
  destruct (walk _ _ _) as [[pr' t'] evs] eqn:E. intros HQ. wp_step.
  apply crawl_file_classified; [done|]. intros w1 H1.
  specialize (IH (tallied e (classify prefix (states w) e) pr) w1 Q
                (follows_quiet _ _ _ _ H1 Hq)).
  rewrite (follows_states _ _ _ _ H1), E in IH. apply IH. intros w2 H2.
  apply HQ. exact (follows_trans _ _ _ _ _ _ _ H1 H2).
Qed.

Lemma crawl_prefixes_walk views pr w Q :
  quiet w -> truncated pr = false ->
  let '(pr', t', evs) := walk (found views) (states w) pr in
  (forall w', follows w t' evs w' -> Q (Ok pr') w') -> wp (crawl_prefixes views pr) Q w.
Proof.
  revert pr w Q. induction views as [|[[prefix es]|] views IH]; intros pr w Q Hq Htr.
  - intros HQ. apply HQ, follows_refl.
  - change (found (Some (prefix, es) :: views))
      with (((fun e => (prefix, e)) <$> es) ++ found views).
    rewrite walk_app by done.
    pose proof (crawl_entries_walk prefix es pr w) as Hes. simpl.
    destruct (walk (_ <$> es) (states w) pr) as [[pr1 t1] evs1].
    destruct (truncated pr1) eqn:Htr1.
    + intros HQ. wp_step. apply Hes; [done|]. intros w1 H1. rewrite Htr1. wp_step. by apply HQ.
    + destruct (walk (found views) t1 pr1) as [[pr2 t2] evs2] eqn:E. intros HQ. wp_step.
      apply Hes; [done|]. intros w1 H1. rewrite Htr1.
      specialize (IH pr1 w1 Q (follows_quiet _ _ _ _ H1 Hq) Htr1).
      rewrite (follows_states _ _ _ _ H1), E in IH. apply IH. intros w2 H2.
      apply HQ. exact (follows_trans _ _ _ _ _ _ _ H1 H2).
  - apply IH; done.
Qed.
(** A file reached: inside its prefix, with a [stat], not too large. *)
Definition reached (f : path * entry) : Prop :=
  is_relative_to (resolved f.2) f.1 = true /\
  exists st, stat f.2 = Some st /\ st_size st <= max_file_size_bytes cfg.

#[export] Instance reached_dec f : Decision (reached f).
Proof.
  unfold reached. destruct (is_relative_to (resolved f.2) f.1); [|right; naive_solver].
  destruct (stat f.2) as [st|]; [|right; naive_solver].
  destruct (decide (st_size st <= max_file_size_bytes cfg)); [left; eauto|right].
  intros (_ & st' & [= <-] & ?). done.
Defined.

Definition inside (f : path * entry) : Prop := is_relative_to (resolved f.2) f.1 = true.

Definition verdict_on (t : table) (f : path * entry) : verdict := classify f.1 t f.2.

Definition path_text (f : path * entry) : string := str_path (resolved f.2).

(** No two files inside their prefixes have one path. *)
Definition paths_once (files : list (path * entry)) : Prop :=
  NoDup (path_text <$> filter inside files).

Lemma key_of_recorded e v r : recorded e v = Some r -> key_of r = file_key (resolved e).
Proof. by destruct v; simpl; intros [= <-]. Qed.

Lemma recorded_inside prefix t e r :
  recorded e (classify prefix t e) = Some r -> is_relative_to (resolved e) prefix = true.
Proof. unfold classify. by destruct (is_relative_to _ _). Qed.

Lemma classify_local prefix t t' e :
  (is_relative_to (resolved e) prefix = true ->
   t !! file_key (resolved e) = t' !! file_key (resolved e)) ->
  classify prefix t e = classify prefix t' e.
Proof.
  unfold classify. destruct (is_relative_to _ _); [|done]. intros Hl. by rewrite Hl.
Qed.

Lemma store_other r t k : (forall r', r = Some r' -> key_of r' <> k) -> store r t !! k = t !! k.
Proof. destruct r as [r|]; [|done]. intros Hk. simpl. apply lookup_insert_ne. by apply Hk. Qed.

Lemma files_walked_tallied e v pr : files_walked (tallied e v pr) <= files_walked pr + 1.
Proof. destruct pr, v; simpl; lia. Qed.

Lemma paths_once_cons f files :
  paths_once (f :: files) ->
  paths_once files /\
  forall f', f' ∈ files -> inside f -> inside f' ->
    file_key (resolved f'.2) <> file_key (resolved f.2).
Proof.
  unfold paths_once. rewrite filter_cons. case_decide as Hin.
  - intros [Hnot Hnd]%NoDup_cons. split; [done|]. intros f' Hf' _ Hin' [= Hk _].
    apply Hnot, list_elem_of_fmap. exists f'. split; [done|]. by apply list_elem_of_filter.
  - intros Hnd. split; [done|]. by intros f' _ ? _.
Qed.

(** Visiting a file changes no other file's verdict. *)
Lemma verdict_on_store f files t :
  paths_once (f :: files) ->
  forall f', f' ∈ files -> verdict_on (store (recorded f.2 (verdict_on t f)) t) f' = verdict_on t f'.
Proof.
  intros [_ Hk]%paths_once_cons f' Hf'. apply classify_local. intros Hin'. apply store_other.
  intros r Hr Heq. rewrite (key_of_recorded _ _ _ Hr) in Heq.
  eapply Hk; [done|by eapply recorded_inside|done|done].
Qed.

Lemma walk_exact files t pr :
  paths_once files -> truncated pr = false ->
  files_walked pr + Z.of_nat (length files) <= max_files_per_crawl cfg ->
  let '(pr', t', evs) := walk files t pr in
  pr' = fold_left (fun pr f => tallied f.2 (verdict_on t f) pr) files pr /\
  evs = concat ((fun f => announced f.2 (verdict_on t f)) <$> files) /\
  (forall f r, f ∈ files -> recorded f.2 (verdict_on t f) = Some r -> t' !! key_of r = Some r) /\
  (forall k, (forall f r, f ∈ files -> recorded f.2 (verdict_on t f) = Some r -> key_of r <> k) ->
     t' !! k = t !! k).
Proof.
  revert t pr. induction files as [|[prefix e] files IH]; intros t pr Hnd Htr Hmax.
  { simpl. split_and!; try done. by intros f r ?%not_elem_of_nil. }
  simpl in Hmax |- *. assert ((max_files_per_crawl cfg <=? files_walked pr) = false) as ->
    by (apply Z.leb_gt; lia).
  pose proof (verdict_on_store _ _ t Hnd) as Hsame.
  apply paths_once_cons in Hnd as [Hnd Hdist].
  change (classify prefix t e) with (verdict_on t (prefix, e)).
  simpl in Hsame. set (v := verdict_on t (prefix, e)) in *. set (t1 := store (recorded e v) t) in *.
  pose proof (files_walked_tallied e v pr) as Hw.
  specialize (IH t1 (tallied e v pr) Hnd). rewrite tallied_truncated in IH.
  destruct (walk files t1 (tallied e v pr)) as [[pr' t'] evs].
  destruct IH as (Hpr & Hevs & Hin & Hout); [done|lia|].
  assert (Hrec : forall f r, f ∈ files ->
    recorded f.2 (verdict_on t f) = Some r <-> recorded f.2 (verdict_on t1 f) = Some r)
    by (intros f r Hf; by rewrite Hsame).
  split; [|split; [|split]].
  - rewrite Hpr. apply fold_left_ext. intros p f Hf. by rewrite Hsame.
  - rewrite Hevs. do 2 f_equal. apply list_fmap_ext.
    intros i f Hf%list_elem_of_lookup_2. by rewrite Hsame.
  - intros f r [->|Hf]%elem_of_cons Hr; [|by apply (Hin f); [|apply Hrec]].
    change (recorded e v = Some r) in Hr. rewrite Hout.
    + unfold t1. rewrite Hr. simpl. apply lookup_insert_eq.
    + intros f' r' Hf' Hr'%Hrec Hk; [|done].
      rewrite (key_of_recorded _ _ _ Hr), (key_of_recorded _ _ _ Hr') in Hk.
      apply (Hdist f' Hf'); [by eapply recorded_inside|by eapply recorded_inside|done].
  - intros k Hk. rewrite Hout.
    + apply store_other. intros r Hr. by apply (Hk (prefix, e)); [left|].
    + intros f r Hf Hr. apply (Hk f); [by right|by apply Hrec].
Qed.

(** ** Pruning *)

Definition well_keyed (t : table) : Prop := forall k r, t !! k = Some r -> key_of r = k.

Lemma well_keyed_walk files t pr : well_keyed t -> well_keyed (walk files t pr).1.2.
Proof.
  revert t pr. induction files as [|[prefix e] files IH]; intros t pr Ht; [done|]. simpl.
  destruct (_ <=? _); [done|].
  specialize (IH (store (recorded e (classify prefix t e)) t)
                (tallied e (classify prefix t e) pr)).
  destruct (walk files _ _) as [[pr' t'] evs]. apply IH.
  destruct (recorded e (classify prefix t e)) as [r|]; [|done]. simpl.
  intros k r' [[<- <-]|[_ Hr']]%lookup_insert_Some; [done|by apply Ht].
Qed.

Lemma elem_of_of_scope scope t r :
  well_keyed t ->
  r ∈ of_scope scope t <->
  t !! key_of r = Some r /\ crawler_type r = FILESYSTEM /\ scope_ref r = scope.
Proof.
  intros Ht. unfold of_scope. rewrite list_elem_of_filter, list_elem_of_fmap. split.
  - intros [[Hc Hs] ([k r'] & -> & Hr%elem_of_map_to_list)]. simpl in *.
    by rewrite (Ht _ _ Hr).
  - intros (Hr & Hc & Hs). split; [done|]. exists (key_of r, r). split; [done|].
    by apply elem_of_map_to_list.
Qed.

Lemma NoDup_of_scope scope t : well_keyed t -> NoDup (of_scope scope t).
Proof.
  intros Ht. apply NoDup_filter, NoDup_fmap_2_strong; [|apply NoDup_map_to_list].
  intros [k1 r1] [k2 r2] H1%elem_of_map_to_list H2%elem_of_map_to_list. simpl. intros <-.
  by rewrite <- (Ht _ _ H1), <- (Ht _ _ H2).
Qed.

(** Deleting a list of keys. *)
Definition delete_all (ks : list state_key) (t : table) : table :=
  fold_left (fun t k => delete k t) ks t.

Lemma lookup_delete_all ks t k :
  delete_all ks t !! k = if decide (k ∈ ks) then None else t !! k.
Proof.
  revert t. induction ks as [|k' ks IH]; intros t; simpl; [done|]. rewrite IH.
  destruct (decide (k ∈ ks)) as [Hk|Hk].
  { rewrite decide_True; [done|by right]. }
  destruct (decide (k = k')) as [->|Hne].
  - rewrite decide_True by left. apply lookup_delete_eq.
  - rewrite decide_False by by intros [?|?]%elem_of_cons. by apply lookup_delete_ne.
Qed.

Definition stale (walked : gset string) (scope : string) (t : table) : list ModelCrawlStateRecord :=
  filter (fun r => source_ref r ∉ walked) (of_scope scope t).

Fixpoint prune (walked : gset string) (scopes : list string) (t : table)
    : list ModelCrawlStateRecord * table :=
  match scopes with
  | [] => ([], t)
  | scope :: scopes =>
      let gone := stale walked scope t in
      let '(gone', t') := prune walked scopes (delete_all (key_of <$> gone) t) in
      (gone ++ gone', t')
  end.

Definition withdrawn (gone : list ModelCrawlStateRecord) : list (string * event) :=
  (fun r => (publish_topic_removed cfg, removal_of (scope_ref r) r)) <$> gone.

Lemma remove_records_spec scope walked rs removed w Q :
  quiet w -> Forall (fun r => crawler_type r = FILESYSTEM /\ scope_ref r = scope) rs ->
  let gone := filter (fun r => source_ref r ∉ walked) rs in
  (forall w', follows w (delete_all (key_of <$> gone) (states w)) (withdrawn gone) w' ->
     Q (Ok (removed + Z.of_nat (length gone))) w') ->
  wp (remove_records scope walked rs removed) Q w.
Proof.
  intros Hq Hrs gone HQ. subst gone. revert removed w Q Hq HQ.
  induction Hrs as [|r rs [Hc Hs] Hrs IH]; intros removed w Q Hq HQ.
  { simpl in *. rewrite Z.add_0_r in HQ. apply HQ, follows_refl. }
  cbn [remove_records]. case_bool_decide as Hin.
  - apply IH; [done|]. rewrite filter_cons_False in HQ by auto. done.
  - assert ((source_ref r, FILESYSTEM, scope) = key_of r) as ->
      by (unfold key_of; by rewrite Hc, Hs).
    wp_step. apply wp_event; [done|]. intros w1 H1. wp_step.
    apply wp_delete; [by eapply follows_quiet|]. intros w2 H2.
    pose proof (follows_trans _ _ _ _ _ _ _ H1 H2) as H12.
    rewrite (follows_states _ _ _ _ H1) in H12.
    apply IH; [by eapply follows_quiet|]. intros w3 H3.
    rewrite filter_cons_True in HQ by auto. cbn [length] in HQ.
    replace (removed + 1 + _) with (removed + Z.of_nat (S (length
      (filter (fun r => source_ref r ∉ walked) rs)))) by lia.
    apply HQ. rewrite (follows_states _ _ _ _ H12) in H3.
    pose proof (follows_trans _ _ _ _ _ _ _ H12 H3) as H. by rewrite <- Hs in H.
Qed.

Lemma well_keyed_delete_all ks t : well_keyed t -> well_keyed (delete_all ks t).
Proof.
  intros Ht k r Hr. rewrite lookup_delete_all in Hr. case_decide; [done|]. by apply Ht.
Qed.

Lemma elem_of_stale walked scope t r :
  well_keyed t ->
  r ∈ stale walked scope t <->
  t !! key_of r = Some r /\ crawler_type r = FILESYSTEM /\ scope_ref r = scope /\
  source_ref r ∉ walked.
Proof. intros Ht. unfold stale. rewrite list_elem_of_filter, elem_of_of_scope by done. naive_solver. Qed.

Lemma remove_scopes_spec walked scopes removed w Q :
  quiet w -> well_keyed (states w) ->
  let '(gone, t') := prune walked scopes (states w) in
  (forall w', follows w t' (withdrawn gone) w' -> Q (Ok (removed + Z.of_nat (length gone))) w') ->
  wp (remove_scopes walked scopes removed) Q w.
Proof.
  revert removed w Q. induction scopes as [|scope scopes IH]; intros removed w Q Hq Ht.
  { simpl. rewrite Z.add_0_r. intros HQ. apply HQ, follows_refl. }
  simpl. set (gone := stale walked scope (states w)).
  destruct (prune walked scopes _) as [gone' t'] eqn:E. intros HQ.
  wp_step. apply wp_list_states; [done|]. intros w1 H1.
  assert (Ht1 := follows_states _ _ _ _ H1).
  wp_step. apply remove_records_spec.
  { by eapply follows_quiet. }
  { apply Forall_forall. intros r Hr%elem_of_of_scope; [|done]. apply Hr. }
  fold (stale walked scope (states w)). fold gone. rewrite Ht1. intros w2 H2.
  pose proof (follows_trans _ _ _ _ _ _ _ H1 H2) as H12.
  specialize (IH (removed + Z.of_nat (length gone)) w2 Q (follows_quiet _ _ _ _ H12 Hq)).
  rewrite (follows_states _ _ _ _ H12), E in IH.
  apply IH; [by apply well_keyed_delete_all|]. intros w3 H3.
  replace (_ + _ + _) with (removed + Z.of_nat (length (gone ++ gone')))
    by (rewrite length_app; lia).
  apply HQ. unfold withdrawn. rewrite fmap_app. exact (follows_trans _ _ _ _ _ _ _ H12 H3).
Qed.

Lemma prune_spec walked scopes t :
  well_keyed t -> NoDup scopes ->
  let '(gone, t') := prune walked scopes t in
  NoDup gone /\
  (forall r, r ∈ gone <-> t !! key_of r = Some r /\ crawler_type r = FILESYSTEM /\
     scope_ref r ∈ scopes /\ source_ref r ∉ walked) /\
  (forall k, t' !! k = if decide (k ∈ key_of <$> gone) then None else t !! k).
Proof.
  revert t. induction scopes as [|scope scopes IH]; intros t Ht Hnd.
  { simpl. split; [constructor|]. split; [|done]. intros r. split.
    - by intros ?%not_elem_of_nil.
    - by intros (_ & _ & ?%not_elem_of_nil & _). }
  apply NoDup_cons in Hnd as [Hnot Hnd]. simpl.
  specialize (IH (delete_all (key_of <$> stale walked scope t) t)
    (well_keyed_delete_all _ _ Ht) Hnd).
  destruct (prune walked scopes _) as [gone' t']. destruct IH as (Hnd' & Hin & Hout).
  assert (Hother : forall r, scope_ref r ∈ scopes ->
    delete_all (key_of <$> stale walked scope t) t !! key_of r = t !! key_of r).
  { intros r Hr. rewrite lookup_delete_all, decide_False; [done|].
    intros (r' & Heq & (_ & _ & Hs & _)%elem_of_stale)%list_elem_of_fmap; [|done].
    injection Heq as _ _ Heq. congruence. }
  split; [|split].
  - apply NoDup_app. split; [by apply NoDup_filter, NoDup_of_scope|]. split; [|done].
    intros r (_ & _ & Hs & _)%elem_of_stale Hr%Hin; [|done]. naive_solver.
  - intros r. rewrite elem_of_app, elem_of_stale, Hin, elem_of_cons by done.
    split; [intros [?|(Hr & ? & Hs & ?)]|intros (? & ? & [?|Hs] & ?)].
    + naive_solver.
    + rewrite Hother in Hr by done. auto.
    + by left.
    + right. by rewrite Hother.
  - intros k. rewrite Hout, lookup_delete_all, fmap_app.
    repeat case_decide; rewrite ?elem_of_app in *; tauto.
Qed.

(** *** The whole crawl *)

Definition prefixes_absolute : Prop :=
  Forall (fun prefix => is_absolute (to_path prefix) = true) (path_prefixes cfg).

Lemma check_prefixes_ok w Q : prefixes_absolute -> Q (Ok tt) w ->
  wp (check_prefixes (path_prefixes cfg)) Q w.
Proof.
  unfold prefixes_absolute. intros Habs HQ. induction Habs as [|prefix prefixes Hp _ IH]; [done|].
  simpl. by rewrite Hp.
Qed.

(** A quiet crawl on the table alone: the walk, then the pruning. *)
Definition crawl_table (files : list (path * entry)) (t : table)
    : ModelFilesystemCrawlResult * table * list (string * event) :=
  let '(pr, t1, evs) := walk files t start in
  if truncated pr then (Result pr 0, t1, evs)
  else
    let '(gone, t2) := prune (walked_paths pr) (elements (affected_scopes pr)) t1 in
    (Result pr (Z.of_nat (length gone)), t2, evs ++ withdrawn gone).

Lemma crawl_spec view w Q :
  prefixes_absolute -> quiet w -> well_keyed (states w) ->
  let '(result, t', evs) := crawl_table (found (view <$> path_prefixes cfg)) (states w) in
  (forall w', follows w t' evs w' -> Q (Ok result) w') -> wp (crawl view) Q w.
Proof.
  intros Habs Hq Ht. unfold crawl_table.
  pose proof (crawl_prefixes_walk (view <$> path_prefixes cfg) start w) as Hwalk.
  pose proof (well_keyed_walk (found (view <$> path_prefixes cfg)) (states w) start Ht) as Ht1.
  destruct (walk _ _ start) as [[pr t1] evs]. simpl in Ht1.
  destruct (truncated pr) eqn:Htr.
  - intros HQ. unfold crawl. wp_step. apply check_prefixes_ok; [done|]. wp_step.
    apply Hwalk; [done|done|]. intros w1 H1. rewrite Htr. wp_step. by apply HQ.
  - destruct (prune _ _ _) as [gone t2] eqn:E. intros HQ.
    unfold crawl. wp_step. apply check_prefixes_ok; [done|]. wp_step.
    apply Hwalk; [done|done|]. intros w1 H1. rewrite Htr. wp_step.
    unfold _detect_and_emit_removals.
    pose proof (remove_scopes_spec (walked_paths pr) (elements (affected_scopes pr)) 0 w1) as Hrem.
    rewrite (follows_states _ _ _ _ H1), E in Hrem.
    apply Hrem; [by eapply follows_quiet|done|]. intros w2 H2. wp_step. apply HQ.
    exact (follows_trans _ _ _ _ _ _ _ H1 H2).
Qed.

Lemma classify_reached f t :
  (verdict_on t f = Escaped \/ verdict_on t f = Unstatable \/ verdict_on t f = TooLarge) <->
  ~ reached f.
Proof.
  unfold verdict_on, classify, judge, reached. destruct f as [prefix e]; simpl.
  destruct (is_relative_to _ _); [|naive_solver]. simpl.
  destruct (stat e) as [st|]; [|naive_solver].
  destruct (max_file_size_bytes cfg <? st_size st) eqn:E; breflect.
  - split; [|tauto]. intros _ (_ & st' & [= <-] & ?). lia.
  - split; [|intros []; eauto].
    repeat case_match; intros [?|[?|?]]; done.
Qed.

Lemma seen_tallied f t pr :
  (forall s, s ∈ walked_paths (tallied f.2 (verdict_on t f) pr) <->
     s ∈ walked_paths pr \/ (reached f /\ s = path_text f)) /\
  (forall s, s ∈ scope_refs_seen (tallied f.2 (verdict_on t f) pr) <->
     s ∈ scope_refs_seen pr \/ (reached f /\ s = scope_of (resolved f.2))).
Proof.
  clear decoded_length. pose proof (classify_reached f t) as Hr. unfold path_text.
  destruct (decide (reached f)); destruct (verdict_on t f), pr; simpl;
    first [ exfalso; apply (proj1 Hr); solve [auto]
          | exfalso; destruct (proj2 Hr ltac:(assumption)) as [?|[?|?]]; discriminate
          | clear Hr; set_solver ].
Qed.

Lemma seen_walk t files pr :
  let pr' := fold_left (fun pr f => tallied f.2 (verdict_on t f) pr) files pr in
  (forall s, s ∈ walked_paths pr' <->
     s ∈ walked_paths pr \/ exists f, f ∈ files /\ reached f /\ path_text f = s) /\
  (forall s, s ∈ scope_refs_seen pr' <->
     s ∈ scope_refs_seen pr \/ exists f, f ∈ files /\ reached f /\ scope_of (resolved f.2) = s).
Proof.
  revert pr. induction files as [|f files IH]; intros pr; simpl.
  - split; intros s; (split; [by left|intros [?|(f & []%not_elem_of_nil & _)]; done]).
  - destruct (IH (tallied f.2 (verdict_on t f) pr)) as [IHw IHs].
    destruct (seen_tallied f t pr) as [Hw Hs].
    split; intros s; rewrite ?IHw, ?IHs, ?Hw, ?Hs; setoid_rewrite elem_of_cons;
      (split; [intros [[?|[? ->]]|(? & ? & ? & ?)]|intros [?|(? & [->|?] & ? & ?)]]); eauto 8.
Qed.

Lemma recorded_reached f t r : recorded f.2 (verdict_on t f) = Some r -> reached f.
Proof.
  intros Hr. pose proof (classify_reached f t) as Hc.
  destruct (decide (reached f)) as [|Hn]; [done|].
  apply Hc in Hn as [Hv|[Hv|Hv]]; by rewrite Hv in Hr.
Qed.

Lemma source_ref_recorded e v r : recorded e v = Some r -> source_ref r = str_path (resolved e).
Proof. by destruct v; simpl; intros [= <-]. Qed.

Lemma truncated_walk t files pr :
  truncated (fold_left (fun pr f => tallied f.2 (verdict_on t f) pr) files pr) = truncated pr.
Proof.
  revert pr. induction files as [|f files IH]; intros pr; [done|]. simpl.
  by rewrite IH, tallied_truncated.
Qed.

(** The number of files with a verdict of a kind. *)
Definition number (kind : verdict -> bool) (t : table) (files : list (path * entry)) : Z :=
  Z.of_nat (length (filter (fun f => kind (verdict_on t f) = true) files)).

(** What the counters of [pr] add to those of [pr0]. *)
Record counted (t : table) (files : list (path * entry)) (pr0 pr : progress) : Prop := Counted {
  n_walked : files_walked pr = files_walked pr0 +
    number (fun v => if v is Escaped then false else true) t files;
  n_discovered : discovered_count pr = discovered_count pr0 +
    number (fun v => if v is New _ _ then true else false) t files;
  n_changed : changed_count pr = changed_count pr0 +
    number (fun v => if v is Edited _ _ _ then true else false) t files;
  n_indexed : indexed_count pr = indexed_count pr0 +
    number (fun v => match v with New _ _ | Edited _ _ _ => true | _ => false end) t files;
  n_unchanged : unchanged_count pr = unchanged_count pr0 +
    number (fun v => if v is SameContent _ _ then true else false) t files;
  n_mtime_skipped : mtime_skipped_count pr = mtime_skipped_count pr0 +
    number (fun v => if v is SameMtime _ _ then true else false) t files;
  n_skipped : skipped_count pr = skipped_count pr0 +
    number (fun v => match v with Escaped | TooLarge => true | _ => false end) t files;
  n_error : error_count pr = error_count pr0 +
    number (fun v => match v with Unstatable | Unreadable => true | _ => false end) t files;
}.

Lemma number_cons kind t f files :
  number kind t (f :: files) = (if kind (verdict_on t f) then 1 else 0) + number kind t files.
Proof.
  unfold number. rewrite filter_cons. destruct (kind (verdict_on t f)); simpl; lia.
Qed.

Lemma counted_walk t files pr :
  counted t files pr (fold_left (fun pr f => tallied f.2 (verdict_on t f) pr) files pr).
Proof.
  revert pr. induction files as [|f files IH]; intros pr; simpl.
  { split; unfold number; simpl; lia. }
  destruct (IH (tallied f.2 (verdict_on t f) pr)) as [H1 H2 H3 H4 H5 H6 H7 H8].
  split; rewrite number_cons; [rewrite H1|rewrite H2|rewrite H3|rewrite H4|rewrite H5|rewrite H6
    |rewrite H7|rewrite H8]; clear; destruct pr, (verdict_on t f); simpl; lia.
Qed.

Lemma number_or (k1 k2 k3 : verdict -> bool) t files :
  (forall v, (if k3 v then 1 else 0) = (if k1 v then 1 else 0) + (if k2 v then 1 else 0)) ->
  number k3 t files = number k1 t files + number k2 t files.
Proof.
  intros Hk. induction files as [|f files IH]; [done|]. rewrite !number_cons, IH, Hk. lia.
Qed.

(** C17: a crawl without repository failures, other writers or a
    cancellation, over files each found once and no more than the limit, ends
    with exactly these effects. It attempts, in the order of the walk, the
    events of each file's verdict against the table it started from (discovered
    and indexed for a new file, changed and indexed for an edited one, nothing
    else), then a removal for each row of an affected scope whose file was not
    reached; it stores the new row of each visited file, deletes the removed
    rows, and leaves every other row, of other crawlers too, alone. The result
    counts, each in its own counter, the files inside their prefix (walked), the
    new ones (discovered), the edited ones (changed), both together (indexed),
    those with the same content (unchanged), those with the same modification
    time, the skipped ones (outside their prefix or too large), those without
    [stat] or contents (errors), and the removals. *)
Theorem crawl_exact view w :
  prefixes_absolute -> quiet w -> well_keyed (states w) ->
  let files := found (view <$> path_prefixes cfg) in
  paths_once files -> Z.of_nat (length files) <= max_files_per_crawl cfg ->
  let t := states w in
  let w' := (crawl view w).2 in
  exists pr gone,
    (crawl view w).1 = Ok (Result pr (Z.of_nat (length gone))) /\ truncated pr = false /\
    files_walked pr = number (fun v => if v is Escaped then false else true) t files /\
    discovered_count pr = number (fun v => if v is New _ _ then true else false) t files /\
    changed_count pr = number (fun v => if v is Edited _ _ _ then true else false) t files /\
    indexed_count pr = discovered_count pr + changed_count pr /\
    unchanged_count pr = number (fun v => if v is SameContent _ _ then true else false) t files /\
    mtime_skipped_count pr = number (fun v => if v is SameMtime _ _ then true else false) t files /\
    skipped_count pr =
      number (fun v => match v with Escaped | TooLarge => true | _ => false end) t files /\
    error_count pr =
      number (fun v => match v with Unstatable | Unreadable => true | _ => false end) t files /\
    (forall s, s ∈ scope_refs_seen pr <->
       exists f, f ∈ files /\ reached f /\ scope_of (resolved f.2) = s) /\
    attempts w' = attempts w ++ concat ((fun f => announced f.2 (verdict_on t f)) <$> files) ++
      ((fun r => (publish_topic_removed cfg, removal_of (scope_ref r) r)) <$> gone) /\
    NoDup gone /\
    (forall r, r ∈ gone <->
       t !! key_of r = Some r /\ crawler_type r = FILESYSTEM /\
       scope_ref r ∈ affected_scopes pr /\
       ~ exists f, f ∈ files /\ reached f /\ path_text f = source_ref r) /\
    (forall f r, f ∈ files -> recorded f.2 (verdict_on t f) = Some r ->
       states w' !! key_of r = Some r) /\
    (forall r, r ∈ gone -> states w' !! key_of r = None) /\
    (forall k, (forall r, r ∈ gone -> key_of r <> k) ->
       (forall f r, f ∈ files -> recorded f.2 (verdict_on t f) = Some r -> key_of r <> k) ->
       states w' !! k = t !! k).
Proof.
  intros Habs Hq Ht files Hnd Hmax t.
  pose proof (crawl_spec view w) as Hspec. unfold crawl_table in Hspec. fold files t in Hspec.
  pose proof (walk_exact files t start Hnd eq_refl) as Hwalk.
  pose proof (well_keyed_walk files t start Ht) as Ht1.
  destruct (walk files t start) as [[pr t1] evs]. simpl in Ht1.
  destruct Hwalk as (Hpr & Hevs & Hin & Hout); [simpl; lia|].
  assert (Htr : truncated pr = false) by (rewrite Hpr; apply truncated_walk).
  rewrite Htr in Hspec.
  pose proof (prune_spec (walked_paths pr) (elements (affected_scopes pr)) t1 Ht1
    (NoDup_elements _)) as Hprune.
  destruct (prune _ _ _) as [gone t2]. destruct Hprune as (Hndg & Hgone & Ht2).
  destruct (seen_walk t files start) as [Hw Hs]. rewrite <- Hpr in Hw, Hs. simpl in Hw, Hs.
  assert (Hwalked : forall s, s ∈ walked_paths pr <->
    exists f, f ∈ files /\ reached f /\ path_text f = s) by (intros s; rewrite Hw; set_solver).
  assert (Hrec : forall f r, f ∈ files -> recorded f.2 (verdict_on t f) = Some r ->
    source_ref r ∈ walked_paths pr).
  { intros f r Hf Hr. rewrite Hwalked. exists f. split; [done|].
    split; [by eapply recorded_reached|]. by rewrite (source_ref_recorded _ _ _ Hr). }
  assert (Hkeep : forall r, source_ref r ∉ walked_paths pr -> t1 !! key_of r = t !! key_of r).
  { intros r Hr. apply Hout. intros f r' Hf Hr' Hk. apply Hr.
    injection Hk as Hk _ _. rewrite <- Hk. by apply (Hrec f). }
  cut (wp (crawl view) (fun r w' => r = Ok (Result pr (Z.of_nat (length gone))) /\
         attempts w' = attempts w ++ evs ++ withdrawn gone /\ states w' = t2) w).
  2: { apply Hspec; [done..|]. by intros w' (-> & -> & _). }
  intros (Hr & Ha & Hst). exists pr, gone. cbv zeta. rewrite Hst.
  pose proof (counted_walk t files start) as Hc. rewrite <- Hpr in Hc.
  destruct Hc as [C1 C2 C3 C4 C5 C6 C7 C8]. simpl in *.
  split_and!; try done.
  - rewrite C2, C3, C4. apply number_or. by intros [].
  - intros sc. rewrite Hs. set_solver.
  - by rewrite Ha, Hevs.
  - intros r. rewrite Hgone, elem_of_elements, <- Hwalked.
    split; intros (H1 & H2 & H3 & H4); rewrite Hkeep in * by done; done.
  - intros f r Hf Hrr. rewrite Ht2, decide_False; [by apply (Hin f)|].
    intros (r' & Hk & Hr')%list_elem_of_fmap. apply Hgone in Hr' as (_ & _ & _ & Hnot).
    apply Hnot. injection Hk as <- _ _. by apply (Hrec f).
  - intros r Hg. rewrite Ht2, decide_True; [done|]. apply list_elem_of_fmap. by exists r.
  - intros k Hg Hk. rewrite Ht2, decide_False; [by apply Hout|].
    intros (r & -> & Hr')%list_elem_of_fmap. by apply (Hg r).
Qed.


(** ** Accounts, whatever happens *)

Definition files_in (seen : list (path * entry)) : Z :=
  Z.of_nat (length (filter inside seen)).
Definition files_out (seen : list (path * entry)) : Z :=
  Z.of_nat (length (filter (fun f => ~ inside f) seen)).

(** The counters after the files [seen]. *)
Record accounts (seen : list (path * entry)) (pr : progress) : Prop := Accounts {
  ac_walked : files_walked pr = files_in seen;
  ac_indexed : indexed_count pr = discovered_count pr + changed_count pr;
  ac_total : files_walked pr + files_out seen =
    discovered_count pr + changed_count pr + unchanged_count pr + mtime_skipped_count pr +
    error_count pr + skipped_count pr;
  ac_limit : files_walked pr <= max_files_per_crawl cfg;
}.

Lemma accounts_tallied seen prefix t e pr :
  accounts seen pr -> files_walked pr < max_files_per_crawl cfg ->
  accounts (seen ++ [(prefix, e)]) (tallied e (classify prefix t e) pr).
Proof.
  intros [Hw Hi Ht Hl] Hmax.
  assert (Hin : files_in (seen ++ [(prefix, e)]) =
    files_in seen + (if decide (inside (prefix, e)) then 1 else 0)).
  { unfold files_in. rewrite filter_app, length_app, filter_cons. case_decide; simpl; lia. }
  assert (Hout : files_out (seen ++ [(prefix, e)]) =
    files_out seen + (if decide (inside (prefix, e)) then 0 else 1)).
  { unfold files_out. rewrite filter_app, length_app, filter_cons.
    repeat case_decide; simpl; (lia || tauto). }
  unfold inside in Hin, Hout. simpl in Hin, Hout.
  assert (Hesc : classify prefix t e = Escaped <-> is_relative_to (resolved e) prefix = false).
  { unfold classify, judge. destruct (is_relative_to _ _); [|done]. simpl. split; [|done].
    by repeat case_match. }
  destruct (decide (is_relative_to (resolved e) prefix = true)) as [Hr|Hr].
  - destruct (classify prefix t e); [by rewrite (proj1 Hesc eq_refl) in Hr| ..];
      destruct pr; simpl in *; split; simpl; lia.
  - apply not_true_is_false, Hesc in Hr. rewrite Hr.
    destruct pr; simpl in *; split; simpl; lia.
Qed.

(** A call of the repository, in any surroundings. *)
Lemma wp_call_any {A} (f : world -> A * world) (Q : res A -> world -> Prop) w :
  (forall w1, Q (Ok (f w1).1) (f w1).2) -> (forall e w1, Q (Raise e) w1) -> wp (call f) Q w.
Proof.
  intros HO HR. unfold wp, call. destruct (ce_fail _) as [[e applied]|]; [apply HR|].
  specialize (HO (arrive w)). by destruct (f (arrive w)).
Qed.

Lemma wp_publish_any topic ev (Q : res unit -> world -> Prop) w :
  (forall w1, Q (Ok tt) w1) -> (forall e w1, Q (Raise e) w1) -> wp (_publish_event topic ev) Q w.
Proof.
  intros HO HR. unfold _publish_event. wp_step. unfold wp, publish_callback. cbn [fst snd].
  destruct (pub_fail w _) as [e|]; [destruct (is_Exception e)|]; auto.
Qed.

Lemma wp_upsert_any {A} r (a : A) (Q : res A -> world -> Prop) w :
  (forall w1, Q (Ok a) w1) -> (forall e w1, Q (Raise e) w1) ->
  wp (do! upsert_state r; ret a) Q w.
Proof. intros HO HR. wp_step. apply wp_call_any; [intros w1; wp_step; apply HO|apply HR]. Qed.

Lemma wp_announce_any {A} topic1 ev1 topic2 ev2 r (a : A) (Q : res A -> world -> Prop) w :
  (forall w1, Q (Ok a) w1) -> (forall e w1, Q (Raise e) w1) ->
  wp (do! _publish_event topic1 ev1; do! _publish_event topic2 ev2; do! upsert_state r; ret a) Q w.
Proof.
  intros HO HR. rewrite wp_bind. apply wp_publish_any; [|done]. intros w1. rewrite wp_bind.
  apply wp_publish_any; [|done]. intros w2. by apply wp_upsert_any.
Qed.

(** The progress after a file is that of its verdict against some table. *)
Lemma crawl_file_any prefix e pr w :
  wp (crawl_file prefix e pr) (fun r _ => forall pr', r = Ok pr' ->
    exists t, pr' = tallied e (classify prefix t e) pr) w.
Proof.
  unfold crawl_file, classify. destruct (is_relative_to _ _); cbn [negb].
  2: { intros pr' [= <-]. by exists ∅. }
  destruct (stat e) as [st|]; [|intros pr' [= <-]; by exists ∅].
  destruct (max_file_size_bytes cfg <? st_size st); [intros pr' [= <-]; by exists ∅|].
  wp_step. unfold get_state, wp at 1, call. destruct (ce_fail _) as [[e0 []]|]; [done|done|].
  cbn [fst snd]. set (t := states (arrive w)).
  eapply (wp_mono _ (fun r _ => forall pr', r = Ok pr' ->
    pr' = tallied e (judge (st_mtime st) (t !! file_key (resolved e)) (content e)) pr)).
  { intros r w2 Hr pr' Hpr'. exists t. by apply Hr. }
  unfold read_and_examine, examine, judge. destruct (t !! _) as [r|]; [case_bool_decide as Hm|].
  - apply wp_upsert_any; [|done]. intros w1 pr' [= <-]. destruct (content e); by rewrite decide_True.
  - destruct (content e) as [bs|]; rewrite decide_False by done; [|by intros pr' [= <-]].
    case_bool_decide as Hf.
    + apply wp_upsert_any; [|done]. intros w1 pr' [= <-]. by rewrite decide_True.
    + apply wp_announce_any; [|done]. intros w1 pr' [= <-]. by rewrite decide_False.
  - destruct (content e) as [bs|]; [|by intros pr' [= <-]].
    apply wp_announce_any; [|done]. by intros w1 pr' [= <-].
Qed.

Lemma crawl_entries_any prefix es pr seen w :
  accounts seen pr -> truncated pr = false ->
  wp (crawl_entries prefix es pr) (fun r _ => forall pr', r = Ok pr' ->
    exists k, accounts (seen ++ ((fun e => (prefix, e)) <$> take k es)) pr' /\
      if truncated pr' then max_files_per_crawl cfg <= files_walked pr'
      else (length es <= k)%nat) w.
Proof.
  revert pr seen w. induction es as [|e es IH]; intros pr seen w Hac Htr; simpl.
  - intros pr' [= <-]. exists 0%nat. rewrite Htr, app_nil_r. split; [done|simpl; lia].
  - destruct (_ <=? _) eqn:E; breflect.
    + intros pr' [= <-]. exists 0%nat. simpl. rewrite app_nil_r. by destruct pr, Hac.
    + wp_step. eapply wp_mono; [|apply crawl_file_any]. intros [pr1|ex] w1 Hpr1; [|done].
      destruct (Hpr1 pr1 eq_refl) as [t ->]. clear Hpr1.
      eapply wp_mono; [|apply (IH _ (seen ++ [(prefix, e)]))].
      * intros r w2 Hr pr' Hpr'. destruct (Hr pr' Hpr') as (k & Hk & Hlen).
        exists (S k). simpl. rewrite <- app_assoc in Hk. split; [done|].
        destruct (truncated pr'); [done|lia].
      * by apply accounts_tallied.
      * by rewrite tallied_truncated.
Qed.

Lemma crawl_prefixes_any views pr seen w :
  accounts seen pr -> truncated pr = false ->
  wp (crawl_prefixes views pr) (fun r _ => forall pr', r = Ok pr' ->
    exists k, accounts (seen ++ take k (found views)) pr' /\
      if truncated pr' then max_files_per_crawl cfg <= files_walked pr'
      else (length (found views) <= k)%nat) w.
Proof.
  revert pr seen w. induction views as [|[[prefix es]|] views IH]; intros pr seen w Hac Htr.
  - intros pr' [= <-]. exists 0%nat. rewrite Htr, app_nil_r. split; [done|simpl; lia].
  - change (found (Some (prefix, es) :: views))
      with (((fun e => (prefix, e)) <$> es) ++ found views).
    simpl. wp_step. eapply wp_mono; [|by apply crawl_entries_any].
    intros [pr1|ex] w1 Hpr1; [|done]. destruct (Hpr1 pr1 eq_refl) as (k & Hk & Hlen).
    destruct (truncated pr1) eqn:Htr1.
    + intros pr' [= <-]. exists (k `min` length es)%nat. rewrite Htr1.
      rewrite take_app_le by (rewrite length_fmap; lia). rewrite <- fmap_take.
      rewrite <- take_take, (take_ge es (length es)) by lia. done.
    + rewrite take_ge in Hk by done.
      eapply wp_mono; [|by apply (IH pr1 (seen ++ ((fun e => (prefix, e)) <$> es)))].
      intros r w2 Hr pr' Hpr'. destruct (Hr pr' Hpr') as (k' & Hk' & Hlen').
      exists (length es + k')%nat. rewrite take_app_ge by (rewrite length_fmap; lia).
      rewrite length_fmap, length_app, length_fmap.
      replace (length es + k' - length es)%nat with k' by lia. rewrite app_assoc. split; [done|].
      destruct (truncated pr'); [done|lia].
  - by apply IH.
Qed.

(** In any surroundings (failing calls that end the crawl,
    other writers, lost events), a crawl that returns has examined an initial
    part of the files found, all of them unless it was truncated, which
    happens at exactly the configured limit. Every file examined is counted
    once: as escaping its prefix and skipped, or as walked and one of
    discovered, changed, unchanged, skipped by its modification time, in error
    or skipped by its size; and one indexed event is counted for each
    discovered or changed file. *)
Theorem crawl_accounts view w pr removed w' :
  1 <= max_files_per_crawl cfg ->
  crawl view w = (Ok (Result pr removed), w') ->
  let files := found (view <$> path_prefixes cfg) in
  exists k, let seen := take k files in
    (truncated pr = false -> seen = files) /\
    (truncated pr = true -> files_walked pr = max_files_per_crawl cfg) /\
    files_walked pr = Z.of_nat (length (filter inside seen)) /\
    files_walked pr <= max_files_per_crawl cfg /\
    indexed_count pr = discovered_count pr + changed_count pr /\
    files_walked pr + Z.of_nat (length (filter (fun f => ~ inside f) seen)) =
      discovered_count pr + changed_count pr + unchanged_count pr + mtime_skipped_count pr +
      error_count pr + skipped_count pr.
Proof.
  intros Hmax Hrun files.
  assert (Hw : wp (crawl view) (fun r _ => forall res, r = Ok res ->
    exists k, accounts (take k files) (counts res) /\
      if truncated (counts res) then max_files_per_crawl cfg <= files_walked (counts res)
      else (length files <= k)%nat) w).
  { unfold crawl. wp_step. generalize (path_prefixes cfg) at 1 as prefixes.
    induction prefixes as [|prefix prefixes IH]; simpl.
    2: { destruct (is_absolute _); [done|]. by wp_step. }
    wp_step. eapply wp_mono; [|apply (crawl_prefixes_any _ start [])]; [| |done].
    - intros [pr1|ex] w1 Hpr1; [|done]. wp_step.
      unfold wp at 1. set (c := if truncated pr1 then _ else _). destruct (c w1) as [[n|ex] w2]; [|done].
      intros res [= <-]. by apply Hpr1.
    - split; simpl; (done || lia). }
  eapply wp_run in Hw; [|exact Hrun]. destruct (Hw _ eq_refl) as (k & [? ? ? ?] & Hlen).
  simpl in *. exists k. split_and!; try done.
  - intros Htr. rewrite Htr in Hlen. by apply take_ge.
  - intros Htr. rewrite Htr in Hlen. lia.
Qed.

(** ** Crawling again *)

(** The part of the progress that depends on the files alone. *)
Definition outlook (pr : progress) : Z * bool * gset string * gset string :=
  (files_walked pr, truncated pr, walked_paths pr, scope_refs_seen pr).

(** The files a walk gets to, from a given number of walked ones. *)
Fixpoint examined (files : list (path * entry)) (walked : Z) : list (path * entry) :=
  match files with
  | [] => []
  | f :: files =>
      if max_files_per_crawl cfg <=? walked then []
      else f :: examined files (if decide (inside f) then walked + 1 else walked)
  end.

Lemma examined_in files walked f : f ∈ examined files walked -> f ∈ files.
Proof.
  revert walked. induction files as [|f' files IH]; intros walked; [done|]. simpl.
  destruct (_ <=? _); [by intros ?%not_elem_of_nil|].
  intros [->|Hf]%elem_of_cons; [by left|right; by eapply IH].
Qed.

Lemma outlook_tallied f t t' pr pr' :
  outlook pr = outlook pr' ->
  outlook (tallied f.2 (verdict_on t f) pr) = outlook (tallied f.2 (verdict_on t' f) pr').
Proof.
  unfold verdict_on, classify, judge. destruct pr, pr'. unfold outlook. simpl.
  intros [= -> -> -> ->]. by repeat case_match.
Qed.

Lemma walked_tallied f t pr :
  files_walked (tallied f.2 (verdict_on t f) pr) =
  if decide (inside f) then files_walked pr + 1 else files_walked pr.
Proof.
  unfold verdict_on, classify, judge. destruct pr. case_decide as Hin; unfold inside in Hin.
  - rewrite Hin. simpl. by repeat case_match.
  - by apply not_true_is_false in Hin as ->.
Qed.

Definition consistent (files : list (path * entry)) : Prop :=
  forall f f', f ∈ files -> f' ∈ files -> inside f -> inside f' -> path_text f = path_text f' ->
    stat f.2 = stat f'.2 /\ content f.2 = content f'.2.

(** Visiting the file now would announce nothing. *)
Definition settled (t : table) (f : path * entry) : Prop :=
  inside f -> forall st, stat f.2 = Some st -> st_size st <= max_file_size_bytes cfg ->
    (exists r, t !! file_key (resolved f.2) = Some r /\ last_known_mtime r = Some (st_mtime st)) \/
    content f.2 = None.

Lemma visit_settles t f : settled (store (recorded f.2 (verdict_on t f)) t) f.
Proof.
  intros Hin st Hst Hsize. unfold verdict_on, classify. rewrite Hin, Hst. simpl.
  rewrite Zltb_F by done. unfold judge.
  destruct (t !! _) as [r|], (content f.2) as [bs|]; [|by right| |by right];
    repeat case_decide; left; eexists; (split; [apply lookup_insert_eq|done]).
Qed.

Lemma visit_keeps_settled t f f' :
  (inside f -> inside f' -> path_text f = path_text f' ->
     stat f.2 = stat f'.2 /\ content f.2 = content f'.2) ->
  settled t f -> settled (store (recorded f'.2 (verdict_on t f')) t) f.
Proof.
  intros Hcons Hset Hin. destruct (recorded f'.2 (verdict_on t f')) as [r|] eqn:E; [|by apply Hset].
  pose proof (recorded_inside _ _ _ _ E) as Hin'. pose proof (key_of_recorded _ _ _ E) as Hk.
  simpl. rewrite Hk. destruct (decide (file_key (resolved f.2) = file_key (resolved f'.2))) as [Heq|Hne].
  - destruct (Hcons Hin Hin') as [Hst Hct]; [by injection Heq|].
    pose proof (visit_settles t f' Hin') as Hset'. rewrite E in Hset'. simpl in Hset'.
    rewrite Hk, <- Heq, <- Hst, <- Hct in Hset'. by rewrite <- Heq.
  - intros st Hst Hsize. rewrite lookup_insert_ne by done. by apply Hset.
Qed.

Lemma walk_settles files t pr :
  consistent files ->
  (forall D, (forall f f', f ∈ D -> f' ∈ files -> inside f -> inside f' -> path_text f = path_text f' ->
      stat f.2 = stat f'.2 /\ content f.2 = content f'.2) ->
    Forall (settled t) D -> Forall (settled (walk files t pr).1.2) D) /\
  Forall (settled (walk files t pr).1.2) (examined files (files_walked pr)).
Proof.
  revert t pr. induction files as [|[prefix e] files IH]; intros t pr Hcons; [by split|]. simpl.
  destruct (_ <=? _); [split; [done|constructor]|].
  change (classify prefix t e) with (verdict_on t (prefix, e)).
  pose proof (visit_settles t (prefix, e)) as Hhere.
  pose proof (walked_tallied (prefix, e) t pr) as Hw. simpl in Hhere, Hw.
  set (t1 := store _ t) in *. set (pr1 := tallied _ _ pr) in *. rewrite <- Hw.
  assert (Hcons' : consistent files) by (intros f f' ? ?; apply Hcons; by right).
  destruct (IH t1 pr1 Hcons') as [Hkeep Hdone]. destruct (walk files t1 pr1) as [[pr' t'] evs].
  simpl in *. split.
  - intros D HD Hset. apply Hkeep; [intros f f' Hf Hf'; apply HD; [done|by right]|].
    rewrite Forall_forall in Hset |- *. intros f Hf.
    apply (visit_keeps_settled t f (prefix, e)); [|by apply Hset].
    apply HD; [done|by left].
  - constructor; [|done].
    apply (Forall_singleton (settled t')), Hkeep; [|by apply Forall_singleton].
    intros f f' ->%list_elem_of_singleton Hf'. apply Hcons; [by left|by right].
Qed.

(** Two tables that differ only in when their documents were last crawled. *)
Definition same_documents (t t' : table) : Prop :=
  forall k, content_fingerprint <$> t !! k = content_fingerprint <$> t' !! k.

Lemma settled_visit t f :
  settled t f ->
  announced f.2 (verdict_on t f) = [] /\
  same_documents (store (recorded f.2 (verdict_on t f)) t) t /\
  forall pr, discovered_count (tallied f.2 (verdict_on t f) pr) = discovered_count pr /\
    changed_count (tallied f.2 (verdict_on t f) pr) = changed_count pr /\
    indexed_count (tallied f.2 (verdict_on t f) pr) = indexed_count pr.
Proof.
  intros Hset. unfold settled, inside in Hset.
  assert (Hq : match verdict_on t f with New _ _ | Edited _ _ _ | SameContent _ _ => False
               | SameMtime _ r => t !! file_key (resolved f.2) = Some r | _ => True end).
  { unfold verdict_on, classify. destruct (is_relative_to _ _); [|done]. simpl.
    destruct (stat f.2) as [st|]; [|done].
    destruct (max_file_size_bytes cfg <? st_size st) eqn:E; [done|]. breflect.
    destruct (Hset eq_refl st eq_refl E) as [(r & -> & Hm)| ->]; simpl.
    - by destruct (content f.2); rewrite decide_True.
    - destruct (t !! _) as [r|]; simpl; [by case_decide|done]. }
  destruct (verdict_on t f) as [| | |m r| | |m r|] eqn:Ev; try done;
    (split; [done|split; [|by intros []]]); try by intros k.
  intros k. simpl. destruct (decide (k = file_key (resolved f.2))) as [->|Hne].
  - rewrite Hq. by rewrite lookup_insert_eq.
  - by rewrite lookup_insert_ne by by apply not_eq_sym.
Qed.

Lemma walk_silent files t pr :
  consistent files -> Forall (settled t) (examined files (files_walked pr)) ->
  let '(pr', t', evs) := walk files t pr in
  evs = [] /\ same_documents t' t /\
  discovered_count pr' = discovered_count pr /\ changed_count pr' = changed_count pr /\
  indexed_count pr' = indexed_count pr.
Proof.
  revert t pr. induction files as [|[prefix e] files IH]; intros t pr Hcons; [done|]. simpl.
  destruct (_ <=? _); [by destruct pr|].
  change (classify prefix t e) with (verdict_on t (prefix, e)).
  pose proof (walked_tallied (prefix, e) t pr) as Hw. simpl in Hw. rewrite <- Hw.
  intros [Hhere Hrest]%Forall_cons.
  destruct (settled_visit t (prefix, e) Hhere) as (Ha & Hsame & Hcounts).
  destruct (Hcounts pr) as (Hd & Hc & Hi). clear Hcounts. simpl in *.
  set (t1 := store _ t) in *. set (pr1 := tallied _ _ pr) in *.
  assert (Hcons' : consistent files) by (intros f f' ? ?; apply Hcons; by right).
  specialize (IH t1 pr1 Hcons'). destruct (walk files t1 pr1) as [[pr' t'] evs].
  destruct IH as (-> & Hs & Hd' & Hc' & Hi').
  { rewrite Forall_forall in Hrest |- *. intros f Hf.
    apply (visit_keeps_settled t f (prefix, e)); [|by apply Hrest].
    apply Hcons; [|by left]. right. by eapply examined_in. }
  rewrite Ha. split; [done|]. split; [intros k; by rewrite Hs|]. by rewrite Hd', Hc', Hi'.
Qed.

(** What a walk has seen when it ends, as a function of the files alone. *)
Fixpoint glance (files : list (path * entry)) (o : Z * bool * gset string * gset string)
    : Z * bool * gset string * gset string :=
  match files with
  | [] => o
  | f :: files =>
      let '(walked, tr, wp, ss) := o in
      if max_files_per_crawl cfg <=? walked then (walked, true, wp, ss)
      else glance files
        (if decide (reached f) then (walked + 1, tr, {[path_text f]} ∪ wp,
                                     {[scope_of (resolved f.2)]} ∪ ss)
         else if decide (inside f) then (walked + 1, tr, wp, ss) else o)
  end.

Lemma outlook_visit f t pr :
  outlook (tallied f.2 (verdict_on t f) pr) =
    let '(walked, tr, wp, ss) := outlook pr in
    if decide (reached f) then (walked + 1, tr, {[path_text f]} ∪ wp,
                                {[scope_of (resolved f.2)]} ∪ ss)
    else if decide (inside f) then (walked + 1, tr, wp, ss) else (walked, tr, wp, ss).
Proof.
  pose proof (classify_reached f t) as Hr. pose proof (walked_tallied f t pr) as Hw.
  unfold path_text, outlook in *. destruct (decide (reached f)) as [Hf|Hf].
  - rewrite decide_True in Hw by apply Hf. rewrite Hw.
    destruct (verdict_on t f), pr; try done;
      exfalso; apply (proj1 Hr); solve [auto].
  - rewrite Hw. apply Hr in Hf as [Hv|[Hv|Hv]]; rewrite Hv; destruct pr; by case_decide.
Qed.

Lemma walk_glance files t pr :
  outlook (walk files t pr).1.1 = glance files (outlook pr).
Proof.
  revert t pr. induction files as [|[prefix e] files IH]; intros t pr; [done|].
  cbn [walk glance]. destruct (outlook pr) as [[[walked tr] wp] ss] eqn:Eo.
  assert (Hfw : files_walked pr = walked) by by injection Eo.
  rewrite Hfw. destruct (_ <=? _).
  { destruct pr. unfold outlook in *. simpl in *. by simplify_eq. }
  pose proof (outlook_visit (prefix, e) t pr) as Hv. rewrite Eo in Hv.
  rewrite <- Hv.
  change (classify prefix t e) with (verdict_on t (prefix, e)).
  specialize (IH (store (recorded e (verdict_on t (prefix, e))) t)
    (tallied e (verdict_on t (prefix, e)) pr)).
  by destruct (walk files _ _) as [[pr' t'] evs].
Qed.

Lemma affected_outlook pr pr' : outlook pr = outlook pr' ->
  affected_scopes pr = affected_scopes pr'.
Proof. unfold affected_scopes. intros Ho. injection Ho as _ _ _ Hs. by rewrite Hs. Qed.

Lemma reached_examined_walked files t pr f :
  f ∈ examined files (files_walked pr) -> reached f ->
  path_text f ∈ walked_paths (walk files t pr).1.1.
Proof.
  assert (Hmono : forall files t pr s, s ∈ walked_paths pr ->
    s ∈ walked_paths (walk files t pr).1.1).
  { clear. induction files as [|[prefix e] files IH]; intros t pr s Hs; [done|]. simpl.
    destruct (_ <=? _); [by destruct pr|].
    specialize (IH (store (recorded e (classify prefix t e)) t)
      (tallied e (classify prefix t e) pr) s).
    destruct (walk files _ _) as [[pr' t'] evs]. apply IH.
    apply (seen_tallied (prefix, e) t pr). by left. }
  revert t pr. induction files as [|[prefix e] files IH]; intros t pr; simpl.
  { by intros ?%not_elem_of_nil. }
  destruct (_ <=? _); [by intros ?%not_elem_of_nil|].
  pose proof (walked_tallied (prefix, e) t pr) as Hw.
  pose proof (seen_tallied (prefix, e) t pr) as [Hseen _].
  change (verdict_on t (prefix, e)) with (classify prefix t e) in *. simpl in Hw, Hseen.
  specialize (IH (store (recorded e (classify prefix t e)) t)
    (tallied e (classify prefix t e) pr)).
  specialize (Hmono files (store (recorded e (classify prefix t e)) t)
    (tallied e (classify prefix t e) pr)).
  destruct (walk files _ _) as [[pr' t'] evs]. simpl in *.
  intros [->|Hf]%elem_of_cons Hr.
  - apply Hmono, Hseen. by right.
  - apply IH; [by rewrite Hw|done].
Qed.

(** The table a crawl leaves behind is settled, and has no stale row. *)
Lemma crawl_table_settles files t :
  well_keyed t -> consistent files ->
  let '(result, t', _) := crawl_table files t in
  outlook (counts result) = glance files (outlook start) /\ well_keyed t' /\
  Forall (settled t') (examined files 0) /\
  (truncated (counts result) = false ->
   forall r, t' !! key_of r = Some r -> crawler_type r = FILESYSTEM ->
     scope_ref r ∈ affected_scopes (counts result) -> source_ref r ∈ walked_paths (counts result)).
Proof.
  intros Ht Hcons. unfold crawl_table.
  pose proof (walk_glance files t start) as Hg. pose proof (well_keyed_walk files t start Ht) as Ht1.
  destruct (walk_settles files t start Hcons) as [_ Hset].
  pose proof (fun f => reached_examined_walked files t start f) as Hreach.
  destruct (walk files t start) as [[pr t1] evs]. simpl in *.
  destruct (truncated pr) eqn:Htr.
  { split; [done|]. split; [done|]. split; [done|]. simpl. by rewrite Htr. }
  pose proof (prune_spec (walked_paths pr) (elements (affected_scopes pr)) t1 Ht1
    (NoDup_elements _)) as Hprune.
  destruct (prune _ _ _) as [gone t2]. destruct Hprune as (_ & Hgone & Ht2). simpl.
  split; [done|]. split.
  { intros k r Hr. rewrite Ht2 in Hr. case_decide; [done|]. by apply Ht1. }
  split.
  - rewrite Forall_forall in Hset |- *. intros f Hf Hin st Hst Hsize.
    destruct (Hset f Hf Hin st Hst Hsize) as [(r & Hr & Hm)|]; [left|by right].
    exists r. split; [|done]. rewrite Ht2, decide_False; [done|].
    intros (r' & Hk & (_ & _ & _ & Hnot)%Hgone)%list_elem_of_fmap. apply Hnot.
    injection Hk as <- _ _. apply (Hreach f Hf). by split; [|exists st].
  - intros _ r Hr Hc Hs. rewrite Ht2 in Hr. case_decide as Hk; [done|].
    destruct (decide (source_ref r ∈ walked_paths pr)) as [|Hn]; [done|]. destruct Hk.
    apply list_elem_of_fmap. exists r. split; [done|]. apply Hgone.
    by rewrite elem_of_elements.
Qed.

(** On such a table the same files bring nothing new. *)
Lemma crawl_table_silent files t :
  well_keyed t -> consistent files -> Forall (settled t) (examined files 0) ->
  (forall pr r, outlook pr = glance files (outlook start) -> truncated pr = false ->
     t !! key_of r = Some r -> crawler_type r = FILESYSTEM ->
     scope_ref r ∈ affected_scopes pr -> source_ref r ∈ walked_paths pr) ->
  let '(result, t', evs) := crawl_table files t in
  evs = [] /\ same_documents t' t /\ removed_count result = 0 /\
  discovered_count (counts result) = 0 /\ changed_count (counts result) = 0 /\
  indexed_count (counts result) = 0.
Proof.
  intros Ht Hcons Hset Hkept. unfold crawl_table.
  pose proof (walk_glance files t start) as Hg. pose proof (well_keyed_walk files t start Ht) as Ht1.
  pose proof (walk_silent files t start Hcons Hset) as Hsil.
  destruct (walk files t start) as [[pr t1] evs]. simpl in *.
  destruct Hsil as (-> & Hsame & Hd & Hc & Hi).
  destruct (truncated pr) eqn:Htr; [by split_and!|].
  pose proof (prune_spec (walked_paths pr) (elements (affected_scopes pr)) t1 Ht1
    (NoDup_elements _)) as Hprune.
  destruct (prune _ _ _) as [gone t2]. destruct Hprune as (_ & Hgone & Ht2).
  assert (gone = []) as ->.
  { destruct gone as [|r gone]; [done|]. exfalso.
    destruct (proj1 (Hgone r)) as (Hr & Hf & Hs & Hn); [by left|].
    apply Hn. specialize (Hsame (key_of r)). rewrite Hr in Hsame.
    destruct (t !! key_of r) as [r0|] eqn:E; [|done].
    pose proof (Ht _ _ E) as Hk. rewrite <- Hk in E. injection Hk as H1 H2 H3.
    rewrite <- H1. apply (Hkept pr r0); try done; [congruence|].
    rewrite H3. by apply elem_of_elements. }
  split_and!; try done. intros k. rewrite Ht2. rewrite decide_False; [apply Hsame|].
  apply not_elem_of_nil.
Qed.
End crawler.

(** When nothing fails in the repository and nobody else writes
    it, a second crawl over the same files attempts no event, counts none,
    and changes no row but for the time of the crawl, whatever became of the
    events of the first: an event that was lost is never published again while
    its file stays as it is. *)
Theorem crawl_never_repeats sha256 decoded_length claude_dir cfg scope_mappings req req' view w :
  prefixes_absolute cfg -> quiet w -> well_keyed (states w) ->
  consistent (found (view <$> path_prefixes cfg)) ->
  let w1 := (crawl sha256 decoded_length claude_dir cfg scope_mappings req view w).2 in
  let again := crawl sha256 decoded_length claude_dir cfg scope_mappings req' view w1 in
  attempts again.2 = attempts w1 /\
  (exists pr, again.1 = Ok (Result pr 0) /\ discovered_count pr = 0 /\ changed_count pr = 0 /\
     indexed_count pr = 0) /\
  same_documents (states again.2) (states w1).
Proof.
  intros Habs Hq Ht Hcons w1 again. set (files := found (view <$> path_prefixes cfg)) in *.
  pose proof (crawl_spec sha256 decoded_length claude_dir cfg scope_mappings req view w) as H1.
  pose proof (crawl_table_settles sha256 decoded_length claude_dir cfg scope_mappings req
    files (states w) Ht Hcons) as Hset.
  fold files in H1.
  destruct (crawl_table _ _ _ _ _ req files (states w)) as [[result1 t1] evs1].
  destruct Hset as (Ho1 & Ht1 & Hset & Hkept).
  assert (Hw1 : follows w t1 evs1 w1).
  { apply (H1 (fun _ w' => follows w t1 evs1 w') Habs Hq Ht). done. }
  rewrite <- (follows_states _ _ _ _ Hw1) in Hset, Ht1, Hkept.
  pose proof (crawl_spec sha256 decoded_length claude_dir cfg scope_mappings req' view w1) as H2.
  pose proof (crawl_table_silent sha256 decoded_length claude_dir cfg scope_mappings req'
    files (states w1) Ht1 Hcons Hset) as Hsil.
  fold files in H2.
  destruct (crawl_table _ _ _ _ _ req' files (states w1)) as [[result2 t2] evs2].
  destruct Hsil as (-> & Hsame & Hr & Hd & Hc & Hi).
  { intros pr r Hpr Htr Hrr Hcr Hs.
    rewrite <- Ho1 in Hpr. assert (Hw : walked_paths pr = walked_paths (counts result1))
      by by injection Hpr.
    rewrite Hw. apply Hkept; [|done|done|].
    - by injection Hpr as _ <- _ _.
    - by rewrite <- (affected_outlook cfg scope_mappings pr). }
  assert (Hw2 : again.1 = Ok result2 /\ follows w1 t2 [] again.2).
  { apply (H2 (fun r w' => r = Ok result2 /\ follows w1 t2 [] w')); [done| |done|].
    - by eapply follows_quiet.
    - done. }
  destruct Hw2 as [Hres (Hst & Ha & _)]. split; [by rewrite Ha, app_nil_r|]. split.
  - exists (counts result2). rewrite Hres. destruct result2. simpl in *. by subst.
  - by rewrite Hst.
Qed.

(** ** Scopes *)

Definition prefix_length (mapping : string * string) : Z :=
  Z.of_nat (length (parts (to_path mapping.1))).

(** The scope of a path is that of the mapping with the longest
    prefix among those the path lies below, the first of them when several
    are equally long, and the default scope when there is none. *)
Theorem scope_ref_longest_prefix p mappings :
  let covers m := is_relative_to p (to_path m.1) = true in
  (Forall (fun m => ~ covers m) mappings /\
   _scope_ref_for_path p mappings = DEFAULT_SCOPE_REF) \/
  (exists l1 m l2, mappings = l1 ++ m :: l2 /\ covers m /\
     _scope_ref_for_path p mappings = m.2 /\
     (forall m', m' ∈ l1 -> covers m' -> prefix_length m' < prefix_length m) /\
     (forall m', m' ∈ l2 -> covers m' -> prefix_length m' <= prefix_length m)).
Proof.
  intros covers. unfold _scope_ref_for_path.
  set (best l := fold_left (scope_step p) l (-1, DEFAULT_SCOPE_REF)).
  change (fold_left _ mappings _) with (best mappings).
  cut ((Forall (fun m => ~ covers m) mappings /\ best mappings = (-1, DEFAULT_SCOPE_REF)) \/
    (exists l1 m l2, mappings = l1 ++ m :: l2 /\ covers m /\
       best mappings = (prefix_length m, m.2) /\
       (forall m', m' ∈ l1 -> covers m' -> prefix_length m' < prefix_length m) /\
       (forall m', m' ∈ l2 -> covers m' -> prefix_length m' <= prefix_length m))).
  { intros [[? ->]|(l1 & m & l2 & ? & ? & -> & ?)]; [by left|]. right. by exists l1, m, l2. }
  induction mappings as [|m l IH] using rev_ind; [by left|].
  assert (Hstep : best (l ++ [m]) = scope_step p (best l) m)
    by (unfold best; apply fold_left_app).
  rewrite Hstep. unfold scope_step. fold (prefix_length m).
  destruct (is_relative_to p (to_path m.1)) eqn:Em; simpl.
  - destruct IH as [[Hno ->]|(l1 & b & l2 & -> & Hb & -> & Hl1 & Hl2)]; right.
    + exists l, m, []. unfold prefix_length. rewrite Zltb_T by (simpl; lia).
      split_and!; try done; [|by intros m' ?%not_elem_of_nil].
      intros m' Hm' Hc. rewrite Forall_forall in Hno. by destruct (Hno m' Hm').
    + simpl. destruct (prefix_length b <? prefix_length m) eqn:E; breflect.
      * exists (l1 ++ b :: l2), m, []. split_and!; try done; [|by intros m' ?%not_elem_of_nil].
        intros m' [Hm'|[->|Hm']%elem_of_cons]%elem_of_app Hc; [|done|].
        -- specialize (Hl1 m' Hm' Hc). lia.
        -- specialize (Hl2 m' Hm' Hc). lia.
      * exists l1, b, (l2 ++ [m]). split_and!; try done; [by rewrite <- app_assoc|].
        intros m' [Hm'| ->%list_elem_of_singleton]%elem_of_app Hc; [by apply Hl2|done].
  - destruct IH as [[Hno ->]|(l1 & b & l2 & -> & Hb & -> & Hl1 & Hl2)]; [left|right].
    + split; [|done]. apply Forall_app. split; [done|]. apply Forall_singleton.
      unfold covers. by rewrite Em.
    + exists l1, b, (l2 ++ [m]). split_and!; try done; [by rewrite <- app_assoc|].
      intros m' [Hm'| ->%list_elem_of_singleton]%elem_of_app Hc; [by apply Hl2|].
      unfold covers in Hc. by rewrite Em in Hc.
Qed.

(** ** Examples *)

(** A digest and a decoder to run with. *)
Definition demo_sha256 (bs : bytes) : string := pretty (Z.of_nat (length bs)).
Definition demo_length (bs : bytes) : Z := Z.of_nat (length bs).

Definition demo_config : ModelFilesystemCrawlerConfig :=
  Config ["/repo"] "discovered" "changed" "removed" "indexed" 100 10.

Definition demo_request (at_ : micros) : request := Request "c-1" "omninode" "manual" at_.

Definition demo_file (name : string) (bs : option bytes) : entry :=
  Entry (to_path ("/repo/" +:+ name)) (Some (Stat 10 7)) bs.

Definition demo_view (es : list entry) (prefix : string) : prefix_view :=
  Some (to_path "/repo", es).

Definition gone_row : ModelCrawlStateRecord :=
  StateRecord "/repo/gone.md" FILESYSTEM DEFAULT_SCOPE_REF "3" None 0 None (Some 1).

Definition demo_table : table := {[ key_of gone_row := gone_row ]}.

(** A world whose repository is idle and whose publish callback always
    fails. *)
Definition demo_world : world :=
  World demo_table [] (fun _ => CallEnv (fun t => t) None) 0
    (fun _ => Some (RuntimeError "bus down")).

Definition demo_files : list entry := [demo_file "a.md" (Some [Byte.x61])].

Definition demo_crawl (at_ : micros) (w : world) :=
  crawl demo_sha256 demo_length "/home/u/.claude" demo_config [] (demo_request at_)
    (demo_view demo_files) w.

Lemma demo_absolute : prefixes_absolute demo_config.
Proof. by repeat constructor. Qed.

Lemma demo_quiet : quiet demo_world.
Proof. split; [by intros k|]. by intros n e [= <-]. Qed.

Lemma demo_keyed : well_keyed (states demo_world).
Proof. intros k r Hr. change (demo_table !! k = Some r) in Hr. unfold demo_table in Hr. by apply lookup_singleton_Some in Hr as [<- <-]. Qed.

Lemma crawl_exact_witness :
  exists pr (gone : list ModelCrawlStateRecord), (demo_crawl 5 demo_world).1 = Ok (Result pr (Z.of_nat (length gone))) /\
    truncated pr = false.
Proof.
  destruct (crawl_exact demo_sha256 demo_length "/home/u/.claude" demo_config [] (demo_request 5)
    (demo_view demo_files) demo_world) as (pr & gone & Hr & Htr & _).
  - exact demo_absolute.
  - exact demo_quiet.
  - exact demo_keyed.
  - apply (bool_decide_unpack _). vm_compute. exact I.
  - vm_compute. discriminate.
  - exists pr, gone. split; [exact Hr|exact Htr].
Defined.

(** The new file and the missing one are announced, in vain. *)
Example demo_crawl_attempts :
  (attempts (demo_crawl 5 demo_world).2).*1 = ["discovered"; "indexed"; "removed"] /\
  published (demo_crawl 5 demo_world).2 = [].
Proof. vm_compute. done. Qed.

Lemma crawl_never_repeats_witness :
  let w1 := (demo_crawl 5 demo_world).2 in
  attempts (demo_crawl 6 w1).2 = attempts w1.
Proof.
  destruct (crawl_never_repeats demo_sha256 demo_length "/home/u/.claude" demo_config []
    (demo_request 5) (demo_request 6) (demo_view demo_files) demo_world) as (Ha & _).
  - exact demo_absolute.
  - exact demo_quiet.
  - exact demo_keyed.
  - intros f f' Hf Hf'.
    apply list_elem_of_singleton in Hf as ->. apply list_elem_of_singleton in Hf' as ->. done.
  - exact Ha.
Defined.

(** The counters of a crawl that cannot read its only file: the documented
    identity [files_walked == len(walked_paths) + error_count + ...] fails. *)
Definition unreadable_progress : res progress :=
  (crawl_entries demo_sha256 demo_length "/home/u/.claude" demo_config [] (demo_request 5)
    (to_path "/repo") [demo_file "a.md" None] start demo_world).1.

Example walked_paths_identity_fails :
  exists pr, unreadable_progress = Ok pr /\ files_walked pr = 1 /\
    Z.of_nat (size (walked_paths pr)) + error_count pr = 2 /\ skipped_count pr = 0.
Proof. eexists. split; [reflexivity|]. by vm_compute. Qed.

Lemma crawl_accounts_witness :
  match demo_crawl 5 demo_world with
  | (Ok (Result pr _), _) => indexed_count pr = discovered_count pr + changed_count pr
  | _ => False
  end.
Proof.
  destruct (demo_crawl 5 demo_world) as [[[pr removed]|e] w'] eqn:E.
  - destruct (crawl_accounts demo_sha256 demo_length "/home/u/.claude" demo_config []
      (demo_request 5) (demo_view demo_files) demo_world pr removed w')
      as (k & _ & _ & _ & _ & Hi & _).
    + vm_compute. discriminate.
    + exact E.
    + exact Hi.
  - apply (f_equal (fun p => match p.1 with Ok _ => true | Raise _ => false end)) in E.
    vm_compute in E. discriminate.
Defined.
End HandlerFilesystemCrawler.
