(* ===== verification/ConnPool.v ===== *)
(** * The connection pools

    Models [AsyncConnectionPool] (Module [AsyncPool]) and [ConnectionPool]
    (Module [SimplePool]) of src/src/omnimemory/adapters/adapter_concurrency.py
    as transition systems: a step is what one task does between two suspension
    points. [asyncio.Lock] is fair, and a released lock is handed to the task
    that has waited longest; [asyncio.Queue] is a list with a maximal length;
    both belong to Python's library. *)

From Stdlib Require Import QArith.
From S2P Require Import Prelude.
Open Scope Z_scope.

(** A connection is known by its identity, a task by the [connection_id] its
    call of [acquire] has drawn. *)
Abbreviation conn := nat (only parsing).
Abbreviation task := nat (only parsing).

Inductive PoolStatus : Type := HEALTHY | DEGRADED | EXHAUSTED | FAILED.

(** What the caller's [validate_connection] answers. *)
Inductive verdict : Type :=
  | Valid
  | Invalid
  | CheckRaises (e : exn).

(** How a call of [acquire] ends. *)
Inductive ending : Type :=
  | Exits
  | Raises (e : exn)
  | IsCancelled.

Record ModelConnectionPoolConfig : Type := PoolConfig {
  min_connections : Z;
  max_connections : Z;
}.

Module AsyncPool.
Record PoolMetrics : Type := Metrics {
  failed_connections : Z;
  total_created : Z;
  total_destroyed : Z;
  pool_exhaustions : Z;
  average_wait_time : Q;
}.

(** What a task wants the lock for. *)
Inductive purpose : Type :=
  | ForRoom (current_retry : nat) (connection : option conn)
  | ForRegister (connection : conn)
  | ForReturn (connection : conn) (how : ending).

(** Where a task is suspended. [connection] is the local variable of
    [acquire], which keeps its value from one turn of the loop to the next. *)
Inductive pc : Type :=
  | Trying (current_retry : nat) (connection : option conn)
  | Locking (why : purpose)
  | Creating (current_retry : nat) (connection : option conn)
  | Getting (current_retry : nat) (connection : option conn)
  | Using (connection : conn)
  | Returning (connection : conn) (how : ending)
  | Done (how : ending).

Record pool : Type := Pool {
  _available : list conn;
  _active : gmap task conn;
  _metrics : PoolMetrics;
  _status : PoolStatus;
  (** [_lock]: the task that holds it, or to which it was handed, and the queue *)
  holder : option task;
  waiters : list task;
  pcs : gmap task pc;
  (** the connections the factory made are those below [next]; [closed] lists
      the calls of [close_connection] *)
  next : conn;
  closed : list conn;
}.

Definition new : pool := Pool [] ∅ (Metrics 0 0 0 0 0%Q) HEALTHY None [] ∅ 0%nat [].

(** What a step learns from outside: the verdict on the connection it checks,
    and the time since the task entered [acquire]. *)
Record outside : Type := Outside { check : verdict; wait_time : micros }.

Definition max_retries : nat := 3.

Section ops.
Context (config : ModelConnectionPoolConfig) (closes : conn -> bool).

Definition set_pc (t : task) (p : pc) (s : pool) : pool :=
  Pool (_available s) (_active s) (_metrics s) (_status s) (holder s) (waiters s)
    (<[t := p]> (pcs s)) (next s) (closed s).

Definition set_lock (h : option task) (ws : list task) (s : pool) : pool :=
  Pool (_available s) (_active s) (_metrics s) (_status s) h ws (pcs s) (next s) (closed s).

Definition set_available (av : list conn) (s : pool) : pool :=
  Pool av (_active s) (_metrics s) (_status s) (holder s) (waiters s) (pcs s) (next s) (closed s).

Definition set_active (ac : gmap task conn) (s : pool) : pool :=
  Pool (_available s) ac (_metrics s) (_status s) (holder s) (waiters s) (pcs s) (next s)
    (closed s).

Definition set_metrics (m : PoolMetrics) (s : pool) : pool :=
  Pool (_available s) (_active s) m (_status s) (holder s) (waiters s) (pcs s) (next s) (closed s).

Definition set_status (st : PoolStatus) (s : pool) : pool :=
  Pool (_available s) (_active s) (_metrics s) st (holder s) (waiters s) (pcs s) (next s)
    (closed s).

(** [asyncio.Lock.release]: the lock goes to the first task of its queue. *)
Definition release_lock (s : pool) : pool :=
  match waiters s with
  | [] => set_lock None [] s
  | t :: ws => set_lock (Some t) ws s
  end.

Definition count_failure (s : pool) : pool :=
  let m := _metrics s in
  set_metrics (Metrics (failed_connections m + 1) (total_created m) (total_destroyed m)
    (pool_exhaustions m) (average_wait_time m)) s.

Definition _destroy_connection (c : conn) (s : pool) : pool :=
  let m := _metrics s in
  Pool (_available s) (_active s)
    (if closes c
     then Metrics (failed_connections m) (total_created m) (total_destroyed m + 1)
            (pool_exhaustions m) (average_wait_time m)
     else m)
    (_status s) (holder s) (waiters s) (pcs s) (next s) (closed s ++ [c]).

(** The [finally] clause of [acquire]: the shielded return, a task of its own,
    when there is a connection. *)
Definition finish (t : task) (connection : option conn) (how : ending) (s : pool) : pool :=
  match connection with
  | Some c => set_pc t (Returning c how) s
  | None => set_pc t (Done how) s
  end.

(** The two outer [except] clauses. *)
Definition leave (t : task) (connection : option conn) (how : ending) (s : pool) : pool :=
  finish t connection how
    match how with
    | Raises (TimeoutError _) | Exits | IsCancelled => s
    | Raises _ => count_failure s
    end.

(** The inner [except Exception] clause. *)
Definition fail (t : task) (connection : option conn) (e : exn) (s : pool) : pool :=
  leave t connection (Raises e)
    match connection with Some c => _destroy_connection c s | None => s end.

(** [async with self._lock]: the body at once when nobody has or awaits the
    lock, otherwise at the end of the queue. *)
Definition with_lock (t : task) (why : purpose) (body : pool -> pool)
    (s : pool) : pool :=
  match holder s, waiters s with
  | None, [] => body (set_lock (Some t) [] s)
  | _, _ => set_pc t (Locking why) (set_lock (holder s) (waiters s ++ [t]) s)
  end.

(** Track the connection, under the lock; then the waiting time. *)
Definition register (t : task) (c : conn) (o : outside) (s : pool) : pool :=
  let s := release_lock (set_active (<[t := c]> (_active s)) s) in
  let m := _metrics s in
  let acquisitions := Z.of_nat (size (_active s)) in
  let s :=
    if 0 <? wait_time o
    then set_metrics (Metrics (failed_connections m) (total_created m) (total_destroyed m)
           (pool_exhaustions m)
           ((average_wait_time m * inject_Z (acquisitions - 1) + inject_Z (wait_time o))
              / inject_Z acquisitions)%Q) s
    else s in
  set_pc t (Using c) s.

(** A connection was obtained: validate it, and use it or try again. *)
Definition validated (t : task) (k : nat) (c : conn) (o : outside) (s : pool)
    : pool :=
  match check o with
  | Valid => with_lock t (ForRegister c) (register t c o) s
  | Invalid =>
      let s := _destroy_connection c s in
      if (max_retries <=? k)%nat
      then fail t (Some c) (RuntimeError "Failed to acquire connection after 3 attempts") s
      else set_pc t (Trying (S k) (Some c)) s
  | CheckRaises e => fail t (Some c) e s
  end.

(** The body of the first [async with self._lock]: create, or wait for a
    connection without releasing the lock. *)
Definition find_room (t : task) (k : nat) (connection : option conn) (o : outside)
    (s : pool) : pool :=
  let total_connections := Z.of_nat (size (_active s)) + Z.of_nat (length (_available s)) in
  if total_connections <? max_connections config then set_pc t (Creating k connection) s
  else
    let m := _metrics s in
    let s := set_status EXHAUSTED
      (set_metrics (Metrics (failed_connections m) (total_created m) (total_destroyed m)
         (pool_exhaustions m + 1) (average_wait_time m)) s) in
    match _available s with
    | c :: av => validated t k c o (release_lock (set_available av s))
    | [] => set_pc t (Getting k connection) s
    end.

(** One turn of the loop, from [get_nowait]. *)
Definition try (t : task) (k : nat) (connection : option conn) (o : outside)
    (s : pool) : pool :=
  match _available s with
  | c :: av => validated t k c o (set_available av s)
  | [] => with_lock t (ForRoom k connection) (find_room t k connection o) s
  end.

(** [_create_new_connection] returns a new connection, or raises. *)
Definition created (t : task) (k : nat) (connection : option conn) (result : option exn)
    (o : outside) (s : pool) : pool :=
  match result with
  | None =>
      let m := _metrics s in
      let s := Pool (_available s) (_active s)
        (Metrics (failed_connections m) (total_created m + 1) (total_destroyed m)
           (pool_exhaustions m) (average_wait_time m))
        (_status s) (holder s) (waiters s) (pcs s) (S (next s)) (closed s) in
      validated t k (pred (next s)) o (release_lock s)
  | Some e => fail t connection e (release_lock (count_failure s))
  end.

(** The rest of [_return_connection], from the first instruction under the lock. *)
Definition _return_connection (t : task) (c : conn) (how : ending) (o : outside)
    (s : pool) : pool :=
  let s := release_lock (set_active (delete t (_active s)) s) in
  set_pc t (Done how)
    match check o with
    | Valid =>
        if Z.of_nat (length (_available s)) <? max_connections config
        then set_available (_available s ++ [c]) s
        else _destroy_connection c s
    | Invalid | CheckRaises _ => _destroy_connection c s
    end.

(** What the holder of the lock does when it resumes. *)
Definition granted (t : task) (why : purpose) (o : outside) (s : pool) : pool :=
  match why with
  | ForRoom k connection => find_room t k connection o s
  | ForRegister c => register t c o s
  | ForReturn c how => _return_connection t c how o s
  end.

(** A cancelled task leaves the lock, or its queue. *)
Definition unlock (t : task) (s : pool) : pool :=
  if bool_decide (holder s = Some t) then release_lock s
  else set_lock (holder s) (filter (fun t' => t' <> t) (waiters s)) s.

(** Cancellation, at the await the task is suspended at. The return of a
    connection is shielded: it goes on, and only the caller sees the
    cancellation. *)
Definition cancel (t : task) (p : pc) (s : pool) : pool :=
  match p with
  | Trying _ connection => finish t connection IsCancelled s
  | Locking (ForRoom _ connection) => finish t connection IsCancelled (unlock t s)
  | Locking (ForRegister c) => finish t (Some c) IsCancelled (unlock t s)
  | Locking (ForReturn c _) => set_pc t (Locking (ForReturn c IsCancelled)) s
  | Creating _ connection | Getting _ connection =>
      finish t connection IsCancelled (release_lock s)
  | Using c => finish t (Some c) IsCancelled s
  | Returning c _ => set_pc t (Returning c IsCancelled) s
  | Done _ => s
  end.

Definition _perform_health_check (s : pool) : pool :=
  let total_connections := Z.of_nat (size (_active s)) + Z.of_nat (length (_available s)) in
  set_status
    (if (total_connections =? 0) && (0 <? pool_exhaustions (_metrics s)) then FAILED
     else if Z.of_nat (length (_available s)) <? min_connections config then DEGRADED
     else HEALTHY) s.

(** [close], when [close_connection] does not suspend. *)
Definition close (s : pool) : pool :=
  set_active ∅ (set_available []
    (fold_left (fun s c => _destroy_connection c s)
       ((map_to_list (_active s)).*2 ++ _available s) s)).

Inductive event : Type :=
  | Enter (t : task)
  | Try (t : task) (o : outside)
  | Granted (t : task) (o : outside)
  | Created (t : task) (result : option exn) (o : outside)
  | Got (t : task) (o : outside)
  | TimedOut (t : task)
  | BodyEnds (t : task) (how : ending)
  | Return (t : task) (o : outside)
  | Cancel (t : task)
  | HealthCheck
  | Close.

(** An event that does not fit the state does nothing. *)
Definition step (s : pool) (e : event) : pool :=
  match e with
  | Enter t =>
      match pcs s !! t with None => set_pc t (Trying 0 None) s | Some _ => s end
  | Try t o =>
      match pcs s !! t with Some (Trying k connection) => try t k connection o s | _ => s end
  | Granted t o =>
      match pcs s !! t with
      | Some (Locking why) => if bool_decide (holder s = Some t) then granted t why o s else s
      | _ => s
      end
  | Created t result o =>
      match pcs s !! t with
      | Some (Creating k connection) => created t k connection result o s
      | _ => s
      end
  | Got t o =>
      match pcs s !! t, _available s with
      | Some (Getting k _), c :: av =>
          validated t k c o (release_lock (set_available av s))
      | _, _ => s
      end
  | TimedOut t =>
      match pcs s !! t with
      | Some (Getting _ connection) => fail t connection (TimeoutError "") (release_lock s)
      | _ => s
      end
  | BodyEnds t how =>
      match pcs s !! t with Some (Using c) => leave t (Some c) how s | _ => s end
  | Return t o =>
      match pcs s !! t with
      | Some (Returning c how) =>
          with_lock t (ForReturn c how) (_return_connection t c how o) s
      | _ => s
      end
  | Cancel t => match pcs s !! t with Some p => cancel t p s | None => s end
  | HealthCheck => _perform_health_check s
  | Close => close s
  end.

(** [get_metrics]: the connections in use and idle, and the counters. *)
Definition get_metrics (s : pool) : nat * nat * PoolMetrics :=
  (size (_active s), length (_available s), _metrics s).

Definition reachable (s : pool) : Prop := exists es, s = run step new es.

(** ** Where the connections are *)

(** The connection a task holds, and the one that only its variable still
    names: it was destroyed before the task tried again. *)
Definition own (p : pc) : option conn :=
  match p with
  | Trying _ connection | Locking (ForRoom _ connection)
  | Creating _ connection | Getting _ connection => connection
  | Locking (ForRegister c) | Locking (ForReturn c _) | Using c | Returning c _ => Some c
  | Done _ => None
  end.

Definition stale (p : pc) : option conn :=
  match p with
  | Trying _ connection | Locking (ForRoom _ connection)
  | Creating _ connection | Getting _ connection => connection
  | _ => None
  end.

Definition owns (s : pool) (t : task) : option conn := pcs s !! t ≫= own.

(** Every connection made is idle, or with a task, or was closed; none is in
    two places, and the idle ones fit in the queue. *)
Record conserved (s : pool) : Prop := Conserved {
  c_nodup : NoDup (_available s);
  c_one : forall t t' c, owns s t = Some c -> owns s t' = Some c -> t = t';
  c_apart : forall t c, owns s t = Some c -> c ∉ _available s;
  c_idle : forall c, c ∈ _available s -> (c < next s)%nat;
  c_lent : forall t c, owns s t = Some c -> (c < next s)%nat;
  c_total : forall c, (c < next s)%nat ->
    c ∈ _available s \/ (exists t, owns s t = Some c) \/ c ∈ closed s;
  c_stale : forall t p c, pcs s !! t = Some p -> stale p = Some c -> c ∈ closed s;
  c_room : Z.of_nat (length (_available s)) <= max_connections config;
}.

(** What a step can do to the connections: the task [t] keeps what it holds,
    or drops a closed connection; takes the first idle one; takes a new one;
    or puts its own back. *)
Inductive moves (s : pool) (t : task) (p : pc) (s' : pool) : Prop :=
  | Keeps : _available s' = _available s -> next s' = next s ->
      own p = owns s t -> moves s t p s'
  | Drops c : _available s' = _available s -> next s' = next s ->
      own p = None -> owns s t = Some c -> c ∈ closed s' -> moves s t p s'
  | Takes c : _available s = c :: _available s' -> next s' = next s ->
      own p = Some c -> (forall x, owns s t = Some x -> x ∈ closed s) -> moves s t p s'
  | Makes : _available s' = _available s -> next s' = S (next s) ->
      own p = Some (next s) -> (forall x, owns s t = Some x -> x ∈ closed s) -> moves s t p s'
  | Puts c : _available s' = _available s ++ [c] -> next s' = next s ->
      own p = None -> owns s t = Some c ->
      Z.of_nat (length (_available s)) < max_connections config -> moves s t p s'.

Definition turn (s : pool) (t : task) (s' : pool) : Prop :=
  exists p, pcs s' = <[t := p]> (pcs s) /\ closed s ⊆ closed s' /\
    (forall c, stale p = Some c -> c ∈ closed s') /\ moves s t p s'.

Lemma owns_insert s s' t p t' :
  pcs s' = <[t := p]> (pcs s) ->
  owns s' t' = if decide (t = t') then own p else owns s t'.
Proof.
  intros E. unfold owns. rewrite E, lookup_insert. by case_decide.
Qed.

Lemma turn_conserved s t s' : conserved s -> turn s t s' -> conserved s'.
Proof.
  clear closes.
  intros [Hnd Hone Hap Hid Hle Hto Hst Hro] (p & Ep & Hcl & Hp & Hm).
  assert (Ho := fun t' => owns_insert s s' t p t' Ep).
  assert (Hst' : forall t' p' c, pcs s' !! t' = Some p' -> stale p' = Some c -> c ∈ closed s').
  { intros t' p' c. rewrite Ep, lookup_insert. case_decide; [naive_solver|eauto]. }
  destruct Hm as [Ea En Eo|c Ea En Eo Ec Hc|c Ea En Eo Hx|Ea En Eo Hx|c Ea En Eo Ec Hr].
  - assert (Ho' : forall t', owns s' t' = owns s t').
    { intros t'. rewrite Ho. case_decide; congruence. }
    split; rewrite ?Ea, ?En; try done; intros *; rewrite ?Ho'; eauto.
    intros [?|[[t' ?]|?]]%Hto; [by left| |right; right; auto].
    right; left. exists t'. by rewrite Ho'.
  - split; rewrite ?Ea, ?En; try done.
    + intros t1 t2 c'. rewrite !Ho. repeat case_decide; try congruence. eauto.
    + intros t1 c'. rewrite Ho. case_decide; [congruence|eauto].
    + intros t1 c'. rewrite Ho. case_decide; [congruence|eauto].
    + intros c' [?|[[t' Ht']|?]]%Hto; [by left| |right; right; auto].
      destruct (decide (t = t')) as [->|Hne]; [right; right; congruence|].
      right; left. exists t'. rewrite Ho. by case_decide.
  - rewrite Ea in *. apply NoDup_cons in Hnd as [Hni Hnd]. split; rewrite ?En; try done.
    + intros t1 t2 c'. rewrite !Ho. repeat case_decide; try congruence.
      * intros ? Ht2. destruct (Hap _ _ Ht2). apply elem_of_cons. left. congruence.
      * intros Ht1 ?. destruct (Hap _ _ Ht1). apply elem_of_cons. left. congruence.
      * eauto.
    + intros t1 c'. rewrite Ho. case_decide; [congruence|].
      intros Ht1 ?. eapply (Hap _ _ Ht1). by right.
    + intros c' ?. apply Hid. by right.
    + intros t1 c'. rewrite Ho. case_decide; [|eauto].
      intros ?. apply Hid, elem_of_cons. left. congruence.
    + intros c' [Hin|[[t' Ht']|?]]%Hto; [| |right; right; auto].
      * apply elem_of_cons in Hin as [->|?]; [|by left].
        right; left. exists t. rewrite Ho. by case_decide.
      * destruct (decide (t = t')) as [->|Hne]; [right; right; eauto|].
        right; left. exists t'. rewrite Ho. by case_decide.
    + simpl in Hro. lia.
  - split; rewrite ?Ea, ?En; try done.
    + intros t1 t2 c'. rewrite !Ho. repeat case_decide; try congruence; [| |eauto].
      * intros ? ?%Hle. assert (c' = next s) by congruence. lia.
      * intros ?%Hle ?. assert (c' = next s) by congruence. lia.
    + intros t1 c'. rewrite Ho. case_decide; [|eauto].
      intros ? ?%Hid. assert (c' = next s) by congruence. lia.
    + intros c' ?%Hid. lia.
    + intros t1 c'. rewrite Ho. case_decide; [|intros ?%Hle; lia].
      intros ?. assert (c' = next s) by congruence. lia.
    + intros c' Hlt. destruct (decide (c' = next s)) as [->|Hne].
      { right; left. exists t. rewrite Ho. by case_decide. }
      destruct (Hto c') as [?|[[t' Ht']|?]]; [lia|by left| |right; right; auto].
      destruct (decide (t = t')) as [->|Hne']; [right; right; eauto|].
      right; left. exists t'. rewrite Ho. by case_decide.
  - split; rewrite ?Ea, ?En; try done.
    + apply NoDup_app. split_and!; [done| |apply NoDup_singleton].
      intros x Hx ->%list_elem_of_singleton. by eapply Hap.
    + intros t1 t2 c'. rewrite !Ho. repeat case_decide; try congruence. eauto.
    + intros t1 c'. rewrite Ho. case_decide as Ht1; [congruence|].
      intros Hc' [?| ->%list_elem_of_singleton]%elem_of_app; [by eapply Hap|].
      destruct Ht1. eauto.
    + intros c' [?| ->%list_elem_of_singleton]%elem_of_app; eauto.
    + intros t1 c'. rewrite Ho. case_decide; [congruence|eauto].
    + intros c' [?|[[t' Ht']|?]]%Hto; [left; apply elem_of_app; by left| |right; right; auto].
      destruct (decide (t = t')) as [->|Hne].
      { left. apply elem_of_app. right. apply list_elem_of_singleton. congruence. }
      right; left. exists t'. rewrite Ho. by case_decide.
    + rewrite length_app. simpl. lia.
Qed.

(** States that differ in the lock, the bookkeeping and what was closed. *)
Definition same_place (s s' : pool) : Prop :=
  pcs s' = pcs s /\ _available s' = _available s /\ next s' = next s /\ closed s ⊆ closed s'.

(** The task [t] moves on, holding [held]; nothing else moves. *)
Definition settles (s : pool) (t : task) (held : option conn) (s' : pool) : Prop :=
  exists p, own p = held /\ pcs s' = <[t := p]> (pcs s) /\ _available s' = _available s /\
    next s' = next s /\ closed s ⊆ closed s' /\ (forall c, stale p = Some c -> c ∈ closed s').

Lemma same_place_refl s : same_place s s.
Proof. done. Qed.

Lemma same_place_release s : same_place s (release_lock s).
Proof. unfold release_lock. by destruct (waiters s). Qed.

Lemma same_place_unlock t s : same_place s (unlock t s).
Proof. unfold unlock. case_bool_decide; [apply same_place_release|done]. Qed.

Lemma same_place_destroy c s : same_place s (_destroy_connection c s).
Proof. split_and!; try done. simpl. apply list_subseteq_app_l. done. Qed.

Lemma same_place_trans s1 s2 s3 : same_place s1 s2 -> same_place s2 s3 -> same_place s1 s3.
Proof.
  intros (? & ? & ? & ?) (? & ? & ? & ?). unfold same_place. split_and!; try congruence.
  by etrans.
Qed.

Lemma settles_from s s1 t held s' : same_place s s1 -> settles s1 t held s' -> settles s t held s'.
Proof.
  intros (Ep & Ea & En & Ec) (p & Ho & ? & ? & ? & ? & ?). exists p.
  split_and!; try done; try congruence. by etrans.
Qed.

Lemma settles_set_pc s s1 t p held :
  same_place s s1 -> own p = held -> (forall c, stale p = Some c -> c ∈ closed s1) ->
  settles s t held (set_pc t p s1).
Proof.
  intros (? & ? & ? & ?) ? ?. exists p. split_and!; simpl; try done. congruence.
Qed.

Lemma finish_settles s t held how : settles s t held (finish t held how s).
Proof. unfold finish. destruct held as [c|]; by apply settles_set_pc. Qed.

Lemma leave_settles s t held how : settles s t held (leave t held how s).
Proof.
  unfold leave. destruct how as [|[]|]; try apply finish_settles;
    (eapply settles_from; [|apply finish_settles]; done).
Qed.

Lemma fail_settles s t held e : settles s t held (fail t held e s).
Proof.
  unfold fail. destruct held as [c|]; [|apply leave_settles].
  eapply settles_from; [apply same_place_destroy|apply leave_settles].
Qed.

Lemma with_lock_settles s t why body held :
  own (Locking why) = held -> (forall c, stale (Locking why) = Some c -> c ∈ closed s) ->
  (forall s1, same_place s s1 -> settles s1 t held (body s1)) ->
  settles s t held (with_lock t why body s).
Proof.
  intros Ho Hs Hb. unfold with_lock.
  destruct (holder s), (waiters s); try by apply settles_set_pc.
  eapply settles_from; [|apply Hb]; done.
Qed.

Lemma register_settles s t c o : settles s t (Some c) (register t c o s).
Proof.
  apply settles_set_pc; [|done|done]. cbn zeta.
  set (s1 := release_lock _).
  assert (Hs1 : same_place s s1).
  { eapply same_place_trans; [|apply same_place_release]. done. }
  by case_match.
Qed.

Lemma validated_settles s t k c o : settles s t (Some c) (validated t k c o s).
Proof.
  unfold validated. destruct (check o) as [| |e].
  - apply with_lock_settles; [done|done|]. intros s1 _. apply register_settles.
  - eapply settles_from; [apply same_place_destroy|].
    destruct (max_retries <=? k)%nat; [apply fail_settles|].
    apply settles_set_pc; [done|done|]. simpl. intros ? [= ->].
    apply elem_of_app. right. by apply list_elem_of_singleton.
  - apply fail_settles.
Qed.

(** ** Every step conserves the connections *)

Lemma settles_keeps s t s' : settles s t (owns s t) s' -> turn s t s'.
Proof. intros (p & ? & ? & ? & ? & ? & ?). exists p. split_and!; eauto using Keeps. Qed.

Lemma settles_takes s t c s1 s' :
  _available s = c :: _available s1 -> pcs s1 = pcs s -> next s1 = next s -> closed s1 = closed s ->
  (forall x, owns s t = Some x -> x ∈ closed s) ->
  settles s1 t (Some c) s' -> turn s t s'.
Proof.
  intros Ea Ep En Ec Hx (p & Ho & ? & ? & ? & ? & ?). exists p.
  split_and!; try done; [congruence|by rewrite <- Ec|].
  eapply Takes; try done; congruence.
Qed.

(** What the variable of a task about to look for a connection names is
    closed. *)
Definition spent (s : pool) (t : task) (held : option conn) : Prop :=
  owns s t = held /\ (forall c, held = Some c -> c ∈ closed s).

Lemma find_room_turn s s1 t k held o :
  spent s t held -> same_place s s1 -> closed s1 = closed s -> turn s t (find_room t k held o s1).
Proof.
  intros [Ho Hs] (Ep & Ea & En & _) Ec.
  unfold find_room. cbn zeta. case_match.
  { apply settles_keeps. rewrite Ho. apply settles_set_pc; [|done|].
    - split_and!; try done. by rewrite Ec.
    - simpl. intros c ?. rewrite Ec. eauto. }
  simpl. destruct (_available s1) as [|c av] eqn:Eav.
  { apply settles_keeps. rewrite Ho. apply settles_set_pc; [|done|].
    - split_and!; simpl; try done; [congruence|by rewrite Ec].
    - simpl. intros c ?. rewrite Ec. eauto. }
  apply (settles_takes s t c (set_available av s)); [simpl; congruence|done|done|done| |].
  { intros x Hx. apply Hs. congruence. }
  eapply settles_from; [|apply validated_settles].
  eapply same_place_trans; [|apply same_place_release]. split_and!; simpl; try done.
  by rewrite Ec.
Qed.

Lemma try_turn s t k held o : spent s t held -> turn s t (try t k held o s).
Proof.
  intros Hsp. unfold try. destruct (_available s) as [|c av] eqn:Eav.
  - unfold with_lock. destruct Hsp as [Ho Hs].
    destruct (holder s), (waiters s);
      try (apply settles_keeps; rewrite Ho; by apply settles_set_pc).
    by apply find_room_turn.
  - apply (settles_takes s t c (set_available av s)); [done..| |apply validated_settles].
    destruct Hsp. naive_solver.
Qed.

Lemma created_turn s t k held result o :
  spent s t held -> turn s t (created t k held result o s).
Proof.
  intros [Ho Hs]. unfold created. destruct result as [e|].
  { apply settles_keeps. rewrite Ho. eapply settles_from; [|apply fail_settles].
    eapply same_place_trans; [|apply same_place_release]. done. }
  cbn zeta. set (s1 := Pool _ _ _ _ _ _ _ _ _). simpl.
  destruct (settles_from s1 (release_lock s1) t (Some (next s)) _
    (same_place_release s1) (validated_settles _ t k (next s) o))
    as (p & Hp & E1 & E2 & E3 & E4 & E5).
  exists p. split_and!; try done. apply Makes; try done. naive_solver.
Qed.

Lemma return_turn s s1 t c how o :
  owns s t = Some c -> same_place s s1 -> turn s t (_return_connection t c how o s1).
Proof.
  intros Ho Hp. unfold _return_connection. cbn zeta.
  set (s2 := release_lock _).
  assert (Hs2 : same_place s s2).
  { eapply same_place_trans; [|apply same_place_release]. done. }
  destruct Hs2 as (E1 & E2 & E3 & E4).
  assert (Hdrop : turn s t (set_pc t (Done how) (_destroy_connection c s2))).
  { exists (Done how). split_and!; simpl; try done; [congruence|set_solver|].
    eapply Drops; simpl; try done. set_solver. }
  destruct (check o); [|exact Hdrop..].
  destruct (_ <? _) eqn:Elt; [|exact Hdrop]. breflect.
  exists (Done how). split_and!; simpl; try done; [congruence|].
  eapply Puts; simpl; try done; congruence.
Qed.

Lemma spent_intro s t p :
  conserved s -> pcs s !! t = Some p -> stale p = own p -> spent s t (own p).
Proof.
  intros Hc Hp Hso. split; [unfold owns; by rewrite Hp|].
  intros c Ho. eapply c_stale; [done..|congruence].
Qed.

Lemma cancel_turn s t p :
  conserved s -> pcs s !! t = Some p -> cancel t p s = s \/ turn s t (cancel t p s).
Proof.
  intros Hc Hp. assert (Ho : owns s t = own p) by (unfold owns; by rewrite Hp).
  destruct p as [k held|[k held|c|c how]|k held|k held|c|c how|how]; simpl in *;
    [right..|by left]; apply settles_keeps; rewrite Ho;
    first
      [ by apply settles_set_pc
      | apply settles_set_pc; [apply same_place_unlock|done..]
      | apply finish_settles
      | eapply settles_from; [|apply finish_settles];
        first [apply same_place_unlock | apply same_place_release] ].
Qed.
Lemma destroy_all cs s :
  let s' := fold_left (fun s c => _destroy_connection c s) cs s in
  pcs s' = pcs s /\ next s' = next s /\ closed s' = closed s ++ cs.
Proof.
  revert s. induction cs as [|c cs IH]; intros s; simpl; [by rewrite app_nil_r|].
  destruct (IH (_destroy_connection c s)) as (-> & -> & ->). simpl.
  by rewrite <- app_assoc.
Qed.

(** The task an event is a step of. *)
Definition actor (e : event) : option task :=
  match e with
  | Enter t | Try t _ | Granted t _ | Created t _ _ | Got t _ | TimedOut t | BodyEnds t _
  | Return t _ | Cancel t => Some t
  | HealthCheck | Close => None
  end.

Lemma step_turn s e t :
  conserved s -> actor e = Some t -> step s e = s \/ turn s t (step s e).
Proof.
  intros Hc Ha.
  assert (Hsp : forall p, pcs s !! t = Some p -> stale p = own p -> spent s t (own p))
    by eauto using spent_intro.
  destruct e; simpl in *; try done; injection Ha as ->;
    (destruct (pcs s !! t) as [p|] eqn:E;
     [assert (Ho : owns s t = own p) by (unfold owns; by rewrite E); destruct p|]);
    try (by left).
  - right. apply settles_keeps, settles_set_pc; try done. unfold owns. by rewrite E.
  - right. apply try_turn, (Hsp _ eq_refl eq_refl).
  - case_bool_decide; [right|by left]. destruct why as [k held|c|c how]; simpl.
    + apply find_room_turn; [|done..]. apply (Hsp _ eq_refl eq_refl).
    + apply settles_keeps. rewrite Ho. apply register_settles.
    + by apply return_turn.
  - right. apply created_turn, (Hsp _ eq_refl eq_refl).
  - destruct (_available s) as [|c av] eqn:Eav; [by left|right].
    destruct (Hsp _ eq_refl eq_refl) as [_ Hs].
    apply (settles_takes s t c (set_available av s)); [done..| |].
    { intros x ?. apply Hs. simpl in *. congruence. }
    eapply settles_from; [apply same_place_release|apply validated_settles].
  - right. apply settles_keeps. rewrite Ho.
    eapply settles_from; [apply same_place_release|apply fail_settles].
  - right. apply settles_keeps. rewrite Ho. apply (leave_settles s t (Some connection) how).
  - right. unfold with_lock. destruct (holder s), (waiters s);
      try (apply settles_keeps; rewrite Ho; by apply settles_set_pc).
    by apply return_turn.
  - destruct (cancel_turn s t _ Hc E) as [->|Ht]; auto.
  - destruct (cancel_turn s t _ Hc E) as [->|Ht]; auto.
  - destruct (cancel_turn s t _ Hc E) as [->|Ht]; auto.
  - destruct (cancel_turn s t _ Hc E) as [->|Ht]; auto.
  - destruct (cancel_turn s t _ Hc E) as [->|Ht]; auto.
  - destruct (cancel_turn s t _ Hc E) as [->|Ht]; auto.
Qed.

Lemma step_conserved s e : 0 <= max_connections config -> conserved s -> conserved (step s e).
Proof.
  intros Hmax Hc. destruct (actor e) as [t|] eqn:Ha.
  { destruct (step_turn s e t Hc Ha) as [->|Ht]; [done|]. by apply (turn_conserved s t). }
  destruct Hc as [Hnd Hone Hap Hid Hle Hto Hst Hro]. destruct e; try done; simpl.
  unfold close. destruct (destroy_all ((map_to_list (_active s)).*2 ++ _available s) s)
    as (Ep & En & Ec).
  split; simpl; rewrite ?En, ?Ec; unfold owns in *; simpl; rewrite ?Ep; try done.
  - constructor.
  - intros t c _ ?%not_elem_of_nil. done.
  - intros c ?%not_elem_of_nil. done.
  - intros c Hlt. rewrite !elem_of_app. specialize (Hto c Hlt). tauto.
  - intros t p c ? ?. rewrite elem_of_app. left. eauto.
Qed.

Lemma new_conserved : 0 <= max_connections config -> conserved new.
Proof.
  intros Hmax. split; unfold owns; simpl; try done.
  - constructor.
  - set_solver.
  - lia.
Qed.

Lemma reachable_conserved s : 0 <= max_connections config -> reachable s -> conserved s.
Proof.
  intros Hmax [es ->]. apply (run_invariant _ conserved (fun _ => True)).
  - intros s' e ? _. by apply step_conserved.
  - by apply new_conserved.
  - by apply Forall_true.
Qed.

(** C18: a connection is never lent to two tasks at once, nor idle
    while a task has it; idle connections never exceed the configured maximum;
    and no connection is lost: each one the factory made is idle, or with
    exactly one task, or was given to [close_connection]. This holds after
    every interleaving of acquisitions, failures, timeouts, cancellations,
    returns and closes. *)
Theorem connections_conserved (s : pool) :
  0 <= max_connections config -> reachable s ->
  NoDup (_available s) /\
  Z.of_nat (length (_available s)) <= max_connections config /\
  (forall t t' c, owns s t = Some c -> owns s t' = Some c -> t = t') /\
  (forall t c, owns s t = Some c -> c ∉ _available s) /\
  (forall c, (c < next s)%nat <->
     c ∈ _available s \/ (exists t, owns s t = Some c) \/ (c ∈ closed s /\ c < next s)%nat).
Proof.
  intros Hmax Hr. destruct (reachable_conserved s Hmax Hr). split_and!; try done.
  intros c. split; [|naive_solver]. intros Hlt. destruct (c_total0 c Hlt) as [?|[?|?]]; auto.
Qed.

(** ** The lock *)

(** A task that creates or awaits a connection holds the lock, and awaits one
    only while none is idle. *)
Definition inside (s : pool) (t : task) (p : pc) : Prop :=
  match p with
  | Creating _ _ => holder s = Some t
  | Getting _ _ => holder s = Some t /\ _available s = []
  | _ => True
  end.

Definition locked (s : pool) : Prop := forall t p, pcs s !! t = Some p -> inside s t p.

Definition calm (p : pc) : bool :=
  match p with Creating _ _ | Getting _ _ => false | _ => true end.

(** What a step of another task leaves to the holder [h] of the lock. *)
Record kept (h : task) (s s' : pool) : Prop := Kept {
  k_holder : holder s' = holder s;
  k_pc : pcs s' !! h = pcs s !! h;
  k_idle : _available s = [] -> _available s' = [];
  k_active : _active s' = _active s;
  k_using : forall t c, pcs s' !! t = Some (Using c) -> pcs s !! t = Some (Using c);
}.
Lemma kept_refl h s : kept h s s.
Proof. by split. Qed.

Lemma kept_trans h s1 s2 s3 : kept h s1 s2 -> kept h s2 s3 -> kept h s1 s3.
Proof. intros [] []. split; try congruence; eauto. Qed.

Lemma kept_set_pc h s t p :
  t <> h -> (forall c, p <> Using c) -> kept h s (set_pc t p s).
Proof.
  intros Ht Hp. split; simpl; try done.
  - by rewrite lookup_insert_ne.
  - intros t' c. rewrite lookup_insert. case_decide; [|done]. intros [= ?]. by destruct (Hp c).
Qed.

Lemma kept_finish h s t held how : t <> h -> kept h s (finish t held how s).
Proof. intros ?. unfold finish. case_match; by apply kept_set_pc. Qed.

Lemma kept_leave h s t held how : t <> h -> kept h s (leave t held how s).
Proof.
  intros ?. eapply kept_trans; [|by apply kept_finish]. repeat case_match; by split.
Qed.

Lemma kept_fail h s t held e : t <> h -> kept h s (fail t held e s).
Proof.
  intros ?. eapply kept_trans; [|by apply kept_leave]. case_match; by split.
Qed.

Lemma kept_with_lock h s t why body :
  holder s = Some h -> t <> h -> kept h s (with_lock t why body s).
Proof.
  intros Hh Ht. unfold with_lock. rewrite Hh.
  eapply kept_trans; [|by apply kept_set_pc]. by split.
Qed.

Lemma kept_validated h s t k c o :
  holder s = Some h -> t <> h -> kept h s (validated t k c o s).
Proof.
  intros Hh Ht. unfold validated. destruct (check o); [by apply kept_with_lock| |by apply kept_fail].
  eapply kept_trans; [|case_match; [by apply kept_fail|by apply kept_set_pc]]. by split.
Qed.

Lemma kept_unlock h s t : holder s = Some h -> t <> h -> kept h s (unlock t s).
Proof. intros Hh Ht. unfold unlock. rewrite Hh, bool_decide_false by congruence. by split. Qed.

Lemma kept_step h s e :
  locked s -> holder s = Some h -> actor e <> Some h -> e <> Close -> kept h s (step s e).
Proof.
  intros Hl Hh Ha He.
  destruct e as [t|t o|t o|t result o|t o|t|t how|t o|t| |]; simpl in *; try done;
    try (assert (Ht : t <> h) by congruence; destruct (pcs s !! t) as [p|] eqn:E;
         [pose proof (Hl t p E) as Hin; destruct p; try done; simpl in Hin|]; try done;
         try (exfalso; naive_solver congruence)).
  - by apply kept_set_pc.
  - unfold try. destruct (_available s) as [|c av] eqn:Eav; [by apply kept_with_lock|].
    eapply kept_trans; [|by apply kept_validated]. split; simpl; try done. congruence.
  - rewrite bool_decide_false by congruence. done.
  - exact (kept_leave h s t (Some connection) how Ht).
  - by apply kept_with_lock.
  - by apply kept_finish.
  - destruct why as [k held|c|c how]; simpl.
    + eapply kept_trans; [|by apply kept_finish]. by apply kept_unlock.
    + eapply kept_trans; [|by apply kept_set_pc]. by apply kept_unlock.
    + by apply kept_set_pc.
  - by apply kept_set_pc.
  - by apply kept_set_pc.
Qed.

(** The acting task itself. *)
Definition calm_at (t : task) (s : pool) : Prop :=
  exists p, pcs s !! t = Some p /\ calm p = true.

Lemma calm_inside t s : calm_at t s -> forall p, pcs s !! t = Some p -> inside s t p.
Proof. intros (p & Hp & Hc) p' Hp'. rewrite Hp in Hp'. injection Hp' as <-. by destruct p. Qed.

Lemma calm_set_pc t p s : calm p = true -> calm_at t (set_pc t p s).
Proof. intros ?. exists p. split; [|done]. apply lookup_insert_eq. Qed.

Lemma calm_finish t held how s : calm_at t (finish t held how s).
Proof. unfold finish. case_match; by apply calm_set_pc. Qed.

Lemma calm_fail t held e s : calm_at t (fail t held e s).
Proof. apply calm_finish. Qed.

Lemma calm_with_lock t why body s :
  (forall s, calm_at t (body s)) -> calm_at t (with_lock t why body s).
Proof. intros ?. unfold with_lock. destruct (holder s), (waiters s); auto; by apply calm_set_pc. Qed.

Lemma calm_register t c o s : calm_at t (register t c o s).
Proof. by apply calm_set_pc. Qed.

Lemma calm_return t c how o s : calm_at t (_return_connection t c how o s).
Proof. by apply calm_set_pc. Qed.

Lemma calm_validated t k c o s : calm_at t (validated t k c o s).
Proof.
  unfold validated. destruct (check o); [|case_match|]; auto using calm_fail, calm_set_pc.
  apply calm_with_lock. intros ?. apply calm_register.
Qed.

Lemma find_room_inside t k held o s p :
  holder s = Some t -> pcs (find_room t k held o s) !! t = Some p ->
  inside (find_room t k held o s) t p.
Proof.
  intros Hh. unfold find_room. cbn zeta. case_match.
  { simpl. rewrite lookup_insert_eq. intros [= <-]. done. }
  simpl. destruct (_available s) eqn:Eav; [|apply calm_inside, calm_validated].
  simpl. rewrite lookup_insert_eq. intros [= <-]. done.
Qed.
Lemma actor_inside s e t p :
  locked s -> actor e = Some t -> pcs (step s e) !! t = Some p -> inside (step s e) t p.
Proof.
  intros Hl Ha. destruct e; simpl in *; try done; injection Ha as ->;
    (destruct (pcs s !! t) as [q|] eqn:E; [destruct q|]; try (by apply Hl));
    try (by apply calm_inside, calm_set_pc).
  - unfold try. destruct (_available s) as [|c av]; [|apply calm_inside, calm_validated].
    unfold with_lock. destruct (holder s), (waiters s); try (by apply calm_inside, calm_set_pc).
    by apply find_room_inside.
  - case_bool_decide; [|by apply Hl]. destruct why; [by apply find_room_inside| |].
    + apply calm_inside, calm_register.
    + apply calm_inside, calm_return.
  - apply calm_inside. unfold created. destruct result; [apply calm_fail|apply calm_validated].
  - destruct (_available s); [by apply Hl|apply calm_inside, calm_validated].
  - apply calm_inside, calm_fail.
  - apply calm_inside, calm_with_lock. intros ?. apply calm_return.
  - apply calm_inside, calm_finish.
  - apply calm_inside. destruct why; [apply calm_finish|apply (calm_finish t (Some _))|by apply calm_set_pc].
  - apply calm_inside, calm_finish.
  - apply calm_inside, calm_finish.
Qed.

Lemma close_keeps s :
  pcs (close s) = pcs s /\ holder (close s) = holder s /\ _available (close s) = [].
Proof.
  unfold close. simpl. generalize ((map_to_list (_active s)).*2 ++ _available s) as cs.
  intros cs. destruct (destroy_all cs s) as [-> _]. split_and!; [done| |done].
  clear. revert s. induction cs as [|c cs IH]; intros s; [done|]. simpl. by rewrite IH.
Qed.

Lemma step_locked s e : conserved s -> locked s -> locked (step s e).
Proof.
  intros Hc Hl t p Hp. destruct (decide (actor e = Some t)) as [Ha|Ha]; [by apply actor_inside|].
  destruct (actor e) as [t'|] eqn:Ha'.
  - assert (E : pcs (step s e) !! t = pcs s !! t).
    { destruct (step_turn s e t' Hc Ha') as [->|(q & -> & _)]; [done|].
      rewrite lookup_insert_ne by congruence. done. }
    rewrite E in Hp. pose proof (Hl t p Hp) as Hin.
    destruct (decide (holder s = Some t)) as [Hh|Hh]; [|destruct p; try done; naive_solver].
    destruct (kept_step t s e Hl Hh) as [Eh _ Ei _ _]; [congruence|by intros ->|].
    destruct p; simpl in *; rewrite ?Eh; naive_solver.
  - destruct e; try done.
    + by apply (Hl t).
    + change (step s Close) with (close s) in *. destruct (close_keeps s) as (Ep & Eh & Ea). rewrite Ep in Hp.
      pose proof (Hl t p Hp). destruct p; simpl in *; rewrite ?Eh; naive_solver.
Qed.

Lemma reachable_locked s : 0 <= max_connections config -> reachable s -> locked s.
Proof.
  intros Hmax [es ->].
  apply (run_invariant _ (fun s => conserved s /\ locked s) (fun _ => True)).
  - intros s e [? ?] _. split; [by apply step_conserved|by apply step_locked].
  - split; [by apply new_conserved|]. intros t p ?. done.
  - by apply Forall_true.
Qed.

(** The events that are not the end of the wait of [h], nor a close. *)
Definition leaves_waiting (h : task) (e : event) : Prop :=
  e <> TimedOut h /\ e <> Cancel h /\ e <> Close.

Lemma step_frozen s e h k held :
  locked s -> pcs s !! h = Some (Getting k held) -> leaves_waiting h e ->
  step s e = s \/ kept h s (step s e).
Proof.
  intros Hl Hh (H1 & H2 & H3). destruct (Hl h _ Hh) as [Ho Ea].
  destruct (decide (actor e = Some h)) as [Ha|Ha]; [left|right; by apply kept_step].
  destruct e; simpl in *; try done; injection Ha as ->; rewrite Hh; try done. by rewrite Ea.
Qed.

(** A task that found the pool exhausted waits for a connection
    while it holds the lock that every return, every creation and every
    registration needs. So until its wait times out or is cancelled (or the
    pool is closed), whatever the other tasks do, connections returned to the
    pool included: no connection becomes available, the set of connections
    recorded as active does not change, and no task starts using one. The
    wait of an exhausted pool is always in vain. *)
Theorem exhausted_pool_frozen (s : pool) (h : task) (k : nat) (held : option conn)
    (es : list event) :
  0 <= max_connections config -> reachable s -> pcs s !! h = Some (Getting k held) ->
  Forall (leaves_waiting h) es ->
  let s' := run step s es in
  pcs s' !! h = Some (Getting k held) /\ _available s' = [] /\ _active s' = _active s /\
  (forall t c, pcs s' !! t = Some (Using c) -> pcs s !! t = Some (Using c)).
Proof.
  intros Hmax Hr Hh Hes s'.
  assert (Hc := reachable_conserved s Hmax Hr). assert (Hl := reachable_locked s Hmax Hr).
  cut (conserved s' /\ locked s' /\ kept h s s').
  { intros (_ & _ & [Eh Ep Ea Eac Eu]). split_and!; [congruence| |done|done].
    apply Ea. by apply (Hl h _ Hh). }
  apply (run_invariant step (fun s' => conserved s' /\ locked s' /\ kept h s s')
           (leaves_waiting h)); [|split_and!; [done..|apply kept_refl]|done].
  intros s1 e (Hc1 & Hl1 & Hk1) He. split_and!; [by apply step_conserved|by apply step_locked|].
  assert (Hh1 : pcs s1 !! h = Some (Getting k held)) by (rewrite (k_pc _ _ _ Hk1); done).
  destruct (step_frozen s1 e h k held Hl1 Hh1 He) as [->|]; [done|by eapply kept_trans].
Qed.
(** ** A use without contention *)

Definition fine (wait : micros) : outside := Outside Valid wait.

(** When nobody has the lock, a call of [acquire] whose
    connection passes its checks takes the connection idle for longest, holds
    it in [_active] during the body, however that ends, and gives it back: it
    ends up last among the idle ones, and the active connections, the lock
    and the closed connections are as before. *)
Theorem acquire_release (s : pool) (t : task) (c : conn) (av : list conn) (how : ending)
    (wait wait' : micros) :
  Z.of_nat (length (_available s)) <= max_connections config ->
  holder s = None -> waiters s = [] -> pcs s !! t = None -> _active s !! t = None ->
  _available s = c :: av ->
  let s1 := run step s [Enter t; Try t (fine wait)] in
  let s2 := run step s1 [BodyEnds t how; Return t (fine wait')] in
  pcs s1 !! t = Some (Using c) /\ _available s1 = av /\ _active s1 = <[t := c]> (_active s) /\
  pcs s2 = <[t := Done how]> (pcs s) /\ _available s2 = av ++ [c] /\
  _active s2 = _active s /\ holder s2 = None /\ waiters s2 = [] /\
  next s2 = next s /\ closed s2 = closed s.
Proof.
  intros Hlen Hh Hw Hp Ha Hav s1 s2. rewrite Hav in Hlen. simpl in Hlen.
  assert (E1 : _available s1 = av /\ _active s1 = <[t := c]> (_active s) /\
    pcs s1 = <[t := Using c]> (pcs s) /\ holder s1 = None /\ waiters s1 = [] /\
    next s1 = next s /\ closed s1 = closed s).
  { unfold s1. simpl. rewrite Hp. simpl. rewrite lookup_insert_eq. unfold try. simpl.
    rewrite Hav. unfold validated, with_lock. simpl. rewrite Hh, Hw. unfold register. simpl.
    case_match; simpl; by rewrite insert_insert_eq. }
  destruct E1 as (E1 & E2 & E3 & E4 & E5 & E6 & E7).
  split; [by rewrite E3, lookup_insert_eq|]. split; [done|]. split; [done|].
  unfold s2. clearbody s1. simpl. rewrite E3, lookup_insert_eq. unfold leave.
  set (s3 := match how with Exits | _ => _ end).
  assert (Hs3 : _available s3 = _available s1 /\ _active s3 = _active s1 /\ pcs s3 = pcs s1 /\
    holder s3 = holder s1 /\ waiters s3 = waiters s1 /\ next s3 = next s1 /\
    closed s3 = closed s1) by (unfold s3; repeat case_match; done).
  destruct Hs3 as (F1 & F2 & F3 & F4 & F5 & F6 & F7). clearbody s3.
  simpl. rewrite lookup_insert_eq. unfold with_lock. simpl. rewrite F4, E4, F5, E5.
  unfold _return_connection. simpl. rewrite F1, E1, Zltb_T by lia. simpl.
  rewrite F3, E3, !insert_insert_eq, F2, E2, F6, E6, F7, E7.
  split_and!; try done. by rewrite delete_insert_id.
Qed.
End ops.

(** ** Runs *)

Definition demo_config : ModelConnectionPoolConfig := PoolConfig 0 1.
Definition closes_all : conn -> bool := fun _ => true.
Definition demo_run : list event -> pool := run (step demo_config closes_all) new.
Definition ok : outside := fine 5.
Definition bad : outside := Outside Invalid 5.

Definition users (s : pool) : list (task * conn) :=
  omap (fun x => match x.2 with Using c => Some (x.1, c) | _ => None end) (map_to_list (pcs s)).

(** One connection at most: task 1 uses it, task 2 waits. *)
Definition crowded : list event :=
  [Enter 1%nat; Try 1%nat ok; Created 1%nat None ok; Enter 2%nat; Try 2%nat ok].

Lemma connections_conserved_witness :
  0 <= max_connections demo_config /\
  users (demo_run crowded) = [(1%nat, 0%nat)] /\
  Z.of_nat (length (_available (demo_run crowded))) <= 1.
Proof.
  split; [done|]. split; [by vm_compute|].
  refine (proj1 (proj2 (connections_conserved demo_config closes_all (demo_run crowded) _ _))).
  - done.
  - by exists crowded.
Defined.

(** Task 1 is done with the connection, and still task 2 has none. *)
Lemma exhausted_pool_frozen_witness :
  pcs (demo_run crowded) !! 2%nat = Some (Getting 0 None) /\
  let s := demo_run (crowded ++ [BodyEnds 1%nat Exits; Return 1%nat ok]) in
  pcs s !! 2%nat = Some (Getting 0 None) /\ _available s = [].
Proof.
  assert (E : pcs (demo_run crowded) !! 2%nat = Some (Getting 0 None)) by by vm_compute.
  split; [exact E|]. unfold demo_run. rewrite run_app.
  destruct (exhausted_pool_frozen demo_config closes_all (demo_run crowded) 2%nat 0%nat None
    [BodyEnds 1%nat Exits; Return 1%nat ok]) as (H1 & H2 & _).
  - done.
  - by exists crowded.
  - exact E.
  - repeat constructor; done.
  - exact (conj H1 H2).
Defined.

Definition idle_pool : list event :=
  [Enter 1%nat; Try 1%nat ok; Created 1%nat None ok; BodyEnds 1%nat Exits; Return 1%nat ok].

Lemma acquire_release_witness :
  _available (demo_run idle_pool) = [0%nat] /\
  pcs (demo_run (idle_pool ++ [Enter 2%nat; Try 2%nat ok])) !! 2%nat = Some (Using 0%nat).
Proof.
  split; [by vm_compute|]. unfold demo_run. rewrite run_app.
  refine (proj1 (acquire_release demo_config closes_all (demo_run idle_pool) 2%nat 0%nat []
    Exits 5 0 _ _ _ _ _ _)); vm_compute; done.
Defined.

(** A connection is counted neither as active nor as idle from its creation
    to its registration, and the lock is free in between: three tasks use
    three connections of a pool limited to one. *)
Example connection_limit_exceeded :
  length (users (demo_run
    [Enter 1%nat; Enter 2%nat; Enter 3%nat; Try 1%nat ok; Try 2%nat ok; Try 3%nat ok;
     Created 1%nat None ok; Granted 2%nat ok; Created 2%nat None ok;
     Granted 3%nat ok; Created 3%nat None ok;
     Granted 1%nat ok; Granted 2%nat ok; Granted 3%nat ok])) = 3%nat.
Proof. by vm_compute. Qed.

(** Four connections fail their check. The last one is destroyed three times:
    when the check fails, by the [except] clause, and on its return. *)
Example destroyed_three_times :
  let s := demo_run
    (Enter 1%nat :: concat (replicate 4 [Try 1%nat ok; Created 1%nat None bad]) ++
     [Return 1%nat bad]) in
  closed s = [0; 1; 2; 3; 3; 3]%nat /\ total_destroyed (_metrics s) = 6 /\
  total_created (_metrics s) = 4.
Proof. by vm_compute. Qed.

(** A check that raises once: the connection is destroyed, then returned to
    the pool, and the next task gets it. *)
Example closed_connection_reused :
  let s := demo_run
    [Enter 1%nat; Try 1%nat ok;
     Created 1%nat None (Outside (CheckRaises (OSError "reset")) 5);
     Return 1%nat ok; Enter 2%nat; Try 2%nat ok] in
  users s = [(2%nat, 0%nat)] /\ closed s = [0%nat].
Proof. by vm_compute. Qed.
End AsyncPool.

Module SimplePool.
(** The arguments of a call of [acquire], and when it began. *)
Record call : Type := Call {
  effective_timeout : micros;
  max_retries : nat;
  start_time : micros;
}.

(** Where a call is suspended: in the sleep before an attempt, or in the body
    of the caller. *)
Inductive pc : Type :=
  | Sleeping (attempt : nat) (args : call) (until : micros)
  | Using (connection : option conn)
  | Done (how : ending).

Record pool : Type := Pool {
  _connections : list conn;
  _active : gmap task conn;
  _connection_counter : conn;
  pcs : gmap task pc;
}.

Definition new : pool := Pool [] ∅ 0%nat ∅.

Section ops.
Context (max_size : Z) (two_decimals : micros -> string).

Definition total_connections (p : pool) : Z :=
  Z.of_nat (size (_active p)) + Z.of_nat (length (_connections p)).

(** The body of the locked section: [None] when the pool is exhausted.
    [result] is how an override of [_create_connection] ends. *)
Definition take_connection (t : task) (result : option exn) (p : pool) : res conn * pool :=
  match last (_connections p) with
  | Some c =>
      (Ok c, Pool (take (length (_connections p) - 1) (_connections p)) (<[t := c]> (_active p))
               (_connection_counter p) (pcs p))
  | None =>
      if Z.of_nat (size (_active p)) <? max_size then
        match result with
        | None =>
            let c := _connection_counter p in
            (Ok c, Pool (_connections p) (<[t := c]> (_active p)) (S c) (pcs p))
        | Some e => (Raise e, p)
        end
      else (Raise (TimeoutError ("Pool exhausted (max=" +:+ pretty max_size +:+ ")")), p)
  end.

(** The [try] block of an attempt. *)
Definition attempt_once (t : task) (args : call) (now : micros) (result : option exn) (p : pool)
    : res conn * pool :=
  let elapsed := now - start_time args in
  if effective_timeout args <=? elapsed
  then (Raise (TimeoutError ("Connection pool timeout after " +:+ two_decimals elapsed +:+ "s")), p)
  else take_connection t result p.

Definition set_pc (t : task) (s : pc) (p : pool) : pool :=
  Pool (_connections p) (_active p) (_connection_counter p) (<[t := s]> (pcs p)).

(** An attempt: the sleep before the next one is [0.01 * 2**attempt] seconds. *)
Definition attempt (t : task) (k : nat) (args : call) (now : micros) (result : option exn)
    (p : pool) : pool :=
  match attempt_once t args now result p with
  | (Ok c, p') => set_pc t (Using (Some c)) p'
  | (Raise e, p') =>
      if is_OSError e && (Z.of_nat k <? Z.of_nat (max_retries args) - 1)
      then set_pc t (Sleeping (S k) args (now + 10000 * 2 ^ Z.of_nat k)) p'
      else set_pc t (Done (Raises e)) p'
  end.

(** [acquire] up to its first suspension; with no attempt allowed, the body
    runs without a connection. *)
Definition enter (t : task) (args : call) (result : option exn) (p : pool) : pool :=
  if (0 <? max_retries args)%nat then attempt t 0 args (start_time args) result p
  else set_pc t (Using None) p.

(** The [finally] clause. *)
Definition release (t : task) (connection : option conn) (how : ending) (p : pool) : pool :=
  set_pc t (Done how)
    match connection with
    | None => p
    | Some c =>
        let active := delete t (_active p) in
        let total_pool_size := Z.of_nat (length (_connections p)) + Z.of_nat (size active) in
        Pool
          (if (total_pool_size <? max_size) && (Z.of_nat (length (_connections p)) <? max_size)
           then _connections p ++ [c] else _connections p)
          active (_connection_counter p) (pcs p)
    end.

Inductive event : Type :=
  | Enter (t : task) (args : call) (result : option exn)
  | Wake (t : task) (now : micros) (result : option exn)
  | BodyEnds (t : task) (how : ending)
  | CancelSleep (t : task).

Definition step (p : pool) (e : event) : pool :=
  match e with
  | Enter t args result =>
      match pcs p !! t with None => enter t args result p | Some _ => p end
  | Wake t now result =>
      match pcs p !! t with
      | Some (Sleeping k args until) =>
          if until <=? now then attempt t k args now result p else p
      | _ => p
      end
  | BodyEnds t how =>
      match pcs p !! t with Some (Using c) => release t c how p | _ => p end
  | CancelSleep t =>
      match pcs p !! t with Some (Sleeping _ _ _) => set_pc t (Done IsCancelled) p | _ => p end
  end.

Definition reachable (p : pool) : Prop := exists es, p = run step new es.

(** [_active] is what the tasks in their bodies have; each connection made is
    in it or idle, in one place; and there are at most [max_size]. *)
Record exact (p : pool) : Prop := Exact {
  e_active : forall t c, _active p !! t = Some c <-> pcs p !! t = Some (Using (Some c));
  e_one : forall t t' c, _active p !! t = Some c -> _active p !! t' = Some c -> t = t';
  e_nodup : NoDup (_connections p);
  e_apart : forall t c, _active p !! t = Some c -> c ∉ _connections p;
  e_all : forall c, (c < _connection_counter p)%nat <->
    c ∈ _connections p \/ exists t, _active p !! t = Some c;
  e_count : total_connections p = Z.of_nat (_connection_counter p);
  e_max : total_connections p <= max_size;
}.
Lemma exact_set_pc p t q :
  exact p -> _active p !! t = None -> (forall c, q <> Using (Some c)) -> exact (set_pc t q p).
Proof.
  intros [H1 H2 H3 H4 H5 H6 H7] Ht Hq. split; try done. intros t' c. simpl.
  rewrite lookup_insert. case_decide as E; [subst t'|apply H1]. rewrite Ht.
  split; [done|]. intros [= ?]. by destruct (Hq c).
Qed.

Lemma exact_take p t result c p' :
  exact p -> _active p !! t = None -> take_connection t result p = (Ok c, p') ->
  exact (set_pc t (Using (Some c)) p').
Proof.
  clear two_decimals. intros [H1 H2 H3 H4 H5 H6 H7] Ht. unfold take_connection, total_connections in *.
  destruct (last (_connections p)) as [c'|] eqn:El.
  - apply last_Some in El as [l Hl]. rewrite Hl in *. rewrite length_app in *. simpl in *.
    replace (length l + 1 - 1)%nat with (length l) by lia. rewrite take_app_length.
    intros [= <- <-]. apply NoDup_app in H3 as (Hnd & Hni & _).
    assert (Hc : forall t1, _active p !! t1 <> Some c').
    { intros t1 Ht1%H4. apply Ht1, elem_of_app. right. by apply list_elem_of_singleton. }
    split; simpl; try done.
    + intros t1 c. rewrite !lookup_insert. case_decide; [naive_solver|apply H1].
    + intros t1 t2 c. rewrite !lookup_insert. repeat case_decide; naive_solver.
    + intros t1 c. rewrite lookup_insert. case_decide.
      * intros [= <-] Hin. destruct (Hni _ Hin). by apply list_elem_of_singleton.
      * intros Hc1 Hin. eapply H4; [done|]. apply elem_of_app. by left.
    + intros c. rewrite H5, elem_of_app, list_elem_of_singleton.
      setoid_rewrite lookup_insert. split.
      * intros [[?| ->]|[t1 Ht1]]; [by left| |].
        -- right. exists t. by case_decide.
        -- right. exists t1. case_decide; [congruence|done].
      * intros [?|[t1 Ht1]]; [auto|]. case_decide; [|eauto]. left. right. congruence.
    + unfold total_connections. simpl. rewrite map_size_insert_None by done. lia.
    + unfold total_connections. simpl. rewrite map_size_insert_None by done. lia.
  - apply last_None in El. rewrite El in *. case_match eqn:Elt; [|done]. breflect.
    destruct result; [done|]. intros [= <- <-]. simpl in *. split; simpl; rewrite ?El; try done.
    + intros t1 c. rewrite !lookup_insert. case_decide; [naive_solver|apply H1].
    + assert (Hc : forall t1, _active p !! t1 <> Some (_connection_counter p)).
      { intros t1 Ht1. assert (_connection_counter p < _connection_counter p)%nat; [|lia].
        apply H5. eauto. }
      intros t1 t2 c. rewrite !lookup_insert. repeat case_decide; naive_solver.
    + intros t1 c _ ?%not_elem_of_nil. done.
    + intros c. setoid_rewrite lookup_insert. split.
      * intros Hlt. right. destruct (decide (c = _connection_counter p)) as [->|Hne].
        -- exists t. by case_decide.
        -- destruct (proj1 (H5 c)) as [?%not_elem_of_nil|[t1 Ht1]]; [lia|done|].
           exists t1. case_decide; [congruence|done].
      * intros [?%not_elem_of_nil|[t1 Ht1]]; [done|]. case_decide; [naive_solver lia|].
        assert (c < _connection_counter p)%nat; [apply H5; eauto|lia].
    + unfold total_connections. simpl. rewrite map_size_insert_None by done. simpl in *. lia.
    + unfold total_connections. simpl. rewrite map_size_insert_None by done. simpl in *. lia.
Qed.

Lemma attempt_exact p t k args now result :
  exact p -> _active p !! t = None -> exact (attempt t k args now result p).
Proof.
  intros Hp Ht. unfold attempt. destruct (attempt_once t args now result p) as [[c|e] p'] eqn:E.
  - unfold attempt_once in E. case_match; [done|]. by eapply exact_take.
  - assert (p' = p) as ->.
    { unfold attempt_once, take_connection in E. repeat case_match; by simplify_eq. }
    case_match; by apply exact_set_pc.
Qed.

Lemma exact_idle p t : exact p -> (forall c, pcs p !! t <> Some (Using (Some c))) ->
  _active p !! t = None.
Proof.
  intros Hp Ht. destruct (_active p !! t) as [c|] eqn:E; [|done].
  apply (e_active p Hp) in E. by destruct (Ht c).
Qed.

Lemma release_exact p t c how :
  exact p -> pcs p !! t = Some (Using (Some c)) ->
  exact (release t (Some c) how p) /\
  _connections (release t (Some c) how p) = _connections p ++ [c].
Proof.
  clear two_decimals. intros [H1 H2 H3 H4 H5 H6 H7] Ht. assert (Ha := proj2 (H1 t c) Ht).
  assert (Hs : size (_active p) = S (size (delete t (_active p)))).
  { rewrite <- (map_size_insert_None t c) by apply lookup_delete_eq.
    by rewrite insert_delete_id. }
  unfold release, total_connections in *. cbn zeta. rewrite !Zltb_T by lia. simpl.
  split; [|done]. split; simpl.
  - intros t1 c1. rewrite lookup_delete, lookup_insert. case_decide; [naive_solver|apply H1].
  - intros t1 t2 c1 [_ ?]%lookup_delete_Some [_ ?]%lookup_delete_Some. eauto.
  - apply NoDup_app. split_and!; [done| |apply NoDup_singleton].
    intros x Hx ->%list_elem_of_singleton. by eapply H4.
  - intros t1 c1 [Hne Ht1]%lookup_delete_Some [?| ->%list_elem_of_singleton]%elem_of_app.
    + by eapply H4.
    + destruct Hne. eauto.
  - intros c1. rewrite H5, elem_of_app, list_elem_of_singleton. setoid_rewrite lookup_delete_Some.
    split.
    + intros [?|[t1 Ht1]]; [auto|]. destruct (decide (t = t1)) as [->|]; [|eauto].
      left. right. congruence.
    + intros [[?| ->]|[t1 [_ ?]]]; eauto.
  - unfold total_connections. simpl. rewrite length_app. simpl. lia.
  - unfold total_connections. simpl. rewrite length_app. simpl. lia.
Qed.

Lemma step_exact p e : exact p -> exact (step p e).
Proof.
  intros Hp. destruct e as [t args result|t now result|t how|t]; simpl;
    destruct (pcs p !! t) as [[k args'|c|]|] eqn:E; try done.
  - assert (Ha : _active p !! t = None) by (apply exact_idle; [done|congruence]).
    unfold enter. case_match; [by apply attempt_exact|by apply exact_set_pc].
  - case_match; [|done]. apply attempt_exact, exact_idle; [done..|congruence].
  - destruct c as [c|]; [by apply release_exact|].
    apply exact_set_pc; [done|apply exact_idle; [done|congruence]|done].
  - apply exact_set_pc; [done|apply exact_idle; [done|congruence]|done].
Qed.

Lemma reachable_exact p : 0 <= max_size -> reachable p -> exact p.
Proof.
  intros Hmax [es ->]. apply (run_invariant _ exact (fun _ => True)).
  - intros p e ? _. by apply step_exact.
  - split; simpl; try done.
    + constructor.
    + intros c. split; [lia|]. intros [?%not_elem_of_nil|[t ?]]; done.
  - by apply Forall_true.
Qed.

(** The simple pool never exceeds its size, whatever its tasks
    do: the connections it ever made, all of them idle or lent, are at most
    [max_size]; no connection is lent twice, or idle while lent; and a
    released connection always goes back to the pool (the branch that
    discards one is never taken). *)
Theorem simple_pool_bounded (p : pool) :
  0 <= max_size -> reachable p ->
  total_connections p = Z.of_nat (_connection_counter p) /\
  Z.of_nat (_connection_counter p) <= max_size /\
  (forall t t' c, pcs p !! t = Some (Using (Some c)) -> pcs p !! t' = Some (Using (Some c)) ->
     t = t') /\
  (forall t c, pcs p !! t = Some (Using (Some c)) -> c ∉ _connections p) /\
  (forall t c how, pcs p !! t = Some (Using (Some c)) ->
     _connections (step p (BodyEnds t how)) = _connections p ++ [c]).
Proof.
  intros Hmax Hr. assert (Hp := reachable_exact p Hmax Hr).
  destruct Hp as [H1 H2 H3 H4 H5 H6 H7] eqn:?. split_and!; [done|lia| | |].
  - intros t t' c Ht%H1 Ht'%H1. eauto.
  - intros t c Ht%H1. eauto.
  - intros t c how Ht. simpl. rewrite Ht. by apply release_exact.
Qed.
End ops.

Definition demo_run (max_size : Z) : list event -> pool :=
  run (step max_size (fun _ => "0.01")) new.
Definition demo_call : call := Call (seconds 30) 3 0.

Definition three_tasks : list event :=
  [Enter 1%nat demo_call None; Enter 2%nat demo_call None; Enter 3%nat demo_call None;
   BodyEnds 2%nat Exits; Wake 3%nat 10000 None].

Lemma simple_pool_bounded_witness :
  0 <= 2 /\ pcs (demo_run 2 three_tasks) !! 3%nat = Some (Using (Some 1%nat)) /\
  Z.of_nat (_connection_counter (demo_run 2 three_tasks)) <= 2.
Proof.
  split; [done|]. split; [by vm_compute|].
  refine (proj1 (proj2 (simple_pool_bounded 2 (fun _ => "0.01") (demo_run 2 three_tasks) _ _))).
  - done.
  - by exists three_tasks.
Defined.

(** An exhausted pool raises [TimeoutError], a subclass of the [OSError] that
    the retry is meant for: the call tries three times within 30 ms, whatever
    the timeout, and fails. *)
Example exhausted_call_retries :
  pcs (demo_run 1 [Enter 1%nat demo_call None; Enter 2%nat demo_call None;
                   Wake 2%nat 10000 None; Wake 2%nat 30000 None]) !! 2%nat
  = Some (Done (Raises (TimeoutError "Pool exhausted (max=1)"))).
Proof. by vm_compute. Qed.
End SimplePool.
