(* ===== verification/Retry.v ===== *)
(** * Retries

    Models src/src/omnimemory/adapters/adapter_retry_utils.py
    ([calculate_delay], [retry_with_backoff], [retry_decorator],
    [RetryManager]) and the decorator [with_retry] of
    src/src/omnimemory/adapters/adapter_concurrency.py. Both loops implement
    one specification, [tries]. Delays are exact rationals: the rounding of
    floats is not modelled. The operation that is retried, and the random
    draws of the jitter, are arguments. *)

From Stdlib Require Import QArith Qround Qpower Lqa.
From S2P Require Import Prelude.
Open Scope Z_scope.

Record ModelRetryConfig : Type := RetryConfig {
  max_attempts : Z;
  base_delay_ms : Z;
  max_delay_ms : Z;
  exponential_multiplier : Q;
  jitter : bool;
  retryable_exceptions : list string;
}.

(** The bounds that the model's fields declare. *)
Definition config_valid (c : ModelRetryConfig) : Prop :=
  1 <= max_attempts c <= 10 /\ 100 <= base_delay_ms c <= 60000 /\
  1000 <= max_delay_ms c <= 300000 /\
  (1 <= exponential_multiplier c)%Q /\ (exponential_multiplier c <= 5)%Q.

Definition default_config : ModelRetryConfig :=
  RetryConfig 3 1000 30000 2 true
    ["ConnectionError"; "TimeoutError"; "HTTPError"; "TemporaryFailure"].

Record ModelRetryAttemptInfo : Type := AttemptInfo {
  attempt_number : Z;
  delay_ms : Z;
  exception : option string;
}.

Definition is_retryable_exception (e : exn) (retryable : list string) : bool :=
  if existsb (fun r => String.eqb (exn_class e) r) retryable then true
  else existsb (fun r => contains r (exn_class e)) retryable.

(** [random.uniform(a, b)], from a draw of [random.random()] *)
Definition uniform (a b draw : Q) : Q := (a + (b - a) * draw)%Q.

Definition qmin (a b : Q) : Q := if Qle_bool a b then a else b.
Definition qmax (a b : Q) : Q := if Qle_bool a b then b else a.

(** The delay in milliseconds before it is truncated by [int]. *)
Definition exact_delay (attempt : Z) (config : ModelRetryConfig) (draw : Q) : Q :=
  let delay := (inject_Z (base_delay_ms config) *
                exponential_multiplier config ^ (attempt - 2))%Q in
  let delay := qmin delay (inject_Z (max_delay_ms config)) in
  if jitter config then
    let jitter_range := (delay * (1 # 4))%Q in
    qmax 0 (delay + uniform (- jitter_range) jitter_range draw)
  else delay.

Definition calculate_delay (attempt : Z) (config : ModelRetryConfig) (draw : Q) : Z :=
  if attempt <=? 1 then 0 else Qfloor (exact_delay attempt config draw).

(** ** The loops *)

(** What surrounds the operation: its own state, the sleeps, in milliseconds,
    and the attempts that [retry_with_backoff] records. *)
Record world (S : Type) : Type := World {
  inner : S;
  slept : list Q;
  attempts : list ModelRetryAttemptInfo;
}.
Arguments World {S} _ _ _.
Arguments inner {S} _.
Arguments slept {S} _.
Arguments attempts {S} _.

Section loops.
Context {S A : Type} (operation : M S A).

(** The operation, in the larger world. *)
Definition lifted : M (world S) A := fun w =>
  ((operation (inner w)).1, World (operation (inner w)).2 (slept w) (attempts w)).

Definition sleep (ms : Q) : M (world S) unit :=
  modify (fun w => World (inner w) (slept w ++ [ms]) (attempts w)).

Definition record_attempt (i : ModelRetryAttemptInfo) : M (world S) unit :=
  modify (fun w => World (inner w) (slept w) (attempts w ++ [i])).

(** [attempts[-1].exception = type(e).__name__] *)
Definition record_exception (e : exn) : M (world S) unit :=
  modify (fun w => World (inner w) (slept w)
    match last (attempts w) with
    | Some i => take (length (attempts w) - 1) (attempts w) ++
                  [AttemptInfo (attempt_number i) (delay_ms i) (Some (exn_class e))]
    | None => attempts w
    end).

Section backoff.
Context (config : ModelRetryConfig) (draws : Z -> Q).

(** The body of the [try]. *)
Definition one_attempt (attempt : Z) : M (world S) A :=
  let delay := calculate_delay attempt config (draws attempt) in
  do! if 0 <? delay then sleep (inject_Z delay) else ret tt;
  do! record_attempt (AttemptInfo attempt delay None);
  lifted.

(** [for attempt in range(...)], with [remaining] attempts to go. *)
Fixpoint backoff_loop (remaining : nat) (attempt : Z) (last_exception : option exn)
    : M (world S) A :=
  match remaining with
  | O =>
      match last_exception with
      | Some e => raise e
      | None => raise (RuntimeError "Operation failed without exception")
      end
  | Datatypes.S remaining =>
      try_Exception (one_attempt attempt) (fun e =>
        do! record_exception e;
        if (attempt <? max_attempts config) && is_retryable_exception e (retryable_exceptions config)
        then backoff_loop remaining (attempt + 1) (Some e)
        else raise e)
  end.

Definition retry_with_backoff : M (world S) A :=
  backoff_loop (Z.to_nat (max_attempts config)) 1 None.
End backoff.

Section decorator.
(** [exceptions], as a test. *)
Context (number : Z) (delay backoff_multiplier : Q) (catches : exn -> bool).

Fixpoint with_retry_loop (remaining : nat) (attempt : Z) (current_delay : Q)
    (last_exception : option exn) : M (world S) A :=
  match remaining with
  | O =>
      match last_exception with
      | Some e => raise e
      | None => raise (RuntimeError "Unexpected retry loop exit without exception")
      end
  | Datatypes.S remaining =>
      try_except lifted (fun e =>
        if catches e then
          Some (if attempt <? number - 1 then
                  do! sleep (current_delay * 1000)%Q;
                  with_retry_loop remaining (attempt + 1) (current_delay * backoff_multiplier)%Q
                    (Some e)
                else with_retry_loop remaining (attempt + 1) current_delay (Some e))
        else None)
  end.

Definition with_retry : M (world S) A := with_retry_loop (Z.to_nat number) 0 delay None.
End decorator.

(** [sync_wrapper] of [retry_decorator]. With a running loop the operation
    runs in a thread of its own; the [except] clause takes any [RuntimeError]
    for the absence of a loop, and [asyncio.run] refuses to start inside one. *)
Definition sync_wrapper (running_loop : bool) (wrapped : M (world S) A) : M (world S) A :=
  if running_loop then
    try_except wrapped (fun e =>
      match e with
      | RuntimeError _ =>
          Some (raise (RuntimeError "asyncio.run() cannot be called from a running event loop"))
      | _ => None
      end)
  else wrapped.

(** ** What a retry promises *)

(** [tries p n s r s']: at most [n] calls of the operation, from state [s];
    all but the last raised an exception that [p] accepts; the last one
    returned, or raised one that [p] rejects, or was the [n]-th. *)
Inductive tries (p : exn -> bool) : nat -> S -> res A -> S -> Prop :=
  | tries_ok n s a s' : operation s = (Ok a, s') -> tries p (Datatypes.S n) s (Ok a) s'
  | tries_final n s e s' : operation s = (Raise e, s') -> p e = false \/ n = O ->
      tries p (Datatypes.S n) s (Raise e) s'
  | tries_again n s e s1 r s' : operation s = (Raise e, s1) -> p e = true ->
      tries p n s1 r s' -> tries p (Datatypes.S n) s r s'.

Lemma tries_pos p n s r s' : tries p n s r s' -> n <> O.
Proof. by destruct 1. Qed.

Lemma tries_deterministic p n s r1 s1 r2 s2 :
  tries p n s r1 s1 -> tries p n s r2 s2 -> r1 = r2 /\ s1 = s2.
Proof.
  intros H1. revert r2 s2. induction H1 as [n s a s' H|n s e s' H Hp|n s e s1' r s' H Hp Ht IH];
    intros r2 s2 H2; inversion H2; subst;
    match goal with H1 : operation ?s = _, H2 : operation ?s = _ |- _ =>
      rewrite H1 in H2; simplify_eq end; try done; try (by apply IH);
    repeat match goal with Hr : tries _ _ _ _ _ |- _ => apply tries_pos in Hr end;
    exfalso; intuition congruence.
Qed.

Section backoff_spec.
Context (config : ModelRetryConfig) (draws : Z -> Q).

(** The exceptions that [retry_with_backoff] tries again after: retryable ones,
    of those that [except Exception] catches at all. *)
Definition accepts (e : exn) : bool :=
  is_Exception e && is_retryable_exception e (retryable_exceptions config).

(** [tries], with the last attempt marked as such by the code's test. *)
Lemma backoff_loop_tries n attempt last w :
  n <> O -> attempt + Z.of_nat n = max_attempts config + 1 ->
  wp (backoff_loop config draws n attempt last)
    (fun r w' => tries accepts n (inner w) r (inner w')) w.
Proof.
  revert attempt last w. induction n as [|n IH]; intros attempt last w Hn Hmax; [done|].
  simpl. wp_step. unfold one_attempt. set (delay := calculate_delay attempt config (draws attempt)).
  wp_step.
  assert (Hs : wp (if 0 <? delay then sleep (inject_Z delay) else ret tt)
    (fun r w1 => r = Ok tt /\ inner w1 = inner w) w) by (by case_match).
  eapply wp_mono; [|exact Hs]. intros r w1 [-> Hw1]. wp_step. unfold record_attempt. wp_step.
  unfold wp at 1, lifted. simpl. destruct (operation (inner w1)) as [[a|e] s1] eqn:Eo; simpl.
  { rewrite <- Hw1. by apply tries_ok. }
  destruct (is_Exception e) eqn:Ex.
  2:{ rewrite <- Hw1. apply tries_final; [done|left]. unfold accepts. by rewrite Ex. }
  wp_step. unfold record_exception. wp_step.
  destruct (attempt <? max_attempts config) eqn:Elt; simpl; breflect.
  - destruct (is_retryable_exception _ _) eqn:Er.
    + eapply wp_mono; [|apply IH; [lia|lia]]. intros r w2 Ht. simpl in Ht.
      rewrite <- Hw1. eapply tries_again; [done| |done]. unfold accepts. by rewrite Ex.
    + wp_step. rewrite <- Hw1. apply tries_final; [done|left]. unfold accepts. by rewrite Ex.
  - wp_step. rewrite <- Hw1. apply tries_final; [done|right; lia].
Qed.
End backoff_spec.

Lemma with_retry_loop_tries number mult catches n attempt delay last w :
  n <> O -> attempt + Z.of_nat n = number ->
  wp (with_retry_loop number mult catches n attempt delay last)
    (fun r w' => tries catches n (inner w) r (inner w')) w.
Proof.
  revert attempt delay last w. induction n as [|n IH]; intros attempt delay last w Hn Hmax; [done|].
  simpl. wp_step. unfold wp at 1, lifted. simpl.
  destruct (operation (inner w)) as [[a|e] s1] eqn:Eo; simpl; [by apply tries_ok|].
  destruct (catches e) eqn:Ec; simpl; [|by apply tries_final; [|left]].
  destruct (attempt <? number - 1) eqn:Elt; breflect.
  - wp_step. unfold sleep. wp_step.
    eapply wp_mono; [|apply IH; [lia|lia]]. intros r w2 Ht. simpl in Ht. by eapply tries_again.
  - assert (n = O) as -> by lia. simpl. wp_step. apply tries_final; auto.
Qed.
End loops.

(** ** Delays *)

Lemma Qfloor_bounds (q : Q) (a b : Z) :
  (inject_Z a <= q)%Q -> (q <= inject_Z b)%Q -> a <= Qfloor q <= b.
Proof.
  intros Ha Hb. split.
  - rewrite <- (Qfloor_Z a). by apply Qfloor_resp_le.
  - rewrite <- (Qfloor_Z b). by apply Qfloor_resp_le.
Qed.

Lemma qmin_spec a b : (qmin a b <= a)%Q /\ (qmin a b <= b)%Q /\ (qmin a b = a \/ qmin a b = b).
Proof.
  unfold qmin. destruct (Qle_bool a b) eqn:E.
  - apply Qle_bool_iff in E. split_and!; auto. apply Qle_refl.
  - assert (~ (a <= b)%Q) by (rewrite <- Qle_bool_iff; congruence).
    split_and!; auto; [|apply Qle_refl]. apply Qlt_le_weak, Qnot_le_lt. done.
Qed.

Lemma qmax_spec a b : (a <= qmax a b)%Q /\ (qmax a b = a \/ qmax a b = b).
Proof.
  unfold qmax. destruct (Qle_bool a b) eqn:E.
  - apply Qle_bool_iff in E. auto.
  - split; [apply Qle_refl|auto].
Qed.

Lemma uniform_bounds (r draw : Q) :
  (0 <= r)%Q -> (0 <= draw)%Q -> (draw <= 1)%Q ->
  (- r <= uniform (- r) r draw)%Q /\ (uniform (- r) r draw <= r)%Q.
Proof. intros. unfold uniform. split; nra. Qed.

Lemma exact_delay_bounds attempt config draw :
  config_valid config -> (0 <= draw)%Q -> (draw <= 1)%Q ->
  (0 <= exact_delay attempt config draw)%Q /\
  (exact_delay attempt config draw <=
     inject_Z (max_delay_ms config) * (if jitter config then 5 # 4 else 1))%Q.
Proof.
  intros (Hn & Hb & Hm & Hm1 & Hm5) Hd0 Hd1. unfold exact_delay. cbn zeta.
  set (mx := inject_Z (max_delay_ms config)).
  assert (Hmx : (0 <= mx)%Q) by (unfold mx; change 0%Q with (inject_Z 0); rewrite <- Zle_Qle; lia).
  set (d := qmin _ mx). destruct (qmin_spec (inject_Z (base_delay_ms config) *
    exponential_multiplier config ^ (attempt - 2)) mx) as (_ & Hle & Hor). fold d in Hle, Hor.
  assert (Hd : (0 <= d)%Q).
  { destruct Hor as [-> | ->]; [|done]. apply Qmult_le_0_compat.
    - change 0%Q with (inject_Z 0). rewrite <- Zle_Qle. lia.
    - apply Qpower_0_le. lra. }
  destruct (jitter config); [|split; lra].
  destruct (uniform_bounds (d * (1 # 4)) draw) as [H1 H2]; [nra|done..|].
  destruct (qmax_spec 0 (d + uniform (- (d * (1 # 4))) (d * (1 # 4)) draw)) as [H3 [H4|H4]];
    rewrite H4 in *; split; lra.
Qed.

(** Truncated, delays stay within the maximum, plus a quarter of it when
    jitter is on. *)
Definition longest_delay (config : ModelRetryConfig) : Z :=
  if jitter config then max_delay_ms config + max_delay_ms config / 4 else max_delay_ms config.

Lemma calculate_delay_bounds attempt config draw :
  config_valid config -> (0 <= draw)%Q -> (draw <= 1)%Q ->
  0 <= calculate_delay attempt config draw <= longest_delay config.
Proof.
  intros Hc Hd0 Hd1. unfold calculate_delay, longest_delay.
  assert (Hm : 0 <= max_delay_ms config) by (destruct Hc as (_ & _ & ? & _); lia).
  destruct (attempt <=? 1).
  { case_match; [|lia]. assert (0 <= max_delay_ms config / 4) by (apply Z.div_pos; lia). lia. }
  destruct (exact_delay_bounds attempt config draw Hc Hd0 Hd1) as [H1 H2].
  destruct (jitter config).
  - split.
    + apply (Qfloor_bounds _ 0 (max_delay_ms config * 5)); [exact H1|].
      eapply Qle_trans; [exact H2|]. rewrite inject_Z_mult.
      assert (0 <= inject_Z (max_delay_ms config))%Q
        by (change 0%Q with (inject_Z 0); rewrite <- Zle_Qle; lia). simpl. unfold inject_Z at 3. lra.
    + set (q := exact_delay _ _ _) in *.
      assert (Hf : (inject_Z (Qfloor q) <= q)%Q) by apply Qfloor_le.
      assert (Hq : (inject_Z (4 * Qfloor q) <= inject_Z (5 * max_delay_ms config))%Q).
      { rewrite !inject_Z_mult. change (inject_Z 4) with 4%Q. change (inject_Z 5) with 5%Q. lra. }
      rewrite <- Zle_Qle in Hq.
      replace (max_delay_ms config + max_delay_ms config / 4)
        with ((4 * max_delay_ms config + max_delay_ms config) / 4).
      * apply Z.div_le_lower_bound; lia.
      * rewrite Z.mul_comm, Z.div_add_l by lia. done.
  - apply Qfloor_bounds; [exact H1|]. eapply Qle_trans; [exact H2|]. lra.
Qed.

Section properties.
Context {S A : Type} (operation : M S A).

Definition fair_draws (draws : Z -> Q) : Prop :=
  forall i, (0 <= draws i)%Q /\ (draws i <= 1)%Q.

(** The sleeps of a loop: at most [k] more, each within the bounds. *)
Definition sleeps_within (config : ModelRetryConfig) (k : nat) (w w' : world S) : Prop :=
  exists ds, slept w' = slept w ++ ds /\ (length ds <= k)%nat /\
    Forall (fun d => exists z, d = inject_Z z /\ 0 < z <= longest_delay config) ds.

Lemma backoff_loop_sleeps config draws n attempt last w :
  config_valid config -> fair_draws draws -> 1 <= attempt ->
  wp (backoff_loop operation config draws n attempt last)
    (fun _ w' => sleeps_within config (if attempt =? 1 then Nat.pred n else n) w w') w.
Proof.
  intros Hc Hf. revert attempt last w. induction n as [|n IH]; intros attempt last w Ha; simpl.
  { assert (H : wp (match last with
      | Some e => raise e
      | None => raise (RuntimeError "Operation failed without exception")
      end : M (world S) A) (fun _ w' => w' = w) w) by (by destruct last).
    eapply wp_mono; [|exact H]. intros _ w' ->. exists []. rewrite app_nil_r. simpl.
    split_and!; [done|lia|constructor]. }
  wp_step. unfold one_attempt. destruct (Hf attempt) as [Hf0 Hf1].
  pose proof (calculate_delay_bounds attempt config (draws attempt) Hc Hf0 Hf1) as Hb.
  assert (Hz : attempt = 1 -> calculate_delay attempt config (draws attempt) = 0) by (by intros ->).
  set (delay := calculate_delay attempt config (draws attempt)) in *. wp_step.
  set (k := if attempt =? 1 then O else 1%nat).
  assert (Hs : wp (if 0 <? delay then sleep (inject_Z delay) else ret tt)
    (fun r w1 => r = Ok tt /\ sleeps_within config k w w1) w).
  { destruct (0 <? delay) eqn:E; breflect.
    - split; [done|]. exists [inject_Z delay]. split_and!; [done| |].
      + unfold k. destruct (attempt =? 1) eqn:E1; breflect; simpl; [|lia]. rewrite Hz in E; lia.
      + repeat constructor. exists delay. split; [done|lia].
    - split; [done|]. exists []. rewrite app_nil_r. split_and!; [done|simpl; lia|constructor]. }
  eapply wp_mono; [|exact Hs]. intros r w1 (-> & ds1 & E1 & Hl1 & Hd1). wp_step.
  unfold record_attempt. wp_step. unfold wp at 1, lifted. simpl.
  assert (Hk : (k + n = if (attempt =? 1)%Z then n else Datatypes.S n)%nat)
    by (unfold k; by destruct (attempt =? 1)).
  clearbody k.
  assert (Hhere : forall w', slept w' = slept w1 ->
    sleeps_within config (if attempt =? 1 then n else Datatypes.S n) w w').
  { intros w' E. exists ds1. rewrite E. split_and!; [done|lia|done]. }
  destruct (operation (inner w1)) as [[a|e] s1]; simpl; [by apply Hhere|].
  destruct (is_Exception e); [|by apply Hhere].
  wp_step. unfold record_exception. wp_step.
  destruct ((attempt <? max_attempts config) && _); [|wp_step; by apply Hhere].
  eapply wp_mono; [|apply IH; lia]. intros r w2 (ds2 & E2 & Hl2 & Hd2). simpl in E2.
  exists (ds1 ++ ds2). rewrite E2, E1, app_assoc. split_and!; [done| |by apply Forall_app].
  rewrite length_app, <- Hk. replace (attempt + 1 =? 1) with false in Hl2 by (symmetry; apply Z.eqb_neq; lia).
  lia.
Qed.

(** C19: [retry_with_backoff] calls the operation at most
    [max_attempts] times and at least once; it stops at the first call that
    returns, or that raises something which is not retryable, as a
    cancellation never is, whatever the configured patterns; and it gives
    what the last call gave, the exception included. [with_retry], with the
    same number of attempts and a tuple of exceptions that accepts the same
    ones, ends in the same way, with the same effects. *)
Theorem retries_meet_spec (config : ModelRetryConfig) (draws : Z -> Q) (delay mult : Q)
    (w w' : world S) :
  1 <= max_attempts config -> inner w' = inner w ->
  let n := Z.to_nat (max_attempts config) in
  let r := retry_with_backoff operation config draws w in
  let r' := with_retry operation (max_attempts config) delay mult (accepts config) w' in
  tries operation (accepts config) n (inner w) r.1 (inner r.2) /\
  (forall m, accepts config (CancelledError m) = false) /\
  r'.1 = r.1 /\ inner r'.2 = inner r.2.
Proof.
  intros Hn Ew n r r'.
  assert (H1 : tries operation (accepts config) n (inner w) r.1 (inner r.2)).
  { apply (backoff_loop_tries operation config draws n 1 None w); unfold n; lia. }
  split; [done|]. split; [done|].
  assert (H2 : tries operation (accepts config) n (inner w') r'.1 (inner r'.2)).
  { apply (with_retry_loop_tries operation _ mult _ n 0 delay None w'); unfold n; lia. }
  rewrite Ew in H2. by eapply tries_deterministic.
Qed.

(** Within the bounds of the configuration model, the delay
    before an attempt is never negative and at most [max_delay_ms], plus a
    quarter of it when jitter is on; there is none before the first attempt;
    and one call of [retry_with_backoff] sleeps at most [max_attempts - 1]
    times, each for such a delay. *)
Theorem retry_delays_bounded (config : ModelRetryConfig) (draws : Z -> Q) (w : world S) :
  config_valid config -> fair_draws draws ->
  (forall attempt, 0 <= calculate_delay attempt config (draws attempt) <= longest_delay config) /\
  calculate_delay 1 config (draws 1) = 0 /\
  sleeps_within config (Nat.pred (Z.to_nat (max_attempts config))) w
    (retry_with_backoff operation config draws w).2.
Proof.
  intros Hc Hf. split_and!; [|done|].
  - intros attempt. destruct (Hf attempt). by apply calculate_delay_bounds.
  - apply (backoff_loop_sleeps config draws (Z.to_nat (max_attempts config)) 1 None w); done.
Qed.
End properties.

(** The first test of [is_retryable_exception] is subsumed by the second: an
    entry matches every class whose name contains it. *)
Lemma prefix_refl s : String.prefix s s = true.
Proof. induction s as [|c s IH]; simpl; [done|]. by destruct (Ascii.ascii_dec c c). Qed.

Lemma contains_refl s : contains s s = true.
Proof. destruct s; [done|]. unfold contains. fold contains. by rewrite prefix_refl. Qed.

Lemma retryable_is_substring e rs :
  is_retryable_exception e rs = existsb (fun r => contains r (exn_class e)) rs.
Proof.
  unfold is_retryable_exception. destruct (existsb _ rs) eqn:E; [|done]. symmetry.
  apply existsb_exists in E as (r & Hr & ->%String.eqb_eq). apply existsb_exists.
  exists r. split; [done|]. apply contains_refl.
Qed.

Module RetryManager.
Record ModelRetryStatistics : Type := Statistics {
  total_operations : Z;
  successful_operations : Z;
  failed_operations : Z;
  total_retries : Z;
  average_attempts : Q;
  common_exceptions : gmap string Z;
}.

Record t : Type := Manager {
  manager_config : ModelRetryConfig;
  statistics : ModelRetryStatistics;
  _operation_attempts : gmap string Z;
}.

Definition new_statistics : ModelRetryStatistics := Statistics 0 0 0 0 0 ∅.

Definition new (config : option ModelRetryConfig) : t :=
  Manager (default default_config config) new_statistics ∅.

Definition with_statistics (s : ModelRetryStatistics) (m : t) : t :=
  Manager (manager_config m) s (_operation_attempts m).

(** The updates of [execute_with_retry] for one outcome. *)
Definition count_outcome {A} (r : res A) (m : t) : t :=
  let s := statistics m in
  with_statistics
    match r with
    | Ok _ =>
        Statistics (total_operations s + 1) (successful_operations s + 1) (failed_operations s)
          (total_retries s) (average_attempts s) (common_exceptions s)
    | Raise e =>
        if negb (is_Exception e) then s else
        Statistics (total_operations s + 1) (successful_operations s) (failed_operations s + 1)
          (total_retries s) (average_attempts s)
          (match common_exceptions s !! exn_class e with
           | Some n => <[exn_class e := n + 1]> (common_exceptions s)
           | None => <[exn_class e := 1]> (common_exceptions s)
           end)
    end m.

Definition execute_with_retry {S A} (operation : M S A) (config : option ModelRetryConfig)
    (draws : Z -> Q) : M (t * world S) A := fun '(m, w) =>
  let retry_config := default (manager_config m) config in
  match retry_with_backoff operation retry_config draws w with
  | (r, w') => (r, (count_outcome r m, w'))
  end.

Definition get_statistics (m : t) : ModelRetryStatistics * t :=
  let s := statistics m in
  let s' :=
    if 0 <? total_operations s
    then Statistics (total_operations s) (successful_operations s) (failed_operations s)
           (total_retries s)
           (inject_Z (total_operations s + total_retries s) / inject_Z (total_operations s))
           (common_exceptions s)
    else s in
  (s', with_statistics s' m).

Definition reset_statistics (m : t) : t := Manager (manager_config m) new_statistics ∅.

(** What tasks do with a manager they share. An execution's updates come
    after its last suspension point, so executions that overlap count one
    after the other. *)
Inductive op : Type :=
  | Executed (outcome : res unit)
  | Queried
  | WasReset.

Definition step (m : t) (o : op) : t :=
  match o with
  | Executed r => count_outcome r m
  | Queried => (get_statistics m).2
  | WasReset => reset_statistics m
  end.

Definition sum_counts (g : gmap string Z) : Z := map_fold (fun _ n acc => n + acc) 0 g.

Record accurate (s : ModelRetryStatistics) : Prop := Accurate {
  a_total : total_operations s = successful_operations s + failed_operations s;
  a_nonneg : 0 <= successful_operations s /\ 0 <= failed_operations s;
  a_exceptions : sum_counts (common_exceptions s) = failed_operations s;
  a_retries : total_retries s = 0;
}.

Lemma sum_counts_insert_new g k n : g !! k = None -> sum_counts (<[k := n]> g) = n + sum_counts g.
Proof.
  intros Hk. unfold sum_counts. rewrite map_fold_insert_L; [done| |done].
  intros. lia.
Qed.

Lemma sum_counts_insert g k n n' :
  g !! k = Some n -> sum_counts (<[k := n']> g) = n' - n + sum_counts g.
Proof.
  intros Hk. rewrite <- (insert_delete_id g k n Hk) at 2. rewrite <- (insert_delete_eq g k n').
  rewrite !sum_counts_insert_new by apply lookup_delete_eq. lia.
Qed.

Lemma count_outcome_accurate {A} (r : res A) m :
  accurate (statistics m) -> accurate (statistics (count_outcome r m)).
Proof.
  intros [Ht Hn He Hr]. destruct r as [a|e]; [split; simpl; (done || lia)|].
  unfold count_outcome. destruct (is_Exception e); [|by split].
  split; simpl; try done; try lia.
  destruct (common_exceptions (statistics m) !! exn_class e) as [n|] eqn:E.
  - rewrite (sum_counts_insert _ _ _ _ E). lia.
  - rewrite sum_counts_insert_new by done. lia.
Qed.

Lemma step_accurate m o : accurate (statistics m) -> accurate (statistics (step m o)).
Proof.
  intros Hm. destruct o as [r| |]; simpl.
  - by apply count_outcome_accurate.
  - case_match; [|done]. by destruct Hm.
  - by split.
Qed.

Lemma run_accurate config os : accurate (statistics (run step (new config) os)).
Proof.
  apply (run_invariant _ (fun m => accurate (statistics m)) (fun _ => True)).
  - intros. by apply step_accurate.
  - by split.
  - by apply Forall_true.
Qed.

(** The counts of a retry manager add up after any use: every
    operation counted was a success or a failure, and each failure is counted
    under one exception class; a cancelled operation is not counted. But no code updates [total_retries]: the average
    number of attempts that [get_statistics] reports is 1 as soon as there is
    an operation, however often operations were retried. *)
Theorem manager_statistics (config : option ModelRetryConfig) (os : list op) :
  let s := (get_statistics (run step (new config) os)).1 in
  total_operations s = successful_operations s + failed_operations s /\
  sum_counts (common_exceptions s) = failed_operations s /\
  total_retries s = 0 /\
  (0 < total_operations s -> (average_attempts s == 1)%Q).
Proof.
  intros s. destruct (run_accurate config os) as [Ht Hn He Hr]. unfold s, get_statistics.
  set (m := run step (new config) os) in *. destruct (0 <? total_operations (statistics m)) eqn:E;
    simpl; breflect; split_and!; try done.
  - intros _. rewrite Hr, Z.add_0_r. unfold Qdiv. apply Qmult_inv_r. intros H0.
    assert (Hq : (inject_Z (total_operations (statistics m)) == inject_Z 0)%Q) by exact H0.
    rewrite inject_Z_injective in Hq. lia.
  - lia.
Qed.
End RetryManager.

(** ** Runs *)

(** An operation that fails twice, with a class the default configuration
    retries, and then counts its calls. *)
Definition flaky : M nat nat := fun n =>
  if (n <? 2)%nat then (Raise (OtherException "ConnectionError" "down"), S n) else (Ok n, S n).

Definition start : world nat := World 0%nat [] [].
Definition half (_ : Z) : Q := 1 # 2.

Lemma retries_meet_spec_witness :
  1 <= max_attempts default_config /\
  tries flaky (accepts default_config) 3 0%nat (Ok 2%nat) 3%nat.
Proof.
  split; [done|].
  exact (proj1 (retries_meet_spec flaky default_config half 1 2 start start ltac:(done) eq_refl)).
Defined.

Lemma default_config_valid : config_valid default_config.
Proof. unfold config_valid. simpl. split_and!; try done. Qed.

Lemma retry_delays_bounded_witness :
  slept (retry_with_backoff flaky default_config half start).2 = [1000%Q; 2000%Q] /\
  sleeps_within default_config 2 start (retry_with_backoff flaky default_config half start).2.
Proof.
  split; [by vm_compute|].
  apply (retry_delays_bounded flaky default_config half start default_config_valid).
  intros i. split; done.
Defined.

(** Jitter is added after the delay was capped: a delay can exceed
    [max_delay_ms]. *)
Example delay_exceeds_maximum :
  calculate_delay 7 (RetryConfig 10 1000 30000 2 true []) (9 # 10) = 36000.
Proof. by vm_compute. Qed.

(** A synchronous function that raises [RuntimeError] inside a running loop:
    its error is lost. *)
Example sync_wrapper_masks_error :
  (sync_wrapper true (raise (RuntimeError "disk full") : M (world nat) nat) start).1
  = Raise (RuntimeError "asyncio.run() cannot be called from a running event loop").
Proof. done. Qed.

Example average_ignores_retries :
  let m := RetryManager.new None in
  match RetryManager.execute_with_retry flaky None half (m, start) with
  | (_, (m', w)) =>
      length (attempts w) = 3%nat /\
      (RetryManager.average_attempts (RetryManager.get_statistics m').1 == 1)%Q
  end.
Proof. by vm_compute. Qed.
