(* ===== verification/FileStore.v ===== *)
(** * The file store of memory snapshots

    Models [HandlerFileSystemAdapter] of src/src/omnimemory/nodes/
    node_memory_storage_effect/adapters/adapter_filesystem.py. The file-system
    handler it drives, the snapshots with their JSON, UTF-8 encoding and
    [Path.resolve] are arguments: they belong to other packages or to the
    operating system. [Ideal] is a handler that keeps files as a map; over it
    the adapter implements a map from identifiers to snapshots. *)

From S2P Require Import Prelude.

(** The exceptions of the handler and of the JSON parser that the adapter
    tells apart. Of an [InfraConnectionError] it looks at the chain of causes
    and at the error code. *)
Inductive cause : Type := FileNotFoundCause | PermissionCause | OtherCause.

Inductive fs_exn : Type :=
  | FileNotFoundError (msg : string)
  | PermissionError (msg : string)
  | IsADirectoryError (msg : string)
  | NotADirectoryError (msg : string)
  | FsTimeoutError (msg : string)
  | FsOSError (msg : string)
  | InfraConnectionError (causes : list cause) (error_code : option string) (msg : string)
  | ValidationError (msg : string)
  | JSONDecodeError (msg : string)
  | UnicodeDecodeError (msg : string)
  | UnicodeEncodeError (msg : string)
  | FsRuntimeError (msg : string)
  | UnexpectedError (msg : string).

Definition fs_str (e : fs_exn) : string :=
  match e with
  | FileNotFoundError m | PermissionError m | IsADirectoryError m | NotADirectoryError m
  | FsTimeoutError m | FsOSError m | InfraConnectionError _ _ m | ValidationError m
  | JSONDecodeError m | UnicodeDecodeError m | UnicodeEncodeError m | FsRuntimeError m
  | UnexpectedError m => m
  end.

(** [isinstance(e, OSError)] *)
Definition is_os_error (e : fs_exn) : bool :=
  match e with
  | FileNotFoundError _ | PermissionError _ | IsADirectoryError _ | NotADirectoryError _
  | FsTimeoutError _ | FsOSError _ => true
  | _ => false
  end.

Definition is_cause (c : cause) (d : cause) : bool :=
  match c, d with
  | FileNotFoundCause, FileNotFoundCause | PermissionCause, PermissionCause => true
  | _, _ => false
  end.

(** The helpers, on an [InfraConnectionError]. *)
Definition _is_not_found_infra_error (causes : list cause) (error_code : option string)
    (msg : string) : bool :=
  if existsb (is_cause FileNotFoundCause) causes then true
  else
    let by_code :=
      match error_code with
      | Some code =>
          existsb (fun pattern => contains pattern (upper code))
            ["RESOURCE_NOT_FOUND"; "NOT_FOUND"; "FILE_NOT_FOUND"]
      | None => false
      end in
    if by_code then true else contains "not found:" (lower msg).

Definition _is_permission_denied_infra_error (causes : list cause) (error_code : option string)
    (msg : string) : bool :=
  if existsb (is_cause PermissionCause) causes then true
  else
    let by_code :=
      match error_code with
      | Some code =>
          existsb (fun pattern => contains pattern (upper code))
            ["PERMISSION_DENIED"; "ACCESS_DENIED"; "FORBIDDEN"]
      | None => false
      end in
    if by_code then true
    else contains "permission denied" (lower msg) || contains "access denied" (lower msg).

(** [Path(name).stem], for a name without a separator: up to the last dot,
    unless that is the first or the last character. *)
Fixpoint rfind_dot (s : string) : option nat :=
  match s with
  | EmptyString => None
  | String c s =>
      match rfind_dot s with
      | Some i => Some (S i)
      | None => if Ascii.eqb c "." then Some O else None
      end
  end.

Definition stem (name : string) : string :=
  match rfind_dot name with
  | Some i => if (0 <? i)%nat && (i <? String.length name - 1)%nat
              then String.substring 0 i name else name
  | None => name
  end.

Inductive fs_operation : Type := EnsureDirectory | WriteFile | ReadFile | DeleteFile | ListDirectory.

(** What [_build_envelope] sends, its fresh identifiers left out. *)
Record envelope : Type := Envelope {
  env_operation : fs_operation;
  env_path : string;
  env_content : option string;
}.

(** The dictionary [result.result], when it is there and not empty. *)
Record handler_result : Type := HandlerResult {
  hr_status : option string;
  hr_error : option string;
  hr_content : option string;
  hr_entries : option (list (option string));
}.

Inductive reply : Type :=
  | Result (result : option handler_result)
  | Raised (e : fs_exn).

Definition has_status (status : string) (r : handler_result) : bool :=
  bool_decide (hr_status r = Some status).

Inductive response_status : Type := success | error | not_found | permission_denied.

#[export] Instance response_status_eq_dec : EqDecision response_status.
Proof. solve_decision. Defined.

Create HintDb filestore.

Section adapter.
Context {snapshot S : Type}.

(** ** Requests and responses *)

Inductive ModelMemoryStorageRequest : Type :=
  | StoreRequest (s : option snapshot)
  | RetrieveRequest (snapshot_id : option string)
  | DeleteRequest (snapshot_id : option string)
  | UpdateRequest (s : option snapshot)
  | ListRequest.

Record ModelMemoryStorageResponse : Type := Response {
  r_status : response_status;
  r_snapshot : option snapshot;
  r_snapshot_ids : option (list string);
  r_error_message : option string;
}.

Definition failed (status : response_status) (msg : string) : ModelMemoryStorageResponse :=
  Response status None None (Some msg).

(** ** The environment *)

Context (snapshot_id_of : snapshot -> string)
        (model_dump_json : snapshot -> string)
        (model_validate_json : string -> snapshot + fs_exn)
        (encoded_length : string -> res Z)
        (resolve : string -> M S string)
        (handler : envelope -> S -> reply * S)
        (handler_initialize : S -> option fs_exn * S)
        (handler_shutdown : S -> S)
        (exists_path is_dir : string -> S -> bool).

(** The configuration: [str(self._snapshots_path)], and [max_file_size]. *)
Context (snapshots_path : string) (max_file_size : Z).

(** The adapter's flag, and the state of everything else. *)
Record world : Type := World {
  _initialized : bool;
  outside : S;
}.

(** [self._snapshots_path / f"{snapshot_id}.json"]: the identifier has no
    separator when this is used. *)
Definition file_path (snapshot_id : string) : string :=
  snapshots_path +:+ "/" +:+ snapshot_id +:+ ".json".

Definition run_outside {A} (m : M S A) : M world A := fun w =>
  ((m (outside w)).1, World (_initialized w) (m (outside w)).2).

Definition call (e : envelope) : M world reply :=
  run_outside (fun s => (Ok (handler e s).1, (handler e s).2)).

Definition _validate_snapshot_id (snapshot_id : string) : M world (option string) :=
  if String.eqb snapshot_id "" then ret (Some "snapshot_id cannot be empty")
  else if contains "/" snapshot_id || contains "\" snapshot_id
  then ret (Some "snapshot_id contains invalid path characters")
  else if contains ".." snapshot_id
  then ret (Some "snapshot_id contains path traversal sequence")
  else
    let! file := run_outside (resolve (file_path snapshot_id)) in
    let! directory := run_outside (resolve snapshots_path) in
    ret (if negb (String.prefix directory file)
         then Some "snapshot_id resolves outside allowed directory" else None).

(** ** Initialisation *)

(** How an exception leaves [initialize]. *)
Definition reraised (e : fs_exn) : exn :=
  match e with
  | PermissionError m => OtherException "PermissionError" m
  | FsTimeoutError m => RuntimeError ("Initialization timed out: " +:+ m)
  | FileNotFoundError m => OtherException "FileNotFoundError" m
  | IsADirectoryError m => OtherException "IsADirectoryError" m
  | NotADirectoryError m => OtherException "NotADirectoryError" m
  | FsOSError m => OSError m
  | FsRuntimeError m => RuntimeError m
  | InfraConnectionError _ _ m | ValidationError m | JSONDecodeError m | UnicodeDecodeError m
  | UnicodeEncodeError m | UnexpectedError m => RuntimeError ("Initialization failed: " +:+ m)
  end.

Definition initialize : M world unit :=
  let! w := get in
  if _initialized w then ret tt
  else
    let! started := run_outside (fun s => (Ok (handler_initialize s).1, (handler_initialize s).2)) in
    match started with
    | Some e => raise (reraised e)
    | None =>
        let! r := call (Envelope EnsureDirectory snapshots_path None) in
        match r with
        | Raised e => raise (reraised e)
        | Result result =>
            let created := match result with Some d => has_status "success" d | None => false end in
            if negb created then
              raise (RuntimeError ("Failed to create snapshots directory '" +:+ snapshots_path +:+
                "': " +:+ match result with
                          | Some d => default "Directory creation failed" (hr_error d)
                          | None => "Directory creation returned no result"
                          end))
            else
              let! w := get in
              if negb (exists_path snapshots_path (outside w)) then
                raise (RuntimeError ("Directory creation reported success but '" +:+
                  snapshots_path +:+ "' does not exist on filesystem"))
              else if negb (is_dir snapshots_path (outside w)) then
                raise (RuntimeError ("Path '" +:+ snapshots_path +:+
                  "' exists but is not a directory"))
              else modify (fun w => World true (outside w))
        end
    end.

(** ** The operations *)

(** What [_store] answers to the handler's reply. *)
Definition stored (s : snapshot) (file : string) (r : reply) : ModelMemoryStorageResponse :=
  match r with
  | Result (Some d) =>
      if has_status "success" d then Response success (Some s) None None
      else failed error (default "Write operation failed" (hr_error d))
  | Result None => failed error "Write operation failed"
  | Raised e =>
      match e with
      | PermissionError m =>
          failed permission_denied ("Permission denied writing to " +:+ file +:+ ": " +:+ m)
      | FsTimeoutError m => failed error ("Store operation timed out: " +:+ m)
      | FileNotFoundError m | IsADirectoryError m | NotADirectoryError m | FsOSError m =>
          failed error ("I/O error storing snapshot: " +:+ m)
      | InfraConnectionError causes code m =>
          if _is_permission_denied_infra_error causes code m
          then failed permission_denied ("Permission denied writing to " +:+ file +:+ ": " +:+ m)
          else failed error ("Store failed: " +:+ m)
      | UnicodeEncodeError m => failed error ("Snapshot contains invalid characters: " +:+ m)
      | ValidationError m | JSONDecodeError m | UnicodeDecodeError m | FsRuntimeError m
      | UnexpectedError m => failed error ("Store failed: " +:+ m)
      end
  end.

Definition _store (request : option snapshot) : M world ModelMemoryStorageResponse :=
  match request with
  | None => ret (failed error "snapshot is required for store operation")
  | Some s =>
      let snapshot_id := snapshot_id_of s in
      let! validation_error := _validate_snapshot_id snapshot_id in
      match validation_error with
      | Some e => ret (failed error ("Invalid snapshot_id: " +:+ e))
      | None =>
          let content := model_dump_json s in
          let! size := fun w => (encoded_length content, w) in
          if max_file_size <? size then
            ret (failed error ("Snapshot exceeds maximum file size of " +:+
                               pretty max_file_size +:+ " bytes"))
          else
            let! r := call (Envelope WriteFile (file_path snapshot_id) (Some content)) in
            ret (stored s (file_path snapshot_id) r)
      end
  end.

Definition _update (request : option snapshot) : M world ModelMemoryStorageResponse :=
  _store request.

Definition not_found_response (snapshot_id : string) : ModelMemoryStorageResponse :=
  failed not_found ("Snapshot " +:+ snapshot_id +:+ " not found").

(** The [except] clauses of [_retrieve]; the parser's exceptions end there too. *)
Definition retrieve_failed (snapshot_id : string) (e : fs_exn) : ModelMemoryStorageResponse :=
  let denied m :=
    failed permission_denied ("Permission denied reading " +:+ file_path snapshot_id +:+ ": " +:+ m) in
  match e with
  | FileNotFoundError _ => not_found_response snapshot_id
  | PermissionError m => denied m
  | ValidationError m => failed error ("Invalid snapshot data format: " +:+ m)
  | FsTimeoutError m => failed error ("Retrieve operation timed out: " +:+ m)
  | IsADirectoryError m | NotADirectoryError m | FsOSError m =>
      failed error ("I/O error retrieving snapshot: " +:+ m)
  | InfraConnectionError causes code m =>
      if _is_not_found_infra_error causes code m then not_found_response snapshot_id
      else if _is_permission_denied_infra_error causes code m then denied m
      else failed error ("Retrieve failed: " +:+ m)
  | JSONDecodeError m => failed error ("Snapshot file contains invalid JSON: " +:+ m)
  | UnicodeDecodeError m => failed error ("Snapshot file contains invalid encoding: " +:+ m)
  | UnicodeEncodeError m | FsRuntimeError m | UnexpectedError m =>
      failed error ("Retrieve failed: " +:+ m)
  end.

Definition retrieved (snapshot_id : string) (r : reply) : ModelMemoryStorageResponse :=
  match r with
  | Result (Some d) =>
      if has_status "success" d then
        match model_validate_json (default "" (hr_content d)) with
        | inl s => Response success (Some s) None None
        | inr e => retrieve_failed snapshot_id e
        end
      else if has_status "not_found" d then not_found_response snapshot_id
      else failed error (default "Read operation failed" (hr_error d))
  | Result None => failed error "Read operation failed"
  | Raised e => retrieve_failed snapshot_id e
  end.

Definition _retrieve (request : option string) : M world ModelMemoryStorageResponse :=
  match request with
  | None => ret (failed error "snapshot_id is required for retrieve operation")
  | Some snapshot_id =>
      let! validation_error := _validate_snapshot_id snapshot_id in
      match validation_error with
      | Some e => ret (failed error ("Invalid snapshot_id: " +:+ e))
      | None =>
          let! r := call (Envelope ReadFile (file_path snapshot_id) None) in
          ret (retrieved snapshot_id r)
      end
  end.

Definition deleted (snapshot_id : string) (r : reply) : ModelMemoryStorageResponse :=
  let file := file_path snapshot_id in
  match r with
  | Result (Some d) =>
      if has_status "success" d then Response success None None None
      else if has_status "not_found" d then not_found_response snapshot_id
      else if has_status "permission_denied" d
      then failed permission_denied ("Permission denied deleting " +:+ file)
      else failed error (default "Delete operation failed" (hr_error d))
  | Result None => failed error "Delete operation returned no result"
  | Raised e =>
      let denied m :=
        failed permission_denied ("Permission denied deleting " +:+ file +:+ ": " +:+ m) in
      match e with
      | FileNotFoundError _ => not_found_response snapshot_id
      | PermissionError m => denied m
      | IsADirectoryError _ => failed error ("Cannot delete: " +:+ file +:+ " is a directory")
      | FsTimeoutError m => failed error ("Delete operation timed out: " +:+ m)
      | NotADirectoryError m | FsOSError m => failed error ("I/O error deleting snapshot: " +:+ m)
      | InfraConnectionError causes code m =>
          if _is_not_found_infra_error causes code m then not_found_response snapshot_id
          else if _is_permission_denied_infra_error causes code m then denied m
          else failed error ("Delete failed: " +:+ m)
      | ValidationError m | JSONDecodeError m | UnicodeDecodeError m | UnicodeEncodeError m
      | FsRuntimeError m | UnexpectedError m => failed error ("Delete failed: " +:+ m)
      end
  end.

Definition _delete (request : option string) : M world ModelMemoryStorageResponse :=
  match request with
  | None => ret (failed error "snapshot_id is required for delete operation")
  | Some snapshot_id =>
      let! validation_error := _validate_snapshot_id snapshot_id in
      match validation_error with
      | Some e => ret (failed error ("Invalid snapshot_id: " +:+ e))
      | None =>
          let! r := call (Envelope DeleteFile (file_path snapshot_id) None) in
          ret (deleted snapshot_id r)
      end
  end.

(** The identifiers of a listing: entries without a name count as empty. *)
Definition snapshot_ids (entries : list (option string)) : list string :=
  stem <$> filter (fun name => ends_with ".json" name = true) (default "" <$> entries).

Definition listed (r : reply) : ModelMemoryStorageResponse :=
  let missing := failed error ("Snapshots directory not found: " +:+ snapshots_path) in
  match r with
  | Result (Some d) =>
      if has_status "success" d
      then Response success None (Some (snapshot_ids (default [] (hr_entries d)))) None
      else if has_status "not_found" d then missing
      else if has_status "permission_denied" d
      then failed permission_denied ("Permission denied listing " +:+ snapshots_path)
      else failed error (default "List operation failed" (hr_error d))
  | Result None => failed error "List operation returned no result"
  | Raised e =>
      match e with
      | FileNotFoundError _ => missing
      | PermissionError m =>
          failed permission_denied ("Permission denied listing " +:+ snapshots_path +:+ ": " +:+ m)
      | NotADirectoryError _ =>
          failed error ("Cannot list: " +:+ snapshots_path +:+ " is not a directory")
      | FsTimeoutError m => failed error ("List operation timed out: " +:+ m)
      | IsADirectoryError m | FsOSError m => failed error ("I/O error listing snapshots: " +:+ m)
      | InfraConnectionError causes code m =>
          if _is_not_found_infra_error causes code m then missing
          else failed error ("List failed: " +:+ m)
      | ValidationError m | JSONDecodeError m | UnicodeDecodeError m | UnicodeEncodeError m
      | FsRuntimeError m | UnexpectedError m => failed error ("List failed: " +:+ m)
      end
  end.

Definition _list : M world ModelMemoryStorageResponse :=
  let! r := call (Envelope ListDirectory snapshots_path None) in
  ret (listed r).

Definition execute (request : ModelMemoryStorageRequest) : M world ModelMemoryStorageResponse :=
  let! w := get in
  do! if _initialized w then ret tt else initialize;
  match request with
  | StoreRequest s => _store s
  | RetrieveRequest i => _retrieve i
  | DeleteRequest i => _delete i
  | UpdateRequest s => _update s
  | ListRequest => _list
  end.

Definition shutdown (w : world) : world :=
  if _initialized w then World false (handler_shutdown (outside w)) else w.

(** ** Every request is answered *)

(** A response has an error message unless it is a success, and then nothing
    else. *)
Definition well_formed (r : ModelMemoryStorageResponse) : Prop :=
  if decide (r_status r = success) then r_error_message r = None
  else r_snapshot r = None /\ r_snapshot_ids r = None /\ r_error_message r <> None.

Lemma failed_well_formed status msg : status <> success -> well_formed (failed status msg).
Proof. intros ?. unfold well_formed. simpl. by case_decide. Qed.

#[local] Hint Resolve failed_well_formed : filestore.

Lemma retrieve_failed_well_formed i e : well_formed (retrieve_failed i e).
Proof. unfold retrieve_failed, not_found_response. repeat case_match; by apply failed_well_formed. Qed.

Lemma stored_well_formed s file r : well_formed (stored s file r).
Proof. unfold stored. repeat case_match; try done; by apply failed_well_formed. Qed.

Lemma retrieved_well_formed i r : well_formed (retrieved i r).
Proof.
  unfold retrieved, not_found_response. repeat case_match;
    try apply retrieve_failed_well_formed; try done; by apply failed_well_formed.
Qed.

Lemma deleted_well_formed i r : well_formed (deleted i r).
Proof.
  unfold deleted, not_found_response. repeat case_match; try done; by apply failed_well_formed.
Qed.

Lemma listed_well_formed r : well_formed (listed r).
Proof. unfold listed. repeat case_match; try done; by apply failed_well_formed. Qed.

Definition resolves : Prop := forall path s, is_Ok (resolve path s).1.
Definition encodes : Prop := forall content, is_Ok (encoded_length content).

Definition answers (r : res ModelMemoryStorageResponse) (w w' : world) : Prop :=
  (exists a, r = Ok a /\ well_formed a) /\ _initialized w' = _initialized w.

Lemma wp_outside {A} (m : M S A) Q w :
  wp (run_outside m) Q w <->
  Q (m (outside w)).1 (World (_initialized w) (m (outside w)).2).
Proof. done. Qed.

Lemma wp_validate (Q : res (option string) -> world -> Prop) w snapshot_id :
  resolves ->
  (forall v w', _initialized w' = _initialized w -> Q (Ok v) w') ->
  wp (_validate_snapshot_id snapshot_id) Q w.
Proof.
  intros Hr HQ. unfold _validate_snapshot_id. repeat (case_match; [by apply HQ|]).
  wp_step. rewrite wp_outside. destruct (Hr (file_path snapshot_id) (outside w)) as [f ->]. simpl.
  wp_step. rewrite wp_outside. simpl.
  destruct (Hr snapshots_path (resolve (file_path snapshot_id) (outside w)).2) as [d ->]. simpl.
  wp_step. by apply HQ.
Qed.

Lemma wp_handler_call Q w e :
  (forall r w', _initialized w' = _initialized w -> Q (Ok r) w') -> wp (call e) Q w.
Proof. intros HQ. unfold call. rewrite wp_outside. by apply HQ. Qed.

Lemma answers_ret (a : ModelMemoryStorageResponse) w w' :
  well_formed a -> _initialized w' = _initialized w ->
  wp (ret a) (fun r w'' => answers r w w'') w'.
Proof. intros Ha Hw. wp_step. split; [by exists a|done]. Qed.

Lemma store_answers request w :
  resolves -> encodes -> wp (_store request) (fun r w' => answers r w w') w.
Proof.
  intros Hr He. destruct request as [s|]; simpl; [|apply answers_ret; auto with filestore].
  unfold _store. wp_step. apply wp_validate; [done|]. intros [v|] w1 H1.
  { apply answers_ret; auto with filestore. }
  wp_step. destruct (He (model_dump_json s)) as [size Hs]. unfold wp at 1. rewrite Hs. simpl.
  case_match; [apply answers_ret; auto with filestore|].
  wp_step. apply wp_handler_call. intros r w2 H2. apply answers_ret; [apply stored_well_formed|congruence].
Qed.

(** Once initialised, and unless a path cannot be resolved or a
    snapshot cannot be encoded, the adapter answers every request, whatever
    the file-system handler and the JSON parser do: no exception escapes; a
    failure has a message and no data, a success no message; and the adapter
    stays initialised. *)
Theorem execute_answers (request : ModelMemoryStorageRequest) (w : world) :
  _initialized w = true -> resolves -> encodes ->
  (exists a, (execute request w).1 = Ok a /\ well_formed a) /\
  _initialized (execute request w).2 = true.
Proof.
  intros Hw Hr He. rewrite <- Hw.
  assert (H : wp (execute request) (fun r w' => answers r w w') w); [|exact H].
  unfold execute. wp_step. unfold get. unfold wp at 1. simpl. rewrite Hw. wp_step.
  destruct request as [s|[i|]|[i|]|s|]; simpl;
    try (by apply store_answers); try (by apply answers_ret; auto with filestore);
    try (wp_step; apply wp_validate; [done|]; intros [v|] w1 H1;
         [by apply answers_ret; auto with filestore|]).
  - wp_step. apply wp_handler_call. intros r w2 H2.
    apply answers_ret; [apply retrieved_well_formed|congruence].
  - wp_step. apply wp_handler_call. intros r w2 H2.
    apply answers_ret; [apply deleted_well_formed|congruence].
  - unfold _list. wp_step. apply wp_handler_call. intros r w2 H2.
    apply answers_ret; [apply listed_well_formed|done].
Qed.
End adapter.

(** ** The adapter stays in its directory *)

(** Identifiers that can name a file of the directory only. *)
Definition plain (snapshot_id : string) : Prop :=
  snapshot_id <> "" /\ contains "/" snapshot_id = false /\ contains "\" snapshot_id = false /\
  contains ".." snapshot_id = false.

Section confinement.
Context {snapshot S : Type}
        (snapshot_id_of : snapshot -> string)
        (model_dump_json : snapshot -> string)
        (model_validate_json : string -> snapshot + fs_exn)
        (encoded_length : string -> res Z)
        (resolve : string -> M S string)
        (handler_initialize : S -> option fs_exn * S)
        (exists_path is_dir : string -> S -> bool)
        (snapshots_path : string) (max_file_size : Z).

(** The adapter over a given handler. *)
Definition execute_over (handler : envelope -> S -> reply * S) :=
  execute snapshot_id_of model_dump_json model_validate_json encoded_length resolve handler
    handler_initialize exists_path is_dir snapshots_path max_file_size.

(** The envelopes that concern the directory itself or a file right inside. *)
Definition confined (e : envelope) : Prop :=
  env_path e = snapshots_path \/
  exists snapshot_id, plain snapshot_id /\ env_path e = file_path snapshots_path snapshot_id.

Lemma validate_plain snapshot_id (w w' : @world S) :
  _validate_snapshot_id resolve snapshots_path snapshot_id w = (Ok None, w') -> plain snapshot_id.
Proof.
  unfold _validate_snapshot_id. case_match eqn:E0; [done|]. case_match eqn:E1; [done|].
  case_match eqn:E2; [done|]. intros _. apply orb_false_iff in E1 as [? ?].
  apply String.eqb_neq in E0. done.
Qed.

Section two_handlers.
Context (h1 h2 : envelope -> S -> reply * S).
Hypothesis agree : forall e s, confined e -> h1 e s = h2 e s.

Lemma call_agree e w : confined e -> call h1 e w = call h2 e w.
Proof using agree. intros He. unfold call, run_outside. by rewrite agree. Qed.

(** After a validated identifier, calls on its file agree. *)
Lemma validated_agree {A} snapshot_id (w : @world S) (k1 k2 : option string -> M world A) :
  (forall v w', v = None -> plain snapshot_id -> k1 v w' = k2 v w') ->
  (forall v w', v <> None -> k1 v w' = k2 v w') ->
  bind (_validate_snapshot_id resolve snapshots_path snapshot_id) k1 w =
  bind (_validate_snapshot_id resolve snapshots_path snapshot_id) k2 w.
Proof using Type.
  intros H1 H2. unfold bind.
  destruct (_validate_snapshot_id _ _ _ w) as [[[v|]|e] w'] eqn:E; [by apply H2| |done].
  apply H1; [done|]. by eapply validate_plain.
Qed.

Lemma bind_call_agree {A} e w (k : reply -> M world A) :
  confined e -> bind (call h1 e) k w = bind (call h2 e) k w.
Proof using agree. intros He. unfold bind. by rewrite call_agree. Qed.

Lemma bind_cong {X A B} (m1 m2 : M X A) (k1 k2 : A -> M X B) w :
  m1 w = m2 w -> (forall a w', k1 a w' = k2 a w') -> bind m1 k1 w = bind m2 k2 w.
Proof using Type. intros E Hk. unfold bind. rewrite E. by destruct (m2 w) as [[] ?]. Qed.

Lemma initialize_agree w :
  initialize h1 handler_initialize exists_path is_dir snapshots_path w =
  initialize h2 handler_initialize exists_path is_dir snapshots_path w.
Proof using agree.
  unfold initialize. apply bind_cong; [done|]. intros w1 w2. case_match; [done|].
  apply bind_cong; [done|]. intros [e|] w3; [done|].
  apply bind_call_agree. by left.
Qed.

Lemma store_agree request w :
  _store snapshot_id_of model_dump_json encoded_length resolve h1 snapshots_path max_file_size
    request w =
  _store snapshot_id_of model_dump_json encoded_length resolve h2 snapshots_path max_file_size
    request w.
Proof using agree.
  destruct request as [s|]; [|done]. unfold _store. apply validated_agree.
  - intros v w' -> Hp. apply bind_cong; [done|]. intros size w2. case_match; [done|].
    apply bind_call_agree. right. by exists (snapshot_id_of s).
  - by intros [v|] w' ?.
Qed.

(** C21: whatever identifiers a caller sends, the adapter asks the
    file-system handler only about the snapshots directory itself, and about
    files [<snapshot_id>.json] right inside it whose identifier has no
    separator and no [..]: two handlers that agree there cannot be told apart
    by any request. *)
Theorem execute_confined (request : ModelMemoryStorageRequest) (w : world) :
  execute_over h1 request w = execute_over h2 request w.
Proof using agree.
  unfold execute_over, execute. apply bind_cong; [done|]. intros w1 w2. apply bind_cong.
  { case_match; [done|]. apply initialize_agree. }
  intros _ w3. destruct request as [s|[i|]|[i|]|s|]; simpl; try done; try apply store_agree.
  - apply validated_agree; [|by intros [v|] ? ?]. intros v w' -> Hp.
    apply bind_call_agree. right. by exists i.
  - apply validated_agree; [|by intros [v|] ? ?]. intros v w' -> Hp.
    apply bind_call_agree. right. by exists i.
  - apply bind_call_agree. by left.
Qed.
End two_handlers.
End confinement.

(** ** The adapter implements a map of snapshots *)

Lemma prefix_app a b : String.prefix a (a +:+ b) = true.
Proof. induction a as [|c a IH]; simpl; [by destruct b|]. by destruct (Ascii.ascii_dec c c). Qed.

Lemma string_length_app a b : String.length (a +:+ b) = (String.length a + String.length b)%nat.
Proof. induction a as [|c a IH]; simpl; [done|]. by rewrite IH. Qed.

Lemma append_cancel_r a b c : a +:+ c = b +:+ c -> a = b.
Proof.
  revert b. induction a as [|x a IH]; intros [|y b]; simpl; [done|..].
  - intros E. apply (f_equal String.length) in E.
    rewrite ?string_length_app in E. simpl in E. rewrite ?string_length_app in E. lia.
  - intros E. apply (f_equal String.length) in E.
    rewrite ?string_length_app in E. simpl in E. rewrite ?string_length_app in E. lia.
  - intros [= -> E]. f_equal. by apply IH.
Qed.

#[export] Instance file_path_inj dir : Inj (=) (=) (file_path dir).
Proof.
  intros a b. unfold file_path. intros E. apply (inj _) in E. simpl in E. injection E as E.
  by eapply append_cancel_r.
Qed.

Lemma rfind_dot_json id : rfind_dot (id +:+ ".json") = Some (String.length id).
Proof. induction id as [|c id IH]; [done|]. simpl. by rewrite IH. Qed.

Lemma substring_app a b : String.substring 0 (String.length a) (a +:+ b) = a.
Proof. induction a as [|c a IH]; simpl; [by destruct b|]. by rewrite IH. Qed.

Lemma stem_json id : id <> "" -> stem (id +:+ ".json") = id.
Proof.
  intros Hid. unfold stem. rewrite rfind_dot_json, string_length_app. simpl.
  assert (0 < String.length id)%nat by (destruct id; simpl; [done|lia]).
  rewrite (proj2 (Nat.ltb_lt _ _)) by lia. simpl.
  rewrite (proj2 (Nat.ltb_lt _ _)) by lia. apply substring_app.
Qed.

Lemma ends_with_refl s : ends_with s s = true.
Proof. destruct s; unfold ends_with; fold ends_with; by rewrite bool_decide_true. Qed.

Lemma ends_with_app a s : ends_with s (a +:+ s) = true.
Proof. induction a as [|c a IH]; simpl; [apply ends_with_refl|]. by rewrite IH, orb_true_r. Qed.

#[export] Instance plain_dec id : Decision (plain id).
Proof. unfold plain. apply _. Defined.

Lemma contains_char c s : contains (String c "") s = has_char c s.
Proof.
  induction s as [|d s IH]; [done|]. unfold contains. fold contains. rewrite IH. simpl.
  destruct (Ascii.ascii_dec c d) as [->|Hne].
  - rewrite Ascii.eqb_refl. by destruct s.
  - by apply Ascii.eqb_neq in Hne as ->.
Qed.

Lemma has_char_app c a b : has_char c (a +:+ b) = has_char c a || has_char c b.
Proof. induction a as [|d a IH]; simpl; [done|]. by rewrite IH, orb_assoc. Qed.

Lemma plain_name i : plain i -> contains "/" (i +:+ ".json") = false.
Proof.
  intros (_ & Hs & _). rewrite contains_char in *. by rewrite has_char_app, Hs.
Qed.

Section refinement.
Context {snapshot S : Type}
        (snapshot_id_of : snapshot -> string)
        (model_dump_json : snapshot -> string)
        (model_validate_json : string -> snapshot + fs_exn)
        (encoded_length : string -> res Z)
        (resolve : string -> M S string)
        (handler : envelope -> S -> reply * S)
        (handler_initialize : S -> option fs_exn * S)
        (exists_path is_dir : string -> S -> bool)
        (snapshots_path : string) (max_file_size : Z)
        (files : S -> gmap string string) (bytes : string -> Z).

(** A reply that says that the file is not there, in any of the ways the
    adapter knows. *)
Definition says_missing (r : reply) : Prop :=
  match r with
  | Raised (FileNotFoundError _) => True
  | Raised (InfraConnectionError causes code m) => _is_not_found_infra_error causes code m = true
  | Result (Some d) => hr_status d = Some "not_found"
  | _ => False
  end.

Definition says_done (r : reply) (d : handler_result) : Prop :=
  r = Result (Some d) /\ has_status "success" d = true.

(** What the surroundings do not refuse: [usable i s], that a file named after
    [i] can be resolved (no null character, no name that is too long) and
    is no link out of the directory; [serves e s], that the handler carries the
    call [e] out (the path is one it allows, the contents are within its
    limits, the disk is neither full nor broken). Both are left open: they are
    asked for call by call, of the calls a run makes. *)
Context (usable : string -> S -> Prop) (serves : envelope -> S -> Prop).

Definition on_file (op : fs_operation) (i : string) (c : option string) : envelope :=
  Envelope op (file_path snapshots_path i) c.

(** A handler that keeps the files [files s]: what its documentation says of
    the calls it serves, about files of the directory and the directory itself;
    and that JSON and UTF-8 do for snapshots what they are for. *)
Record file_system : Prop := FileSystem {
  fs_json : forall s, model_validate_json (model_dump_json s) = inl s;
  fs_bytes : forall s, encoded_length (model_dump_json s) = Ok (bytes (model_dump_json s));
  fs_resolve : forall i s, plain i -> usable i s -> exists file directory,
    resolve (file_path snapshots_path i) s = (Ok file, s) /\
    resolve snapshots_path s = (Ok directory, s) /\ String.prefix directory file = true;
  fs_write : forall i c s, plain i -> serves (on_file WriteFile i (Some c)) s -> exists d,
    says_done (handler (on_file WriteFile i (Some c)) s).1 d /\
    files (handler (on_file WriteFile i (Some c)) s).2 = <[file_path snapshots_path i := c]> (files s);
  fs_read : forall i s, plain i -> serves (on_file ReadFile i None) s ->
    files (handler (on_file ReadFile i None) s).2 = files s /\
    match files s !! file_path snapshots_path i with
    | Some c => exists d, says_done (handler (on_file ReadFile i None) s).1 d /\
                          hr_content d = Some c
    | None => says_missing (handler (on_file ReadFile i None) s).1
    end;
  fs_delete : forall i s, plain i -> serves (on_file DeleteFile i None) s ->
    files (handler (on_file DeleteFile i None) s).2 = delete (file_path snapshots_path i) (files s) /\
    match files s !! file_path snapshots_path i with
    | Some _ => exists d, says_done (handler (on_file DeleteFile i None) s).1 d
    | None => says_missing (handler (on_file DeleteFile i None) s).1
    end;
  fs_list : forall s, serves (Envelope ListDirectory snapshots_path None) s ->
    files (handler (Envelope ListDirectory snapshots_path None) s).2 = files s /\
    exists d names, says_done (handler (Envelope ListDirectory snapshots_path None) s).1 d /\
      hr_entries d = Some (Some <$> names) /\ NoDup names /\
      (forall n, n ∈ names <->
         contains "/" n = false /\ is_Some (files s !! (snapshots_path +:+ "/" +:+ n)));
}.

(** The surroundings play along with a request: its identifier, if it is an
    acceptable one, is usable, and the call made for it, if any, is served. *)
Definition served (request : ModelMemoryStorageRequest) (s : S) : Prop :=
  match request with
  | StoreRequest (Some x) | UpdateRequest (Some x) =>
      plain (snapshot_id_of x) -> usable (snapshot_id_of x) s /\
      (bytes (model_dump_json x) <= max_file_size ->
       serves (on_file WriteFile (snapshot_id_of x) (Some (model_dump_json x))) s)
  | RetrieveRequest (Some i) => plain i -> usable i s /\ serves (on_file ReadFile i None) s
  | DeleteRequest (Some i) => plain i -> usable i s /\ serves (on_file DeleteFile i None) s
  | StoreRequest None | UpdateRequest None | RetrieveRequest None | DeleteRequest None => True
  | ListRequest => serves (Envelope ListDirectory snapshots_path None) s
  end.

(** *** The specification *)

Record outcome : Type := Outcome {
  o_status : response_status;
  o_snapshot : option snapshot;
  o_ids : option (gset string);
}.

Definition refused : outcome := Outcome error None None.

Definition spec_store (request : option snapshot) (m : gmap string snapshot)
    : outcome * gmap string snapshot :=
  match request with
  | Some s =>
      if bool_decide (plain (snapshot_id_of s)) && (bytes (model_dump_json s) <=? max_file_size)
      then (Outcome success (Some s) None, <[snapshot_id_of s := s]> m)
      else (refused, m)
  | None => (refused, m)
  end.

Definition spec (request : ModelMemoryStorageRequest) (m : gmap string snapshot)
    : outcome * gmap string snapshot :=
  match request with
  | StoreRequest s | UpdateRequest s => spec_store s m
  | RetrieveRequest (Some i) =>
      if bool_decide (plain i) then
        match m !! i with
        | Some s => (Outcome success (Some s) None, m)
        | None => (Outcome not_found None None, m)
        end
      else (refused, m)
  | DeleteRequest (Some i) =>
      if bool_decide (plain i) then
        (Outcome (match m !! i with Some _ => success | None => not_found end) None None, delete i m)
      else (refused, m)
  | RetrieveRequest None | DeleteRequest None => (refused, m)
  | ListRequest => (Outcome success None (Some (dom m)), m)
  end.

Definition matches (a : ModelMemoryStorageResponse) (o : outcome) : Prop :=
  r_status a = o_status o /\ r_snapshot a = o_snapshot o /\
  match r_snapshot_ids a, o_ids o with
  | Some l, Some X => NoDup l /\ list_to_set l = X
  | None, None => True
  | _, _ => False
  end.

(** The files are the snapshots of [m], each under its identifier. *)
Definition represents (m : gmap string snapshot) (s : S) : Prop :=
  (forall i, i ∈ dom m -> plain i) /\
  files s = kmap (file_path snapshots_path) (model_dump_json <$> m).

Context (Hfs : file_system).

Definition adapter_execute :=
  execute snapshot_id_of model_dump_json model_validate_json encoded_length resolve handler
    handler_initialize exists_path is_dir snapshots_path max_file_size.

Lemma represents_lookup m s i :
  represents m s -> files s !! file_path snapshots_path i = model_dump_json <$> m !! i.
Proof using Type. intros [_ ->]. rewrite lookup_kmap by apply _. apply lookup_fmap. Qed.

Lemma validate_runs i (w : @world S) :
  (plain i -> usable i (outside w)) ->
  exists v, _validate_snapshot_id resolve snapshots_path i w = (Ok v, w) /\
    (v = None <-> plain i).
Proof using Hfs.
  clear is_dir exists_path handler_initialize max_file_size snapshot_id_of.
  intros Hu. unfold _validate_snapshot_id, plain in *.
  destruct (String.eqb i "") eqn:E0; [apply String.eqb_eq in E0; eexists; split; [done|intuition congruence]|].
  apply String.eqb_neq in E0.
  destruct (contains "/" i) eqn:E1; [eexists; split; [done|intuition congruence]|].
  destruct (contains "\" i) eqn:E2; [eexists; split; [done|intuition congruence]|]. simpl.
  destruct (contains ".." i) eqn:E3; [eexists; split; [done|intuition congruence]|].
  exists None. split; [|intuition congruence].
  destruct (fs_resolve Hfs i (outside w)) as (f & d & Ef & Ed & Hp); [by split_and!|by apply Hu|].
  unfold bind, run_outside. rewrite Ef. simpl. rewrite Ed. simpl. unfold ret.
  rewrite Hp. by destruct w.
Qed.

Definition step_ok (w : @world S) (m' : gmap string snapshot) (o : outcome)
    (r : res ModelMemoryStorageResponse) (w' : @world S) : Prop :=
  exists a, r = Ok a /\ matches a o /\ represents m' (outside w') /\
    _initialized w' = _initialized w.
Lemma represents_insert m s s' i x :
  represents m s -> plain i ->
  files s' = <[file_path snapshots_path i := model_dump_json x]> (files s) ->
  represents (<[i := x]> m) s'.
Proof using Type.
  intros [Hp Hf] Hi E. split.
  - intros j. rewrite dom_insert, elem_of_union, elem_of_singleton. intros [->|?]; auto.
  - rewrite E, Hf, fmap_insert, kmap_insert by apply _. done.
Qed.

Lemma represents_delete m s s' i :
  represents m s -> files s' = delete (file_path snapshots_path i) (files s) ->
  represents (delete i m) s'.
Proof using Type.
  intros [Hp Hf] E. split.
  - intros j. rewrite dom_delete, elem_of_difference. intros [? _]. auto.
  - rewrite E, Hf, fmap_delete, kmap_delete by apply _. done.
Qed.

Lemma represents_same m s s' : represents m s -> files s' = files s -> represents m s'.
Proof using Type. intros [Hp Hf] E. split; [done|]. by rewrite E. Qed.

(** The names of a listing are those of the identifiers. *)
Lemma listing_ids m s names :
  represents m s -> NoDup names ->
  (forall n, n ∈ names <->
     contains "/" n = false /\ is_Some (files s !! (snapshots_path +:+ "/" +:+ n))) ->
  (forall i, plain i -> contains "/" (i +:+ ".json") = false) ->
  NoDup (snapshot_ids (Some <$> names)) /\
  list_to_set (snapshot_ids (Some <$> names)) =@{gset string} dom m.
Proof using Type.
  intros [Hp Hf] Hnd Hn Hslash. unfold snapshot_ids.
  replace (default "" <$> (Some <$> names)) with names
    by (rewrite <- list_fmap_compose; symmetry; apply list_fmap_id).
  assert (Hin : forall n, n ∈ names <-> exists i, i ∈ dom m /\ n = i +:+ ".json").
  { intros n. rewrite Hn, Hf. split.
    - intros [_ [c Hc]]. apply lookup_kmap_Some in Hc as (i & Ei & Hi); [|apply _].
      exists i. rewrite lookup_fmap, fmap_Some in Hi. destruct Hi as (x & Hx & _).
      split; [by apply elem_of_dom|]. unfold file_path in Ei. apply (inj _) in Ei. simpl in Ei.
      by injection Ei.
    - intros (i & Hi & ->). split; [by apply Hslash, Hp|].
      apply elem_of_dom in Hi as [x Hx]. exists (model_dump_json x).
      apply lookup_kmap_Some; [apply _|]. exists i. split; [done|]. by rewrite lookup_fmap, Hx. }
  assert (Hall : filter (fun n => ends_with ".json" n = true) names = names).
  { apply filter_all, Forall_forall. intros n (i & _ & ->)%Hin. apply ends_with_app. }
  rewrite Hall. clear Hall Hn. split.
  - apply NoDup_fmap_2_strong; [|done]. intros x y (i & Hi & ->)%Hin (j & Hj & ->)%Hin.
    apply Hp in Hi as [? _], Hj as [? _]. rewrite !stem_json by done. by intros ->.
  - apply set_eq. intros i. rewrite elem_of_list_to_set, list_elem_of_fmap. split.
    + intros (n & -> & (j & Hj & ->)%Hin). destruct (Hp j Hj) as [? _]. by rewrite stem_json.
    + intros Hi. exists (i +:+ ".json"). destruct (Hp i Hi) as [? _].
      split; [by rewrite stem_json|]. apply Hin. eauto.
Qed.

Lemma run_validated {A} i (w : @world S) (k : option string -> M world A) :
  (plain i -> usable i (outside w)) ->
  exists v, bind (_validate_snapshot_id resolve snapshots_path i) k w = k v w /\
    (v = None <-> plain i).
Proof using Hfs.
  intros Hu. destruct (validate_runs i w Hu) as (v & E & Hv). exists v. split; [|done]. unfold bind. by rewrite E.
Qed.
Lemma says_missing_answers i (r : reply) :
  says_missing r ->
  retrieved model_validate_json snapshots_path i r = not_found_response i /\
  deleted (snapshot := snapshot) snapshots_path i r = not_found_response i.
Proof using Type.
  destruct r as [[d|]|[]]; simpl; try done.
  - unfold retrieved, deleted, has_status. by intros ->.
  - by intros ->.
Qed.

Lemma store_step request m (w : @world S) r w' :
  represents m (outside w) -> served (StoreRequest request) (outside w) ->
  _store snapshot_id_of model_dump_json encoded_length resolve handler snapshots_path max_file_size
    request w = (r, w') ->
  step_ok w (spec_store request m).2 (spec_store request m).1 r w'.
Proof using Hfs.
  intros Hm Hsv. destruct request as [s|]; simpl; [|intros [= <- <-]; by eexists].
  simpl in Hsv. unfold _store. destruct (run_validated (snapshot_id_of s) w
    (fun v => match v with
     | Some e => ret (failed error ("Invalid snapshot_id: " +:+ e))
     | None =>
         let! size := fun w => (encoded_length (model_dump_json s), w) in
         if max_file_size <? size
         then ret (failed error ("Snapshot exceeds maximum file size of " +:+
                                 pretty max_file_size +:+ " bytes"))
         else
           let! r := call handler (Envelope WriteFile (file_path snapshots_path (snapshot_id_of s))
                                     (Some (model_dump_json s))) in
           ret (stored s (file_path snapshots_path (snapshot_id_of s)) r)
     end)) as (v & -> & Hv); [by intros [? _]%Hsv|].
  destruct v as [v|].
  { rewrite bool_decide_false by (intros ?%Hv; done). simpl. intros [= <- <-]. by eexists. }
  rewrite bool_decide_true by by apply Hv. unfold bind at 1. rewrite (fs_bytes Hfs). simpl.
  rewrite Z.leb_antisym. destruct (max_file_size <? bytes (model_dump_json s)) eqn:El; simpl.
  { intros [= <- <-]. by eexists. }
  breflect. assert (Hp : plain (snapshot_id_of s)) by by apply Hv.
  destruct (fs_write Hfs (snapshot_id_of s) (model_dump_json s) (outside w)) as (d & [Er Ed] & Ef);
    [done|by apply Hsv|].
  unfold on_file in *. unfold bind, call, run_outside. simpl. rewrite Er. simpl. rewrite Ed. intros [= <- <-].
  eexists. split; [done|]. split; [done|]. split; [|done].
  eapply represents_insert; [done|by apply Hv|done].
Qed.

Lemma execute_step request m (w : @world S) r w' :
  _initialized w = true -> represents m (outside w) -> served request (outside w) ->
  adapter_execute request w = (r, w') ->
  step_ok w (spec request m).2 (spec request m).1 r w'.
Proof using Hfs.
  intros Hw Hm Hsv. unfold adapter_execute, execute, get. unfold bind at 1. rewrite Hw.
  unfold bind at 1. simpl ret. unfold ret at 1. cbn beta iota.
  destruct request as [s|[i|]|[i|]|s|]; simpl spec;
    try (by apply store_step); try (intros [= <- <-]; by eexists).
  - unfold _retrieve.
    destruct (run_validated i w (fun v => match v with
      | Some e => ret (failed error ("Invalid snapshot_id: " +:+ e))
      | None => let! r := call handler (Envelope ReadFile (file_path snapshots_path i) None) in
                ret (retrieved model_validate_json snapshots_path i r)
      end)) as (v & -> & Hv); [by intros [? _]%Hsv|].
    destruct v as [v|].
    { rewrite bool_decide_false by (intros ?%Hv; done). intros [= <- <-]. by eexists. }
    rewrite bool_decide_true by by apply Hv.
    assert (Hp : plain i) by by apply Hv.
    destruct (fs_read Hfs i (outside w) Hp (proj2 (Hsv Hp))) as [Ef Hr]. unfold on_file in *.
    rewrite (represents_lookup m _ i Hm) in Hr. unfold bind, call, run_outside. simpl.
    intros [= <- <-]. eexists. split; [done|].
    destruct (m !! i) as [x|]; simpl in *.
    + destruct Hr as (d & [-> Ed] & Ec). unfold retrieved. rewrite Ed, Ec. simpl.
      rewrite (fs_json Hfs). split; [done|]. split; [by eapply represents_same|done].
    + rewrite (proj1 (says_missing_answers i _ Hr)).
      split; [done|]. split; [by eapply represents_same|done].
  - unfold _delete.
    destruct (run_validated i w (fun v => match v with
      | Some e => ret (failed error ("Invalid snapshot_id: " +:+ e))
      | None => let! r := call handler (Envelope DeleteFile (file_path snapshots_path i) None) in
                ret (deleted (snapshot := snapshot) snapshots_path i r)
      end)) as (v & -> & Hv); [by intros [? _]%Hsv|].
    destruct v as [v|].
    { rewrite bool_decide_false by (intros ?%Hv; done). intros [= <- <-]. by eexists. }
    rewrite bool_decide_true by by apply Hv.
    assert (Hp : plain i) by by apply Hv.
    destruct (fs_delete Hfs i (outside w) Hp (proj2 (Hsv Hp))) as [Ef Hr]. unfold on_file in *.
    rewrite (represents_lookup m _ i Hm) in Hr. unfold bind, call, run_outside. simpl.
    intros [= <- <-]. eexists. split; [done|].
    destruct (m !! i) as [x|]; simpl in *.
    + destruct Hr as (d & -> & Ed). unfold deleted. rewrite Ed.
      split; [done|]. split; [by eapply represents_delete|done].
    + rewrite (proj2 (says_missing_answers i _ Hr)).
      split; [done|]. split; [by eapply represents_delete|done].
  - unfold _list, bind, call, run_outside. simpl.
    destruct (fs_list Hfs (outside w) Hsv) as [Ef (d & names & [-> Ed] & Ee & Hnd & Hn)].
    intros [= <- <-]. eexists. split; [done|]. unfold listed. rewrite Ed, Ee. simpl.
    destruct (listing_ids m (outside w) names Hm Hnd Hn plain_name) as [H1 H2].
    split; [by split_and!|]. split; [by eapply represents_same|done].
Qed.
(** Requests one after another. *)
Fixpoint execute_all (requests : list ModelMemoryStorageRequest) (w : @world S)
    : list (res ModelMemoryStorageResponse) * @world S :=
  match requests with
  | [] => ([], w)
  | request :: requests =>
      let (r, w) := adapter_execute request w in
      let (rs, w) := execute_all requests w in (r :: rs, w)
  end.

Fixpoint spec_all (requests : list ModelMemoryStorageRequest) (m : gmap string snapshot)
    : list outcome * gmap string snapshot :=
  match requests with
  | [] => ([], m)
  | request :: requests =>
      let (o, m) := spec request m in
      let (os, m) := spec_all requests m in (o :: os, m)
  end.

(** The surroundings play along with every request of a run. *)
Fixpoint served_all (requests : list ModelMemoryStorageRequest) (w : @world S) : Prop :=
  match requests with
  | [] => True
  | request :: requests =>
      served request (outside w) /\ served_all requests (adapter_execute request w).2
  end.

(** C20: over a file-system handler that keeps files, and as long as the
    calls made are served, the adapter implements a map from identifiers to
    snapshots: for every sequence of requests, each is answered as the map
    answers it (a store is seen by the retrievals that follow, until the next
    store, update or delete of the same identifier; a listing gives each
    identifier once; an identifier that could leave the directory, or a snapshot
    over the maximal size, is refused without effect), and the files left are
    those of the map. *)
Theorem adapter_implements_map (requests : list ModelMemoryStorageRequest)
    (m : gmap string snapshot) (w : @world S) :
  _initialized w = true -> represents m (outside w) -> served_all requests w ->
  Forall2 (fun r o => exists a, r = Ok a /\ matches a o)
    (execute_all requests w).1 (spec_all requests m).1 /\
  represents (spec_all requests m).2 (outside (execute_all requests w).2).
Proof using Hfs.
  revert m w. induction requests as [|request requests IH]; intros m w Hw Hm Hs; simpl; [done|].
  destruct Hs as [Hsv Hs].
  destruct (adapter_execute request w) as [r w1] eqn:E.
  destruct (execute_step request m w r w1 Hw Hm Hsv E) as (a & -> & Ha & Hm1 & Hw1).
  destruct (spec request m) as [o m1]. simpl in *. rewrite Hw in Hw1.
  specialize (IH m1 w1 Hw1 Hm1 Hs).
  destruct (execute_all requests w1) as [rs w2], (spec_all requests m1) as [os m2]. simpl in *.
  destruct IH as [IH1 IH2]. split; [|done]. constructor; eauto.
Qed.
End refinement.

(** ** A concrete store *)

(** Files as a map from paths to contents, kept by a handler with limits: it
    allows paths of one directory, contents of at most 20 bytes, and its disk
    has room for three files. A snapshot is its own JSON, and its first two
    characters are its identifier. *)
Module Demo.
Definition dir : string := "/data/snapshots".

Definition done : handler_result := HandlerResult (Some "success") None None None.
Definition missing : reply :=
  Raised (InfraConnectionError [OtherCause] (Some "SERVICE_UNAVAILABLE") "File not found: x").

Fixpoint strip_prefix (pre s : string) : option string :=
  match pre, s with
  | EmptyString, _ => Some s
  | String c pre, String d s => if Ascii.eqb c d then strip_prefix pre s else None
  | String _ _, EmptyString => None
  end.

Definition names (s : gmap string string) : list string :=
  filter (fun n => contains "/" n = false) (omap (strip_prefix (dir +:+ "/")) (map_to_list s).*1).

Definition bytes (s : string) : Z := Z.of_nat (String.length s).

Definition room (p : string) (s : gmap string string) : bool :=
  bool_decide (is_Some (s !! p)) || (size s <? 3)%nat.

Definition write (p c : string) (s : gmap string string) : reply * gmap string string :=
  if 20 <? bytes c then (Raised (InfraConnectionError [OtherCause] None "Content size exceeds limit"), s)
  else if negb (room p s) then (Raised (FsOSError "No space left on device"), s)
  else (Result (Some done), <[p := c]> s).

Definition handler (e : envelope) (s : gmap string string) : reply * gmap string string :=
  if negb (String.prefix dir (env_path e)) then (Raised (PermissionError "Path is not allowed"), s)
  else match env_operation e with
  | EnsureDirectory => (Result (Some done), s)
  | WriteFile =>
      match env_content e with
      | Some c => write (env_path e) c s
      | None => (Raised (UnexpectedError "content"), s)
      end
  | ReadFile =>
      match s !! env_path e with
      | Some c => (Result (Some (HandlerResult (Some "success") None (Some c) None)), s)
      | None => (missing, s)
      end
  | DeleteFile =>
      match s !! env_path e with
      | Some _ => (Result (Some done), delete (env_path e) s)
      | None => (missing, s)
      end
  | ListDirectory =>
      (Result (Some (HandlerResult (Some "success") None None (Some (Some <$> names s)))), s)
  end.

(** The calls it serves. *)
Definition serves (e : envelope) (s : gmap string string) : Prop :=
  match env_operation e, env_content e with
  | WriteFile, Some c => negb (20 <? bytes c) && room (env_path e) s = true
  | _, _ => True
  end.

Definition id_of (s : string) : string := String.substring 0 2 s.
Definition parse (s : string) : string + fs_exn := inl s.
Definition encoded_length (s : string) : res Z := Ok (bytes s).

(** No links; names with a null character or of more than 250 characters cannot
    be resolved. *)
Definition resolvable (path : string) : bool :=
  negb (has_char "000" path) && (String.length path <=? 250)%nat.
Definition resolve (path : string) : M (gmap string string) string :=
  if resolvable path then ret path else raise (ValueError "embedded null byte").
Definition usable (i : string) (s : gmap string string) : Prop :=
  resolvable (file_path dir i) = true.

Definition starts (s : gmap string string) : option fs_exn * gmap string string := (None, s).
Definition always (path : string) (s : gmap string string) : bool := true.

Lemma strip_prefix_spec pre s n : strip_prefix pre s = Some n <-> s = pre +:+ n.
Proof.
  revert s. induction pre as [|c pre IH]; intros s; simpl; [by split; [intros [= ->]|intros ->]|].
  destruct s as [|d s]; [split; discriminate|]. destruct (Ascii.eqb c d) eqn:E.
  - apply Ascii.eqb_eq in E as ->. rewrite IH. split; [by intros ->|by intros [= ->]].
  - apply Ascii.eqb_neq in E. split; [done|by intros [= ->]].
Qed.

Lemma NoDup_omap_inj {A B} (f : A -> option B) (l : list A) :
  (forall x y n, f x = Some n -> f y = Some n -> x = y) -> NoDup l -> NoDup (omap f l).
Proof.
  intros Hf. induction 1 as [|x l Hx Hnd IH]; simpl; [constructor|].
  destruct (f x) as [n|] eqn:E; [|done]. constructor; [|done].
  intros (y & Hy & Ey)%list_elem_of_omap. by rewrite (Hf x y n E Ey) in Hx.
Qed.

Lemma NoDup_names s : NoDup (names s).
Proof.
  apply NoDup_filter, NoDup_omap_inj; [|apply NoDup_fst_map_to_list].
  intros x y n ->%strip_prefix_spec ->%strip_prefix_spec. done.
Qed.

Lemma elem_of_names s n :
  n ∈ names s <-> contains "/" n = false /\ is_Some (s !! (dir +:+ "/" +:+ n)).
Proof.
  unfold names. rewrite list_elem_of_filter, list_elem_of_omap.
  apply and_iff_compat_l. split.
  - intros (y & Hy & Ey%strip_prefix_spec). apply list_elem_of_fmap in Hy as ([k v] & -> & Hk).
    apply elem_of_map_to_list in Hk. exists v. simpl in Ey. by subst k.
  - intros [v Hv]. exists (dir +:+ "/" +:+ n). split; [|by apply strip_prefix_spec].
    apply list_elem_of_fmap. exists (dir +:+ "/" +:+ n, v). split; [done|].
    by apply elem_of_map_to_list.
Qed.

Lemma allowed i : String.prefix dir (file_path dir i) = true.
Proof. apply prefix_app. Qed.

Lemma demo_file_system :
  file_system (fun s => s) parse encoded_length resolve handler dir (fun s => s) bytes usable serves.
Proof.
  split; try done.
  - intros i s _ Hu. exists (file_path dir i), dir. unfold resolve. rewrite Hu.
    split_and!; [done|by vm_compute|apply allowed].
  - intros i c s _ Hs. exists done. apply andb_true_iff in Hs as [Hc Hr].
    unfold handler. simpl env_path. rewrite allowed. simpl. unfold write.
    apply negb_true_iff in Hc. simpl in Hr. by rewrite Hc, Hr.
  - intros i s _ _. unfold handler. simpl env_path. rewrite allowed. simpl.
    destruct (s !! file_path dir i) as [c|]; split; try done. by eexists.
  - intros i s _ _. unfold handler. simpl env_path. rewrite allowed. simpl.
    destruct (s !! file_path dir i) as [c|] eqn:E; split; try done.
    + by eexists.
    + symmetry. by apply delete_id.
  - intros s _. split; [done|]. eexists _, (names s). split; [done|]. split; [done|].
    split; [apply NoDup_names|]. intros n. apply elem_of_names.
Qed.

Definition run_requests : list ModelMemoryStorageRequest -> world ->
    list (res ModelMemoryStorageResponse) * world :=
  execute_all id_of (fun s => s) parse encoded_length resolve handler starts always always dir 20.

Definition requests : list ModelMemoryStorageRequest :=
  [StoreRequest (Some "m1 first"); StoreRequest (Some "m2 second"); UpdateRequest (Some "m1 third");
   RetrieveRequest (Some "m1"); DeleteRequest (Some "m2"); RetrieveRequest (Some "m2");
   RetrieveRequest (Some "../m1"); StoreRequest (Some "m3 a long snapshot indeed"); ListRequest].

Definition answer (r : res (ModelMemoryStorageResponse (snapshot := string))) :=
  match r with
  | Ok a => Some (r_status a, r_snapshot a, r_snapshot_ids a)
  | Raise _ => None
  end.

Definition ready : world := World true (∅ : gmap string string).

Lemma adapter_implements_map_witness :
  answer <$> (run_requests requests ready).1 =
    [Some (success, Some "m1 first", None); Some (success, Some "m2 second", None);
     Some (success, Some "m1 third", None); Some (success, Some "m1 third", None);
     Some (success, None, None); Some (not_found, None, None); Some (error, None, None);
     Some (error, None, None); Some (success, None, Some ["m1"])] /\
  represents (fun s => s) dir (fun s => s)
    (spec_all id_of (fun s => s) 20 bytes requests ∅).2 (outside (run_requests requests ready).2).
Proof.
  split; [by vm_compute|].
  refine (proj2 (adapter_implements_map id_of (fun s => s) parse encoded_length resolve handler
    starts always always dir 20 (fun s => s) bytes usable serves demo_file_system requests ∅ ready
    _ _ _)).
  - done.
  - split; [|by vm_compute]. intros i. by rewrite dom_empty, elem_of_empty.
  - vm_compute. repeat first [split | intros ? | reflexivity
      | match goal with H : (_ = _) -> False |- _ => destruct (H eq_refl) end].
Defined.

Lemma execute_answers_witness :
  _initialized ready = true /\
  exists a, (execute id_of (fun s => s) parse encoded_length ret handler starts always always
    dir 20 (RetrieveRequest (Some "m1")) ready).1 = Ok a /\ well_formed a.
Proof.
  split; [done|].
  refine (proj1 (execute_answers id_of (fun s => s) parse encoded_length ret handler starts
    always always dir 20 (RetrieveRequest (Some "m1")) ready _ _ _)).
  - done.
  - intros p s. by eexists.
  - intros c. by eexists.
Defined.

(** A handler that differs outside the directory only. *)
Definition leaky (e : envelope) (s : gmap string string) : reply * gmap string string :=
  if String.prefix dir (env_path e) then handler e s
  else (Result (Some (HandlerResult (Some "success") None (Some "secret") None)), s).

Lemma execute_confined_witness :
  leaky (Envelope ReadFile "/etc/passwd" None) ∅ <> handler (Envelope ReadFile "/etc/passwd" None) ∅ /\
  execute_over id_of (fun s => s) parse encoded_length resolve starts always always dir 20
    leaky (RetrieveRequest (Some "../m1")) ready =
  execute_over id_of (fun s => s) parse encoded_length resolve starts always always dir 20
    handler (RetrieveRequest (Some "../m1")) ready.
Proof.
  split; [discriminate|].
  apply (execute_confined id_of (fun s => s) parse encoded_length resolve starts always always
    dir 20).
  intros e s He. unfold leaky. replace (String.prefix dir (env_path e)) with true; [done|].
  symmetry. destruct He as [-> | (i & _ & ->)]; [by vm_compute|apply prefix_app].
Defined.

(** The containment test compares strings: a link to a directory whose name
    begins like that of the snapshots passes it. *)
Example sibling_directory_accepted :
  let resolve (path : string) : M (gmap string string) string :=
    ret (if String.eqb path dir then dir else "/data/snapshots-private/m1.json") in
  (_validate_snapshot_id resolve dir "m1" ready).1 = Ok None.
Proof. by vm_compute. Qed.

(** An update of a snapshot that was never stored succeeds. *)
Example update_creates :
  answer <$> (run_requests [UpdateRequest (Some "m1 new"); RetrieveRequest (Some "m1")] ready).1
  = [Some (success, Some "m1 new", None); Some (success, Some "m1 new", None)].
Proof. by vm_compute. Qed.

(** An identifier that cannot be resolved (a null character): the exception
    escapes, because the identifier is validated outside the [try]. *)
Example unresolvable_identifier_raises :
  let resolve (path : string) : M (gmap string string) string :=
    raise (ValueError "embedded null byte") in
  (execute id_of (fun s => s) parse encoded_length resolve handler starts always always dir 20
     (RetrieveRequest (Some "m1")) ready).1 = Raise (ValueError "embedded null byte").
Proof. by vm_compute. Qed.
End Demo.
