(* ===== verification/Health.v ===== *)
(** * Health checks

    Models src/src/omnimemory/adapters/adapter_health_manager.py: the
    per-identifier [RateLimiter], [HealthCheckManager] with its breakers (those
    of Breaker.v) and its aggregation of results, and [HealthManager]. What a
    check function answers, how long it takes and what other tasks do to a
    breaker meanwhile are arguments. *)

From S2P Require Import Prelude Breaker.

(** [HealthStatus] *)
Inductive HealthStatus : Type :=
  HEALTHY | DEGRADED | UNHEALTHY | UNKNOWN | TIMEOUT | RATE_LIMITED | CIRCUIT_OPEN.

#[export] Instance HealthStatus_eq_dec : EqDecision HealthStatus.
Proof. solve_decision. Defined.

(** [unhealthy_statuses] and [degraded_statuses]. *)
Definition is_unhealthy (s : HealthStatus) : bool :=
  match s with UNHEALTHY | TIMEOUT | CIRCUIT_OPEN | UNKNOWN => true | _ => false end.
Definition is_degraded (s : HealthStatus) : bool :=
  match s with DEGRADED | RATE_LIMITED => true | _ => false end.

(** [status_map]: what an API response says. *)
Definition status_map (s : HealthStatus) : string :=
  match s with
  | HEALTHY => "healthy"
  | DEGRADED | RATE_LIMITED | CIRCUIT_OPEN => "degraded"
  | UNHEALTHY | UNKNOWN | TIMEOUT => "unhealthy"
  end.

(** ** Sliding windows *)

(** The window that [RateLimiter.is_allowed] and
    [HealthManager.check_resource_health] both keep: drop what is older than
    [window], refuse when [limit] calls remain, otherwise record the call. *)
Definition admit_call (limit : Z) (window now : micros) (times : list micros) : bool * list micros :=
  let times := filter (fun t => now - window < t) times in
  if limit <=? Z.of_nat (length times) then (false, times) else (true, times ++ [now]).

(** The times at which calls of a window were admitted. *)
Fixpoint admitted (limit : Z) (window : micros) (calls : list micros) (times : list micros)
    : list micros :=
  match calls with
  | [] => []
  | now :: calls =>
      let (yes, times) := admit_call limit window now times in
      (if yes then [now] else []) ++ admitted limit window calls times
  end.

Lemma filter_sublist {A} (P : A -> Prop) `{!forall x, Decision (P x)} (l1 l2 : list A) :
  l1 `sublist_of` l2 -> filter P l1 `sublist_of` filter P l2.
Proof.
  induction 1 as [|x l1 l2 _ IH|x l1 l2 _ IH]; [done|..]; rewrite !filter_cons;
    repeat case_decide; try done; by constructor.
Qed.

Definition within (window t : micros) (x : micros) : Prop := t - window < x <= t.

Section windows.
Context (limit : Z) (window : micros) (Hlimit : 0 <= limit) (Hwindow : 0 < window).

(** The list kept is what the past [h] left in the window, and no window of
    the past held more than [limit]. *)
Record window_of (now : micros) (h times : list micros) : Prop := WindowOf {
  w_times : times = filter (fun t => now - window < t) h;
  w_past : Forall (fun t => t <= now) h;
  w_limit : forall t, Z.of_nat (length (filter (within window t) h)) <= limit;
}.

Lemma filter_later now now' (h : list micros) :
  now <= now' ->
  filter (fun t => now' - window < t) (filter (fun t => now - window < t) h) =
  filter (fun t => now' - window < t) h.
Proof using Type.
  intros Hle. rewrite list_filter_filter_l; [done|]. intros t Ht. lia.
Qed.

Lemma admit_call_window now now' h times :
  window_of now h times -> now <= now' ->
  let (yes, times') := admit_call limit window now' times in
  window_of now' (if yes then h ++ [now'] else h) times'.
Proof using Hlimit Hwindow.
  intros [Et Hp Hl] Hle. unfold admit_call. rewrite Et, filter_later by done.
  assert (Hp' : Forall (fun t => t <= now') h) by (eapply Forall_impl; [exact Hp|simpl; lia]).
  destruct (limit <=? _) eqn:E; breflect; [by split|]. split.
  - rewrite filter_app, filter_cons_True by lia. done.
  - apply Forall_app. split; [done|]. by constructor.
  - intros t. rewrite filter_app, length_app. destruct (decide (within window t now')) as [Ht|Ht].
    + rewrite filter_cons_True by done. simpl.
      assert (Hsub : filter (within window t) h `sublist_of` filter (fun x => now' - window < x) h).
      { rewrite <- (list_filter_filter_l (within window t) (fun x => now' - window < x)).
        - apply sublist_filter.
        - intros x Hx. unfold within in *. lia. }
      apply sublist_length in Hsub. lia.
    + rewrite filter_cons_False by done. simpl. specialize (Hl t). lia.
Qed.

Lemma admitted_window calls : forall now h times,
  window_of now h times -> StronglySorted Z.le (now :: calls) ->
  forall t, Z.of_nat (length (filter (within window t) (h ++ admitted limit window calls times)))
            <= limit.
Proof using Hlimit Hwindow.
  induction calls as [|now' calls IH]; intros now h times Hw Hs t; simpl.
  { rewrite app_nil_r. apply Hw. }
  apply StronglySorted_inv in Hs as [Hs Hf]. apply Forall_cons in Hf as [Hle _].
  pose proof (admit_call_window now now' h times Hw Hle) as Hw'.
  destruct (admit_call limit window now' times) as [yes times']. rewrite app_assoc.
  destruct yes; simpl in *.
  - eapply IH; [exact Hw'|done].
  - rewrite app_nil_r. eapply IH; [exact Hw'|done].
Qed.

Lemma empty_window now : window_of now [] [].
Proof using Hlimit. split; [done|constructor|]. intros t. simpl. lia. Qed.
End windows.

(** ** [RateLimiter] *)

Module RateLimiter.
Record t : Type := Limiter {
  max_requests : Z;
  window_seconds : micros;
  _requests : gmap string (list micros);
}.

Definition new (max_requests window_seconds : Z) : t :=
  Limiter max_requests (seconds window_seconds) ∅.

Definition is_allowed (identifier : string) (now : micros) (l : t) : bool * t :=
  let (yes, times) := admit_call (max_requests l) (window_seconds l) now
    (default [] (_requests l !! identifier)) in
  (yes, Limiter (max_requests l) (window_seconds l) (<[identifier := times]> (_requests l))).
End RateLimiter.

(** ** [HealthCheckManager] *)

Record ModelHealthCheckConfig : Type := CheckConfig {
  cc_name : string;
  critical : bool;
  circuit_breaker_config : option ACB.config;
}.

Record HealthCheckResult : Type := CheckResult {
  config : ModelHealthCheckConfig;
  r_status : HealthStatus;
  latency : micros;
  error_message : option string;
}.

Module HealthCheckManager.
(** Dictionaries whose order matters keep it in [registered]. *)
Record t : Type := Manager {
  registered : list string;
  _configs : gmap string ModelHealthCheckConfig;
  _circuit_breakers : gmap string ACB.t;
  _last_results : gmap string HealthCheckResult;
  _rate_limiter : RateLimiter.t;
}.

Definition new : t := Manager [] ∅ ∅ ∅ (RateLimiter.new 30 60).

Definition register_health_check (c : ModelHealthCheckConfig) (now : micros) (h : t) : t :=
  Manager
    (if bool_decide (cc_name c ∈ registered h) then registered h else registered h ++ [cc_name c])
    (<[cc_name c := c]> (_configs h))
    (match circuit_breaker_config c with
     | Some b => <[cc_name c := ACB.init (cc_name c) b now]> (_circuit_breakers h)
     | None => _circuit_breakers h
     end)
    (_last_results h) (_rate_limiter h).

(** One run of a check: the clock when it begins and ends, the jitter, how the
    check function ends under its timeout, and what other tasks do to the
    breaker meanwhile. *)
Record env : Type := Env {
  t0 : micros;
  jitter : micros;
  t1 : micros;
  outcome : res HealthCheckResult;
  others : ACB.t -> ACB.t;
}.

Section checks.
Context (_sanitize_error : exn -> string) (timeout_text : ModelHealthCheckConfig -> string).

(** What a finished check becomes; [_last_results] keeps it. *)
Definition result_of (c : ModelHealthCheckConfig) (e : env) (r : res HealthCheckResult)
    : HealthCheckResult :=
  match r with
  | Ok r => CheckResult (config r) (r_status r) (t1 e - t0 e) (error_message r)
  | Raise (TimeoutError _) =>
      CheckResult c TIMEOUT (t1 e - t0 e) (Some ("Health check timeout after " +:+ timeout_text c))
  | Raise x => CheckResult c UNHEALTHY (t1 e - t0 e) (Some (_sanitize_error x))
  end.

(** The check of a dependency, through its breaker if it has one. *)
Definition run_check (e : env) (b : option ACB.t) : res HealthCheckResult * option ACB.t :=
  match b with
  | Some b =>
      let (r, b) := ACB.call (t0 e) (jitter e) (t1 e) (fun b => (outcome e, others e b)) b in
      (r, Some b)
  | None => (outcome e, None)
  end.

Definition not_registered (name : string) : HealthCheckResult :=
  CheckResult (CheckConfig name true None) UNKNOWN 0 (Some "Health check not registered").

Definition check_single_dependency (name : string) (e : env) (h : t) : HealthCheckResult * t :=
  match _configs h !! name with
  | None => (not_registered name, h)
  | Some c =>
      let (r, b) := run_check e (_circuit_breakers h !! name) in
      let result := result_of c e r in
      (result,
       Manager (registered h) (_configs h)
         (match b with
          | Some b => <[name := b]> (_circuit_breakers h)
          | None => _circuit_breakers h
          end)
         (<[name := result]> (_last_results h)) (_rate_limiter h))
  end.

(** [check_all_dependencies]: the checks run together, each with a breaker of
    its own; their results come in the order of registration. *)
Fixpoint check_names (names : list string) (envs : string -> env) (h : t)
    : list HealthCheckResult * t :=
  match names with
  | [] => ([], h)
  | name :: names =>
      let (r, h) := check_single_dependency name (envs name) h in
      let (rs, h) := check_names names envs h in (r :: rs, h)
  end.

Definition check_all_dependencies (envs : string -> env) (h : t) : list HealthCheckResult * t :=
  check_names (registered h) envs h.
End checks.

Definition calculate_overall_status (results : list HealthCheckResult) : HealthStatus :=
  match results with
  | [] => UNKNOWN
  | _ =>
      let critical_results := filter (fun r => critical (config r) = true) results in
      let non_critical_results := filter (fun r => critical (config r) <> true) results in
      let critical_unhealthy := filter (fun r => is_unhealthy (r_status r) = true) critical_results in
      let critical_degraded := filter (fun r => is_degraded (r_status r) = true) critical_results in
      let non_critical_unhealthy :=
        filter (fun r => is_unhealthy (r_status r) = true) non_critical_results in
      if (0 <? length critical_unhealthy)%nat then UNHEALTHY
      else if (0 <? length critical_degraded)%nat then DEGRADED
      else if (0 <? length non_critical_results)%nat &&
              (length non_critical_results <? 2 * length non_critical_unhealthy)%nat
      then DEGRADED else HEALTHY
  end.

(** The status of [get_comprehensive_health]. *)
Definition comprehensive_status (results : list HealthCheckResult) : string :=
  status_map (calculate_overall_status results).

(** ** Aggregation *)

Section facts.
Implicit Types (results : list HealthCheckResult) (r : HealthCheckResult).

(** The results that count against the majority rule, and all of them. *)
Definition optional_down r : bool := negb (critical (config r)) && is_unhealthy (r_status r).
Definition optional r : bool := negb (critical (config r)).

Definition number (p : HealthCheckResult -> bool) results : nat :=
  length (filter (fun r => p r = true) results).

Definition has (p : HealthCheckResult -> bool) results : Prop :=
  exists r, r ∈ results /\ p r = true.

Definition critical_down r : bool := critical (config r) && is_unhealthy (r_status r).
Definition critical_degraded r : bool := critical (config r) && is_degraded (r_status r).

Lemma number_pos p results : (0 <? number p results)%nat = true <-> has p results.
Proof.
  unfold number, has. rewrite Nat.ltb_lt. split.
  - destruct (filter _ results) as [|r l] eqn:E; simpl; [lia|]. intros _. exists r.
    assert (Hr : r ∈ filter (fun r => p r = true) results) by (rewrite E; left).
    apply list_elem_of_filter in Hr. naive_solver.
  - intros (r & Hr & Hp). assert (Hf : r ∈ filter (fun r => p r = true) results)
      by by apply list_elem_of_filter.
    destruct (filter _ results); [by apply not_elem_of_nil in Hf|simpl; lia].
Qed.

Lemma number_filter (p q : HealthCheckResult -> bool) (P : HealthCheckResult -> Prop)
    `{!forall r, Decision (P r)} results :
  (forall r, P r <-> q r = true) ->
  length (filter (fun r => p r = true) (filter P results)) = number (fun r => q r && p r) results.
Proof.
  intros HP. unfold number. rewrite list_filter_filter. f_equal. apply list_filter_iff.
  intros r. rewrite HP, andb_true_iff. tauto.
Qed.

(** The overall status is UNKNOWN exactly without results;
    UNHEALTHY exactly when a critical dependency is down (a timeout, an open
    circuit and an unknown status count as down); otherwise DEGRADED exactly
    when a critical dependency is degraded or more than half of the
    non-critical ones are down; and HEALTHY in all other cases. *)
Theorem overall_status_spec results :
  let s := calculate_overall_status results in
  (s = UNKNOWN <-> results = []) /\
  (s = UNHEALTHY <-> has critical_down results) /\
  (s = DEGRADED <->
     ~ has critical_down results /\
     (has critical_degraded results \/
      (number optional results < 2 * number optional_down results)%nat)) /\
  (s = HEALTHY <->
     results <> [] /\ ~ has critical_down results /\ ~ has critical_degraded results /\
     (2 * number optional_down results <= number optional results)%nat).
Proof.
  destruct results as [|r0 rs] eqn:Er.
  { cbn zeta. simpl. assert (Hno : forall p, ~ has p []).
    { intros p (r & Hr & _). by apply not_elem_of_nil in Hr. }
    pose proof (Hno critical_down). pose proof (Hno critical_degraded).
    unfold number. simpl. split_and!; split; intros; try done; naive_solver lia. }
  rewrite <- Er. cbn zeta.
  assert (E : calculate_overall_status results =
    if (0 <? number critical_down results)%nat then UNHEALTHY
    else if (0 <? number critical_degraded results)%nat then DEGRADED
    else if (0 <? number optional results)%nat &&
            (number optional results <? 2 * number optional_down results)%nat
    then DEGRADED else HEALTHY).
  { rewrite Er. unfold calculate_overall_status. rewrite <- Er.
    rewrite (number_filter (fun r => is_unhealthy (r_status r)) (fun r => critical (config r)));
      [|done].
    rewrite (number_filter (fun r => is_degraded (r_status r)) (fun r => critical (config r)));
      [|done].
    rewrite (number_filter (fun r => is_unhealthy (r_status r)) optional).
    2:{ intros r. unfold optional. by destruct (critical (config r)). }
    assert (length (filter (fun r => critical (config r) <> true) results) = number optional results)
      as ->; [|done].
    unfold number. f_equal. apply list_filter_iff. intros r. unfold optional.
    by destruct (critical (config r)). }
  rewrite E. clear E.
  assert (Hne : results <> []) by by rewrite Er.
  assert (Hle : (number optional_down results <= number optional results)%nat).
  { unfold number. rewrite <- (list_filter_filter_l (fun r => optional_down r = true)
      (fun r => optional r = true)).
    - apply length_filter.
    - intros r. unfold optional_down, optional. by destruct (critical (config r)). }
  clear Er r0 rs.
  assert (Hd : (number optional results = 0 -> 2 * number optional_down results = 0)%nat) by lia.
  clear Hle. revert Hd. generalize (2 * number optional_down results)%nat as d. intros d Hd.
  destruct (0 <? number critical_down results)%nat eqn:E1.
  { apply number_pos in E1. split_and!; split; intros; try done; naive_solver. }
  assert (H1 : ~ has critical_down results) by (rewrite <- number_pos; congruence).
  destruct (0 <? number critical_degraded results)%nat eqn:E2.
  { apply number_pos in E2. split_and!; split; intros; try done; naive_solver. }
  assert (H2 : ~ has critical_degraded results) by (rewrite <- number_pos; congruence).
  destruct (0 <? number optional results)%nat eqn:E3; simpl;
    [destruct (number optional results <? d)%nat eqn:E4|];
    rewrite ?Nat.ltb_lt, ?Nat.ltb_ge in *;
    split_and!; split; intros; try done; try (naive_solver lia).
Qed.
End facts.

(** ** Isolation of failures *)

Section isolation.
Context (_sanitize_error : exn -> string) (timeout_text : ModelHealthCheckConfig -> string).

Definition check_one := check_single_dependency _sanitize_error timeout_text.

Lemma check_other name name' e e' h :
  name <> name' -> (check_one name' e' (check_one name e h).2).1 = (check_one name' e' h).1.
Proof.
  intros Hne. unfold check_one, check_single_dependency.
  destruct (_configs h !! name) as [c|] eqn:Ec; [|done].
  destruct (run_check e _) as [r b]. simpl. destruct (_configs h !! name') as [c'|]; [|done].
  assert (match b with
          | Some b => <[name := b]> (_circuit_breakers h)
          | None => _circuit_breakers h
          end !! name' = _circuit_breakers h !! name') as ->
    by (destruct b; by rewrite ?lookup_insert_ne).
  by destruct (run_check e' _).
Qed.

(** [check_all_dependencies] gives one result for each
    registered dependency, in order, and each is what its own check gives on
    its own: no failure, timeout or open breaker of one dependency changes the
    result of another. *)
Theorem check_all_isolated (envs : string -> env) (h : t) :
  NoDup (registered h) ->
  (check_all_dependencies _sanitize_error timeout_text envs h).1 =
  (fun name => (check_one name (envs name) h).1) <$> registered h.
Proof.
  unfold check_all_dependencies. generalize (registered h) as names. intros names. revert h.
  induction names as [|name names IH]; intros h Hnd; [done|]. simpl.
  apply NoDup_cons in Hnd as [Hni Hnd].
  destruct (check_single_dependency _sanitize_error timeout_text name (envs name) h) as [r h1] eqn:E.
  specialize (IH h1 Hnd). destruct (check_names _ _ names envs h1) as [rs h2]. simpl in *.
  rewrite IH. unfold check_one at 2. rewrite E. simpl. f_equal.
  apply list_fmap_ext. intros i name' Hi. simpl.
  assert (Hne : name <> name') by (intros ->; apply Hni; by eapply list_elem_of_lookup_2).
  rewrite <- (check_other name name' (envs name) (envs name') h Hne). unfold check_one at 3.
  by rewrite E.
Qed.

(** Registration keeps the names distinct. *)
Lemma register_NoDup c now h : NoDup (registered h) -> NoDup (registered (register_health_check c now h)).
Proof.
  intros Hnd. simpl. case_bool_decide; [done|]. apply NoDup_app.
  split_and!; [done| |apply NoDup_singleton]. intros x Hx ->%list_elem_of_singleton. done.
Qed.
End isolation.
End HealthCheckManager.

(** ** [HealthManager] *)

Module HealthManager.
(** Its breakers are whatever callers put in: those of adapter_concurrency.py
    have the methods [record_success] and [record_failure] the manager looks
    for, those of adapter_resource_manager.py do not. *)
Inductive breaker : Type :=
  | Recording (b : CB.t)
  | Plain (b : ACB.t).

Definition state_value (b : breaker) : string :=
  CircuitBreakerState_value
    match b with Recording b => CB.state b | Plain b => ACB.state b end.

Record ResourceHealthCheck : Type := Response {
  h_status : HealthStatus;
  h_text : option string;
}.

Record t : Type := Manager {
  rate_limit_window : micros;
  max_checks_per_window : Z;
  health_checks : list string;
  circuit_breakers : gmap string breaker;
  _check_counts : gmap string (list micros);
}.

Definition new (rate_limit_window : micros) (max_checks_per_window : Z) : t :=
  Manager rate_limit_window max_checks_per_window [] ∅ ∅.

Definition register_health_check (name : string) (m : t) : t :=
  Manager (rate_limit_window m) (max_checks_per_window m)
    (if bool_decide (name ∈ health_checks m) then health_checks m else health_checks m ++ [name])
    (circuit_breakers m) (<[name := []]> (_check_counts m)).

Definition set_breakers (bs : gmap string breaker) (m : t) : t :=
  Manager (rate_limit_window m) (max_checks_per_window m) (health_checks m) bs (_check_counts m).

Section checks.
Context (_sanitize_error : exn -> string) (timeout_text : string).

(** [check_resource_health] up to the check: the rate limit, the breaker, the
    registration; [None] when the check is run. *)
Definition begin_check (name : string) (now : micros) (m : t) : option ResourceHealthCheck * t :=
  let (allowed, m) :=
    match _check_counts m !! name with
    | Some times =>
        let (yes, times) := admit_call (max_checks_per_window m) (rate_limit_window m) now times in
        (yes, Manager (rate_limit_window m) (max_checks_per_window m) (health_checks m)
                (circuit_breakers m) (<[name := times]> (_check_counts m)))
    | None => (true, m)
    end in
  if negb allowed then (Some (Response RATE_LIMITED (Some "Rate limit exceeded")), m)
  else
    let circuit_open :=
      match circuit_breakers m !! name with
      | Some b => String.eqb (state_value b) "open"
      | None => false
      end in
    if circuit_open then (Some (Response CIRCUIT_OPEN (Some "Circuit breaker is open")), m)
    else if bool_decide (name ∈ health_checks m) then (None, m)
    else (Some (Response UNKNOWN (Some ("Health check not registered: " +:+ name))), m).

(** The rest, when the check has ended: a message on success. A timeout is not
    recorded with the breaker. *)
Definition finish_check (name : string) (outcome : res (option string)) (now : micros) (m : t)
    : ResourceHealthCheck * t :=
  let record (f : CB.t -> CB.t) :=
    match circuit_breakers m !! name with
    | Some (Recording b) => set_breakers (<[name := Recording (f b)]> (circuit_breakers m)) m
    | _ => m
    end in
  match outcome with
  | Ok message => (Response HEALTHY message, record (CB.record_success now))
  | Raise (TimeoutError _) =>
      (Response TIMEOUT (Some ("Health check timed out after " +:+ timeout_text)), m)
  | Raise e => (Response UNHEALTHY (Some (_sanitize_error e)), record (CB.record_failure now))
  end.

Definition cleanup (m : t) : t :=
  Manager (rate_limit_window m) (max_checks_per_window m) [] ∅ ∅.

(** [get_system_health], from the responses of all resources. *)
Definition overall_status (statuses : list HealthStatus) : HealthStatus :=
  if forallb (fun s => bool_decide (s = HEALTHY)) statuses then HEALTHY
  else if existsb is_unhealthy statuses then UNHEALTHY
  else if existsb is_degraded statuses then DEGRADED
  else DEGRADED.

Inductive event : Type :=
  | Register (name : string)
  | SetBreaker (name : string) (b : breaker)
  | Begin (name : string) (now : micros)
  | Finish (name : string) (outcome : res (option string)) (now : micros)
  | Cleanup.

Definition step (m : t) (e : event) : t :=
  match e with
  | Register name => register_health_check name m
  | SetBreaker name b => set_breakers (<[name := b]> (circuit_breakers m)) m
  | Begin name now => (begin_check name now m).2
  | Finish name outcome now => (finish_check name outcome now m).2
  | Cleanup => cleanup m
  end.

(** ** An open breaker *)

Definition leaves_breaker (name : string) (e : event) : Prop :=
  match e with SetBreaker n _ => n <> name | Cleanup => False | _ => True end.

Definition is_open (name : string) (m : t) : Prop :=
  exists b, circuit_breakers m !! name = Some (Recording b) /\ CB.state b = OPEN.

Lemma record_success_open now b : CB.state b = OPEN -> CB.state (CB.record_success now b) = OPEN.
Proof. unfold CB.record_success. simpl. by intros ->. Qed.

Lemma record_failure_open now b : CB.state b = OPEN -> CB.state (CB.record_failure now b) = OPEN.
Proof. unfold CB.record_failure, CB.count_failure. simpl. by intros ->. Qed.

Lemma begin_check_breakers name now m :
  circuit_breakers (begin_check name now m).2 = circuit_breakers m.
Proof.
  unfold begin_check, admit_call. repeat case_match; simplify_eq/=; done.
Qed.

Lemma step_open name m e : is_open name m -> leaves_breaker name e -> is_open name (step m e).
Proof.
  intros (b & Hb & Ho) He. destruct e as [n|n b'|n now|n outcome now|]; simpl in *; try done.
  - by exists b.
  - exists b. simpl. by rewrite lookup_insert_ne.
  - exists b. by rewrite begin_check_breakers.
  - assert (Hrec : forall f, CB.state (f b) = OPEN -> is_open name
      (match circuit_breakers m !! n with
       | Some (Recording b) => set_breakers (<[n := Recording (f b)]> (circuit_breakers m)) m
       | _ => m
       end)).
    { intros f Hf. destruct (decide (n = name)) as [->|Hne].
      - rewrite Hb. exists (f b). simpl. by rewrite lookup_insert_eq.
      - repeat case_match; try by exists b. exists b. simpl. by rewrite lookup_insert_ne. }
    unfold finish_check. destruct outcome as [x|[]]; simpl;
      try (by exists b); apply Hrec; auto using record_success_open, record_failure_open.
Qed.

(** C22: once the breaker of a resource is open, [HealthManager] never
    runs the check of that resource again, however much time passes: it reads
    the state but never asks [should_allow_request], which alone would let a
    probe through after the recovery timeout. Only replacing the breaker or
    cleaning up ends this. *)
Theorem open_breaker_never_probed (m : t) (name : string) (es : list event) (now : micros) :
  is_open name m -> Forall (leaves_breaker name) es ->
  exists r, (begin_check name now (run step m es)).1 = Some r /\
    (h_status r = CIRCUIT_OPEN \/ h_status r = RATE_LIMITED).
Proof.
  intros Hm Hes.
  assert (H : is_open name (run step m es)).
  { apply (run_invariant step (is_open name) (leaves_breaker name)); [|done..].
    intros s e. apply step_open. }
  destruct H as (b & Hb & Ho). unfold begin_check.
  destruct (_check_counts (run step m es) !! name) as [times|].
  - destruct (admit_call _ _ now times) as [[] times']; simpl; [|eexists; split; [done|auto]].
    rewrite Hb. unfold state_value. rewrite Ho. simpl. eexists. split; [done|]. auto.
  - simpl. rewrite Hb. unfold state_value. rewrite Ho. simpl. eexists. split; [done|]. auto.
Qed.

(** ** The rate of checks *)

Definition keeps_counts (name : string) (e : event) : Prop :=
  match e with Register n => n <> name | Cleanup => False | _ => True end.

(** The times at which checks of a resource are asked for, and those at which
    its check function is run. *)
Definition asked (name : string) (es : list event) : list micros :=
  omap (fun e => match e with
                 | Begin n now => if bool_decide (n = name) then Some now else None
                 | _ => None
                 end) es.

Fixpoint started (name : string) (m : t) (es : list event) : list micros :=
  match es with
  | [] => []
  | e :: es =>
      match e with
      | Begin n now =>
          if bool_decide (n = name) &&
             match (begin_check n now m).1 with None => true | Some _ => false end
          then [now] else []
      | _ => []
      end ++ started name (step m e) es
  end.

Lemma step_limits m e :
  rate_limit_window (step m e) = rate_limit_window m /\
  max_checks_per_window (step m e) = max_checks_per_window m.
Proof.
  destruct e; simpl; try done.
  - unfold begin_check, admit_call. repeat case_match; simplify_eq/=; done.
  - unfold finish_check. repeat case_match; done.
Qed.

Lemma step_counts name m e :
  keeps_counts name e -> (forall now, e <> Begin name now) ->
  _check_counts (step m e) !! name = _check_counts m !! name.
Proof.
  intros He Hb. destruct e as [n|n b|n now|n outcome now|]; simpl in *; try done.
  - by rewrite lookup_insert_ne.
  - assert (n <> name) by (intros ->; by eapply Hb).
    unfold begin_check. destruct (_check_counts m !! n); [|by repeat case_match].
    destruct (admit_call _ _ now l) as [[] times]; simpl; repeat case_match; simpl;
      by rewrite lookup_insert_ne.
  - unfold finish_check. repeat case_match; done.
Qed.

Lemma begin_counts name now m times :
  _check_counts m !! name = Some times ->
  let (yes, times') := admit_call (max_checks_per_window m) (rate_limit_window m) now times in
  _check_counts (begin_check name now m).2 !! name = Some times' /\
  ((begin_check name now m).1 = None -> yes = true).
Proof.
  intros Ht. unfold begin_check. rewrite Ht.
  destruct (admit_call _ _ now times) as [[] times']; simpl.
  - repeat case_match; simpl; by rewrite lookup_insert_eq.
  - by rewrite lookup_insert_eq.
Qed.

Lemma started_admitted name es : forall m times,
  _check_counts m !! name = Some times -> Forall (keeps_counts name) es ->
  started name m es `sublist_of`
    admitted (max_checks_per_window m) (rate_limit_window m) (asked name es) times.
Proof.
  induction es as [|e es IH]; intros m times Ht Hes; [done|].
  apply Forall_cons in Hes as [He Hes]. destruct (step_limits m e) as [El Em].
  assert (Hother : (forall now, e <> Begin name now) ->
    started name m (e :: es) `sublist_of`
      admitted (max_checks_per_window m) (rate_limit_window m) (asked name (e :: es)) times).
  { intros Hne. specialize (IH (step m e) times). rewrite El, Em in IH.
    specialize (IH ltac:(rewrite step_counts by done; exact Ht) Hes).
    destruct e as [| |n now| |]; simpl; try exact IH.
    rewrite bool_decide_false by (intros ->; by eapply Hne). exact IH. }
  destruct e as [| |n now| |]; try (by apply Hother).
  destruct (decide (n = name)) as [->|Hn]; [|apply Hother; naive_solver].
  clear Hother. simpl. rewrite bool_decide_true by done. simpl.
  pose proof (begin_counts name now m times Ht) as Hb.
  destruct (admit_call _ _ now times) as [yes times'] eqn:Ea. destruct Hb as [Hb Hy].
  specialize (IH _ times' Hb Hes). simpl in El, Em. rewrite El, Em in IH.
  apply sublist_app; [|exact IH].
  destruct (begin_check name now m).1; simpl; [apply sublist_nil_l|]. by rewrite Hy.
Qed.

(** C23: after the registration of a resource, whatever is asked of
    the manager, its check function starts at most [max_checks_per_window]
    times in any window, provided the clock does not go back between requests
    for that resource. *)
Theorem checks_within_rate (m : t) (name : string) (es : list event) (at_ : micros) :
  0 <= max_checks_per_window m -> 0 < rate_limit_window m ->
  Forall (keeps_counts name) es -> StronglySorted Z.le (asked name es) ->
  let m' := register_health_check name m in
  Z.of_nat (length (filter (within (rate_limit_window m) at_) (started name m' es)))
    <= max_checks_per_window m.
Proof.
  intros Hl Hw Hes Hs m'.
  assert (Hsub := started_admitted name es m' [] (lookup_insert_eq _ _ _) Hes).
  change (max_checks_per_window m') with (max_checks_per_window m) in Hsub.
  change (rate_limit_window m') with (rate_limit_window m) in Hsub.
  destruct (asked name es) as [|now calls] eqn:E.
  { apply sublist_nil_r in Hsub. rewrite Hsub. simpl. lia. }
  pose proof (admitted_window (max_checks_per_window m) (rate_limit_window m) Hl Hw (now :: calls)
    now [] [] (empty_window _ _ Hl now)) as Hadm.
  assert (Hs' : StronglySorted Z.le (now :: now :: calls)).
  { constructor; [done|]. apply StronglySorted_inv in Hs as [_ Hf]. constructor; [lia|done]. }
  specialize (Hadm Hs' at_). rewrite app_nil_l in Hadm.
  apply (filter_sublist (within (rate_limit_window m) at_)) in Hsub.
  apply sublist_length in Hsub. lia.
Qed.
End checks.
End HealthManager.

(** ** Runs *)

Module Demo.
Definition sanitize (e : exn) : string := exn_str e.
Definition seconds_text (c : ModelHealthCheckConfig) : string := "5.0s".
Definition breaker_config : ACB.config := ACB.Config 1 (seconds 60) 0 1.

(** Two dependencies, "db" with a breaker that one failure opens. *)
Definition two : HealthCheckManager.t :=
  HealthCheckManager.register_health_check (CheckConfig "cache" false None) 0
    (HealthCheckManager.register_health_check (CheckConfig "db" true (Some breaker_config)) 0
       HealthCheckManager.new).

Definition fine (name : string) : HealthCheckResult :=
  CheckResult (CheckConfig name true None) HEALTHY 0 None.

Definition envs (name : string) : HealthCheckManager.env :=
  HealthCheckManager.Env 10 0 20
    (if String.eqb name "db" then Raise (TimeoutError "") else Ok (fine name)) (fun b => b).

Lemma check_all_isolated_witness :
  NoDup (HealthCheckManager.registered two) /\
  r_status <$> (HealthCheckManager.check_all_dependencies sanitize seconds_text envs two).1
    = [TIMEOUT; HEALTHY] /\
  (HealthCheckManager.check_all_dependencies sanitize seconds_text envs two).1 =
  (fun name => (HealthCheckManager.check_one sanitize seconds_text name (envs name) two).1)
    <$> ["db"; "cache"].
Proof.
  assert (Hnd : NoDup (HealthCheckManager.registered two)).
  { apply HealthCheckManager.register_NoDup, HealthCheckManager.register_NoDup. constructor. }
  split; [exact Hnd|]. split; [by vm_compute|].
  exact (HealthCheckManager.check_all_isolated sanitize seconds_text envs two Hnd).
Defined.

(** The breaker is open after the timeout: the next check is refused, and the
    refusal is reported as UNHEALTHY, not as CIRCUIT_OPEN. *)
Example refusal_is_unhealthy :
  let h := (HealthCheckManager.check_all_dependencies sanitize seconds_text envs two).2 in
  r_status (HealthCheckManager.check_one sanitize seconds_text "db"
    (HealthCheckManager.Env 30 0 40 (Ok (fine "db")) (fun b => b)) h).1 = UNHEALTHY.
Proof. by vm_compute. Qed.

(** Registering a dependency again without a breaker keeps its old breaker. *)
Example stale_breaker_kept :
  let h := HealthCheckManager.register_health_check (CheckConfig "db" true None) 50 two in
  is_Some (HealthCheckManager._circuit_breakers h !! "db").
Proof. by eexists. Qed.

Definition manager : HealthManager.t :=
  HealthManager.register_health_check "api" (HealthManager.new (seconds 60) 2).

Definition opening : list HealthManager.event :=
  [HealthManager.SetBreaker "api" (HealthManager.Recording (CB.init (CB.Config 1 (seconds 30) 1) 0));
   HealthManager.Begin "api" 0; HealthManager.Finish "api" (Raise (OSError "down")) 5].

Definition demo_run : list HealthManager.event -> HealthManager.t :=
  run (HealthManager.step sanitize "5.0s") manager.

(** An hour later, long after the recovery timeout of 30 s. *)
Lemma open_breaker_never_probed_witness :
  HealthManager.is_open "api" (demo_run opening) /\
  exists r, (HealthManager.begin_check "api" (seconds 3600) (demo_run opening)).1 = Some r /\
    (HealthManager.h_status r = CIRCUIT_OPEN \/ HealthManager.h_status r = RATE_LIMITED).
Proof.
  assert (H : HealthManager.is_open "api" (demo_run opening)) by (eexists; by vm_compute).
  split; [exact H|].
  exact (HealthManager.open_breaker_never_probed sanitize "5.0s" (demo_run opening) "api" []
    (seconds 3600) H (Forall_nil_2 _)).
Defined.

Definition asking : list HealthManager.event :=
  (fun t => HealthManager.Begin "api" (seconds t)) <$> [0; 10; 20; 61].

Lemma checks_within_rate_witness :
  HealthManager.started sanitize "5.0s" "api" manager asking = [0; seconds 10; seconds 61] /\
  Z.of_nat (length (filter (within (seconds 60) (seconds 30))
    (HealthManager.started sanitize "5.0s" "api" manager asking))) <= 2.
Proof.
  split; [by vm_compute|].
  refine (HealthManager.checks_within_rate sanitize "5.0s" (HealthManager.new (seconds 60) 2) "api"
    asking (seconds 30) _ _ _ _).
  - done.
  - done.
  - repeat constructor.
  - vm_compute. repeat constructor; discriminate.
Defined.

(** A check that times out is not recorded with the breaker. *)
Example timeouts_do_not_count :
  let m := run (HealthManager.step sanitize "5.0s") manager
    [HealthManager.SetBreaker "api"
       (HealthManager.Recording (CB.init (CB.Config 1 (seconds 30) 1) 0));
     HealthManager.Begin "api" 0; HealthManager.Finish "api" (Raise (TimeoutError "")) 5] in
  exists b, HealthManager.circuit_breakers m !! "api" = Some (HealthManager.Recording b) /\
    CB.state b = CLOSED /\ CB.total_calls b = 0.
Proof. eexists. split; [by vm_compute|]. by vm_compute. Qed.
End Demo.
