(* ===== verification/Navigation.v ===== *)
(** * The navigation history

    Models [HandlerNavigationHistoryWriter] and
    [HandlerNavigationHistoryReducer] of src/src/omnimemory/nodes/
    node_navigation_history_reducer/handlers/
    handler_navigation_history_reducer.py: a session is written to a table,
    and a successful one also to a collection of vectors. Other writers act
    between the calls, and a call may fail before or after it took effect.
    SHA-256, JSON, the clock's ISO format and the embedding model are
    arguments. *)

From S2P Require Import Prelude.

Record ModelPlanStep : Type := PlanStep {
  step_index : Z;
  from_state_id : string;
  to_state_id : string;
  action : string;
  executed_at : micros;
}.

Inductive NavigationOutcome : Type :=
  | OutcomeSuccess (reached_state_id : string)
  | OutcomeFailure (reason : string) (details : option string).

Definition tag (o : NavigationOutcome) : string :=
  match o with OutcomeSuccess _ => "success" | OutcomeFailure _ _ => "failure" end.

Record ModelNavigationSession : Type := Session {
  session_id : uuid;
  goal_condition : string;
  start_state_id : string;
  end_state_id : string;
  executed_steps : list ModelPlanStep;
  final_outcome : NavigationOutcome;
  graph_fingerprint : string;
  created_at : micros;
}.

Definition is_successful (s : ModelNavigationSession) : bool :=
  String.eqb (tag (final_outcome s)) "success".

Definition step_count (s : ModelNavigationSession) : Z := Z.of_nat (length (executed_steps s)).

Inductive response_status : Type := success | error | skipped.

#[export] Instance response_status_eq_dec : EqDecision response_status.
Proof. solve_decision. Defined.

Record ModelNavigationHistoryResponse : Type := Response {
  r_session_id : uuid;
  r_status : response_status;
  postgres_written : bool;
  qdrant_written : bool;
  idempotent_skip : bool;
  error_message : option string;
}.

(** A row of [navigation_sessions], by [session_id]. *)
Record row : Type := Row {
  goal_hash : string;
  row_goal_condition : string;
  row_start_state_id : string;
  row_end_state_id : string;
  row_step_count : Z;
  outcome : string;
  failure_reason : option string;
  row_graph_fingerprint : string;
  steps_json : string;
  row_created_at : micros;
}.

(** A point of the collection [navigation_paths], by its identifier: two named
    vectors, and a payload made of the session. *)
Record point (vector : Type) : Type := Point {
  goal : vector;
  start_state : vector;
  payload_goal_hash : string;
  payload_created_at : string;
  payload_session : ModelNavigationSession;
}.
Arguments Point {vector} _ _ _ _ _.
Arguments goal {vector} _.
Arguments start_state {vector} _.
Arguments payload_goal_hash {vector} _.
Arguments payload_created_at {vector} _.
Arguments payload_session {vector} _.

Section navigation.
Context {vector : Type}.
Context (sha256 : string -> string) (json_dumps : list ModelPlanStep -> string)
        (isoformat : micros -> string).

(** ** The stores, and the calls on them *)

Record stores : Type := Stores {
  sessions : gmap uuid row;
  points : gmap uuid (point vector);
}.

Inductive call_outcome : Type :=
  | Completes
  | Fails (e : exn) (applied : bool).

(** Around a call: what other writers did since the last one, how it ends, and
    the vector an embedding call returns. *)
Record call_env : Type := CallEnv {
  others : stores -> stores;
  ends : call_outcome;
  embedded : vector;
}.

(** The writer and its surroundings: whether the pool and the client exist,
    and [initialize] was called. *)
Record world : Type := World {
  _pg_pool : bool;
  _qdrant_client : bool;
  _initialized : bool;
  store : stores;
  env : nat -> call_env;
  calls : nat;
}.

Definition call {A} (f : call_env -> stores -> A * stores) : M world A := fun w =>
  let e := env w (calls w) in
  let s := others e (store w) in
  let after s := World (_pg_pool w) (_qdrant_client w) (_initialized w) s (env w) (S (calls w)) in
  match ends e with
  | Completes => (Ok (f e s).1, after (f e s).2)
  | Fails x applied => (Raise x, after (if applied then (f e s).2 else s))
  end.

Definition _get_pg_pool : M world unit :=
  let! w := get in
  if _pg_pool w then ret tt
  else
    do! call (fun _ s => (tt, s));
    modify (fun w => World true (_qdrant_client w) (_initialized w) (store w) (env w) (calls w)).

(** The descriptor that names the host may be missing: that call can fail. *)
Definition _get_qdrant_client : M world unit :=
  let! w := get in
  if _qdrant_client w then ret tt
  else
    do! call (fun _ s => (tt, s));
    modify (fun w => World (_pg_pool w) true (_initialized w) (store w) (env w) (calls w)).

Definition row_of (s : ModelNavigationSession) : row :=
  Row (sha256 (goal_condition s)) (goal_condition s) (start_state_id s) (end_state_id s)
    (step_count s) (tag (final_outcome s))
    (match final_outcome s with OutcomeFailure reason _ => Some reason | _ => None end)
    (graph_fingerprint s) (json_dumps (executed_steps s)) (created_at s).

(** [INSERT ... ON CONFLICT (session_id) DO NOTHING RETURNING session_id]. *)
Definition INSERT (s : ModelNavigationSession) (st : stores) : option uuid * stores :=
  match sessions st !! session_id s with
  | Some _ => (None, st)
  | None => (Some (session_id s), Stores (<[session_id s := row_of s]> (sessions st)) (points st))
  end.

Definition _write_postgres (s : ModelNavigationSession) : M world string :=
  let! inserted := call (fun _ st => INSERT s st) in
  ret match inserted with None => "idempotent" | Some _ => "written" end.

Definition _embed_text (text : string) : M world vector := call (fun e st => (embedded e, st)).

Definition point_of (s : ModelNavigationSession) (goal start : vector) : point vector :=
  Point goal start (sha256 (goal_condition s)) (isoformat (created_at s)) s.

Definition _write_qdrant (s : ModelNavigationSession) : M world unit :=
  let! goal_vector := _embed_text (goal_condition s) in
  let! start_vector := _embed_text (start_state_id s) in
  call (fun _ st =>
    (tt, Stores (sessions st) (<[session_id s := point_of s goal_vector start_vector]> (points st)))).

(** [record]. *)
Definition record (s : ModelNavigationSession) : M world ModelNavigationHistoryResponse :=
  let failed written prefix e := ret
    (Response (session_id s) error written false false (Some (prefix +:+ exn_str e))) in
  let! pg_result :=
    try_Exception
      (do! _get_pg_pool; let! r := _write_postgres s in ret (inl r))
      (fun e => ret (inr e)) in
  match pg_result with
  | inr e => failed false "PostgreSQL write failed: " e
  | inl pg_result =>
      if String.eqb pg_result "idempotent"
      then ret (Response (session_id s) skipped false false true None)
      else if is_successful s then
        try_Exception
          (do! _get_qdrant_client; do! _write_qdrant s;
           ret (Response (session_id s) success true true false None))
          (failed true "Qdrant write failed (PostgreSQL OK): ")
      else ret (Response (session_id s) success true false false None)
  end.

(** ** [HandlerNavigationHistoryReducer] *)

Definition initialize (w : world) : world :=
  World (_pg_pool w) (_qdrant_client w) true (store w) (env w) (calls w).

(** [close] of the writer, then the flag. *)
Definition shutdown (w : world) : world :=
  World false false false (store w) (env w) (calls w).

Definition execute (s : ModelNavigationSession) : M world ModelNavigationHistoryResponse :=
  let! w := get in
  if negb (_initialized w) then
    ret (Response (session_id s) error false false false
           (Some "Handler not initialized. Call initialize() first."))
  else
    try_Exception (record s) (fun e => ret
      (Response (session_id s) error false false false (Some ("Unhandled error: " +:+ exn_str e)))).

(** ** Proofs *)

Lemma wp_nav_call {A} (f : call_env -> stores -> A * stores) Q w :
  let e := env w (calls w) in
  let s := others e (store w) in
  let after s := World (_pg_pool w) (_qdrant_client w) (_initialized w) s (env w) (S (calls w)) in
  (ends e = Completes -> Q (Ok (f e s).1) (after (f e s).2)) ->
  (forall x applied, ends e = Fails x applied ->
     Q (Raise x) (after (if applied then (f e s).2 else s))) ->
  wp (call f) Q w.
Proof.
  intros e s after H1 H2. unfold wp, call. fold e s after.
  destruct (ends e) as [|x applied] eqn:E; simpl; [by apply H1|by apply (H2 x applied)].
Qed.

(** What every step of the writer keeps: a property [I] of the stores that the
    others keep, and the environment. *)
Definition keeps (I : stores -> Prop) (w : world) : Prop :=
  I (store w) /\ forall k s, I s -> I (others (env w k) s).

Definition fixed (I : stores -> Prop) (w w' : world) : Prop :=
  keeps I w' /\ env w' = env w.

(** A call fails with [e] at some point. *)
Definition raised (w : world) (e : exn) : Prop :=
  exists k applied, ends (env w k) = Fails e applied.

(** What a step of the writer that starts in [w] ends with. *)
Definition step_end (I : stores -> Prop) {A} (w : world) (r : res A) (w' : world) : Prop :=
  fixed I w w' /\ match r with Ok _ => True | Raise e => raised w e end.

Lemma call_keeps I {A} (f : call_env -> stores -> A * stores) (Q : res A -> world -> Prop) w :
  keeps I w -> (forall e s, I s -> I (f e s).2) ->
  (forall r w', step_end I w r w' -> Q r w') -> wp (call f) Q w.
Proof.
  intros [Hi Ho] Hf HQ. apply wp_nav_call; [intros _|intros x applied Hx]; apply HQ.
  - split; [|done]. split; [|done]. split; simpl; auto.
  - split; [|by exists (calls w), applied]. split; [|done].
    split; simpl; [destruct applied; auto|auto].
Qed.

Lemma fixed_trans I w1 w2 w3 : fixed I w1 w2 -> fixed I w2 w3 -> fixed I w1 w3.
Proof. intros [_ ?] [? ?]. split; congruence. Qed.

Lemma fixed_refl I w : keeps I w -> fixed I w w.
Proof. by split. Qed.

Lemma step_end_trans I {A} w1 w2 w3 (r : res A) :
  fixed I w1 w2 -> step_end I w2 r w3 -> step_end I w1 r w3.
Proof.
  intros H12 [H23 Hr]. split; [by eapply fixed_trans|]. destruct r; [done|].
  unfold raised in *. by rewrite (proj2 H12) in Hr.
Qed.

Lemma nav_get_pg_pool I Q w :
  keeps I w -> (forall r w', step_end I w r w' -> Q r w') -> wp _get_pg_pool Q w.
Proof.
  intros Hw HQ. unfold _get_pg_pool. wp_step. unfold get, wp at 1. simpl.
  destruct (_pg_pool w); [wp_step; apply HQ; by split; [apply fixed_refl|]|].
  wp_step. apply (call_keeps I); [done|done|]. intros [u|e] w1 H1; [|by apply HQ].
  wp_step. apply HQ. by destruct H1 as [[[? ?] ?] _].
Qed.

Lemma nav_get_qdrant_client I Q w :
  keeps I w -> (forall r w', step_end I w r w' -> Q r w') -> wp _get_qdrant_client Q w.
Proof.
  intros Hw HQ. unfold _get_qdrant_client. wp_step. unfold get, wp at 1. simpl.
  destruct (_qdrant_client w); [wp_step; apply HQ; by split; [apply fixed_refl|]|].
  wp_step. apply (call_keeps I); [done|done|]. intros [u|e] w1 H1; [|by apply HQ].
  wp_step. apply HQ. by destruct H1 as [[[? ?] ?] _].
Qed.

Lemma nav_write_qdrant I s Q w :
  keeps I w ->
  (forall g v st, I st ->
     I (Stores (sessions st) (<[session_id s := point_of s g v]> (points st)))) ->
  (forall r w', step_end I w r w' -> Q r w') -> wp (_write_qdrant s) Q w.
Proof.
  intros Hw Hp HQ. unfold _write_qdrant, _embed_text. wp_step.
  apply (call_keeps I); [done|done|]. intros [g|e] w1 H1; [|by apply HQ].
  wp_step. apply (call_keeps I); [apply H1|done|].
  intros [v|e] w2 H2; [|apply HQ; eapply step_end_trans; [apply H1|exact H2]].
  apply (call_keeps I); [apply H2|intros ? st; apply Hp|]. intros r w3 H3. apply HQ.
  eapply step_end_trans; [apply H1|]. eapply step_end_trans; [apply H2|exact H3].
Qed.

(** A property of the stores is kept by [record] if an insertion keeps it,
    and, for a successful session, an upsert. *)
Lemma record_keeps I s Q w :
  keeps I w ->
  (forall st, I st -> I (INSERT s st).2) ->
  (is_successful s = true -> forall g v st, I st ->
     I (Stores (sessions st) (<[session_id s := point_of s g v]> (points st)))) ->
  (forall a w', fixed I w w' -> r_session_id a = session_id s ->
     (qdrant_written a = true -> is_successful s = true) -> Q (Ok a) w') ->
  (forall e w', fixed I w w' -> is_Exception e = false -> raised w e -> Q (Raise e) w') ->
  wp (record s) Q w.
Proof.
  intros Hw Hi Hu HQ HR. unfold record.
  assert (Hcut : forall A (e : exn) w', step_end I w (Raise (A := A) e) w' ->
    is_Exception e = false -> Q (Raise e) w') by (intros A e w' [] ?; by apply HR).
  wp_step. apply (nav_get_pg_pool I); [done|].
  intros [u|e] w1 H1; wp_step;
    [|destruct (is_Exception e) eqn:Ee; wp_step; [by apply HQ; [apply H1|..]|by eapply Hcut]].
  unfold _write_postgres. wp_step. apply (call_keeps I); [apply H1|auto|].
  intros r w2 H2. assert (H12 : step_end I w r w2) by (eapply step_end_trans; [apply H1|exact H2]).
  destruct r as [r|e]; wp_step;
    [|destruct (is_Exception e) eqn:Ee; wp_step; [by apply HQ; [apply H12|..]|by eapply Hcut]].
  destruct (String.eqb _ "idempotent"); [wp_step; by apply HQ; [apply H12|..]|].
  destruct (is_successful s) eqn:Es; [|wp_step; by apply HQ; [apply H12|..]].
  wp_step. apply (nav_get_qdrant_client I); [apply H12|].
  intros r3 w3 H3.
  assert (H13 : step_end I w r3 w3) by (eapply step_end_trans; [apply H12|exact H3]).
  destruct r3 as [u'|e]; wp_step;
    [|destruct (is_Exception e) eqn:Ee; wp_step; [by apply HQ; [apply H13|..]|by eapply Hcut]].
  apply (nav_write_qdrant I); [apply H3|auto|]. intros r4 w4 H4.
  assert (H14 : step_end I w r4 w4) by (eapply step_end_trans; [apply H13|exact H4]).
  destruct r4 as [u''|e]; wp_step; [by apply HQ; [apply H14|..]|].
  destruct (is_Exception e) eqn:Ee; wp_step; [by apply HQ; [apply H14|..]|by eapply Hcut].
Qed.

(** Only successful sessions are in the collection. *)
Definition positive (st : stores) : Prop :=
  forall i p, points st !! i = Some p -> is_successful (payload_session p) = true.

(** C24: failed paths never become retrieval examples: if other
    writers keep to successful sessions too, every point of the collection is
    still that of a successful session after recording any session, whichever
    calls failed and however the recording ended. It ends with a response, and
    one that claims a point was written is about a successful session; or one
    of its calls was cut off by something that is no [Exception], a
    cancellation, which it raises. *)
Theorem record_positive (s : ModelNavigationSession) (w : world) :
  keeps positive w ->
  positive (store (record s w).2) /\
  match (record s w).1 with
  | Ok a => qdrant_written a = true -> is_successful s = true
  | Raise e => is_Exception e = false /\ exists k applied, ends (env w k) = Fails e applied
  end.
Proof.
  intros Hw.
  assert (H : wp (record s) (fun r w' => positive (store w') /\
    match r with
    | Ok a => qdrant_written a = true -> is_successful s = true
    | Raise e => is_Exception e = false /\ raised w e
    end) w); [|exact H].
  apply (record_keeps positive); [done| | | |].
  - intros st Hst. unfold INSERT. by case_match.
  - intros Hs g v st Hst i p. simpl. rewrite lookup_insert. case_decide; [|apply Hst].
    by intros [= <-].
  - by intros a w' [[Hp _] _] _ Hq.
  - by intros e w' [[Hp _] _].
Qed.

(** The session has its row, but no point. *)
Definition orphaned (s : ModelNavigationSession) (st : stores) : Prop :=
  is_Some (sessions st !! session_id s) /\ points st !! session_id s = None.

(** Once the row of a session is there without its point, which a
    single failure of the embedding service or of the vector store leaves
    behind, recording the session again never writes the point: every attempt
    is answered "skipped", or fails on the table, or is cancelled. The
    collection misses that successful session for good. *)
Theorem failed_index_never_repaired (s : ModelNavigationSession) (w : world) :
  keeps (orphaned s) w ->
  orphaned s (store (record s w).2) /\
  match (record s w).1 with
  | Ok a => qdrant_written a = false /\ postgres_written a = false /\
            (r_status a = skipped \/ r_status a = error)
  | Raise e => is_Exception e = false
  end.
Proof.
  intros Hw.
  assert (H : wp (record s) (fun r w' => orphaned s (store w') /\
    match r with
    | Ok a => qdrant_written a = false /\ postgres_written a = false /\
              (r_status a = skipped \/ r_status a = error)
    | Raise e => is_Exception e = false
    end) w); [|exact H].
  unfold record. wp_step. apply (nav_get_pg_pool (orphaned s)); [done|].
  intros [u|e] w1 [[H1 _] _]; wp_step.
  2:{ destruct (is_Exception e) eqn:Ee; wp_step; (split; [apply H1|auto]). }
  unfold _write_postgres. wp_step. destruct H1 as [Ho Hk].
  assert (Hn := Hk (calls w1) (store w1) Ho).
  assert (Hins : INSERT s (others (env w1 (calls w1)) (store w1)) =
                 (None, others (env w1 (calls w1)) (store w1))).
  { unfold INSERT. destruct Hn as [[r ->] _]. done. }
  apply wp_nav_call.
  - intros _. rewrite Hins. simpl. wp_step. simpl. wp_step. split; [exact Hn|]. auto.
  - intros x applied _. rewrite Hins. wp_step.
    destruct (is_Exception x) eqn:Ex; wp_step; (split; [by destruct applied|auto]).
Qed.

(** No failure, and no interference. *)
Definition quiet (w : world) : Prop :=
  forall k, others (env w k) = id /\ ends (env w k) = Completes.

Lemma quiet_call {A} (f : call_env -> stores -> A * stores) (Q : res A -> world -> Prop) w :
  quiet w ->
  (forall w', env w' = env w -> store w' = (f (env w (calls w)) (store w)).2 ->
     Q (Ok (f (env w (calls w)) (store w)).1) w') ->
  wp (call f) Q w.
Proof.
  intros Hq HQ. destruct (Hq (calls w)) as [Ho He]. apply wp_nav_call.
  - intros _. rewrite Ho. by apply HQ.
  - congruence.
Qed.

Lemma quiet_env w w' : quiet w -> env w' = env w -> quiet w'.
Proof. unfold quiet. by intros ? ->. Qed.

Lemma quiet_pool (Q : res unit -> world -> Prop) w :
  quiet w -> (forall w', env w' = env w -> store w' = store w -> Q (Ok tt) w') ->
  wp _get_pg_pool Q w.
Proof.
  intros Hq HQ. unfold _get_pg_pool. wp_step. unfold get, wp at 1. simpl.
  destruct (_pg_pool w); [wp_step; by apply HQ|]. wp_step. apply quiet_call; [done|].
  intros w1 E1 E2. wp_step. by apply HQ.
Qed.

Lemma quiet_client (Q : res unit -> world -> Prop) w :
  quiet w -> (forall w', env w' = env w -> store w' = store w -> Q (Ok tt) w') ->
  wp _get_qdrant_client Q w.
Proof.
  intros Hq HQ. unfold _get_qdrant_client. wp_step. unfold get, wp at 1. simpl.
  destruct (_qdrant_client w); [wp_step; by apply HQ|]. wp_step. apply quiet_call; [done|].
  intros w1 E1 E2. wp_step. by apply HQ.
Qed.

(** What a quiet [record] leaves of the stores. *)
Definition recorded (s : ModelNavigationSession) (st : stores) (st' : stores) : Prop :=
  sessions st' = <[session_id s := row_of s]> (sessions st) /\
  if is_successful s
  then exists g v, points st' = <[session_id s := point_of s g v]> (points st)
  else points st' = points st.

Lemma quiet_record_new s w :
  quiet w -> sessions (store w) !! session_id s = None ->
  wp (record s) (fun r w' =>
    r = Ok (Response (session_id s) success true (is_successful s) false None) /\
    env w' = env w /\ recorded s (store w) (store w')) w.
Proof.
  intros Hq Hn. unfold record. wp_step. apply quiet_pool; [done|]. intros w1 E1 S1. wp_step.
  unfold _write_postgres. wp_step. apply quiet_call; [by eapply quiet_env|]. intros w2 E2 S2.
  rewrite S1 in S2 |- *. unfold INSERT in *. rewrite Hn in S2 |- *. simpl in S2 |- *. wp_step.
  unfold recorded.
  destruct (is_successful s); simpl; [|wp_step; rewrite S2; split; [done|]; split; [congruence|done]].
  wp_step. apply quiet_client; [eapply quiet_env; [done|congruence]|]. intros w3 E3 S3. wp_step.
  unfold _write_qdrant, _embed_text. wp_step.
  assert (Hq3 : quiet w3) by (eapply quiet_env; [done|congruence]).
  apply quiet_call; [done|]. intros w4 E4 S4. wp_step.
  apply quiet_call; [by eapply quiet_env|]. intros w5 E5 S5. wp_step.
  apply quiet_call; [eapply quiet_env; [done|congruence]|]. intros w6 E6 S6. wp_step.
  split; [done|]. split; [congruence|]. simpl in *.
  rewrite S6, S5, S4, S3, S2. simpl. split; [done|]. by do 2 eexists.
Qed.

Lemma quiet_record_again s w :
  quiet w -> is_Some (sessions (store w) !! session_id s) ->
  wp (record s) (fun r w' =>
    r = Ok (Response (session_id s) skipped false false true None) /\ store w' = store w) w.
Proof.
  intros Hq [r Hr]. unfold record. wp_step. apply quiet_pool; [done|]. intros w1 E1 S1. wp_step.
  unfold _write_postgres. wp_step. apply quiet_call; [by eapply quiet_env|]. intros w2 E2 S2.
  unfold INSERT in *. rewrite S1 in S2 |- *. rewrite Hr in S2 |- *. simpl in *. wp_step. simpl. wp_step.
  split; [done|congruence].
Qed.

(** Without failures and other writers, recording a new session
    writes its row, and its point exactly if it was successful, touching
    nothing else; recording it again changes nothing and says so. *)
Theorem record_writes (s : ModelNavigationSession) (w : world) :
  quiet w -> sessions (store w) !! session_id s = None ->
  let (r1, w1) := record s w in
  let (r2, w2) := record s w1 in
  r1 = Ok (Response (session_id s) success true (is_successful s) false None) /\
  recorded s (store w) (store w1) /\
  r2 = Ok (Response (session_id s) skipped false false true None) /\
  store w2 = store w1.
Proof.
  intros Hq Hn. assert (H1 := quiet_record_new s w Hq Hn).
  destruct (record s w) as [r1 w1] eqn:E. unfold wp in H1. rewrite E in H1. simpl in H1.
  destruct H1 as (-> & He & Hs).
  assert (H2 : wp (record s) (fun r w' =>
    r = Ok (Response (session_id s) skipped false false true None) /\ store w' = store w1) w1).
  { apply quiet_record_again; [by eapply quiet_env|]. destruct Hs as [-> _].
    rewrite lookup_insert_eq. by eexists. }
  unfold wp in H2. destruct (record s w1) as [r2 w2]. simpl in H2. tauto.
Qed.
End navigation.

(** ** Runs *)

Module NavigationDemo.
Definition sha (s : string) : string := "sha256:" +:+ s.
Definition dumps (steps : list ModelPlanStep) : string := "[]".
Definition iso (t : micros) : string := "2025-01-01T00:00:00+00:00".

Definition session : ModelNavigationSession :=
  Session "s1" "reach the exit" "hall" "exit" [PlanStep 0 "hall" "exit" "walk" 5]
    (OutcomeSuccess "exit") "f00d" 10.
Definition failed_session : ModelNavigationSession :=
  Session "s2" "reach the roof" "hall" "cellar" [] (OutcomeFailure "lost" None) "f00d" 10.

(** The call numbered [broken] fails; nobody else writes. *)
Definition start (broken : nat) : world (vector := nat) :=
  World false false true (Stores ∅ ∅)
    (fun k => CallEnv id (if (k =? broken)%nat then Fails (OSError "connection lost") false
                          else Completes) k) 0%nat.

Definition calm : world (vector := nat) :=
  World false false true (Stores ∅ ∅) (fun k => CallEnv id Completes k) 0%nat.

Definition demo_record := record (vector := nat) sha dumps iso.

(** The table is written, the vector store fails. *)
Definition half_written : world := (demo_record session (start 5)).2.

Lemma record_positive_witness :
  r_status <$> match (demo_record session (start 5)).1 with Ok a => Some a | Raise _ => None end
    = Some error /\
  positive (store (demo_record session (start 5)).2).
Proof.
  split; [by vm_compute|].
  apply (record_positive sha dumps iso session (start 5)).
  split; [|done]. intros i p. simpl. by rewrite lookup_empty.
Defined.

Lemma failed_index_never_repaired_witness :
  orphaned session (store half_written) /\
  orphaned session (store (demo_record session half_written).2).
Proof.
  assert (H : orphaned session (store half_written)).
  { split; [eexists; by vm_compute|by vm_compute]. }
  split; [exact H|].
  apply (failed_index_never_repaired sha dumps iso session half_written).
  split; [exact H|]. intros k s Hs. exact Hs.
Defined.

Lemma record_writes_witness :
  is_successful session = true /\
  let (r1, w1) := demo_record session calm in
  let (r2, w2) := demo_record session w1 in
  r1 = Ok (Response "s1" success true true false None) /\
  recorded sha dumps iso session (store calm) (store w1) /\
  r2 = Ok (Response "s1" skipped false false true None) /\ store w2 = store w1.
Proof.
  split; [done|].
  exact (record_writes sha dumps iso session calm (fun k => conj eq_refl eq_refl) eq_refl).
Defined.

Example failure_not_indexed :
  points (store (demo_record failed_session calm).2) = ∅.
Proof. by vm_compute. Qed.
End NavigationDemo.
