(* ===== verification/Entities.v ===== *)
(** * Heuristic text analysis

    Models the parts of src/src/omnimemory/nodes/node_semantic_analyzer_compute/
    handlers/handler_semantic_compute.py that only look at the text: the
    extraction and classification of entities, key concepts, topics and the
    two scores, with the constants of adapters/adapter_handler_constants.py and
    the model of an entity. Text is ASCII; scores are doubles. *)

From S2P Require Import Prelude Text Floats.

(** ** Constants *)

Definition SENTENCE_STARTING_STOPWORDS : list string :=
  ["The"; "A"; "An"; "This"; "That"; "These"; "Those"; "It"; "He"; "She"; "We"; "They"; "I";
   "You"; "However"; "Therefore"; "Furthermore"; "Moreover"; "Nevertheless"; "Meanwhile";
   "Additionally"; "Consequently"; "Subsequently"; "Otherwise"; "Accordingly"; "Similarly";
   "Likewise"; "Indeed"; "Hence"; "Thus"; "Regardless"; "Nonetheless"; "Notwithstanding"; "What";
   "When"; "Where"; "Who"; "Why"; "How"; "Which"; "There"; "Here"; "If"; "As"; "So"; "But";
   "And"; "Or"; "Yet"; "For"; "Nor"; "After"; "Before"; "Because"; "Although"; "While"; "Since";
   "Until"; "Unless"; "Once"; "Now"; "Then"; "Also"; "First"; "Second"; "Third"; "Finally";
   "Next"; "Last"; "Many"; "Most"; "Some"; "All"; "Any"; "Each"; "Every"; "Both"; "Few";
   "Several"; "Such"; "No"; "Not"; "Only"; "Just"; "Even"; "Still"; "Already"; "Recently";
   "Currently"; "Actually"; "Basically"; "Essentially"; "Generally"; "Usually"; "Obviously";
   "Clearly"; "Certainly"; "Probably"; "Perhaps"; "Maybe"; "Possibly"; "Today"; "Tomorrow";
   "Yesterday"].

Definition TOPIC_EXTRACTION_STOPWORDS : list string :=
  ["the"; "a"; "an"; "is"; "are"; "was"; "were"; "be"; "been"; "being"; "have"; "has"; "had";
   "do"; "does"; "did"; "will"; "would"; "could"; "should"; "may"; "might"; "must"; "shall";
   "can"; "need"; "dare"; "ought"; "used"; "to"; "of"; "in"; "for"; "on"; "with"; "at"; "by";
   "from"; "as"; "into"; "through"; "during"; "before"; "after"; "above"; "below"; "between";
   "under"; "again"; "further"; "then"; "once"; "and"; "but"; "or"; "nor"; "so"; "yet"; "both";
   "either"; "neither"; "not"; "only"; "own"; "same"; "than"; "too"; "very"; "just"; "this";
   "that"; "these"; "those"; "it"; "its"].

Definition COMPLEXITY_WORD_LEN_MIN : Z := 2.
Definition COMPLEXITY_WORD_LEN_RANGE : Z := 8.
Definition COMPLEXITY_SENTENCE_LEN_MIN : Z := 5.
Definition COMPLEXITY_SENTENCE_LEN_RANGE : Z := 30.
(** 0.8 *)
Definition KEY_CONCEPT_CONFIDENCE_THRESHOLD : spec_float := float_ratio 8 10.

Definition sentence_end_chars : ascii -> bool := among ".!?".
(** The characters stripped from a word, a quotation mark among them. *)
Definition punctuation (c : ascii) : bool :=
  among ".,!?;:'()[]{}" c || Ascii.eqb c "034".

(** ** Entities *)

Inductive EnumSemanticEntityType : Type :=
  | PERSON | ORGANIZATION | LOCATION | DATE | TIME | MONEY | PERCENT | QUANTITY | CARDINAL
  | ORDINAL | PRODUCT | EVENT | WORK_OF_ART | LAW | LANGUAGE | NORP | GPE | FACILITY | MISC
  | UNKNOWN.

#[export] Instance EnumSemanticEntityType_eq_dec : EqDecision EnumSemanticEntityType.
Proof. solve_decision. Defined.

Record ModelSemanticEntity : Type := Entity {
  entity_type : EnumSemanticEntityType;
  e_text : text;
  confidence : spec_float;
  span_start : Z;
  span_end : Z;
}.

(** The constraints of the model: the ranges of its fields, then
    [validate_span_ordering]. *)
Definition entity_valid (e : ModelSemanticEntity) : bool :=
  (0 <? length (e_text e))%nat && unit_float (confidence e) &&
  (0 <=? span_start e) && (0 <=? span_end e) &&
  (span_start e <? span_end e) &&
  (span_end e - span_start e =? Z.of_nat (length (e_text e))).

(** The constructor; [None] is pydantic's [ValidationError]. *)
Definition make_entity (ty : EnumSemanticEntityType) (t : text) (c : spec_float) (a b : Z)
    : option ModelSemanticEntity :=
  let e := Entity ty t c a b in if entity_valid e then Some e else None.

Definition span_length (e : ModelSemanticEntity) : Z := span_end e - span_start e.
Definition overlaps_with (e e' : ModelSemanticEntity) : bool :=
  negb ((span_end e <=? span_start e') || (span_end e' <=? span_start e)).

Definition org_suffixes : list string := ["inc"; "corp"; "llc"; "ltd"; "company"; "co"; "group"].
Definition location_words : list string :=
  ["street"; "avenue"; "road"; "city"; "state"; "country"; "park"; "building"].

Definition _classify_entity_heuristic (word : text) : EnumSemanticEntityType :=
  let word_lower := lower_text word in
  if existsb (fun suffix => ends_with_text suffix word_lower) org_suffixes then ORGANIZATION
  else if word_in word_lower location_words then LOCATION
  else if starts_with (of_string "$") word ||
          existsb (fun suffix => ends_with_text suffix word) ["USD"; "EUR"; "GBP"] then MONEY
  else if existsb (Ascii.eqb "%") word then PERCENT
  else if match word with c :: _ => is_upper c | [] => false end then MISC
  else UNKNOWN.

(** The word without its punctuation. *)
Definition clean (word : text) : text := strip_chars is_space (strip_chars punctuation word).

Definition ends_sentence (word : text) : bool := existsb sentence_end_chars word.

Section heuristic.
(** [policy_config.heuristic_entity_confidence] *)
Context (heuristic_entity_confidence : spec_float) (content : text).

(** The loop over the words; [None] is a [ValidationError]. *)
Fixpoint extract_words (words : list text) (i : nat) (is_sentence_start : bool)
    : option (list ModelSemanticEntity) :=
  match words with
  | [] => Some []
  | word :: words =>
      match index content word i with
      | None => extract_words words i is_sentence_start
      | Some word_start =>
          let i := (word_start + length word)%nat in
          let clean_word := clean word in
          let span_start := Z.of_nat word_start + find word clean_word in
          let span_end := span_start + Z.of_nat (length clean_word) in
          match clean_word with
          | [] => extract_words words i (ends_sentence word || is_sentence_start)
          | c :: _ =>
              let continue := extract_words words i (ends_sentence word) in
              if is_upper c && (1 <? length clean_word)%nat then
                if is_sentence_start && word_in clean_word SENTENCE_STARTING_STOPWORDS
                then continue
                else
                  let entity_type := _classify_entity_heuristic clean_word in
                  if bool_decide (entity_type <> UNKNOWN) then
                    e ← make_entity entity_type clean_word heuristic_entity_confidence
                          span_start span_end;
                    es ← continue; Some (e :: es)
                  else continue
              else continue
          end
      end
  end.

Definition _extract_entities_heuristic : option (list ModelSemanticEntity) :=
  extract_words (split content) 0 true.
End heuristic.

(** [dict.fromkeys]: the first occurrence of each key, in order. *)
Fixpoint fromkeys (seen l : list text) : list text :=
  match l with
  | [] => []
  | x :: l => if bool_decide (x ∈ seen) then fromkeys seen l else x :: fromkeys (x :: seen) l
  end.

Definition is_key_concept (e : ModelSemanticEntity) : bool :=
  SFleb KEY_CONCEPT_CONFIDENCE_THRESHOLD (confidence e) &&
  match entity_type e with ORGANIZATION | PERSON | PRODUCT | EVENT => true | _ => false end.

Definition _extract_key_concepts (entities : list ModelSemanticEntity) : list text :=
  take 10 (fromkeys [] (e_text <$> filter (fun e => is_key_concept e = true) entities)).

(** ** Topics *)

Definition filtered_words (content : text) : list text :=
  (fun w => lower_text (strip_chars punctuation w)) <$>
    filter (fun w => (3 < length w)%nat /\ word_in (lower_text w) TOPIC_EXTRACTION_STOPWORDS = false)
      (split (lower_text content)).

Definition _extract_topics_heuristic (content : text) : list text :=
  fst <$> take 5 (sort_desc (fun x => Z.of_nat x.2) (frequencies (filtered_words content))).

(** ** Scores *)

Definition count_char (c : ascii) (s : text) : Z :=
  Z.of_nat (length (filter (fun d => d = c) s)).

Definition _compute_complexity_score (content : text) : spec_float :=
  match split content with
  | [] => zero
  | words =>
      let avg_word_len := float_ratio (Z.of_nat (sum_list (length <$> words))) (Z.of_nat (length words)) in
      let word_complexity :=
        clamp01 (float_div (float_sub avg_word_len (float_of_Z COMPLEXITY_WORD_LEN_MIN))
                   (float_of_Z COMPLEXITY_WORD_LEN_RANGE)) in
      let sentences := Z.max 1 (count_char "." content + count_char "!" content + count_char "?" content) in
      let avg_sentence_len := float_ratio (Z.of_nat (length words)) sentences in
      let sentence_complexity :=
        clamp01 (float_div (float_sub avg_sentence_len (float_of_Z COMPLEXITY_SENTENCE_LEN_MIN))
                   (float_of_Z COMPLEXITY_SENTENCE_LEN_RANGE)) in
      float_div (float_add word_complexity sentence_complexity) two
  end.

Definition _compute_readability_score (content : text) : spec_float :=
  float_sub one (float_mul (_compute_complexity_score content) half).

(** ** Words *)

Definition solid (w : text) : Prop := Forall (fun c => is_space c = false) w.

(** The words with their positions, the head of [s] being at [pos]. *)
Fixpoint located_from (pos : nat) (word s : text) : list (nat * text) :=
  let words := match word with [] => [] | _ => [((pos - length word)%nat, word)] end in
  match s with
  | [] => words
  | c :: s =>
      if is_space c then words ++ located_from (S pos) [] s
      else located_from (S pos) (word ++ [c]) s
  end.
Definition located (s : text) : list (nat * text) := located_from 0 [] s.

(** A word of [s] at [p]: a maximal stretch without white space. *)
Definition is_word (s : text) (p : nat) (w : text) : Prop :=
  w <> [] /\ solid w /\ exists l r, s = l ++ w ++ r /\ length l = p /\
    (forall l' c, l = l' ++ [c] -> is_space c = true) /\
    (forall c r', r = c :: r' -> is_space c = true).

(** The sentence starts again after a word with a terminator; a word of
    punctuation alone does not end the start of a sentence. *)
Definition next_start (start : bool) (word : text) : bool :=
  match clean word with [] => ends_sentence word || start | _ => ends_sentence word end.

(** The entity a word makes. *)
Definition entity_of (conf : spec_float) (start : bool) (p : nat) (word : text)
    : list ModelSemanticEntity :=
  match clean word with
  | c :: _ =>
      if is_upper c && (1 <? length (clean word))%nat &&
         negb (start && word_in (clean word) SENTENCE_STARTING_STOPWORDS)
      then let a := Z.of_nat (p + lead punctuation word) in
           [Entity (_classify_entity_heuristic (clean word)) (clean word) conf
              a (a + Z.of_nat (length (clean word)))]
      else []
  | [] => []
  end.

Fixpoint entities_of (conf : spec_float) (start : bool) (words : list (nat * text))
    : list ModelSemanticEntity :=
  match words with
  | [] => []
  | (p, w) :: words => entity_of conf start p w ++ entities_of conf (next_start start w) words
  end.

Lemma solid_app a b : solid (a ++ b) <-> solid a /\ solid b.
Proof. apply Forall_app. Qed.

(** A word is found where it is: only white space separates it from the end of
    the last one. *)
Lemma index_here pre word rest i :
  word <> [] -> solid word -> (i <= length pre)%nat ->
  Forall (fun c => is_space c = true) (drop i pre) ->
  index (pre ++ word ++ rest) word i = Some (length pre).
Proof.
  intros Hne Hw Hi Hs. unfold index. rewrite drop_app_le by done.
  destruct word as [|c word]; [done|]. apply Forall_cons in Hw as [Hc _].
  rewrite find_from_skip.
  - rewrite length_drop. f_equal. lia.
  - eapply Forall_impl; [exact Hs|]. simpl. intros d Hd ->. congruence.
Qed.

Lemma clean_split word :
  solid word ->
  clean word = strip_chars punctuation word /\
  exists l r, word = l ++ clean word ++ r /\ length l = lead punctuation word /\
    (forall c t, clean word = c :: t -> Forall (fun d => d <> c) l).
Proof.
  intros Hw. destruct (strip_chars_split punctuation word) as (l & r & E & El & Hl & Hr & Hh).
  assert (Ec : clean word = strip_chars punctuation word).
  { unfold clean. apply strip_chars_none. rewrite E in Hw.
    apply solid_app in Hw as [_ Hw]. by apply solid_app in Hw as [Hw _]. }
  split; [done|]. exists l, r. rewrite Ec. split_and!; [done..|].
  intros c t Hc. eapply Forall_impl; [exact Hl|]. simpl. intros d Hd ->.
  apply Hh in Hc. congruence.
Qed.

Lemma classify_known c w : is_upper c = true -> _classify_entity_heuristic (c :: w) <> UNKNOWN.
Proof. intros Hc. unfold _classify_entity_heuristic. rewrite Hc. by repeat case_match. Qed.

Lemma find_clean word c t :
  solid word -> clean word = c :: t -> find word (c :: t) = Z.of_nat (lead punctuation word).
Proof.
  intros Hw Hc. destruct (clean_split word Hw) as (_ & l & r & E & El & Hl).
  unfold find. rewrite E at 1. rewrite Hc. rewrite find_from_skip by by eapply Hl.
  by rewrite <- El.
Qed.

Lemma make_entity_ok ty t conf a :
  unit_float conf = true -> t <> [] -> 0 <= a ->
  make_entity ty t conf a (a + Z.of_nat (length t)) =
  Some (Entity ty t conf a (a + Z.of_nat (length t))).
Proof.
  intros Hc Ht Ha. unfold make_entity.
  assert (entity_valid (Entity ty t conf a (a + Z.of_nat (length t))) = true) as ->; [|done].
  unfold entity_valid. simpl. rewrite Hc.
  destruct t; [done|]. rewrite !andb_true_iff, !Z.leb_le, Z.ltb_lt, Z.eqb_eq, Nat.ltb_lt.
  simpl length. lia.
Qed.

(** ** The loop *)

Section loop.
Context (conf : spec_float) (content : text) (Hconf : unit_float conf = true).

Lemma extract_step words pre word rest i start :
  content = pre ++ word ++ rest -> word <> [] -> solid word -> (i <= length pre)%nat ->
  Forall (fun c => is_space c = true) (drop i pre) ->
  extract_words conf content (word :: words) i start =
  es ← extract_words conf content words (length pre + length word) (next_start start word);
  Some (entity_of conf start (length pre) word ++ es).
Proof using Hconf.
  intros E Hne Hw Hi Hs. cbn [extract_words]. rewrite E, index_here, <- E by done.
  unfold next_start, entity_of. destruct (clean word) as [|c t] eqn:Ec.
  { by destruct (extract_words _ _ words _ _). }
  rewrite (find_clean word c t) by done.
  destruct (is_upper c && (1 <? length (c :: t))%nat) eqn:Eu; cbn [andb];
    [|by destruct (extract_words _ _ words _ _)].
  destruct (start && _) eqn:Es; cbn [negb]; [by destruct (extract_words _ _ words _ _)|].
  rewrite bool_decide_true by (apply classify_known; by apply andb_true_iff in Eu as [? _]).
  rewrite <- Nat2Z.inj_add, make_entity_ok by (done || lia).
  by destruct (extract_words _ _ words _ _).
Qed.

Lemma extract_located s : forall pre word i start,
  content = pre ++ word ++ s -> solid word -> (i <= length pre)%nat ->
  Forall (fun c => is_space c = true) (drop i pre) ->
  extract_words conf content (split_from word s) i start =
  Some (entities_of conf start (located_from (length pre + length word) word s)).
Proof using Hconf.
  assert (Hlast : forall pre word r i start, content = pre ++ word ++ r -> word <> [] ->
    solid word -> (i <= length pre)%nat -> Forall (fun c => is_space c = true) (drop i pre) ->
    forall words ts,
    extract_words conf content words (length pre + length word) (next_start start word) =
      Some (entities_of conf (next_start start word) ts) ->
    extract_words conf content (word :: words) i start =
      Some (entities_of conf start ((length pre, word) :: ts))).
  { intros pre word r i start E Hne Hw Hi Hs words ts H.
    by rewrite (extract_step words pre word r i start), H. }
  induction s as [|c s IH]; intros pre word i start E Hw Hi Hs; simpl.
  - destruct word as [|d w] eqn:Ew; [done|]. rewrite <- Ew in *.
    replace (length pre + length word - length word)%nat with (length pre) by lia.
    apply (Hlast pre word []); [done|by rewrite Ew|done..].
  - destruct (is_space c) eqn:Ec.
    + destruct word as [|d w] eqn:Ew.
      * rewrite !app_nil_l. rewrite (IH (pre ++ [c]) [] i start).
        -- f_equal. f_equal. f_equal. rewrite length_app. simpl. lia.
        -- rewrite E. simpl. by rewrite <- app_assoc.
        -- done.
        -- rewrite length_app. lia.
        -- rewrite drop_app_le by done. apply Forall_app. split; [done|]. by constructor.
      * rewrite <- Ew in *. simpl app.
        replace (length pre + length word - length word)%nat with (length pre) by lia.
        apply (Hlast pre word (c :: s)); [done|by rewrite Ew|done..|].
        rewrite (IH (pre ++ word ++ [c]) []).
        -- f_equal. f_equal. f_equal. rewrite !length_app. simpl. lia.
        -- rewrite E. simpl. by rewrite <- !app_assoc.
        -- constructor.
        -- rewrite !length_app. lia.
        -- rewrite app_assoc. rewrite drop_app_ge by (rewrite length_app; lia).
           rewrite length_app, Nat.sub_diag. by constructor.
    + rewrite (IH pre (word ++ [c]) i start).
      * f_equal. f_equal. f_equal. rewrite length_app. simpl. lia.
      * rewrite E. by rewrite <- app_assoc.
      * apply solid_app. split; [done|]. by constructor.
      * done.
      * done.
Qed.
End loop.

(** ** The words found are those of the text *)

Definition space_before (pre : text) : Prop := forall l c, pre = l ++ [c] -> is_space c = true.

Lemma space_before_snoc pre c : is_space c = true -> space_before (pre ++ [c]).
Proof. by intros Hc l d [_ <-]%app_inj_tail. Qed.

Lemma located_from_shape pos word s : (length word <= pos)%nat ->
  located_from pos word s =
  match s with
  | [] => if decide (word = []) then [] else [((pos - length word)%nat, word)]
  | c :: s =>
      if is_space c
      then (if decide (word = []) then [] else [((pos - length word)%nat, word)]) ++
           located_from (S pos) [] s
      else located_from (S pos) (word ++ [c]) s
  end.
Proof. intros _. destruct s; simpl; by destruct word. Qed.

(** What is located in the rest of a text, the word [word] being read. *)
Lemma located_from_spec s : forall pre word,
  solid word -> space_before pre ->
  let content := pre ++ word ++ s in
  let ts := located_from (length pre + length word) word s in
  (forall p w, (p, w) ∈ ts -> is_word content p w /\ (length pre <= p)%nat) /\
  StronglySorted (fun a b => (a.1 + length a.2 <= b.1)%nat) ts /\
  (forall k c, (length pre <= k)%nat -> content !! k = Some c -> is_space c = false ->
     exists p w, (p, w) ∈ ts /\ (p <= k < p + length w)%nat).
Proof.
  induction s as [|c s IH]; intros pre word Hw Hp content ts.
  all: unfold ts; rewrite located_from_shape by lia; clear ts.
  all: replace (length pre + length word - length word)%nat with (length pre) by lia.
  - case_decide as Hne; [subst word|].
    + split_and!; [by intros p w ?%not_elem_of_nil|constructor|].
      intros k c Hk Hl. unfold content in Hl. rewrite app_nil_r in Hl.
      apply lookup_lt_Some in Hl. lia.
    + split_and!; [|repeat constructor|].
      * intros p w [= -> ->]%list_elem_of_singleton. split; [|done].
        split_and!; [done..|]. exists pre, []. split_and!; [done..|]. by intros ? ?.
      * intros k c Hk Hl _. exists (length pre), word. split; [left|].
        apply lookup_lt_Some in Hl. unfold content in Hl. rewrite app_nil_r, length_app in Hl. lia.
  - destruct (is_space c) eqn:Ec.
    + destruct (IH (pre ++ word ++ [c]) [] ltac:(constructor)) as (H1 & H2 & H3).
      { rewrite app_assoc. by apply space_before_snoc. }
      simpl app in H1, H3. rewrite <- !app_assoc in H1, H3. simpl app in H1, H3.
      rewrite !length_app in H1, H2, H3. simpl in H1, H2, H3.
      replace (length pre + (length word + 1) + 0)%nat with (S (length pre + length word))
        in H1, H2, H3 by lia.
      set (ts := located_from _ [] s) in *.
      assert (Hword : word <> [] -> is_word content (length pre) word).
      { intros Hne. split_and!; [done..|]. exists pre, (c :: s). split_and!; [done..|].
        by intros d r [= <- _]. }
      assert (Hcover : forall k d, (length pre <= k)%nat -> content !! k = Some d ->
        is_space d = false -> (k < length pre + length word)%nat \/
          (length pre + (length word + 1) <= k)%nat).
      { intros k d Hk Hl Hd. destruct (decide (k = (length pre + length word)%nat)) as [->|]; [|lia].
        unfold content in Hl. rewrite app_assoc, lookup_app_r in Hl by (rewrite length_app; lia).
        rewrite length_app, Nat.sub_diag in Hl. simpl in Hl. congruence. }
      case_decide as Hne; [subst word|]; simpl app.
      * split_and!; [|done|].
        -- intros p w Hin. destruct (H1 p w Hin) as [? ?]. split; [done|lia].
        -- intros k d Hk Hl Hd. destruct (Hcover k d Hk Hl Hd) as [Hlt|Hge]; [simpl in Hlt; lia|].
           by apply (H3 k d).
      * split_and!.
        -- intros p w [[= -> ->]|Hin]%elem_of_cons; [by split; [apply Hword|]|].
           destruct (H1 p w Hin) as [? ?]. split; [done|lia].
        -- constructor; [done|]. apply Forall_forall. intros [p w] Hin. simpl.
           destruct (H1 p w) as [_ ?]; [done|lia].
        -- intros k d Hk Hl Hd. destruct (Hcover k d Hk Hl Hd) as [Hlt|Hge].
           ++ exists (length pre), word. split; [left|lia].
           ++ destruct (H3 k d Hge Hl Hd) as (p & w & Hin & Hkw). exists p, w. split; [by right|done].
    + destruct (IH pre (word ++ [c])) as (H1 & H2 & H3);
        [apply solid_app; split; [done|by constructor]|done|].
      rewrite length_app in H1, H2, H3. simpl in H1, H2, H3.
      rewrite <- app_assoc in H1, H3. simpl app in H1, H3.
      replace (length pre + (length word + 1))%nat with (S (length pre + length word))
        in H1, H2, H3 by lia. by split_and!.
Qed.

Lemma located_spec (content : text) :
  (forall p w, (p, w) ∈ located content -> is_word content p w) /\
  StronglySorted (fun a b => (a.1 + length a.2 <= b.1)%nat) (located content) /\
  (forall k c, content !! k = Some c -> is_space c = false ->
     exists p w, (p, w) ∈ located content /\ (p <= k < p + length w)%nat).
Proof.
  destruct (located_from_spec content [] []) as (H1 & H2 & H3).
  { constructor. } { by intros [] ? ?. }
  split_and!; [intros p w Hin; by apply H1|done|]. intros k c Hk. apply H3; [simpl; lia|done].
Qed.

Lemma extract_spec (conf : spec_float) (content : text) :
  unit_float conf = true ->
  _extract_entities_heuristic conf content = Some (entities_of conf true (located content)).
Proof.
  intros Hc. unfold _extract_entities_heuristic, split.
  rewrite (extract_located conf content Hc content [] []); [done|done|constructor|simpl; lia|constructor].
Qed.

(** C25: the heuristic extraction never fails, and is the one the
    comments describe, word by word: the words of the text are its maximal
    stretches without white space, found in order at their true positions, and
    each makes at most one entity, decided by its own letters and by whether a
    sentence starts there. The search for each word, the clause for a word that
    is not found, the test for an unknown type and the validation of spans are
    all redundant. *)
Theorem extraction_by_words (conf : spec_float) (content : text) :
  unit_float conf = true ->
  _extract_entities_heuristic conf content = Some (entities_of conf true (located content)) /\
  (forall p w, (p, w) ∈ located content -> is_word content p w) /\
  (forall k c, content !! k = Some c -> is_space c = false ->
     exists p w, (p, w) ∈ located content /\ (p <= k < p + length w)%nat) /\
  StronglySorted (fun a b => (a.1 + length a.2 <= b.1)%nat) (located content).
Proof.
  intros Hc. destruct (located_spec content) as (H1 & H2 & H3).
  split_and!; [by apply extract_spec|done..].
Qed.

(** ** Well-formed entities *)

(** An entity of a text: within the constraints of its model, the text of its
    span, and a capitalised word of two letters at least. *)
Definition entity_in (content : text) (e : ModelSemanticEntity) : Prop :=
  entity_valid e = true /\
  take (Z.to_nat (span_length e)) (drop (Z.to_nat (span_start e)) content) = e_text e /\
  exists c t, e_text e = c :: t /\ is_upper c = true /\ t <> [].

Lemma entity_of_in conf content start p w e :
  unit_float conf = true -> is_word content p w -> e ∈ entity_of conf start p w ->
  entity_in content e /\ confidence e = conf /\
  Z.of_nat p <= span_start e /\ span_end e <= Z.of_nat (p + length w).
Proof.
  intros Hconf (_ & Hw & l & r & E & El & _) He. unfold entity_of in He.
  destruct (clean_split w Hw) as (_ & l' & r' & Ew & El' & _).
  destruct (clean w) as [|c t] eqn:Ec; [by apply not_elem_of_nil in He|].
  destruct (is_upper c && _ && _) eqn:Eu; [|by apply not_elem_of_nil in He].
  apply list_elem_of_singleton in He as ->. breflect.
  set (a := (p + lead punctuation w)%nat).
  pose proof (make_entity_ok (_classify_entity_heuristic (c :: t)) (c :: t) conf (Z.of_nat a)
    Hconf ltac:(done) ltac:(lia)) as Hok.
  unfold make_entity in Hok. destruct (entity_valid _) eqn:Ev in Hok; [|done].
  split_and!; simpl; [split_and!; [done| |]|done|lia|].
  - unfold span_length. simpl span_end. simpl span_start. simpl e_text.
    rewrite Z.add_simpl_l, !Nat2Z.id. rewrite E, Ew.
    assert (Ea : a = length (l ++ l')) by (rewrite length_app; unfold a; lia).
    rewrite <- !app_assoc. rewrite (app_assoc l l'), Ea, drop_app_length.
    apply (take_app_length (c :: t)).
  - exists c, t. split_and!; [done..|]. by intros ->.
  - apply (f_equal length) in Ew. rewrite !length_app in Ew. simpl in Ew. unfold a. lia.
Qed.

Lemma entities_of_in conf content ts : forall start,
  unit_float conf = true ->
  (forall p w, (p, w) ∈ ts -> is_word content p w) ->
  StronglySorted (fun a b => (a.1 + length a.2 <= b.1)%nat) ts ->
  Forall (entity_in content) (entities_of conf start ts) /\
  (forall e, e ∈ entities_of conf start ts -> confidence e = conf /\
     exists p w, (p, w) ∈ ts /\ Z.of_nat p <= span_start e) /\
  StronglySorted (fun e e' => span_end e <= span_start e') (entities_of conf start ts).
Proof.
  induction ts as [|[p w] ts IH]; intros start Hconf Hts Hs; simpl.
  { split_and!; [done|by intros ? ?%not_elem_of_nil|constructor]. }
  apply StronglySorted_inv in Hs as [Hs Hf].
  destruct (IH (next_start start w) Hconf) as (H1 & H2 & H3);
    [intros; apply Hts; by right|done|].
  pose proof (fun e => entity_of_in conf content start p w e Hconf (Hts p w ltac:(left))) as Hw.
  assert (Hone : (length (entity_of conf start p w) <= 1)%nat)
    by (unfold entity_of; repeat case_match; simpl; lia).
  destruct (entity_of conf start p w) as [|e [|]]; simpl in Hone; [|clear Hone|lia].
  { split_and!; [done| |done]. intros e He. destruct (H2 e He) as (? & p' & w' & ? & ?).
    split; [done|]. exists p', w'. split; [by right|done]. }
  destruct (Hw e ltac:(left)) as (He & Hce & Hst & Hen). simpl app. split_and!.
  - by constructor.
  - intros e' [->|He']%elem_of_cons.
    + split; [done|]. exists p, w. split; [left|done].
    + destruct (H2 e' He') as (? & p' & w' & ? & ?). split; [done|]. exists p', w'. split; [by right|done].
  - constructor; [done|]. apply Forall_forall. intros e' He'.
    destruct (H2 e' He') as (_ & p' & w' & Hin & ?). rewrite Forall_forall in Hf.
    specialize (Hf (p', w') Hin). simpl in Hf. lia.
Qed.

(** C26: the entities of the heuristic extraction satisfy the
    constraints of their model, each one's text is what the content has at its
    span, spans come in order and do not overlap, each begins with a capital
    letter and has the configured confidence. So amounts such as "$100" and
    "25%", which the documentation and the classifier provide for, are never
    entities. *)
Theorem heuristic_entities_wellformed (conf : spec_float) (content : text) :
  unit_float conf = true ->
  exists es, _extract_entities_heuristic conf content = Some es /\
    Forall (entity_in content) es /\ Forall (fun e => confidence e = conf) es /\
    StronglySorted (fun e e' => span_end e <= span_start e') es.
Proof.
  intros Hc. eexists. split; [by apply extract_spec|].
  destruct (located_spec content) as (H1 & H2 & _).
  destruct (entities_of_in conf content _ true Hc H1 H2) as (? & He & ?).
  split_and!; [done| |done]. apply Forall_forall. intros e Hin. by apply He.
Qed.

Lemma complexity_at_most content : at_most 0 (_compute_complexity_score content).
Proof.
  unfold _compute_complexity_score. destruct (split content) as [|w ws]; [done|].
  apply (float_div2_at_most 1); [|lia].
  apply (float_add_at_most 0); [auto with floats..|lia].
Qed.

Lemma readability_at_most content : at_most 0 (_compute_readability_score content).
Proof. apply one_minus_at_most, (float_half_at_most 0); [apply complexity_at_most|lia]. Qed.

#[export] Hint Resolve complexity_at_most readability_at_most : floats.

(** The complexity and readability of any text are doubles between 0
    and 1, rounding included, as the models of the results require. *)
Theorem scores_in_range (content : text) :
  unit_float (_compute_complexity_score content) = true /\
  unit_float (_compute_readability_score content) = true.
Proof. auto with floats. Qed.

(** ** Topics *)

(** The topics are the most frequent of the words the filter leaves,
    at most five of them and without repetition, in descending order of
    frequency: no word left out is more frequent than one that is in. *)
Theorem topics_most_frequent (content : text) :
  let ws := filtered_words content in
  let topics := _extract_topics_heuristic content in
  NoDup topics /\ (length topics <= 5)%nat /\ (forall x, x ∈ topics -> x ∈ ws) /\
  (forall x y, x ∈ topics -> y ∈ ws -> y ∉ topics -> (occurrences y ws <= occurrences x ws)%nat) /\
  StronglySorted (fun x y => (occurrences y ws <= occurrences x ws)%nat) topics.
Proof.
  intros ws topics. unfold topics, _extract_topics_heuristic. fold ws.
  destruct (frequencies_counts ws) as [Hnd Hc]. destruct (sort_desc_spec (fun x => Z.of_nat x.2) (frequencies ws)) as [Hp Hs].
  set (l := sort_desc _ (frequencies ws)) in *.
  assert (Hl : forall w n, (w, n) ∈ l <-> n = occurrences w ws /\ (0 < n)%nat)
    by (intros w n; by rewrite Hp).
  assert (Hnd' : NoDup l.*1) by by rewrite Hp.
  assert (Hin : forall x, x ∈ l.*1 <-> x ∈ ws).
  { intros x. rewrite list_elem_of_fmap. split.
    - intros ([w n] & -> & [-> Hpos]%Hl). unfold occurrences in Hpos. simpl.
      destruct (filter (fun v => v = w) ws) as [|v f] eqn:E; [simpl in Hpos; lia|].
      assert (Hv : v ∈ filter (fun v => v = w) ws) by (rewrite E; left).
      apply list_elem_of_filter in Hv. naive_solver.
    - intros Hx. exists (x, occurrences x ws). split; [done|]. apply Hl. split; [done|].
      assert (Hf : x ∈ filter (fun v => v = x) ws) by by apply list_elem_of_filter.
      unfold occurrences. destruct (filter _ ws); [by apply not_elem_of_nil in Hf|simpl; lia]. }
  rewrite <- (take_drop 5 l) in Hnd', Hs, Hin, Hl.
  assert (Hocc : forall p, p ∈ take 5 l \/ p ∈ drop 5 l -> p.2 = occurrences p.1 ws).
  { intros [w n] H. assert (H' : (w, n) ∈ take 5 l ++ drop 5 l) by by apply elem_of_app.
    by apply Hl in H' as [-> _]. }
  rewrite fmap_app in Hnd', Hin. apply NoDup_app in Hnd' as (Hnd1 & _ & _).
  apply StronglySorted_app in Hs as (Hcross & Hs1 & _). split_and!.
  - done.
  - rewrite length_fmap, length_take. lia.
  - intros x Hx. apply Hin. apply elem_of_app. by left.
  - intros x y Hx Hy Hny. apply Hin, elem_of_app in Hy as [?|Hy]; [done|].
    apply list_elem_of_fmap in Hx as (p & -> & Hp1), Hy as (q & -> & Hq).
    specialize (Hcross p q Hp1 Hq). unfold desc in Hcross.
    rewrite (Hocc p), (Hocc q) in Hcross by auto. lia.
  - clear Hcross Hnd1 Hin Hl. assert (Hocc1 : Forall (fun p => p.2 = occurrences p.1 ws) (take 5 l)).
    { apply Forall_forall. auto. }
    clear Hocc. induction Hs1 as [|p k Hk IH Hf]; simpl; [constructor|].
    apply Forall_cons in Hocc1 as [Hp1 Hk1]. constructor; [by apply IH|].
    apply Forall_fmap. rewrite Forall_forall in Hf, Hk1 |- *. intros q Hq. simpl.
    specialize (Hf q Hq). unfold desc in Hf. rewrite Hp1, (Hk1 q Hq) in Hf. lia.
Qed.

(** ** Runs *)

Module EntitiesDemo.
Definition default_confidence : spec_float := float_ratio 7 10.
Definition show (e : ModelSemanticEntity) : EnumSemanticEntityType * string * Z * Z :=
  (entity_type e, Stdlib.Strings.String.string_of_list_ascii (e_text e), span_start e, span_end e).
Definition extract (s : string) : option (list (EnumSemanticEntityType * string * Z * Z)) :=
  map show <$> _extract_entities_heuristic default_confidence (of_string s).

Definition sample : text := of_string "The Acme Corp (of York) grew. However, it paid $100.".

Lemma extraction_by_words_witness :
  unit_float default_confidence = true /\
  map show (entities_of default_confidence true (located sample)) =
    [(MISC, "Acme", 4, 8); (ORGANIZATION, "Corp", 9, 13); (MISC, "York", 18, 22)] /\
  _extract_entities_heuristic default_confidence sample =
    Some (entities_of default_confidence true (located sample)).
Proof.
  split; [by vm_compute|]. split; [by vm_compute|].
  refine (proj1 (extraction_by_words default_confidence sample _)). by vm_compute.
Defined.

Lemma heuristic_entities_wellformed_witness :
  exists es, _extract_entities_heuristic default_confidence sample = Some es /\
    Forall (entity_in sample) es /\ Forall (fun e => confidence e = default_confidence) es /\
    StronglySorted (fun e e' => span_end e <= span_start e') es.
Proof. apply (heuristic_entities_wellformed default_confidence sample). by vm_compute. Defined.

(** A word that ends like "company" or "co" is an organisation: a country. *)
Example mexico_is_an_organization :
  extract "a trip to Mexico" = Some [(ORGANIZATION, "Mexico", 10, 16)].
Proof. by vm_compute. Qed.

(** The documentation says that "Corporation" is skipped, and that amounts and
    percentages are detected. *)
Example documented_examples :
  extract "at Microsoft Corporation" =
    Some [(MISC, "Microsoft", 3, 12); (MISC, "Corporation", 13, 24)] /\
  extract "paid $100 or 25%" = Some [].
Proof. by vm_compute. Qed.

(** Words are compared with the stop words, and measured, with their
    punctuation: a stop word, and the empty word, can be topics. *)
Example stopwords_are_topics :
  Stdlib.Strings.String.string_of_list_ascii <$>
    _extract_topics_heuristic (of_string "You should, should, ..... ..... rest")
  = ["should"; ""; "rest"].
Proof. by vm_compute. Qed.
End EntitiesDemo.
