(* ===== verification/Semantic.v ===== *)
(** * Semantic analysis

    Models [HandlerSemanticComputePolicy] and [HandlerSemanticCompute] of
    src/src/omnimemory/nodes/node_semantic_analyzer_compute/handlers/
    handler_semantic_compute.py, and [NodeSemanticAnalyzerCompute] above it:
    retries, the cache of embeddings with the sharing of its lists, entity
    extraction by heuristics (Entities.v) or by a language model, and the full
    analysis. The cache of cachetools is an interface, [LRUCache]; the two
    providers, the digest and the random draws are arguments. *)

From S2P Require Import Prelude Text Floats Json Retry Entities.

(** ** Configuration *)

Inductive EnumEntityExtractionMode : Type := DETERMINISTIC | BEST_EFFORT.

#[export] Instance EnumEntityExtractionMode_eq_dec : EqDecision EnumEntityExtractionMode.
Proof. solve_decision. Defined.

Record ModelSemanticComputePolicyConfig : Type := PolicyConfig {
  max_content_length : Z;
  max_retries : Z;
  retry_base_delay_ms : Z;
  retry_max_delay_ms : Z;
  cache_embeddings : bool;
  cache_key_include_model : bool;
  entity_extraction_mode : EnumEntityExtractionMode;
  entity_confidence_threshold : spec_float;
  heuristic_entity_confidence : spec_float;
  max_entities_per_request : Z;
  llm_temperature : spec_float;
  llm_seed : option Z;
  allowed_embedding_models : list text;
  default_embedding_model : text;
  default_llm_model : text;
}.

(** The constraints of the model on these fields. *)
Definition policy_valid (p : ModelSemanticComputePolicyConfig) : bool :=
  (100 <=? max_content_length p) && (max_content_length p <=? 10000000) &&
  (0 <=? max_retries p) && (max_retries p <=? 10) &&
  (10 <=? retry_base_delay_ms p) && (retry_base_delay_ms p <=? 10000) &&
  (100 <=? retry_max_delay_ms p) && (retry_max_delay_ms p <=? 60000) &&
  (retry_base_delay_ms p <=? retry_max_delay_ms p) &&
  unit_float (entity_confidence_threshold p) && unit_float (heuristic_entity_confidence p) &&
  (1 <=? max_entities_per_request p) && (max_entities_per_request p <=? 1000) &&
  SFleb zero (llm_temperature p) && SFleb (llm_temperature p) two &&
  bool_decide (default_embedding_model p ∈ allowed_embedding_models p).

Definition is_deterministic (p : ModelSemanticComputePolicyConfig) : bool :=
  bool_decide (entity_extraction_mode p = DETERMINISTIC) && SFeqb (llm_temperature p) zero &&
  match llm_seed p with Some _ => true | None => false end.

Definition effective_llm_temperature (p : ModelSemanticComputePolicyConfig) : spec_float :=
  match entity_extraction_mode p with DETERMINISTIC => zero | BEST_EFFORT => llm_temperature p end.

Definition effective_llm_seed (p : ModelSemanticComputePolicyConfig) : option Z :=
  match entity_extraction_mode p with
  | DETERMINISTIC => Some (default 42 (llm_seed p))
  | BEST_EFFORT => None
  end.

Record ModelHandlerSemanticComputeConfig : Type := HandlerConfig {
  policy_config : ModelSemanticComputePolicyConfig;
  enable_caching : bool;
  max_cache_size : Z;
}.

(** ** [HandlerSemanticComputePolicy] *)

Definition should_cache_embedding (p : ModelSemanticComputePolicyConfig) (content : text) : bool :=
  cache_embeddings p &&
  (10 <=? Z.of_nat (length content)) && (Z.of_nat (length content) <=? max_content_length p).

Definition transient_indicators : list string := ["timeout"; "connection"; "temporary"; "retry"].

Definition should_retry (p : ModelSemanticComputePolicyConfig) (attempt : Z) (e : exn) : bool :=
  if max_retries p <? attempt then false
  else existsb (fun indicator => contains indicator (lower (exn_class e))) transient_indicators.

(** [int] of a double that is not negative. *)
Definition float_floor (f : spec_float) : Z :=
  match f with
  | S754_finite _ m e => if 0 <=? e then Z.pos m * 2 ^ e else Z.pos m / 2 ^ (- e)
  | _ => 0
  end.

(** [seeded n] is the first draw of [uniform(0.5, 1.0)] from
    [random.Random(n)], [draw] that of the shared generator. *)
Definition get_retry_delay_ms (p : ModelSemanticComputePolicyConfig) (seeded : Z -> spec_float)
    (draw : spec_float) (attempt : Z) : Z :=
  let delay := Z.min (retry_base_delay_ms p * 2 ^ (attempt - 1)) (retry_max_delay_ms p) in
  let jitter_factor :=
    if is_deterministic p then seeded (default 0 (effective_llm_seed p) + attempt) else draw in
  float_floor (float_mul (float_of_Z delay) jitter_factor).

Definition filter_entities_by_confidence (p : ModelSemanticComputePolicyConfig)
    (entities : list ModelSemanticEntity) : list ModelSemanticEntity :=
  filter (fun e => SFleb (entity_confidence_threshold p) (confidence e) = true) entities.

Definition should_use_llm_for_entities (p : ModelSemanticComputePolicyConfig) : bool :=
  bool_decide (entity_extraction_mode p = BEST_EFFORT).

(** ** The cache *)

(** A list object of the heap. *)
Definition loc : Type := nat.

(** What the handler relies on of [cachetools.LRUCache], by keys: reading a
    key only changes what is evicted next; setting one may evict others. *)
Class LRUCache (C : Type) : Type := {
  lru_new : Z -> C;
  lru_lookup : text -> C -> option loc;
  lru_touch : text -> C -> C;
  lru_set : text -> loc -> C -> C;
  lru_clear : C -> C;
  lru_new_lookup n k : lru_lookup k (lru_new n) = None;
  lru_clear_lookup k c : lru_lookup k (lru_clear c) = None;
  lru_touch_lookup k k' c : lru_lookup k (lru_touch k' c) = lru_lookup k c;
  lru_set_lookup k k' l l' c :
    lru_lookup k (lru_set k' l c) = Some l' ->
    (k = k' /\ l' = l) \/ (k <> k' /\ lru_lookup k c = Some l');
}.

(** A cache that was made with room for at least one key holds the one set
    last: a law of its own, since [lru_new 0] exists. *)
Class LRUKeeps (C : Type) `{LRUCache C} (roomy : C -> Prop) : Prop := {
  roomy_new n : 1 <= n -> roomy (lru_new n);
  roomy_touch k c : roomy c -> roomy (lru_touch k c);
  roomy_clear c : roomy c -> roomy (lru_clear c);
  roomy_set k l c : roomy c -> roomy (lru_set k l c) /\ lru_lookup k (lru_set k l c) = Some l;
}.

(** ** Results *)

Definition vector : Type := list spec_float.

Record ModelSemanticEntityList : Type := EntityList {
  entities : list ModelSemanticEntity;
  source_text_length : Z;
  extraction_model : string;
  l_is_deterministic : bool;
}.

Record ModelSemanticAnalysisResult : Type := AnalysisResult {
  result_id : uuid;
  analysis_type : string;
  analyzed_content : text;
  semantic_vector : vector;
  key_concepts : list text;
  r_entities : list text;
  entity_list : option ModelSemanticEntityList;
  topics : list text;
  complexity_score : spec_float;
  readability_score : spec_float;
  confidence_score : spec_float;
  processing_time_ms : Z;
}.

(** The constraints of the model. *)
Definition result_valid (r : ModelSemanticAnalysisResult) : bool :=
  unit_float (complexity_score r) && unit_float (readability_score r) &&
  unit_float (confidence_score r) && (0 <=? processing_time_ms r).

(** ** The answers of a language model *)

(** [float(value) if isinstance(value, int | float) else default] *)
Definition float_or (default : spec_float) (j : json) : res spec_float :=
  match j with
  | JBool b => Ok (if b then one else zero)
  | JInt z =>
      match float_of_Z z with
      | S754_infinity _ => Raise (OverflowError "int too large to convert to float")
      | f => Ok f
      end
  | JFloat f => Ok f
  | _ => Ok default
  end.

(** [int(value) if isinstance(value, int | float) else 0] *)
Definition int_or_0 (j : json) : res Z :=
  match j with
  | JBool b => Ok (if b then 1 else 0)
  | JInt z => Ok z
  | JFloat S754_nan => Raise (ValueError "cannot convert float NaN to integer")
  | JFloat (S754_infinity _) => Raise (OverflowError "cannot convert float infinity to integer")
  | JFloat (S754_zero _) => Ok 0
  | JFloat (S754_finite s m e) =>
      let v := if 0 <=? e then Z.pos m * 2 ^ e else Z.pos m / 2 ^ (- e) in
      Ok (if s then - v else v)
  | _ => Ok 0
  end.

Definition EnumSemanticEntityType_value (t : EnumSemanticEntityType) : string :=
  match t with
  | PERSON => "person" | ORGANIZATION => "organization" | LOCATION => "location"
  | DATE => "date" | TIME => "time" | MONEY => "money" | PERCENT => "percent"
  | QUANTITY => "quantity" | CARDINAL => "cardinal" | ORDINAL => "ordinal"
  | PRODUCT => "product" | EVENT => "event" | WORK_OF_ART => "work_of_art" | LAW => "law"
  | LANGUAGE => "language" | NORP => "norp" | GPE => "gpe" | FACILITY => "facility"
  | MISC => "misc" | UNKNOWN => "unknown"
  end.

Definition all_types : list EnumSemanticEntityType :=
  [PERSON; ORGANIZATION; LOCATION; DATE; TIME; MONEY; PERCENT; QUANTITY; CARDINAL; ORDINAL;
   PRODUCT; EVENT; WORK_OF_ART; LAW; LANGUAGE; NORP; GPE; FACILITY; MISC; UNKNOWN].

(** [EnumSemanticEntityType(value)], or MISC when that raises. *)
Definition type_of_value (t : text) : EnumSemanticEntityType :=
  default MISC (head (filter (fun ty => of_string (EnumSemanticEntityType_value ty) = t) all_types)).

Section parse.
(** [str] of a value that is not a string. *)
Context (py_str : json -> text).

Definition str (j : json) : text := match j with JString t => t | _ => py_str j end.

(** One item: the entity, or nothing when a [ValueError] or a
    [ValidationError] is caught. *)
Definition parse_item (item : json) : res (option ModelSemanticEntity) :=
  match item with
  | JDict d =>
      let type_value := dict_get d "type" (JString (of_string "misc")) in
      let entity_type := type_of_value
        (if truthy type_value then lower_text (str type_value) else of_string "misc") in
      let text_value := dict_get d "text" (JString []) in
      let t := if truthy text_value then str text_value else [] in
      match float_or (float_ratio 8 10) (dict_get d "confidence" (JFloat (float_ratio 8 10))) with
      | Raise e => Raise e
      | Ok c =>
          match int_or_0 (dict_get d "start" (JInt 0)) with
          | Raise (ValueError _) => Ok None
          | Raise e => Raise e
          | Ok a =>
              match int_or_0 (dict_get d "end" (JInt 0)) with
              | Raise (ValueError _) => Ok None
              | Raise e => Raise e
              | Ok b => Ok (make_entity entity_type t (clamp01 c) a b)
              end
          end
      end
  | _ => Ok None
  end.

Fixpoint parse_items (items : list json) : res (list ModelSemanticEntity) :=
  match items with
  | [] => Ok []
  | item :: items =>
      match parse_item item with
      | Raise e => Raise e
      | Ok e =>
          match parse_items items with
          | Raise x => Raise x
          | Ok es => Ok (option_list e ++ es)
          end
      end
  end.

Definition _parse_llm_entity_response (response : list (text * json))
    : res (list ModelSemanticEntity) :=
  match dict_get response "entities" (JList []) with
  | JList items => parse_items items
  | _ => Ok []
  end.
End parse.

(** ** The handler *)

Section handler.
Context {C : Type} `{LRUCache C}.
(** [sha256(...).hexdigest()], the first draws of seeded generators,
    [str] of JSON values, [str(valid_types)], and the text of pydantic's
    errors. *)
Context (hexdigest : text -> text) (seeded : Z -> spec_float) (py_str : json -> text)
        (valid_types_text validation_text : string).

(** What the tasks of the process share: the cache, and the list objects it
    and they refer to. *)
Record shared : Type := Shared {
  _embedding_cache : C;
  heap : gmap loc vector;
}.

(** One suspension: what other tasks do meanwhile, the draw before it, and
    what a provider answers, to which request. *)
Record call_env : Type := CallEnv {
  others : shared -> shared;
  draw : spec_float;
  generate_embedding : text -> text -> res vector;
  complete_structured : text -> text -> spec_float -> option Z -> res (list (text * json));
}.

(** The fields of the handler but for its cache; the providers are there or
    not. *)
Record fields : Type := Fields {
  _initialized : bool;
  _config : ModelHandlerSemanticComputeConfig;
  _embedding_provider : bool;
  _llm_provider : bool;
}.

Record world : Type := World {
  self : fields;
  (** [_handler_initialized] of the node *)
  _handler_initialized : bool;
  state : shared;
  env : nat -> call_env;
  suspensions : nat;
  (** The requests sent to the embedding provider, text and model, and the
      delays between attempts. *)
  asked : list (text * text);
  slept : list Z;
}.

Definition set_state (s : shared) (w : world) : world :=
  World (self w) (_handler_initialized w) s (env w) (suspensions w) (asked w) (slept w).

(** Awaiting: the others run. *)
Definition suspend : M world call_env := fun w =>
  let e := env w (suspensions w) in
  (Ok e, World (self w) (_handler_initialized w) (others e (state w)) (env w)
           (S (suspensions w)) (asked w) (slept w)).

(** A new list object. *)
Definition alloc (v : vector) : M world loc := fun w =>
  let l := fresh (dom (heap (state w))) in
  (Ok l, set_state (Shared (_embedding_cache (state w)) (<[l := v]> (heap (state w)))) w).

Definition policy (w : world) : ModelSemanticComputePolicyConfig := policy_config (_config (self w)).

(** [_do_embed]: the provider's list is a new object. *)
Definition _do_embed (content model : text) : M world loc :=
  do! modify (fun w => World (self w) (_handler_initialized w) (state w) (env w) (suspensions w)
                        (asked w ++ [(content, model)]) (slept w));
  let! e := suspend in
  match generate_embedding e content model with
  | Ok v => alloc v
  | Raise x => raise x
  end.

Section retry.
Context {A : Type} (operation : M world A).

(** The loop of [_execute_with_retry], with [n] attempts to go. *)
Fixpoint retry_loop (n : nat) (attempt : Z) (last_error : option exn) : M world A :=
  match n with
  | O =>
      match last_error with
      | Some e => raise e
      | None => raise (RuntimeError "Unexpected state in retry logic")
      end
  | S n =>
      try_Exception operation (fun e =>
        let! w := get in
        if negb (should_retry (policy w) attempt e) then raise e
        else if max_retries (policy w) + 1 <=? attempt then raise e
        else
          let delay_ms :=
            get_retry_delay_ms (policy w) seeded (draw (env w (suspensions w))) attempt in
          do! modify (fun w => World (self w) (_handler_initialized w) (state w) (env w)
                                (suspensions w) (asked w) (slept w ++ [delay_ms]));
          do! suspend;
          retry_loop n (attempt + 1) (Some e))
  end.

Definition _execute_with_retry : M world A :=
  let! w := get in retry_loop (Z.to_nat (max_retries (policy w) + 1)) 1 None.
End retry.

Definition colon : text := of_string ":".

Definition model_or (p : ModelSemanticComputePolicyConfig) (model : option text) : text :=
  match model with Some (c :: m) => c :: m | _ => default_embedding_model p end.

Definition digest (t : text) : text := take 32 (hexdigest t).

Definition _compute_cache_key (p : ModelSemanticComputePolicyConfig) (content : text)
    (model : option text) : text :=
  if cache_key_include_model p then digest (model_or p model ++ colon ++ content)
  else digest content.

Definition not_initialized : string :=
  "HandlerSemanticCompute is not initialized. Call initialize() before using the handler.".

Definition _ensure_initialized : M world unit :=
  let! w := get in if _initialized (self w) then ret tt else raise (RuntimeError not_initialized).

Definition too_long (p : ModelSemanticComputePolicyConfig) (content : text) : string :=
  "Content length (" +:+ pretty (Z.of_nat (length content)) +:+ ") exceeds maximum (" +:+
  pretty (max_content_length p) +:+ ")".

(** [embed]. On a hit the list is copied; on a miss the list that is stored is
    the one returned. *)
Definition embed (content : text) (model : option text) : M world loc :=
  do! _ensure_initialized;
  let! w := get in
  let p := policy w in
  if blank content then raise (ValueError "Content cannot be empty")
  else if max_content_length p <? Z.of_nat (length content)
  then raise (ValueError (too_long p content))
  else
    let cache_key := _compute_cache_key p content model in
    let hit := if enable_caching (_config (self w))
               then l ← lru_lookup cache_key (_embedding_cache (state w)); heap (state w) !! l
               else None in
    match hit with
    | Some v =>
        do! modify (fun w => set_state
              (Shared (lru_touch cache_key (_embedding_cache (state w))) (heap (state w))) w);
        alloc v
    | None =>
        let! embedding := _execute_with_retry (_do_embed content (model_or p model)) in
        do! if enable_caching (_config (self w)) && should_cache_embedding p content
            then modify (fun w => set_state
                   (Shared (lru_set cache_key embedding (_embedding_cache (state w)))
                           (heap (state w))) w)
            else ret tt;
        ret embedding
    end.

(** ** Entity extraction *)

Definition newline : text := ["010"%char].

Definition _build_entity_extraction_prompt (content : text) : text :=
  of_string "Extract named entities from the following text." ++ newline ++
  of_string "Identify: PERSON, ORGANIZATION, LOCATION, DATE, TIME, MONEY, PERCENT, PRODUCT, EVENT." ++
  newline ++ newline ++ of_string "Text: " ++ content ++ newline ++ newline ++
  of_string "Return a JSON array of entities with: type, text, confidence (0-1), start, end.".

Definition _do_llm_extract (content : text) : M world (list (text * json)) :=
  let! w := get in
  let p := policy w in
  let! e := suspend in
  fun w' => (complete_structured e (_build_entity_extraction_prompt content) (default_llm_model p)
               (effective_llm_temperature p) (effective_llm_seed p), w').

(** A result becomes a computation. *)
Definition lift {A} (r : res A) : M world A := fun w => (r, w).

Definition _extract_entities_llm (content : text) : M world (list ModelSemanticEntity) :=
  let! w := get in
  if negb (_llm_provider (self w)) then
    raise (RuntimeError "LLM provider not configured but LLM entity extraction requested")
  else
    let! response := _execute_with_retry (_do_llm_extract content) in
    lift (_parse_llm_entity_response py_str response).

Definition no_llm : string :=
  "LLM provider not configured but LLM entity extraction requested " +:+
  "(entity_extraction_mode=BEST_EFFORT requires an LLM provider)".

Definition extract_entities (content : text) : M world ModelSemanticEntityList :=
  do! _ensure_initialized;
  if blank content then raise (ValueError "Content cannot be empty")
  else
    let! w := get in
    let p := policy w in
    let policy_wants_llm := should_use_llm_for_entities p in
    let! found :=
      if policy_wants_llm then
        if negb (_llm_provider (self w)) then raise (RuntimeError no_llm)
        else _extract_entities_llm content
      else
        match _extract_entities_heuristic (heuristic_entity_confidence p) content with
        | Some es => ret es
        | None => raise (ValueError validation_text)
        end in
    let filtered := filter_entities_by_confidence p found in
    ret (EntityList (take (Z.to_nat (max_entities_per_request p)) filtered)
           (Z.of_nat (length content)) (if policy_wants_llm then "llm" else "heuristic")
           (is_deterministic p)).

(** ** The full analysis *)

Definition valid_types : list string := ["full"; "embedding_only"; "entities_only"].

(** [analyze], with the identifier and the time it takes. *)
Definition analyze (content : text) (analysis_type : string) (correlation_id : uuid) (elapsed : Z)
    : M world ModelSemanticAnalysisResult :=
  do! _ensure_initialized;
  if blank content then raise (ValueError "Content cannot be empty")
  else if negb (bool_decide (analysis_type ∈ valid_types)) then
    raise (ValueError ("Invalid analysis_type '" +:+ analysis_type +:+ "'. Must be one of: " +:+
                       valid_types_text))
  else
    let! embedding :=
      if bool_decide (analysis_type ∈ ["full"; "embedding_only"])
      then let! l := embed content None in ret (Some l)
      else ret None in
    let! entity_list :=
      if bool_decide (analysis_type ∈ ["full"; "entities_only"])
      then let! l := extract_entities content in ret (Some l)
      else ret None in
    let found := match entity_list with Some l => entities l | None => [] end in
    let topics := if String.eqb analysis_type "full" then _extract_topics_heuristic content else [] in
    let! w := get in
    let vector := match embedding with Some l => default [] (heap (state w) !! l) | None => [] end in
    let r := AnalysisResult correlation_id analysis_type (take 1000 content) vector
      (_extract_key_concepts found) (e_text <$> found) entity_list topics
      (_compute_complexity_score content) (_compute_readability_score content)
      (match vector with [] => float_ratio 7 10 | _ => float_ratio 9 10 end) elapsed in
    if result_valid r then ret r else raise (ValueError validation_text).

(** ** Life cycle *)

Definition default_policy : ModelSemanticComputePolicyConfig :=
  PolicyConfig 100000 3 100 5000 true true DETERMINISTIC (float_ratio 7 10) (float_ratio 7 10) 100
    zero (Some 42) [of_string "text-embedding-3-small"; of_string "gte-qwen2"]
    (of_string "gte-qwen2") (of_string "qwen2.5-14b").
Definition default_config : ModelHandlerSemanticComputeConfig := HandlerConfig default_policy true 1000.

Definition _MIN_CACHE_SIZE : Z := 1.

Definition no_provider : string :=
  "HandlerSemanticCompute requires an embedding provider. Either pass embedding_provider to " +:+
  "initialize() or register ProtocolEmbeddingProvider in the container.".

(** [initialize], one step under its lock: the providers are passed or those
    the container has. *)
Definition initialize (config : option ModelHandlerSemanticComputeConfig)
    (passed_embedding passed_llm container_embedding container_llm : bool) : M world unit :=
  let! w := get in
  if _initialized (self w) then ret tt
  else
    let c := default default_config config in
    let with_self f w := World f (_handler_initialized w) (state w) (env w) (suspensions w)
                           (asked w) (slept w) in
    if passed_embedding || container_embedding then
      do! modify (with_self (Fields true c true (passed_llm || container_llm)));
      modify (fun w => set_state
        (Shared (lru_new (Z.max (max_cache_size c) _MIN_CACHE_SIZE)) (heap (state w))) w)
    else
      do! modify (with_self (Fields false c (_embedding_provider (self w)) (_llm_provider (self w))));
      raise (RuntimeError no_provider).

Definition shutdown : M world unit :=
  modify (fun w => World (Fields false (_config (self w)) (_embedding_provider (self w))
                            (_llm_provider (self w)))
    (_handler_initialized w) (Shared (lru_clear (_embedding_cache (state w))) (heap (state w))) (env w) (suspensions w)
    (asked w) (slept w)).

(** ** The node *)

Inductive operation : Type := op_embed | op_extract_entities | op_analyze.

Record request : Type := Request {
  q_operation : operation;
  q_content : text;
  q_analysis_type : string;
  q_model : option text;
  q_correlation_id : uuid;
}.

Record response : Type := Response {
  success : bool;
  p_operation : operation;
  p_embedding : option vector;
  p_entities : option ModelSemanticEntityList;
  p_analysis : option ModelSemanticAnalysisResult;
  p_error_message : option string;
}.

(** What the node was constructed with. *)
Record pending : Type := Pending {
  _pending_config : option ModelHandlerSemanticComputeConfig;
  _pending_embedding_provider : bool;
  _pending_llm_provider : bool;
  container_embedding_provider : bool;
  container_llm_provider : bool;
}.

Definition _ensure_handler_initialized (n : pending) : M world unit :=
  let! w := get in
  if _handler_initialized w then ret tt
  else
    do! initialize (_pending_config n) (_pending_embedding_provider n) (_pending_llm_provider n)
          (container_embedding_provider n) (container_llm_provider n);
    modify (fun w => World (self w) true (state w) (env w) (suspensions w) (asked w) (slept w)).

Definition failed (q : request) (msg : string) : response :=
  Response false (q_operation q) None None None (Some msg).

Definition execute (n : pending) (q : request) (elapsed : Z) : M world response :=
  try_Exception
    (do! _ensure_handler_initialized n;
     match q_operation q with
     | op_embed =>
         let! l := embed (q_content q) (q_model q) in
         let! w := get in
         ret (Response true op_embed (Some (default [] (heap (state w) !! l))) None None None)
     | op_extract_entities =>
         let! es := extract_entities (q_content q) in
         ret (Response true op_extract_entities None (Some es) None None)
     | op_analyze =>
         let! r := analyze (q_content q) (q_analysis_type q) (q_correlation_id q) elapsed in
         ret (Response true op_analyze
                (match semantic_vector r with [] => None | v => Some v end) (entity_list r)
                (Some r) None)
     end)
    (fun e => ret (failed q
       match e with
       | ValueError m => m
       | e => "Unexpected error: " +:+ exn_class e +:+ ": " +:+ exn_str e
       end)).

(** ** Proofs: what every operation keeps *)

Definition plain (model : text) : Prop := ":"%char ∉ model.

(** The provider may answer [v] to this request at some point of the run. *)
Definition answers (E : nat -> call_env) (content model : text) (v : vector) : Prop :=
  exists k, generate_embedding (E k) content model = Ok v.

(** The key of a request: 32 characters of the digest of the content, with the
    model's name before it if so configured. *)
Definition request_key (p : ModelSemanticComputePolicyConfig) (model content : text) : text :=
  take 32 (hexdigest (if cache_key_include_model p then model ++ colon ++ content else content)).

(** Every cached list holds an answer to a request of its key. *)
Definition cached_ok (p : ModelSemanticComputePolicyConfig) (E : nat -> call_env) (s : shared) : Prop :=
  forall key l, lru_lookup key (_embedding_cache s) = Some l ->
    exists v content model, heap s !! l = Some v /\ key = request_key p model content /\
      answers E content model v.

(** Other tasks keep a property of the shared state. *)
Definition respects (I : shared -> Prop) (w : world) : Prop :=
  I (state w) /\ forall k s, I s -> I (others (env w k) s).

Lemma fresh_lookup (h : gmap loc vector) v : h !! fresh (dom h) = None /\
  <[fresh (dom h) := v]> h !! fresh (dom h) = Some v.
Proof. split; [apply not_elem_of_dom, is_fresh|by rewrite lookup_insert_eq]. Qed.

Lemma cached_ok_alloc p E c h v :
  cached_ok p E (Shared c h) -> cached_ok p E (Shared c (<[fresh (dom h) := v]> h)).
Proof.
  intros Hc key l Hl. destruct (Hc key l Hl) as (u & content & model & Hu & Hk).
  exists u, content, model. split; [|done]. simpl in *.
  rewrite lookup_insert_ne; [done|]. intros <-. destruct (fresh_lookup h v). congruence.
Qed.

(** The retries of one request: at most [n] of them are sent, the answer is
    the provider's, and the shared state is as the others and a new list leave
    it. *)
Section retry_embed.
Context (I : shared -> Prop) (content model : text).
Context (I_alloc : forall c h v, I (Shared c h) -> I (Shared c (<[fresh (dom h) := v]> h))).

Definition sent (n : nat) (w w' : world) : Prop :=
  exists j, (j <= n)%nat /\ asked w' = asked w ++ replicate j (content, model).

Definition embed_post (n : nat) (w : world) (r : res loc) (w' : world) : Prop :=
  self w' = self w /\ env w' = env w /\ respects I w' /\ sent n w w' /\
  match r with
  | Ok l => exists v, heap (state w') !! l = Some v /\ answers (env w) content model v
  | Raise e => exists k, generate_embedding (env w k) content model = Raise e
  end.

Lemma do_embed_post w : respects I w -> wp (_do_embed content model) (embed_post 1 w) w.
Proof using I_alloc.
  intros [Hi Ho]. unfold _do_embed. wp_step. unfold suspend, wp. cbn.
  assert (Hs : I (others (env w (suspensions w)) (state w))) by auto.
  destruct (generate_embedding _ content model) as [v|e] eqn:Eg; cbn.
  - split_and!; [done|done| |by exists 1%nat|].
    + split; [|done]. cbn. destruct (others _ _) as [c h]. by apply I_alloc.
    + exists v. split; [apply fresh_lookup|by eexists].
  - split_and!; [done|done|by split|by exists 1%nat|by eexists].
Qed.

Lemma retry_post n : forall attempt last w,
  attempt + Z.of_nat n = max_retries (policy w) + 2 -> n <> O -> respects I w ->
  wp (retry_loop (_do_embed content model) n attempt last) (embed_post n w) w.
Proof using I_alloc.
  induction n as [|n IH]; intros attempt last w Hn Hne Hw; [done|]. cbn [retry_loop]. wp_step.
  eapply wp_mono; [|by apply do_embed_post].
  intros r w1 (Hself & Henv & Hr & (j & Hj & Ha) & Hres).
  assert (Hsent : sent (S n) w w1) by (exists j; split; [lia|done]).
  destruct r as [l|e]; [by split_and!|].
  assert (Hstop : embed_post (S n) w (Raise e) w1) by by split_and!.
  destruct (is_Exception e); [|done]. wp_step. unfold get, wp at 1. cbn.
  destruct (should_retry _ attempt e) eqn:Er; cbn [negb]; [|by wp_step].
  destruct (max_retries (policy w1) + 1 <=? attempt) eqn:Em; [by wp_step|]. breflect.
  assert (Hp : policy w1 = policy w) by (unfold policy; by rewrite Hself). rewrite Hp in Em.
  wp_step. unfold suspend, wp at 1. cbn.
  eapply wp_mono; [|apply IH].
  - intros r w2 (Hself2 & Henv2 & Hr2 & (j2 & Hj2 & Ha2) & Hres2). cbn in *.
    split_and!; [congruence|congruence|done| |].
    + exists (j + j2)%nat. split; [lia|]. rewrite Ha2, Ha, replicate_add. by rewrite app_assoc.
    + rewrite Henv in Hres2. done.
  - unfold policy in *. cbn. rewrite Hself. lia.
  - lia.
  - destruct Hr as [Hi Ho]. split; cbn; [by apply Ho|done].
Qed.

Lemma execute_with_retry_post w :
  0 <= max_retries (policy w) -> respects I w ->
  wp (_execute_with_retry (_do_embed content model))
    (embed_post (Z.to_nat (max_retries (policy w) + 1)) w) w.
Proof using I_alloc.
  intros Hm Hw. unfold _execute_with_retry. wp_step. unfold get, wp at 1. cbn.
  apply retry_post; [lia|lia|done].
Qed.
End retry_embed.

(** ** [embed] *)

Lemma plain_split a b c d :
  plain a -> plain b -> a ++ colon ++ c = b ++ colon ++ d -> a = b /\ c = d.
Proof.
  unfold plain. revert b. induction a as [|x a IH]; intros [|y b] Ha Hb E; simpl in E.
  - by simplify_eq.
  - injection E as <- _. exfalso. apply Hb. left.
  - injection E as -> _. exfalso. apply Ha. left.
  - apply not_elem_of_cons in Ha as [_ Ha], Hb as [_ Hb]. injection E as <- E.
    destruct (IH b Ha Hb E) as [-> ->]. done.
Qed.

(** Why [embed] may fail, apart from the provider. *)
Definition refuses (w : world) (content : text) (e : exn) : Prop :=
  (_initialized (self w) = false /\ e = RuntimeError not_initialized) \/
  (blank content = true /\ e = ValueError "Content cannot be empty") \/
  (max_content_length (policy w) < Z.of_nat (length content) /\
   e = ValueError (too_long (policy w) content)).

Definition accepts (w : world) (content : text) : Prop :=
  _initialized (self w) = true /\ blank content = false /\
  Z.of_nat (length content) <= max_content_length (policy w).

(** What the cache has for a request. *)
Definition cached (w : world) (content : text) (model : option text) : option vector :=
  if enable_caching (_config (self w))
  then l ← lru_lookup (_compute_cache_key (policy w) content model) (_embedding_cache (state w));
       heap (state w) !! l
  else None.

Lemma embed_cases content model (Q : res loc -> world -> Prop) w :
  (forall e, refuses w content e -> Q (Raise e) w) ->
  (accepts w content -> forall v, cached w content model = Some v ->
     let s := state w in let l := fresh (dom (heap s)) in
     Q (Ok l) (set_state (Shared (lru_touch (_compute_cache_key (policy w) content model)
                                    (_embedding_cache s)) (<[l := v]> (heap s))) w)) ->
  (accepts w content -> cached w content model = None ->
     wp (_execute_with_retry (_do_embed content (model_or (policy w) model)))
       (fun r w1 => match r with
          | Ok l => Q (Ok l)
              (if enable_caching (_config (self w)) && should_cache_embedding (policy w) content
               then set_state (Shared (lru_set (_compute_cache_key (policy w) content model) l
                                         (_embedding_cache (state w1))) (heap (state w1))) w1
               else w1)
          | Raise e => Q (Raise e) w1
          end) w) ->
  wp (embed content model) Q w.
Proof.
  intros H1 H2 H3. unfold embed, _ensure_initialized. wp_step. unfold get, wp at 1. cbn.
  destruct (_initialized (self w)) eqn:Ei; wp_step; [|apply H1; by left].
  unfold get, wp at 1. cbn. destruct (blank content) eqn:Eb; wp_step; [apply H1; right; by left|].
  destruct (max_content_length (policy w) <? _) eqn:El; wp_step; breflect;
    [apply H1; right; by right|].
  assert (Ha : accepts w content) by by split_and!.
  fold (cached w content model). destruct (cached w content model) as [v|] eqn:Ec.
  - wp_step. unfold alloc, wp. cbn. apply (H2 Ha v eq_refl).
  - wp_step. eapply wp_mono; [|by apply H3]. intros [l|e] w1 Hq; [|done]. wp_step.
    destruct (enable_caching _ && _); wp_step; exact Hq.
Qed.

(** C27: what [embed] answers is an embedding that the provider gave, at
    some point, to a request with the same cache key: to this very content and
    model whenever the provider was asked. The key is the first 32 characters of
    a digest, so another request may have it; it can be no other one when the key
    includes the model's name, neither name has a colon, and the truncated
    digest tells the two texts apart. Whatever other requests do meanwhile,
    [embed] sends at most [max_retries + 1] requests, all of them this one, fails
    only as it announces or as the provider does, and leaves in the cache only
    such answers. *)
Theorem embed_sound (content : text) (model : option text) (w : world) :
  let p := policy w in
  let m := model_or p model in
  0 <= max_retries p -> respects (cached_ok p (env w)) w ->
  wp (embed content model) (fun r w' =>
    respects (cached_ok p (env w)) w' /\
    sent content m (Z.to_nat (max_retries p + 1)) w w' /\
    match r with
    | Ok l => exists v content' model',
        heap (state w') !! l = Some v /\ answers (env w) content' model' v /\
        request_key p model' content' = request_key p m content /\
        (asked w' <> asked w -> content' = content /\ model' = m) /\
        let apart a b := take 32 (hexdigest a) = take 32 (hexdigest b) -> a = b in
        (cache_key_include_model p = true -> plain model' -> plain m ->
         apart (model' ++ colon ++ content') (m ++ colon ++ content) ->
         content' = content /\ model' = m)
    | Raise e => refuses w content e \/
        exists k, generate_embedding (env w k) content m = Raise e
    end) w.
Proof.
  intros p m Hm Hw. assert (Hsent : forall n, sent content m n w w)
    by (intros n; exists O; split; [lia|by rewrite app_nil_r]).
  assert (Ekey : _compute_cache_key p content model = request_key p m content).
  { unfold _compute_cache_key, request_key, digest. by destruct (cache_key_include_model p). }
  apply embed_cases.
  - intros e He. split_and!; [done|apply Hsent|by left].
  - intros Ha v Hv s l. destruct Hw as [Hc Ho]. split_and!.
    + split; [|done]. subst s l. cbn. apply (cached_ok_alloc _ _ _ (heap (state w))).
      intros key l Hl. cbn in Hl. rewrite lru_touch_lookup in Hl. by apply Hc.
    + destruct (Hsent (Z.to_nat (max_retries p + 1))) as (j & ? & ?). by exists j.
    + unfold cached in Hv. destruct (enable_caching _); [|done].
      destruct (lru_lookup _ _) as [l0|] eqn:El; [|done]. simpl in Hv.
      destruct (Hc _ _ El) as (u & content' & model' & Hu & Hk & Hans).
      fold p in Hk. rewrite Ekey in Hk. assert (u = v) as -> by congruence.
      exists v, content', model'. split_and!; [apply fresh_lookup|done|done|done|].
      intros apart Hinc Hp' Hp Hd. unfold request_key in Hk. rewrite Hinc in Hk.
      destruct (plain_split model' m content' content) as [-> ->]; auto.
  - intros Ha _. eapply wp_mono; [|apply (execute_with_retry_post (cached_ok p (env w)));
      [apply cached_ok_alloc|done|done]].
    intros [l|e] w1 (Hs & He & Hr & Hsn & Hres); [|split_and!; [done|done|by right]].
    destruct Hres as (v & Hv & Hans).
    assert (Hans' : exists v0 content' model',
      heap (state w1) !! l = Some v0 /\ answers (env w) content' model' v0 /\
      request_key p model' content' = request_key p m content /\
      (asked w1 <> asked w -> content' = content /\ model' = m) /\
      let apart a b := take 32 (hexdigest a) = take 32 (hexdigest b) -> a = b in
      (cache_key_include_model p = true -> plain model' -> plain m ->
       apart (model' ++ colon ++ content') (m ++ colon ++ content) ->
       content' = content /\ model' = m)) by (exists v, content, m; by split_and!).
    destruct (enable_caching _ && _); [|by split_and!].
    split_and!; [|done|exact Hans']. destruct Hr as [Hc Ho]. split; [|done]. cbn.
    intros key l' Hl. cbn in Hl. apply lru_set_lookup in Hl as [[-> ->]|[_ Hl]]; [|by apply Hc].
    exists v, content, m. cbn. by split_and!.
Qed.

(** ** Cached answers *)

Section caching.
Context (roomy : C -> Prop) `{!LRUKeeps C roomy}.

Definition roomy_state (s : shared) : Prop := roomy (_embedding_cache s).

(** A successful [embed] of content that is cached at all leaves the answer in
    the cache; if the provider was asked, as the very list it returned. *)
Lemma embed_fills content model w :
  0 <= max_retries (policy w) -> respects roomy_state w ->
  enable_caching (_config (self w)) = true -> should_cache_embedding (policy w) content = true ->
  wp (embed content model) (fun r w' => forall l, r = Ok l ->
    accepts w content /\ self w' = self w /\ exists v l0,
      heap (state w') !! l = Some v /\ heap (state w') !! l0 = Some v /\
      lru_lookup (_compute_cache_key (policy w) content model) (_embedding_cache (state w'))
        = Some l0 /\
      (asked w' <> asked w -> l0 = l)) w.
Proof using Type*.
  intros Hm Hw Hen Hsc. apply embed_cases; [done| |].
  - intros Ha v Hv s l l' [= <-]. unfold cached in Hv. rewrite Hen in Hv.
    destruct (lru_lookup _ _) as [l0|] eqn:El; [|done]. simpl in Hv.
    split; [done|]. split; [done|]. exists v, l0. subst s l. cbn.
    destruct (fresh_lookup (heap (state w)) v) as [H1 H2]. split_and!; [done| | |done].
    + rewrite lookup_insert_ne; [done|]. intros E. unfold loc in *. congruence.
    + by rewrite lru_touch_lookup.
  - intros Ha _. eapply wp_mono; [|apply (execute_with_retry_post roomy_state); [done|done|done]].
    intros [l|e] w1 (Hs & He & [Hr _] & _ & Hres) l' [=]. subst l'. destruct Hres as (v & Hv & _).
    rewrite Hen, Hsc. cbn. split; [done|]. split; [done|]. exists v, l. split_and!; [done|done| |done].
    by apply roomy_set.
Qed.

Lemma embed_hit content model w l0 v :
  accepts w content -> enable_caching (_config (self w)) = true ->
  lru_lookup (_compute_cache_key (policy w) content model) (_embedding_cache (state w)) = Some l0 ->
  heap (state w) !! l0 = Some v ->
  exists l w', embed content model w = (Ok l, w') /\ heap (state w') = <[l := v]> (heap (state w)) /\
    heap (state w) !! l = None /\ asked w' = asked w /\ self w' = self w.
Proof.
  intros Ha Hen Hl Hv.
  assert (H' : wp (embed content model) (fun r w' => exists l, r = Ok l /\
    heap (state w') = <[l := v]> (heap (state w)) /\ heap (state w) !! l = None /\
    asked w' = asked w /\ self w' = self w) w).
  { assert (Hc : cached w content model = Some v)
      by (unfold cached; rewrite Hen, Hl; done).
    apply embed_cases.
    - intros e He. exfalso. destruct Ha as (H1 & H2 & H3), He as [[? _]|[[? _]|[? _]]];
        [congruence|congruence|lia].
    - intros _ v' Hv' s l. exists l. rewrite Hc in Hv'. injection Hv' as <-.
      split; [done|]. split; [done|]. split; [apply (fresh_lookup _ v)|done].
    - congruence. }
  unfold wp in H'. destruct (embed content model w) as [r w']. cbn in H'.
  destruct H' as (l & -> & ? & ? & ? & ?). by exists l, w'.
Qed.

(** Once [embed] has answered for content that is cached at all,
    the same request is answered again without asking the provider: with the
    same vector, in a list of its own. *)
Theorem embed_cached (content : text) (model : option text) (w w1 : world) (l : loc) :
  0 <= max_retries (policy w) -> respects roomy_state w ->
  enable_caching (_config (self w)) = true -> should_cache_embedding (policy w) content = true ->
  embed content model w = (Ok l, w1) ->
  exists v l2 w2, heap (state w1) !! l = Some v /\ embed content model w1 = (Ok l2, w2) /\
    heap (state w2) !! l2 = Some v /\ l2 <> l /\ heap (state w2) !! l = Some v /\
    asked w2 = asked w1.
Proof using Type*.
  intros Hm Hw Hen Hsc He. pose proof (embed_fills content model w Hm Hw Hen Hsc) as Hf.
  apply (wp_run _ _ _ _ _ He) in Hf. destruct (Hf l eq_refl) as (Ha & Hs & v & l0 & H1 & H2 & H3 & _).
  assert (Hp : policy w1 = policy w) by (unfold policy; by rewrite Hs).
  destruct (embed_hit content model w1 l0 v) as (l2 & w2 & E2 & Hh & Hn & Hask & _).
  - unfold accepts. by rewrite Hp, Hs.
  - by rewrite Hs.
  - by rewrite Hp.
  - done.
  - assert (l2 <> l) by (intros ->; congruence). exists v, l2, w2. rewrite Hh. split_and!; try done.
    + by rewrite lookup_insert_eq.
    + by rewrite lookup_insert_ne.
Qed.

(** The caller stores into the list it got. *)
Definition mutate (l : loc) (v : vector) (w : world) : world :=
  set_state (Shared (_embedding_cache (state w)) (<[l := v]> (heap (state w)))) w.

(** When the provider was asked, the list [embed] returns is the
    one it caches: whatever the caller then does to its result becomes the
    answer to the next request for this content. *)
Theorem embed_shares_cached_list (content : text) (model : option text) (w w1 : world) (l : loc)
    (v : vector) :
  0 <= max_retries (policy w) -> respects roomy_state w ->
  enable_caching (_config (self w)) = true -> should_cache_embedding (policy w) content = true ->
  embed content model w = (Ok l, w1) -> asked w1 <> asked w ->
  exists l2 w2, embed content model (mutate l v w1) = (Ok l2, w2) /\
    heap (state w2) !! l2 = Some v /\ asked w2 = asked w1.
Proof using Type*.
  intros Hm Hw Hen Hsc He Hask. pose proof (embed_fills content model w Hm Hw Hen Hsc) as Hf.
  apply (wp_run _ _ _ _ _ He) in Hf. destruct (Hf l eq_refl) as (Ha & Hs & u & l0 & _ & _ & H3 & H4).
  rewrite (H4 Hask) in H3.
  assert (Hp : policy (mutate l v w1) = policy w) by (unfold policy; cbn; by rewrite Hs).
  destruct (embed_hit content model (mutate l v w1) l v) as (l2 & w2 & E2 & Hh & _ & Ha2 & _).
  - unfold accepts. rewrite Hp. cbn. by rewrite Hs.
  - cbn. by rewrite Hs.
  - by rewrite Hp.
  - cbn. by rewrite lookup_insert_eq.
  - exists l2, w2. rewrite Hh. split_and!; [done|by rewrite lookup_insert_eq|done].
Qed.
End caching.

(** ** Entities and analyses *)

(** The entities a deterministic extraction keeps. *)
Definition kept_entities (p : ModelSemanticComputePolicyConfig) (content : text)
    : list ModelSemanticEntity :=
  if SFleb (entity_confidence_threshold p) (heuristic_entity_confidence p)
  then take (Z.to_nat (max_entities_per_request p))
         (entities_of (heuristic_entity_confidence p) true (located content))
  else [].

Section deterministic.
Context (p : ModelSemanticComputePolicyConfig) (content : text) (Hv : policy_valid p = true).

Lemma heuristic_confidence_unit : unit_float (heuristic_entity_confidence p) = true.
Proof using Hv. unfold policy_valid in Hv. by breflect. Qed.

Lemma entities_confidence e :
  e ∈ entities_of (heuristic_entity_confidence p) true (located content) ->
  confidence e = heuristic_entity_confidence p.
Proof using Hv.
  destruct (located_spec content) as (Hl1 & Hl2 & _).
  destruct (entities_of_in _ content _ true heuristic_confidence_unit Hl1 Hl2) as (_ & Hconf & _).
  intros He. by apply Hconf.
Qed.

Lemma kept_filter :
  take (Z.to_nat (max_entities_per_request p)) (filter_entities_by_confidence p
    (entities_of (heuristic_entity_confidence p) true (located content))) = kept_entities p content.
Proof using Hv.
  pose proof entities_confidence as Hconf. unfold kept_entities, filter_entities_by_confidence.
  set (es := entities_of _ _ _) in *. clearbody es. destruct (SFleb _ _) eqn:El.
  - f_equal. apply filter_all, Forall_forall. intros e He. by rewrite (Hconf e He).
  - rewrite <- (take_nil (Z.to_nat (max_entities_per_request p))). f_equal.
    induction es as [|e l IH]; [done|]. rewrite filter_cons_False.
    + apply IH. intros; apply Hconf; by right.
    + rewrite (Hconf e ltac:(left)). congruence.
Qed.

Lemma kept_not_key :
  SFleb KEY_CONCEPT_CONFIDENCE_THRESHOLD (heuristic_entity_confidence p) = false ->
  _extract_key_concepts (kept_entities p content) = [].
Proof using Hv.
  intros Hk. unfold _extract_key_concepts.
  assert (Hkept : forall e, e ∈ kept_entities p content ->
    confidence e = heuristic_entity_confidence p).
  { intros e He. apply entities_confidence. unfold kept_entities in He. case_match;
      [|by apply not_elem_of_nil in He].
    match type of He with _ ∈ take ?n ?l => rewrite <- (take_drop n l), elem_of_app end. by left. }
  assert (Hnone : filter (fun e => is_key_concept e = true) (kept_entities p content) = []); [|by rewrite Hnone].
  clear Hv. induction (kept_entities p content) as [|e l IH]; [done|]. rewrite filter_cons_False.
  - apply IH. intros; apply Hkept; by right.
  - unfold is_key_concept. by rewrite (Hkept e ltac:(left)), Hk.
Qed.
End deterministic.

Lemma extract_run content w :
  policy_valid (policy w) = true -> entity_extraction_mode (policy w) = DETERMINISTIC ->
  _initialized (self w) = true -> blank content = false ->
  extract_entities content w =
    (Ok (EntityList (kept_entities (policy w) content) (Z.of_nat (length content)) "heuristic"
           (is_deterministic (policy w))), w).
Proof.
  intros Hv Hd Hi Hb. rewrite <- (kept_filter (policy w) content Hv).
  unfold extract_entities, _ensure_initialized, bind, get. rewrite Hi. cbn. rewrite Hb. cbn.
  unfold should_use_llm_for_entities. rewrite Hd. cbn.
  rewrite (extract_spec _ content (heuristic_confidence_unit _ Hv)), bool_decide_false by done.
  reflexivity.
Qed.

(** In deterministic mode extraction neither suspends nor changes
    anything: it returns the entities of Entities.v, the first
    [max_entities_per_request] of them if the confidence all of them have
    reaches the threshold, and none otherwise. None of them becomes a key
    concept unless that confidence is at least 0.8, which the default, 0.7, is
    not. *)
Theorem extract_deterministic (content : text) (w : world) :
  let p := policy w in
  policy_valid p = true -> entity_extraction_mode p = DETERMINISTIC ->
  _initialized (self w) = true -> blank content = false ->
  extract_entities content w =
    (Ok (EntityList (kept_entities p content) (Z.of_nat (length content)) "heuristic"
           (is_deterministic p)), w) /\
  (SFleb KEY_CONCEPT_CONFIDENCE_THRESHOLD (heuristic_entity_confidence p) = false ->
   _extract_key_concepts (kept_entities p content) = []).
Proof. intros p Hv Hd Hi Hb. split; [by apply extract_run|by apply kept_not_key]. Qed.

Lemma embed_self content model w :
  0 <= max_retries (policy w) -> self (embed content model w).2 = self w.
Proof.
  intros Hm.
  assert (Hw : wp (embed content model) (fun _ w' => self w' = self w) w); [|exact Hw].
  apply embed_cases; [done|done|]. intros _ _.
  eapply wp_mono; [|apply (execute_with_retry_post (fun _ => True)); [done|done|by split]].
  intros [l|e] w1 (Hs & _); [|done]. by destruct (_ && _).
Qed.

(** A full analysis in deterministic mode is the embedding, the
    entities, the key concepts and the topics of the content put together, in a
    result that satisfies its model; when the embedding fails the whole
    analysis fails with the same exception, whatever the fallbacks of the
    configuration say. *)
Theorem analyze_full (content : text) (id : uuid) (elapsed : Z) (w : world) :
  let p := policy w in
  policy_valid p = true -> entity_extraction_mode p = DETERMINISTIC ->
  _initialized (self w) = true -> blank content = false -> 0 <= elapsed ->
  let (r, w1) := embed content None w in
  match r with
  | Raise e => analyze content "full" id elapsed w = (Raise e, w1)
  | Ok l => exists found a,
      (extract_entities content w1).1 = Ok found /\ analyze content "full" id elapsed w = (Ok a, w1) /\
      semantic_vector a = default [] (heap (state w1) !! l) /\ entity_list a = Some found /\
      r_entities a = e_text <$> entities found /\
      key_concepts a = _extract_key_concepts (entities found) /\
      topics a = _extract_topics_heuristic content /\ result_valid a = true
  end.
Proof.
  intros p Hv Hd Hi Hb He.
  assert (Hm : 0 <= max_retries p) by (unfold policy_valid in Hv; by breflect).
  pose proof (embed_self content None w Hm) as Hself.
  destruct (embed content None w) as [r w1] eqn:E. cbn in Hself.
  assert (Ea : forall X, analyze content "full" id elapsed w = X <->
    (let! w' := get in
     let! embedding := let! l := embed content None in ret (Some l) in
     let! entity_list := let! l := extract_entities content in ret (Some l) in
     let found := match entity_list with Some l => entities l | None => [] end in
     let! w := get in
     let vector := match embedding with Some l => default [] (heap (state w) !! l) | None => [] end in
     let r := AnalysisResult id "full" (take 1000 content) vector
       (_extract_key_concepts found) (e_text <$> found) entity_list (_extract_topics_heuristic content)
       (_compute_complexity_score content) (_compute_readability_score content)
       (match vector with [] => float_ratio 7 10 | _ => float_ratio 9 10 end) elapsed in
     if result_valid r then ret r else raise (ValueError validation_text)) w = X).
  { intros X. unfold analyze, _ensure_initialized, bind, get. rewrite Hi. cbn. rewrite Hb. cbn. done. }
  destruct r as [l|e]; [|by apply Ea; unfold bind, get; rewrite E].
  assert (Hp : policy w1 = p) by (unfold policy; by rewrite Hself).
  assert (Hx : exists found, extract_entities content w1 = (Ok found, w1)).
  { eexists. apply extract_run; rewrite ?Hp, ?Hself; done. }
  destruct Hx as [found Hx]. exists found.
  set (v := default [] (heap (state w1) !! l)).
  eexists. split; [by rewrite Hx|]. split.
  - apply Ea. unfold bind, get, ret. rewrite E. cbn iota beta. rewrite Hx. cbn iota beta. fold v. match goal with |- context [result_valid ?r] => assert (Hr : result_valid r = true) end.
    { unfold result_valid. cbn. rewrite !at_most_unit by auto with floats.
      rewrite Zleb_T by done. by destruct v; vm_compute. }
    rewrite Hr. reflexivity.
  - cbn. split_and!; try done. unfold result_valid. cbn. rewrite !at_most_unit by auto with floats.
    rewrite Zleb_T by done. by destruct v; vm_compute.
Qed.

(** What a response of the node must be. *)
Definition well_formed (q : request) (p : response) : Prop :=
  p_operation p = q_operation q /\
  (success p = false <-> is_Some (p_error_message p)) /\
  (success p = true ->
     match q_operation q with
     | op_embed => is_Some (p_embedding p)
     | op_extract_entities => is_Some (p_entities p)
     | op_analyze => is_Some (p_analysis p)
     end).

(** Whatever the providers, the other tasks, the configuration and the request
    are, the node answers with a well-formed response, the result of the
    operation asked for or an error message, unless it is cancelled. *)
Theorem node_answers (n : pending) (q : request) (elapsed : Z) (w : world) :
  match (execute n q elapsed w).1 with
  | Ok p => well_formed q p
  | Raise e => is_Exception e = false
  end.
Proof.
  assert (Hw : wp (execute n q elapsed) (fun r _ => match r with
    | Ok p => well_formed q p | Raise e => is_Exception e = false end) w); [|exact Hw].
  assert (Hfail : forall m, well_formed q (failed q m)) by (intros m; by split_and!).
  unfold execute. wp_step.
  assert (Hany : forall A (m : M world A) Q w, (forall r w', Q r w') -> wp m Q w)
    by (intros A m Q w' HQ; apply HQ).
  apply Hany. intros [u|e] w1; wp_step; [|destruct (is_Exception e) eqn:Ee; [by wp_step|done]].
  destruct (q_operation q) eqn:Eq; wp_step; apply Hany; intros [x|e] w2; wp_step;
    try (by (destruct (is_Exception e) eqn:Ee; [by wp_step|done])); unfold get, wp; cbn;
    unfold well_formed; rewrite Eq; cbn;
    (split; [done|split; [split; [done|by intros [? ?]]|by eexists]]).
Qed.
End handler.

(** ** Runs *)

Module SemanticDemo.
(** A cache with its capacity, the key used last first. *)
Record lru : Type := Lru { maxsize : Z; items : list (text * loc) }.

Fixpoint lookup (k : text) (l : list (text * loc)) : option loc :=
  match l with
  | [] => None
  | (k', v) :: l => if bool_decide (k = k') then Some v else lookup k l
  end.

Definition remove (k : text) (l : list (text * loc)) : list (text * loc) :=
  filter (fun x => x.1 <> k) l.

Lemma lookup_remove k k' l : lookup k (remove k' l) = if decide (k = k') then None else lookup k l.
Proof.
  unfold remove. induction l as [|[k0 v] l IH]; simpl; [by case_decide|].
  destruct (decide (k0 <> k')) as [Hne|He].
  - rewrite filter_cons_True by done. simpl. rewrite IH. case_bool_decide; [|done].
    rewrite decide_False; [done|congruence].
  - rewrite filter_cons_False by done. rewrite IH. apply dec_stable in He. subst k0.
    case_decide; [done|]. by rewrite bool_decide_false.
Qed.

Lemma lookup_take n k l v : lookup k (take n l) = Some v -> lookup k l = Some v.
Proof.
  revert n. induction l as [|[k0 v0] l IH]; intros [|n]; simpl; [done..|].
  case_bool_decide; [done|]. apply IH.
Qed.

#[refine] Instance lru_cache : LRUCache lru := {|
  lru_new n := Lru n [];
  lru_lookup k c := lookup k (items c);
  lru_touch k c := match lookup k (items c) with
                   | Some l => Lru (maxsize c) ((k, l) :: remove k (items c))
                   | None => c
                   end;
  lru_set k l c := Lru (maxsize c) (take (Z.to_nat (maxsize c)) ((k, l) :: remove k (items c)));
  lru_clear c := Lru (maxsize c) [];
|}.
Proof.
  - done.
  - done.
  - intros k k' c. destruct (lookup k' (items c)) as [l|] eqn:E; [|done]. simpl.
    rewrite lookup_remove. case_bool_decide; [congruence|]. by rewrite decide_False.
  - intros k k' l l' c H. apply lookup_take in H. simpl in H. rewrite lookup_remove in H.
    case_bool_decide; [left; by simplify_eq|]. case_decide; [done|by right].
Defined.

Definition roomy (c : lru) : Prop := 1 <= maxsize c.

#[refine] Instance lru_keeps : LRUKeeps lru roomy := {}.
Proof.
  - done.
  - intros k c Hc. simpl. by destruct (lookup k (items c)).
  - done.
  - intros k l c Hc. split; [done|]. simpl. unfold roomy in Hc.
    destruct (Z.to_nat (maxsize c)) eqn:E; [lia|]. simpl. by rewrite bool_decide_true.
Defined.

Definition id_digest (t : text) : text := t.
Definition no_seed (n : Z) : spec_float := Floats.half.
Definition no_str (j : json) : text := [].

(** A provider that times out at first, and then answers with the length of
    the text. *)
Definition provider (k : nat) : call_env (C := lru) :=
  CallEnv id Floats.half
    (fun content model => if (k =? 0)%nat then Raise (TimeoutError "slow")
                          else Ok [float_of_Z (Z.of_nat (length content))])
    (fun _ _ _ _ => Ok [(of_string "entities", JList [])]).

Definition start : world (C := lru) :=
  World (Fields true default_config true true) true (Shared (Lru 2 []) ∅) provider 0 [] [].

Definition sentence : text := of_string "The Acme Corp moved to York.".
Local Notation run_embed := (embed (C := lru) id_digest no_seed sentence None).
Definition after : world (C := lru) := (run_embed start).2.

Lemma start_respects I : I (state start) -> respects I start.
Proof. intros H. by split. Qed.

Lemma nothing_cached : cached_ok id_digest default_policy (env start) (state start).
Proof. by intros key l H. Qed.

Lemma embed_sound_witness :
  asked after = [(sentence, of_string "gte-qwen2"); (sentence, of_string "gte-qwen2")] /\
  sent sentence (of_string "gte-qwen2") 4 start after.
Proof.
  split; [by vm_compute|].
  refine (proj1 (proj2 (embed_sound id_digest no_seed sentence None start _ _))).
  - by vm_compute.
  - apply start_respects, nothing_cached.
Defined.

Lemma roomy_start : respects (roomy_state roomy) start.
Proof. by apply start_respects. Qed.

Lemma run_embed_first : (run_embed start).1 = Ok 0%nat.
Proof. by vm_compute. Qed.
Lemma run_embed_ok : run_embed start = (Ok 0%nat, after).
Proof. rewrite <- run_embed_first. apply surjective_pairing. Qed.

Lemma embed_cached_witness :
  exists v l2 w2, heap (state after) !! 0%nat = Some v /\ run_embed after = (Ok l2, w2) /\
    heap (state w2) !! l2 = Some v /\ l2 <> 0%nat /\ heap (state w2) !! 0%nat = Some v /\
    asked w2 = asked after.
Proof.
  refine (embed_cached id_digest no_seed roomy sentence None start after 0%nat _ _ _ _ _).
  - by vm_compute.
  - exact roomy_start.
  - done.
  - by vm_compute.
  - exact run_embed_ok.
Defined.

Lemma embed_shares_cached_list_witness :
  exists l2 w2, run_embed (mutate 0%nat [zero] after) = (Ok l2, w2) /\
    heap (state w2) !! l2 = Some [zero] /\ asked w2 = asked after.
Proof.
  refine (embed_shares_cached_list id_digest no_seed roomy sentence None start after 0%nat [zero]
            _ _ _ _ _ _).
  - by vm_compute.
  - exact roomy_start.
  - done.
  - by vm_compute.
  - exact run_embed_ok.
  - by vm_compute.
Defined.

Definition extract_sentence := extract_entities (C := lru) no_seed no_str "invalid" sentence.

Lemma extract_deterministic_witness :
  extract_sentence start =
    (Ok (EntityList (kept_entities default_policy sentence) 28 "heuristic" true), start) /\
  e_text <$> kept_entities default_policy sentence =
    [of_string "Acme"; of_string "Corp"; of_string "York"] /\
  _extract_key_concepts (kept_entities default_policy sentence) = [].
Proof.
  pose proof (extract_deterministic (C := lru) no_seed no_str "invalid" sentence start
    ltac:(by vm_compute) eq_refl eq_refl ltac:(by vm_compute)) as [H1 H2].
  split; [exact H1|]. split; [by vm_compute|]. apply H2. by vm_compute.
Defined.

Definition analysis :=
  analyze (C := lru) id_digest no_seed no_str "a set" "invalid" sentence "full" "id" 7.

Lemma analyze_full_witness :
  exists found a,
    (extract_sentence after).1 = Ok found /\ analysis start = (Ok a, after) /\
    semantic_vector a = [float_of_Z 28] /\ entity_list a = Some found /\
    r_entities a = e_text <$> entities found /\
    key_concepts a = _extract_key_concepts (entities found) /\
    topics a = _extract_topics_heuristic sentence /\ result_valid a = true.
Proof.
  pose proof (analyze_full (C := lru) id_digest no_seed no_str "a set" "invalid" sentence "id" 7 start
    ltac:(by vm_compute) eq_refl eq_refl ltac:(by vm_compute) ltac:(lia)) as Ha.
  rewrite run_embed_ok in Ha. exact Ha.
Defined.

(** The key joins model and text with a colon, and a colon may be in either:
    two requests share a key, and the second gets the first one's vector. *)
Example keys_collide :
  _compute_cache_key id_digest default_policy (of_string "note: ten") (Some (of_string "m")) =
  _compute_cache_key id_digest default_policy (of_string " ten") (Some (of_string "m:note")).
Proof. by vm_compute. Qed.

(** A cache of size 0, documented as disabled, holds one entry. *)
Example cache_size_zero_caches :
  lru_lookup (of_string "k") (lru_set (of_string "k") 5%nat (lru_new (C := lru) (Z.max 0 _MIN_CACHE_SIZE)))
  = Some 5%nat.
Proof. by vm_compute. Qed.

Definition infinite_item : json :=
  JDict [(of_string "type", JString (of_string "person")); (of_string "text", JString (of_string "Ada"));
         (of_string "start", JInt 0); (of_string "end", JFloat (S754_infinity false))].

(** An item of the model's answer with an infinite position is not skipped, as
    other malformed items are: the [OverflowError] ends the extraction. *)
Example infinite_position_escapes :
  _parse_llm_entity_response no_str [(of_string "entities", JList [infinite_item])] =
  Raise (OverflowError "cannot convert float infinity to integer").
Proof. by vm_compute. Qed.
End SemanticDemo.
