(* ===== verification/Persona.v ===== *)
(** * Personas

    Models [classify_persona] of src/src/omnimemory/nodes/
    node_persona_builder_compute/handlers/handler_persona_classify.py, on IEEE
    doubles, with Python's [float] of a string and [round] to three places, and
    [AdapterPostgresPersona] of nodes/node_persona_storage_effect/adapters. *)

From S2P Require Import Prelude Text Floats Calls.

(** ** Data *)

Inductive EnumTechnicalLevel : Type := BEGINNER | INTERMEDIATE | ADVANCED | EXPERT.
Inductive EnumPreferredTone : Type := EXPLANATORY | CONCISE | FORMAL | CASUAL.

#[export] Instance EnumTechnicalLevel_eq_dec : EqDecision EnumTechnicalLevel.
Proof. solve_decision. Defined.
#[export] Instance EnumPreferredTone_eq_dec : EqDecision EnumPreferredTone.
Proof. solve_decision. Defined.

Definition EnumTechnicalLevel_value (l : EnumTechnicalLevel) : string :=
  match l with
  | BEGINNER => "beginner" | INTERMEDIATE => "intermediate"
  | ADVANCED => "advanced" | EXPERT => "expert"
  end.
Definition EnumPreferredTone_value (t : EnumPreferredTone) : string :=
  match t with
  | EXPLANATORY => "explanatory" | CONCISE => "concise" | FORMAL => "formal" | CASUAL => "casual"
  end.

(** [level_map.get(value, INTERMEDIATE)] and [tone_map.get(value, EXPLANATORY)]. *)
Definition level_of (v : text) : EnumTechnicalLevel :=
  default INTERMEDIATE (head (filter (fun l => of_string (EnumTechnicalLevel_value l) = v)
    [BEGINNER; INTERMEDIATE; ADVANCED; EXPERT])).
Definition tone_of (v : text) : EnumPreferredTone :=
  default EXPLANATORY (head (filter (fun t => of_string (EnumPreferredTone_value t) = v)
    [EXPLANATORY; CONCISE; FORMAL; CASUAL])).

Record ModelPersonaSignal : Type := Signal {
  s_user_id : text;
  session_id : text;
  signal_type : string;
  inferred_value : text;
  confidence : spec_float;
  emitted_at : micros;
}.

Record ModelUserPersonaV1 : Type := Persona {
  user_id : text;
  agent_id : option text;
  technical_level : EnumTechnicalLevel;
  vocabulary_complexity : spec_float;
  preferred_tone : EnumPreferredTone;
  domain_familiarity : gmap text spec_float;
  session_count : Z;
  persona_version : Z;
  created_at : micros;
  rebuilt_from_signals : Z;
}.

(** The constraints of the model. *)
Definition persona_valid (p : ModelUserPersonaV1) : bool :=
  unit_float (vocabulary_complexity p) && (0 <=? session_count p) && (1 <=? persona_version p) &&
  (0 <=? rebuilt_from_signals p).

Inductive classify_status : Type := success | insufficient_data.

Record ModelPersonaClassifyResult : Type := ClassifyResult {
  status : classify_status;
  persona : option ModelUserPersonaV1;
  signals_processed : Z;
}.

(** ** [float] of a string *)

Definition is_digit : ascii -> bool := char_in "0" "9".
Definition digit (c : ascii) : Z := Z.of_nat (nat_of_ascii c) - 48.

(** Digits, with single underscores between two of them: their value, their
    number and the rest. *)
Fixpoint digits (value : Z) (count : nat) (s : text) : Z * nat * text :=
  match s with
  | c :: s' =>
      if is_digit c then digits (10 * value + digit c) (S count) s'
      else if Ascii.eqb c "_" && (0 <? count)%nat then
        match s' with
        | d :: s'' => if is_digit d then digits (10 * value + digit d) (S count) s''
                      else (value, count, s)
        | [] => (value, count, s)
        end
      else (value, count, s)
  | [] => (value, count, [])
  end.

(** [m * 10 ^ e], rounded to the nearest double. *)
Definition decimal (m : positive) (e : Z) : spec_float :=
  match e with
  | Z.neg k => ratio m (10 ^ k)
  | _ => float_of_Z (Z.pos m * 10 ^ e)
  end.

Definition signed (s : text) : bool * text :=
  match s with
  | c :: s' => if Ascii.eqb c "-" then (true, s') else if Ascii.eqb c "+" then (false, s') else (false, s)
  | [] => (false, [])
  end.

(** The exponent, if there is one, must end the text. *)
Definition exponent_part (s : text) : option Z :=
  match s with
  | [] => Some 0
  | c :: s =>
      if among "eE" c then
        let (negative, s) := signed s in
        match digits 0 0 s with
        | (v, S _, []) => Some (if negative then - v else v)
        | _ => None
        end
      else None
  end.

Definition number (s : text) : option spec_float :=
  let '(v, n, rest) := digits 0 0 s in
  let '(v, k, n, rest) :=
    match rest with
    | c :: s' =>
        if Ascii.eqb c "." then
          match s' with
          | d :: _ => if is_digit d then let '(v', n', rest') := digits v 0 s' in
                                         (v', Z.of_nat n', (n + n')%nat, rest')
                      else (v, 0, n, s')
          | [] => (v, 0, n, s')
          end
        else (v, 0, n, rest)
    | [] => (v, 0, n, rest)
    end in
  if (n =? 0)%nat then None
  else
    e ← exponent_part rest;
    Some match v with Z.pos m => decimal m (e - k) | _ => zero end.

(** [float(s)]; [None] is [ValueError]. *)
Definition parse_float (s : text) : option spec_float :=
  let (negative, s) := signed (strip_chars is_space s) in
  let l := lower_text s in
  let magnitude :=
    if bool_decide (l = of_string "inf") || bool_decide (l = of_string "infinity")
    then Some (S754_infinity false)
    else if bool_decide (l = of_string "nan") then Some S754_nan
    else number s in
  (fun f => if negative then SFopp f else f) <$> magnitude.

(** [round(x, 3)]: the nearest multiple of a thousandth, ties to even, and the
    double nearest to it. *)
Definition thousandths (m : positive) (e : Z) : Z :=
  if 0 <=? e then 1000 * Z.pos m * 2 ^ e
  else
    let d := 2 ^ (- e) in
    let q := 1000 * Z.pos m / d in
    let r := (1000 * Z.pos m) mod d in
    if (2 * r <? d) || ((2 * r =? d) && Z.even q) then q else q + 1.

Definition round3 (x : spec_float) : spec_float :=
  match x with
  | S754_finite s m e =>
      match thousandths m e with
      | Z.pos k => let f := ratio k 1000 in if s then SFopp f else f
      | _ => S754_zero s
      end
  | _ => x
  end.

(** ** The rules *)

Definition _TECH_LEVEL_CONFIDENCE_THRESHOLD : spec_float := float_ratio 7 10.
Definition _TECH_LEVEL_MIN_SESSIONS : Z := 3.
Definition _VOCAB_EMA_ALPHA : spec_float := float_ratio 2 10.
Definition _TONE_WINDOW_SIZE : nat := 10.
Definition _DOMAIN_INCREMENT : spec_float := float_ratio 1 10.
Definition _DOMAIN_CAP : spec_float := one.

(** [votes.most_common(1)[0]]: the first of the most frequent. *)
Fixpoint most_common (votes : list (text * nat)) : option (text * nat) :=
  match votes with
  | [] => None
  | x :: votes =>
      match most_common votes with
      | Some y => if (x.2 <? y.2)%nat then Some y else Some x
      | None => Some x
      end
  end.

Definition of_type (ty : string) (signals : list ModelPersonaSignal) : list ModelPersonaSignal :=
  filter (fun s => signal_type s = ty) signals.

Definition tech_signals (signals : list ModelPersonaSignal) : list ModelPersonaSignal :=
  filter (fun s => SFleb _TECH_LEVEL_CONFIDENCE_THRESHOLD (confidence s) = true)
    (of_type "technical_level" signals).

(** [proposed_count >= total_high_conf * 0.6] *)
Definition enough (proposed_count total : Z) : bool :=
  SFleb (float_mul (float_of_Z total) (float_ratio 6 10)) (float_of_Z proposed_count).

Definition _classify_technical_level (signals : list ModelPersonaSignal)
    (existing : option ModelUserPersonaV1) : EnumTechnicalLevel :=
  let tech := tech_signals signals in
  match most_common (frequencies (inferred_value <$> tech)) with
  | None => match existing with Some p => technical_level p | None => INTERMEDIATE end
  | Some (proposed_level_str, proposed_count) =>
      let proposed_level := level_of proposed_level_str in
      match existing with
      | None => proposed_level
      | Some p =>
          if session_count p <? _TECH_LEVEL_MIN_SESSIONS then proposed_level
          else if bool_decide (proposed_level <> technical_level p) then
            if enough (Z.of_nat proposed_count) (Z.of_nat (length tech))
            then proposed_level else technical_level p
          else proposed_level
      end
  end.

Definition ema (current new_value : spec_float) : spec_float :=
  float_add (float_mul _VOCAB_EMA_ALPHA new_value) (float_mul (float_sub one _VOCAB_EMA_ALPHA) current).

Definition drift (current : spec_float) (s : ModelPersonaSignal) : spec_float :=
  match parse_float (inferred_value s) with
  | Some v => ema current (clamp10 v)
  | None => current
  end.

Definition _classify_vocabulary (signals : list ModelPersonaSignal)
    (existing : option ModelUserPersonaV1) : spec_float :=
  let current := match existing with Some p => vocabulary_complexity p | None => Floats.half end in
  match of_type "vocabulary" signals with
  | [] => current
  | vocab => round3 (fold_left drift vocab current)
  end.

Definition _classify_tone (signals : list ModelPersonaSignal) : EnumPreferredTone :=
  let recent := take _TONE_WINDOW_SIZE (sort_desc emitted_at (of_type "preferred_tone" signals)) in
  match most_common (frequencies (inferred_value <$> recent)) with
  | None => EXPLANATORY
  | Some (tone_str, _) => tone_of tone_str
  end.

(** [min(current + 0.1, 1.0)] *)
Definition more_familiar (domains : gmap text spec_float) (s : ModelPersonaSignal)
    : gmap text spec_float :=
  let f := float_add (default zero (domains !! inferred_value s)) _DOMAIN_INCREMENT in
  <[inferred_value s := if SFltb _DOMAIN_CAP f then _DOMAIN_CAP else f]> domains.

Definition _classify_domains (signals : list ModelPersonaSignal)
    (existing : option ModelUserPersonaV1) : gmap text spec_float :=
  fold_left more_familiar (of_type "domain_familiarity" signals)
    (match existing with Some p => domain_familiarity p | None => ∅ end).

(** [classify_persona]; [None] is the [ValidationError] of the constructor. *)
Definition classify_persona (user : text) (signals : list ModelPersonaSignal)
    (existing : option ModelUserPersonaV1) (now : micros) : option ModelPersonaClassifyResult :=
  match signals with
  | [] =>
      Some match existing with
           | Some p => ClassifyResult success (Some p) 0
           | None => ClassifyResult insufficient_data None 0
           end
  | _ =>
      let n := Z.of_nat (length signals) in
      let p := Persona user (p ← existing; agent_id p)
        (_classify_technical_level signals existing) (_classify_vocabulary signals existing)
        (_classify_tone signals) (_classify_domains signals existing)
        (match existing with Some p => session_count p | None => 0 end + 1)
        (match existing with Some p => persona_version p | None => 0 end + 1) now n in
      if persona_valid p then Some (ClassifyResult success (Some p) n) else None
  end.

(** ** Proofs: votes *)

Lemma most_common_spec votes :
  match most_common votes with
  | None => votes = []
  | Some x => x ∈ votes /\ forall y, y ∈ votes -> (y.2 <= x.2)%nat
  end.
Proof.
  induction votes as [|x votes IH]; simpl; [done|].
  destruct (most_common votes) as [y|]; [destruct IH as [Hy IH]|subst votes].
  - destruct (x.2 <? y.2)%nat eqn:E; [apply Nat.ltb_lt in E|apply Nat.ltb_ge in E].
    + split; [by right|]. intros z [->|Hz]%elem_of_cons; [lia|auto].
    + split; [left|]. intros z [->|Hz]%elem_of_cons; [lia|]. specialize (IH z Hz). lia.
  - split; [left|]. intros z [->|[]%not_elem_of_nil]%elem_of_cons. lia.
Qed.

(** The winner of a vote is the most frequent value. *)
Lemma winner ws :
  match most_common (frequencies ws) with
  | None => ws = []
  | Some (v, n) => n = occurrences v ws /\ v ∈ ws /\
                   forall u, (occurrences u ws <= occurrences v ws)%nat
  end.
Proof.
  pose proof (most_common_spec (frequencies ws)) as H.
  destruct (frequencies_counts ws) as [_ Hc].
  assert (Hpos : forall u, u ∈ ws <-> (0 < occurrences u ws)%nat).
  { intros u. unfold occurrences. split.
    - intros Hu. assert (Hf : u ∈ filter (fun v => v = u) ws) by by apply list_elem_of_filter.
      destruct (filter _ ws); [by apply not_elem_of_nil in Hf|simpl; lia].
    - destruct (filter (fun v => v = u) ws) as [|v f] eqn:E; [simpl; lia|]. intros _.
      assert (Hv : v ∈ filter (fun v => v = u) ws) by (rewrite E; left).
      apply list_elem_of_filter in Hv as [-> Hv]. done. }
  destruct (most_common (frequencies ws)) as [[v n]|].
  - destruct H as [Hv Hmax]. apply Hc in Hv as [-> Hv]. split_and!; [done|by apply Hpos|].
    intros u. destruct (occurrences u ws) as [|k] eqn:E; [lia|].
    specialize (Hmax (u, S k)). simpl in Hmax. apply Hmax, Hc. rewrite E. split; [done|lia].
  - destruct ws as [|w ws]; [done|]. exfalso.
    assert (Hw : (w, occurrences w (w :: ws)) ∈ frequencies (w :: ws)).
    { apply Hc. split; [done|]. apply Hpos. left. }
    rewrite H in Hw. by apply not_elem_of_nil in Hw.
Qed.

(** For batches of up to 300 signals the test on doubles is the exact one: the
    two are compared where they change. *)
Definition threshold (t : nat) : nat := Z.to_nat ((3 * Z.of_nat t + 4) / 5).

Lemma thresholds_checked :
  forallb (fun t => enough (Z.of_nat (threshold t)) (Z.of_nat t) &&
    ((threshold t =? 0)%nat || negb (enough (Z.of_nat (threshold t) - 1) (Z.of_nat t))))
    (seq 0 301) = true.
Proof. by vm_compute. Qed.

Lemma small_ints_ordered :
  forallb (fun c => SFleb (float_of_Z (Z.of_nat c)) (float_of_Z (Z.of_nat c + 1))) (seq 0 301) = true.
Proof. by vm_compute. Qed.

Lemma enough_mono (c c' : nat) (t : Z) : (c <= c' <= 300)%nat ->
  enough (Z.of_nat c) t = true -> enough (Z.of_nat c') t = true.
Proof.
  intros [Hc Hc'] He. induction Hc as [|c' Hc IH]; [done|]. unfold enough in *.
  eapply SFleb_trans; [apply IH; lia|]. pose proof small_ints_ordered as H. rewrite forallb_forall in H.
  specialize (H c' ltac:(apply in_seq; lia)). by rewrite Nat2Z.inj_succ.
Qed.

Lemma enough_exact (c t : nat) : (c <= t <= 300)%nat ->
  enough (Z.of_nat c) (Z.of_nat t) = (3 * Z.of_nat t <=? 5 * Z.of_nat c).
Proof.
  intros Hct. pose proof thresholds_checked as H. rewrite forallb_forall in H.
  specialize (H t ltac:(apply in_seq; lia)). apply andb_true_iff in H as [H1 H2].
  assert (Ht : 5 * Z.of_nat (threshold t) <= 3 * Z.of_nat t + 4 < 5 * Z.of_nat (threshold t) + 5).
  { unfold threshold. rewrite Z2Nat.id by (apply Z.div_pos; lia).
    pose proof (Z.div_mod (3 * Z.of_nat t + 4) 5 ltac:(lia)).
    pose proof (Z.mod_pos_bound (3 * Z.of_nat t + 4) 5 ltac:(lia)). lia. }
  destruct (Z.leb_spec (3 * Z.of_nat t) (5 * Z.of_nat c)) as [Hle|Hlt].
  - apply (enough_mono (threshold t) c); [|done]. lia.
  - destruct (enough (Z.of_nat c) (Z.of_nat t)) eqn:E; [|done].
    apply orb_true_iff in H2 as [H2|H2]; [apply Nat.eqb_eq in H2; lia|].
    replace (Z.of_nat (threshold t) - 1) with (Z.of_nat (threshold t - 1)) in H2 by lia.
    rewrite (enough_mono c (threshold t - 1)) in H2; [done|lia|done].
Qed.

Lemma occurrences_le v ws : (occurrences v ws <= length ws)%nat.
Proof. apply length_filter. Qed.

(** The technical level stays as it is without a signal of
    sufficient confidence (INTERMEDIATE without a profile). After three
    sessions it changes only to the level that most signals propose, and only
    if at least six in ten propose the same value. Before that it becomes
    whatever most signals propose, be it a single one, although the rules ask
    for three sessions before a change. *)
Theorem technical_level_rules (signals : list ModelPersonaSignal)
    (existing : option ModelUserPersonaV1) :
  let values := inferred_value <$> tech_signals signals in
  let level := _classify_technical_level signals existing in
  (length values <= 300)%nat ->
  (values = [] -> level = match existing with Some p => technical_level p | None => INTERMEDIATE end) /\
  (values <> [] -> exists v, v ∈ values /\
     (forall u, (occurrences u values <= occurrences v values)%nat) /\
     match existing with
     | Some p =>
         (session_count p < 3 -> level = level_of v) /\
         (3 <= session_count p ->
            level = if 3 * Z.of_nat (length values) <=? 5 * Z.of_nat (occurrences v values)
                    then level_of v else technical_level p)
     | None => level = level_of v
     end).
Proof.
  intros values level Hlen. unfold level, _classify_technical_level. fold values.
  assert (El : length (tech_signals signals) = length values) by (unfold values; by rewrite length_fmap).
  pose proof (winner values) as Hw. destruct (most_common (frequencies values)) as [[v n]|].
  - destruct Hw as (-> & Hv & Hmax). split; [intros E; rewrite E in Hv; by apply not_elem_of_nil in Hv|].
    intros _. exists v. split_and!; [done..|]. destruct existing as [p|]; [|done].
    unfold _TECH_LEVEL_MIN_SESSIONS. rewrite El, enough_exact by (pose proof (occurrences_le v values); lia).
    split; intros Hs; [by rewrite Zltb_T|]. rewrite Zltb_F by done.
    case_bool_decide as Hd; [done|]. rewrite Hd. by case_match.
  - split; [done|]. done.
Qed.

(** The tone is that of a value most frequent among the ten latest tone
    signals of the batch; without any, it is EXPLANATORY, whatever the profile
    had learned before. *)
Theorem tone_rules (signals : list ModelPersonaSignal) (existing : option ModelUserPersonaV1)
    (user : text) (now : micros) (r : ModelPersonaClassifyResult) (p : ModelUserPersonaV1) :
  classify_persona user signals existing now = Some r -> persona r = Some p -> signals <> [] ->
  exists recent rest, recent ++ rest ≡ₚ of_type "preferred_tone" signals /\
    length recent = Nat.min 10 (length (of_type "preferred_tone" signals)) /\
    (forall s s', s ∈ recent -> s' ∈ rest -> emitted_at s' <= emitted_at s) /\
    (recent = [] -> preferred_tone p = EXPLANATORY) /\
    (recent <> [] -> exists v, preferred_tone p = tone_of v /\ v ∈ inferred_value <$> recent /\
       forall u, (occurrences u (inferred_value <$> recent) <=
                  occurrences v (inferred_value <$> recent))%nat).
Proof.
  intros Hr Hp Hne.
  assert (Ht : preferred_tone p = _classify_tone signals).
  { unfold classify_persona in Hr. destruct signals; [done|]. case_match; [|done].
    injection Hr as <-. injection Hp as <-. done. }
  rewrite Ht. set (l := sort_desc emitted_at (of_type "preferred_tone" signals)).
  destruct (sort_desc_spec emitted_at (of_type "preferred_tone" signals)) as [Hperm Hs]. fold l in Hperm, Hs.
  exists (take 10 l), (drop 10 l). rewrite <- (take_drop 10 l) in Hs.
  apply StronglySorted_app in Hs as (Hcross & _ & _). split_and!.
  - by rewrite take_drop.
  - by rewrite length_take, Hperm.
  - intros s s' Hin Hin'. by apply (Hcross s s').
  - intros E. unfold _classify_tone, _TONE_WINDOW_SIZE. fold l. by rewrite E.
  - intros E. unfold _classify_tone, _TONE_WINDOW_SIZE. fold l.
    pose proof (winner (inferred_value <$> take 10 l)) as Hw.
    destruct (most_common _) as [[v n]|].
    + exists v. destruct Hw as (_ & ? & ?). by split_and!.
    + by apply fmap_nil_inv in Hw.
Qed.

(** ** Proofs: ranges *)

Lemma float_of_Z_sized z : sized (float_of_Z z).
Proof.
  unfold float_of_Z, binary_normalize, binary_round. destruct z as [|p|p]; [done|..];
    destruct (shl_align _ _ _); by apply binary_round_aux_sized.
Qed.

Lemma number_sized s f : number s = Some f -> sized f.
Proof.
  unfold number. destruct (digits 0 0 s) as [[v n] rest].
  destruct (match rest with [] => _ | _ => _ end) as [[[v' k] n'] rest'].
  destruct (n' =? 0)%nat; [done|]. destruct (exponent_part rest') as [e|]; [|done]. simpl.
  intros [= <-]. destruct v' as [|m|m]; [done| |done]. unfold decimal.
  destruct (e - k); [apply float_of_Z_sized|apply float_of_Z_sized|apply float_div_sized].
Qed.

Lemma parse_float_sized s f : parse_float s = Some f -> sized f.
Proof.
  unfold parse_float. destruct (signed _) as [negative l].
  destruct (if _ || _ then _ else _) as [g|] eqn:E; [|done]. simpl. intros [= <-].
  assert (Hg : sized g).
  { destruct (_ || _); [by injection E as <-|]. destruct (bool_decide _); [by injection E as <-|].
    by eapply number_sized. }
  destruct negative; [by destruct g|done].
Qed.

(** A little more than 1, which the average never exceeds and which rounds
    to 1.0 at three places. *)
Definition average_bound : spec_float -> Prop := below (4097 * 2 ^ 40) (-52).

Lemma ema_bound current new_value :
  average_bound current -> at_most 0 new_value -> average_bound (ema current new_value).
Proof.
  intros Hc Hn. unfold ema, average_bound in *.
  assert (H1 : below 7205759403792794 (-55) (float_mul _VOCAB_EMA_ALPHA new_value)).
  { eapply (float_mul_below 7205759403792794 (-55)); [|exact Hn|lia| |lia|unfold exponent; lia].
    - by (clear; vm_compute).
    - by (clear; vm_compute). }
  assert (H2 : below 7207518622397480 (-53) (float_mul (float_sub one _VOCAB_EMA_ALPHA) current)).
  { eapply (float_mul_below 7205759403792794 (-53)); [|exact Hc|lia| |lia|unfold exponent; lia].
    - by (clear; vm_compute).
    - by (clear; vm_compute). }
  eapply float_add_below; [exact H1|exact H2|lia|lia|lia|lia| |lia|unfold exponent; lia].
  by (clear; vm_compute).
Qed.

Lemma drift_bound vocab : forall current, average_bound current ->
  average_bound (fold_left drift vocab current).
Proof.
  induction vocab as [|s vocab IH]; intros current Hc; simpl; [done|]. apply IH. unfold drift.
  destruct (parse_float _) as [v|] eqn:E; [|done]. apply ema_bound; [done|].
  apply clamp10_at_most. by eapply parse_float_sized.
Qed.

Lemma round3_bound x : average_bound x -> at_most 0 (round3 x).
Proof.
  unfold average_bound, round3. destruct x as [s| | |s m e]; simpl; try done.
  intros (-> & Hm & _ & He). assert (Ht : thousandths m e <= 1000).
  { unfold thousandths. rewrite (Zleb_F 0 e) by lia.
    set (d := 2 ^ (- e)). set (k := 2 ^ (-52 - e)) in *.
    assert (Ed : d = 2 ^ 52 * k) by (unfold d, k; rewrite <- Z.pow_add_r by lia; f_equal; lia).
    assert (Hk : 0 < k) by (unfold k; apply Z.pow_pos_nonneg; lia).
    pose proof (Z.div_mod (1000 * Z.pos m) d ltac:(lia)) as Hdm.
    pose proof (Z.mod_pos_bound (1000 * Z.pos m) d ltac:(lia)).
    assert (Hq : 1000 * Z.pos m / d < 1001) by (apply Z.div_lt_upper_bound; lia).
    destruct (decide (1000 * Z.pos m / d = 1000)) as [E|]; [|case_match; lia].
    rewrite E in *. rewrite Zltb_T by lia. simpl. lia. }
  destruct (thousandths m e) as [|p|p]; try done. by apply ratio_at_most.
Qed.

(** A double between 0 and 1. *)
Definition double01 (x : spec_float) : Prop := sized x /\ unit_float x = true.

Lemma double01_spec x : double01 x <-> at_most 0 x.
Proof.
  split; [intros [? ?]; by apply between_at_most|].
  intros H. split; [by eapply below_sized|by apply at_most_unit].
Qed.

Lemma vocabulary_bound signals existing :
  (forall p, existing = Some p -> double01 (vocabulary_complexity p)) ->
  at_most 0 (_classify_vocabulary signals existing).
Proof.
  intros He. unfold _classify_vocabulary.
  assert (Hc : at_most 0 (match existing with Some p => vocabulary_complexity p | None => Floats.half end)).
  { destruct existing as [p|]; [apply double01_spec; by apply He|by vm_compute]. }
  destruct (of_type "vocabulary" signals) as [|s l]; [done|].
  apply round3_bound, drift_bound. eapply below_mono; [exact Hc|lia|by vm_compute].
Qed.

Lemma capped_bound f : at_most 1 f -> SFltb one f = false -> at_most 0 f.
Proof.
  intros Hf Hle. destruct f as [s| | |s m e]; [done|done|done|]. destruct Hf as (-> & Hm & Hs & He).
  apply between_at_most; [done|]. revert Hle. unfold unit_float, SFltb, SFleb, SFcompare.
  replace one with (S754_finite false 4503599627370496 (-52)) by by vm_compute. cbn [zero andb].
  clear Hm. generalize 4503599627370496%positive as k. intros k.
  rewrite (Z.compare_antisym e (-52)), (SF_compare_pos k m), (SF_compare_pos m k).
  rewrite (Pos.compare_antisym m k).
  destruct (e ?= -52); simpl; try done. by destruct (Pos.compare m k).
Qed.

Lemma more_familiar_bound domains s :
  (forall d f, domains !! d = Some f -> at_most 0 f) ->
  forall d f, more_familiar domains s !! d = Some f -> at_most 0 f.
Proof.
  intros Hd d f. unfold more_familiar. rewrite lookup_insert. case_decide; [|apply Hd].
  intros [= <-]. destruct (SFltb _DOMAIN_CAP _) eqn:E; [by vm_compute|].
  apply capped_bound; [|done]. apply (float_add_at_most 0); [| |lia].
  - destruct (domains !! inferred_value s) as [g|] eqn:Eg; [by eapply Hd|done].
  - eapply (below_mono 7205759403792794 (-56)); [by vm_compute|lia|by vm_compute].
Qed.

(** C28: from a valid profile, or none, and any signals, the new profile
    is valid, so that the classification never fails: its vocabulary is a
    double between 0 and 1 whatever numbers the signals hold, NaN and
    infinities among them, and rounding errors of the average included; every
    domain's familiarity stays between 0 and 1; and the session count and the
    version grow by one. *)
Theorem classify_valid (user : text) (signals : list ModelPersonaSignal)
    (existing : option ModelUserPersonaV1) (now : micros) :
  (forall p, existing = Some p -> persona_valid p = true /\ sized (vocabulary_complexity p) /\
     forall d f, domain_familiarity p !! d = Some f -> double01 f) ->
  signals <> [] ->
  exists p, classify_persona user signals existing now =
      Some (ClassifyResult success (Some p) (Z.of_nat (length signals))) /\
    persona_valid p = true /\ double01 (vocabulary_complexity p) /\
    (forall d f, domain_familiarity p !! d = Some f -> double01 f) /\
    session_count p = (match existing with Some q => session_count q | None => 0 end) + 1 /\
    persona_version p = (match existing with Some q => persona_version q | None => 0 end) + 1.
Proof.
  intros Hex Hne. unfold classify_persona. destruct signals as [|s0 l0]; [done|].
  set (signals := s0 :: l0) in *.
  assert (Hv : at_most 0 (_classify_vocabulary signals existing)).
  { apply vocabulary_bound. intros p Hp. destruct (Hex p Hp) as (Hpv & Hs & _). split; [done|].
    unfold persona_valid in Hpv. by breflect. }
  assert (Hd : forall d f, _classify_domains signals existing !! d = Some f -> at_most 0 f).
  { unfold _classify_domains.
    assert (H0 : forall d f, (match existing with Some p => domain_familiarity p | None => ∅ end)
      !! d = Some f -> at_most 0 f).
    { destruct existing as [p|]; [|intros d f; by rewrite lookup_empty].
      intros d f Hf. apply double01_spec. by apply (Hex p eq_refl) in Hf. }
    revert H0. generalize (match existing with Some p => domain_familiarity p | None => ∅ end).
    induction (of_type "domain_familiarity" signals) as [|s l IH]; intros m H0; [done|].
    apply IH. by apply more_familiar_bound. }
  assert (Hn : 0 <= match existing with Some p => session_count p | None => 0 end /\
               0 <= match existing with Some p => persona_version p | None => 0 end).
  { destruct existing as [p|]; [|lia]. destruct (Hex p eq_refl) as (Hpv & _).
    unfold persona_valid in Hpv. breflect. lia. }
  match goal with |- context [persona_valid ?p] => assert (Hpv : persona_valid p = true) end.
  { unfold persona_valid. cbn. rewrite at_most_unit by done. rewrite !Zleb_T by lia. done. }
  rewrite Hpv. eexists. split; [done|]. split_and!; [done|by apply double01_spec| |done|done].
  intros d f Hf. by apply double01_spec, (Hd d).
Qed.

(** ** [AdapterPostgresPersona] *)

Module Storage.
(** A row of [user_persona_snapshots]; its key is the user and the version. *)
Record row : Type := Row {
  r_agent_id : option text;
  r_technical_level : text;
  r_vocabulary_complexity : spec_float;
  r_preferred_tone : text;
  r_domain_familiarity : text;
  r_session_count : Z;
  r_rebuilt_from_signals : Z;
  r_created_at : micros;
}.

Definition table : Type := gmap (text * Z) row.

Section storage.
(** [json.dumps] and [json.loads] of the familiarities, the error of the
    driver on a duplicate key, and the attribute [sqlstate] of exceptions. *)
Context (dumps : gmap text spec_float -> text) (loads : text -> option (gmap text spec_float))
        (unique_violation : exn) (sqlstate : exn -> option string).

Definition row_of (p : ModelUserPersonaV1) : row :=
  Row (agent_id p) (of_string (EnumTechnicalLevel_value (technical_level p)))
    (vocabulary_complexity p) (of_string (EnumPreferredTone_value (preferred_tone p)))
    (dumps (domain_familiarity p)) (session_count p) (rebuilt_from_signals p) (created_at p).

Definition INSERT (p : ModelUserPersonaV1) (t : table) : res unit * table :=
  match t !! (user_id p, persona_version p) with
  | Some _ => (Raise unique_violation, t)
  | None => (Ok tt, <[(user_id p, persona_version p) := row_of p]> t)
  end.

(** [store] *)
Definition store_persona (p : ModelUserPersonaV1) : M (calls table) bool :=
  try_except (do! call (INSERT p); ret true)
    (fun e => if bool_decide (sqlstate e = Some "23505") then Some (ret false) else None).

(** [WHERE user_id = $1 ORDER BY persona_version DESC LIMIT 1] *)
Definition latest (user : text) (t : table) : option (Z * row) :=
  head (sort_desc fst (omap (fun x => if bool_decide (x.1.1 = user) then Some (x.1.2, x.2) else None)
                         (map_to_list t))).

(** The enum of a value; [None] is [ValueError]. *)
Definition level_of_value (v : text) : option EnumTechnicalLevel :=
  head (filter (fun l => of_string (EnumTechnicalLevel_value l) = v)
    [BEGINNER; INTERMEDIATE; ADVANCED; EXPERT]).
Definition tone_of_value (v : text) : option EnumPreferredTone :=
  head (filter (fun t => of_string (EnumPreferredTone_value t) = v)
    [EXPLANATORY; CONCISE; FORMAL; CASUAL]).

(** The persona of a row; [None] when a value is not one of its enum, the text
    is not JSON or the model rejects the result. An empty agent becomes none. *)
Definition persona_of (user : text) (version : Z) (r : row) : option ModelUserPersonaV1 :=
  d ← loads (r_domain_familiarity r);
  l ← level_of_value (r_technical_level r);
  t ← tone_of_value (r_preferred_tone r);
  let p := Persona user (match r_agent_id r with Some (c :: a) => Some (c :: a) | _ => None end)
    l (r_vocabulary_complexity r) t d (r_session_count r) version (r_created_at r)
    (r_rebuilt_from_signals r) in
  if persona_valid p then Some p else None.

Definition get_latest (user : text) : M (calls table) (option ModelUserPersonaV1) :=
  let! r := call (fun t => (Ok (latest user t), t)) in
  match r with
  | None => ret None
  | Some (version, r) =>
      match persona_of user version r with
      | Some p => ret (Some p)
      | None => raise (ValueError "invalid row")
      end
  end.

(** [SELECT DISTINCT user_id ... ORDER BY user_id LIMIT 100]; [le] is the
    order of the column. *)
Context (le : text -> text -> Prop) `{!RelDecision le}.

Definition outdated (since : option micros) (t : table) : list text :=
  let users : list text :=
    omap (fun x : (text * Z) * row =>
            match since with
            | Some since => if r_created_at x.2 <? since then Some x.1.1 else None
            | None => Some x.1.1
            end) (map_to_list t) in
  merge_sort le (elements (list_to_set (C := gset text) users)).

Definition get_users_needing_rebuild (since : option micros) : M (calls table) (list text) :=
  call (fun t => (Ok (take 100 (outdated since t)), t)).

(** ** Proofs *)

(** Snapshots are never changed or removed: whatever fails and
    whatever others insert meanwhile, every row there is before [store] is there
    after it; it answers True only after writing the row itself, and False only
    when there was one already. *)
Theorem store_append_only (p : ModelUserPersonaV1) (t : table) (w : calls table) :
  sqlstate unique_violation = Some "23505" ->
  (forall x applied, ends (env w (made w)) = Fails x applied -> sqlstate x <> Some "23505") ->
  keeps (fun t' => t ⊆ t') w ->
  wp (store_persona p) (fun r w' => t ⊆ store w' /\
    match r with
    | Ok true => found w !! (user_id p, persona_version p) = None /\
                 store w' !! (user_id p, persona_version p) = Some (row_of p)
    | Ok false => is_Some (found w !! (user_id p, persona_version p)) /\ store w' = found w
    | Raise e => exists applied, ends (env w (made w)) = Fails e applied
    end) w.
Proof.
  intros Hu Hf Hw. pose proof (keeps_found _ w Hw) as Ht. unfold store_persona. wp_step.
  assert (Hins : t ⊆ (INSERT p (found w)).2).
  { unfold INSERT. destruct (found w !! _) eqn:E; [done|]. etrans; [exact Ht|]. by apply insert_subseteq. }
  apply wp_store_call; [intros _|intros x applied E].
  - unfold INSERT in *. destruct (found w !! _) eqn:E; cbn [fst snd]; wp_step.
    + rewrite Hu, bool_decide_true by done. wp_step. by split_and!.
    + split_and!; [done|done|apply lookup_insert_eq].
  - rewrite bool_decide_false by by eapply Hf. split; [by destruct applied|by exists applied].
Qed.

Lemma latest_spec user (t : table) :
  match latest user t with
  | None => forall v, t !! (user, v) = None
  | Some (v, r) => t !! (user, v) = Some r /\ forall v', is_Some (t !! (user, v')) -> v' <= v
  end.
Proof.
  unfold latest. set (l := omap _ _).
  assert (Hl : forall v r, (v, r) ∈ l <-> t !! (user, v) = Some r).
  { intros v r. unfold l. rewrite list_elem_of_omap. split.
    - intros ([[u v'] r'] & Hin & Hx). simpl in Hx. case_bool_decide; [|done]. simplify_eq.
      by apply elem_of_map_to_list in Hin.
    - intros Hv. exists ((user, v), r). split; [by apply elem_of_map_to_list|]. simpl.
      by rewrite bool_decide_true. }
  destruct (sort_desc_spec fst l) as [Hp Hs]. destruct (sort_desc fst l) as [|[v r] s]; simpl.
  - intros v. destruct (t !! (user, v)) as [r|] eqn:E; [|done]. apply Hl in E. rewrite <- Hp in E.
    by apply not_elem_of_nil in E.
  - split; [apply Hl; rewrite <- Hp; left|]. intros v' [r' Hr']. apply Hl in Hr'.
    rewrite <- Hp in Hr'. apply elem_of_cons in Hr' as [[= -> ->]|Hr']; [lia|].
    apply StronglySorted_inv in Hs as [_ Hf]. rewrite Forall_forall in Hf. by apply (Hf (v', r')).
Qed.

Lemma persona_of_row p :
  loads (dumps (domain_familiarity p)) = Some (domain_familiarity p) ->
  persona_valid p = true -> agent_id p <> Some [] ->
  persona_of (user_id p) (persona_version p) (row_of p) = Some p.
Proof.
  destruct p as [u a l v t d s n c b]. cbn [domain_familiarity agent_id user_id persona_version].
  intros Hd Hv Ha. unfold persona_of, row_of.
  cbn [r_domain_familiarity r_technical_level r_preferred_tone r_agent_id r_vocabulary_complexity
       r_session_count r_created_at r_rebuilt_from_signals domain_familiarity technical_level
       preferred_tone agent_id vocabulary_complexity session_count created_at rebuilt_from_signals].
  rewrite Hd.
  assert (level_of_value (of_string (EnumTechnicalLevel_value l)) = Some l) as -> by by destruct l.
  assert (tone_of_value (of_string (EnumPreferredTone_value t)) = Some t) as -> by by destruct t.
  destruct a as [[|c0 a]|]; [done|..]; cbn; unfold text in *; by rewrite Hv.
Qed.

(** C29: without failures, a snapshot with a version newer than those
    of its user is what [get_latest] reads back, field by field, and storing it
    again is answered False and changes nothing. *)
Theorem store_get_latest (p : ModelUserPersonaV1) (w : calls table) :
  loads (dumps (domain_familiarity p)) = Some (domain_familiarity p) ->
  sqlstate unique_violation = Some "23505" -> quiet w ->
  persona_valid p = true -> agent_id p <> Some [] ->
  (forall v, is_Some (store w !! (user_id p, v)) -> v < persona_version p) ->
  let (r1, w1) := store_persona p w in
  let (r2, w2) := get_latest (user_id p) w1 in
  let (r3, w3) := store_persona p w2 in
  r1 = Ok true /\ r2 = Ok (Some p) /\ r3 = Ok false /\ store w3 = store w1.
Proof.
  intros Hd Hu Hq Hv Ha Hnew.
  assert (Hn : store w !! (user_id p, persona_version p) = None).
  { destruct (store w !! _) eqn:E; [|done]. specialize (Hnew _ (mk_is_Some _ _ E)). lia. }
  set (w1 := after w (<[(user_id p, persona_version p) := row_of p]> (store w))).
  assert (H1 : wp (store_persona p) (fun r w' => r = Ok true /\ w' = w1) w).
  { unfold store_persona. wp_step. apply quiet_store_call; [done|]. unfold INSERT. rewrite Hn. by wp_step. }
  unfold wp in H1. destruct (store_persona p w) as [r1 w1'] eqn:E1. simpl in H1. destruct H1 as [-> ->].
  assert (H2 : wp (get_latest (user_id p)) (fun r w' => r = Ok (Some p) /\ w' = after w1 (store w1)) w1).
  { unfold get_latest. wp_step. apply quiet_store_call; [done|]. cbn [fst snd].
    pose proof (latest_spec (user_id p) (store w1)) as Hl.
    assert (Hw1 : store w1 = <[(user_id p, persona_version p) := row_of p]> (store w)) by done.
    destruct (latest _ _) as [[v r]|]; rewrite Hw1 in Hl.
    - destruct Hl as [Hr Hmax]. specialize (Hmax (persona_version p)).
      assert (persona_version p <= v) by (apply Hmax; eexists; apply lookup_insert_eq).
      apply lookup_insert_Some in Hr as [[Hk <-]|[_ Hr]].
      + injection Hk as <-. rewrite persona_of_row by done. by wp_step.
      + specialize (Hnew v (mk_is_Some _ _ Hr)). lia.
    - specialize (Hl (persona_version p)). by pose proof (eq_trans (eq_sym Hl) (lookup_insert_eq _ _ _)). }
  unfold wp in H2. destruct (get_latest (user_id p) w1) as [r2 w2'] eqn:E2. simpl in H2.
  destruct H2 as [-> ->].
  assert (H3 : wp (store_persona p) (fun r w' => r = Ok false /\ store w' = store w1)
    (after w1 (store w1))).
  { unfold store_persona. wp_step. apply quiet_store_call; [done|]. unfold INSERT.
    assert (store (after w1 (store w1)) !! (user_id p, persona_version p) = Some (row_of p)) as -> by apply lookup_insert_eq.
    cbn [fst snd]. wp_step. rewrite Hu, bool_decide_true by done. by wp_step. }
  unfold wp in H3. rewrite (surjective_pairing (store_persona p _)).
  split; [done|]. split; [done|exact H3].
Qed.

(** As rows stay and keep their dates, a user who is outdated
    once stays outdated however often a new snapshot is stored, for every later
    date as well: the users a rebuild asks for are never fewer, and those after
    the first hundred are never reached. *)
Theorem outdated_forever (since since' : micros) (t t' : table) (user : text) :
  t ⊆ t' -> since <= since' -> user ∈ outdated (Some since) t -> user ∈ outdated (Some since') t'.
Proof.
  intros Ht Hs. unfold outdated. rewrite !merge_sort_Permutation, !elem_of_elements, !elem_of_list_to_set,
    !list_elem_of_omap. intros ([[u v] r] & Hin & Hx). exists ((u, v), r). simpl in *.
  apply elem_of_map_to_list in Hin. split.
  - apply elem_of_map_to_list. by eapply lookup_weaken.
  - destruct (r_created_at r <? since) eqn:E; [|done]. breflect. by rewrite Zltb_T by lia.
Qed.
End storage.
End Storage.

(** ** Concrete runs *)

Module PersonaDemo.
Import Storage.

Definition signal (ty v : string) (n d : Z) (at_ : micros) : ModelPersonaSignal :=
  Signal (of_string "ada") (of_string "s") ty (of_string v) (float_ratio n d) at_.

Definition level_signal (v : string) : ModelPersonaSignal := signal "technical_level" v 9 10 0.

Definition ada (tone : EnumPreferredTone) (sessions version : Z) : ModelUserPersonaV1 :=
  Persona (of_string "ada") None BEGINNER Floats.half tone {[ of_string "chess" := Floats.half ]}
    sessions version 5 2.

Lemma technical_level_rules_witness :
  exists v, v ∈ inferred_value <$> tech_signals [level_signal "expert"; level_signal "advanced"] /\
    _classify_technical_level [level_signal "expert"; level_signal "advanced"] (Some (ada CASUAL 7 1)) =
      BEGINNER.
Proof.
  pose proof (technical_level_rules [level_signal "expert"; level_signal "advanced"]
    (Some (ada CASUAL 7 1)) ltac:(vm_compute; lia)) as [_ H].
  destruct (H ltac:(by vm_compute)) as (v & Hv & _). exists v. split; [exact Hv|by vm_compute].
Defined.

Definition tones : list ModelPersonaSignal :=
  [signal "preferred_tone" "casual" 1 2 1; signal "preferred_tone" "formal" 1 2 3;
   signal "preferred_tone" "formal" 1 2 2].

Definition classified (signals : list ModelPersonaSignal) : ModelPersonaClassifyResult :=
  default (ClassifyResult insufficient_data None 0)
    (classify_persona (of_string "ada") signals (Some (ada CASUAL 7 1)) 9).
Definition classified_persona (signals : list ModelPersonaSignal) : ModelUserPersonaV1 :=
  default (ada CASUAL 7 1) (persona (classified signals)).

Lemma tone_rules_witness :
  exists recent rest, recent ++ rest ≡ₚ of_type "preferred_tone" tones /\
    preferred_tone (classified_persona tones) = FORMAL.
Proof.
  destruct (tone_rules tones (Some (ada CASUAL 7 1)) (of_string "ada") 9 (classified tones)
    (classified_persona tones) ltac:(by vm_compute) ltac:(by vm_compute) ltac:(done))
    as (recent & rest & H & _). exists recent, rest. split; [exact H|by vm_compute].
Defined.

Definition vocabulary : list ModelPersonaSignal :=
  [signal "vocabulary" " 1e2 " 1 2 1; signal "vocabulary" "nan" 1 2 2; signal "vocabulary" "x" 1 2 3].

Lemma classify_valid_witness :
  exists p, classify_persona (of_string "ada") vocabulary (Some (ada CASUAL 7 1)) 9 =
      Some (ClassifyResult success (Some p) 3) /\ persona_valid p = true /\
    double01 (vocabulary_complexity p).
Proof.
  destruct (classify_valid (of_string "ada") vocabulary (Some (ada CASUAL 7 1)) 9) as (p & H & Hv & Hd & _).
  - intros p [= <-]. split; [by vm_compute|]. split; [by vm_compute|].
    intros d f Hf. unfold ada in Hf. cbn [domain_familiarity] in Hf.
    apply (lookup_singleton_Some (M := gmap text)) in Hf as [_ <-].
    by split; vm_compute.
  - done.
  - exists p. split; [exact H|]. split; [exact Hv|exact Hd].
Defined.

(** Without a signal of tone in the batch, the tone learned is lost. *)
Example tone_forgotten :
  preferred_tone (classified_persona [level_signal "expert"]) = EXPLANATORY.
Proof. by vm_compute. Qed.

(** The signal type that the model documents for tones is ignored. *)
Example documented_tone_ignored :
  preferred_tone (classified_persona [signal "tone" "formal" 9 10 0]) = EXPLANATORY.
Proof. by vm_compute. Qed.

(** A vocabulary of NaN counts as the highest. *)
Example nan_is_highest : clamp10 (default zero (parse_float (of_string "nan"))) = one.
Proof. by vm_compute. Qed.

(** Two signals of one session add twice what a session is documented to add. *)
Example domain_per_signal :
  domain_familiarity (classified_persona
    [signal "domain_familiarity" "go" 1 1 0; signal "domain_familiarity" "go" 1 1 0])
    !! of_string "go" = Some (float_ratio 2 10).
Proof. by vm_compute. Qed.

(** A single signal changes the level of a profile of two sessions. *)
Example early_shift :
  _classify_technical_level [level_signal "expert"] (Some (ada CASUAL 2 1)) = EXPERT.
Proof. by vm_compute. Qed.

Definition plain (_ : gmap text spec_float) : text := of_string "{}".
Definition parsed (_ : text) : option (gmap text spec_float) := Some {[ of_string "chess" := Floats.half ]}.
Definition duplicate : exn := RuntimeError "duplicate key".
Definition state_of (e : exn) : option string :=
  match e with RuntimeError _ => Some "23505" | _ => None end.

(** A database where somebody else writes version 2 first. *)
Definition start : calls table :=
  Calls (<[(of_string "ada", 1) := row_of plain (ada CASUAL 7 1)]> ∅)
    (fun k => CallEnv (fun t : table => match t !! (of_string "ada", 2) with
                               | Some _ => t
                               | None => <[(of_string "ada", 2) := row_of plain (ada FORMAL 8 2)]> t
                               end) Completes) 0.

Lemma store_append_only_witness :
  store start ⊆ store (store_persona plain duplicate state_of (ada CASUAL 8 2) start).2.
Proof.
  refine (proj1 (store_append_only plain duplicate state_of (ada CASUAL 8 2) (store start) start
    eq_refl _ _)).
  - intros x applied H. discriminate H.
  - split; [done|]. intros k s Hs. cbn. destruct (s !! _) eqn:E; [done|].
    etrans; [exact Hs|]. by apply insert_subseteq.
Defined.

Definition quiet_start : calls table :=
  Calls (<[(of_string "ada", 1) := row_of plain (ada CASUAL 7 1)]> ∅)
    (fun k => CallEnv id Completes) 0.

Lemma store_get_latest_witness :
  let (r1, w1) := store_persona plain duplicate state_of (ada FORMAL 8 2) quiet_start in
  let (r2, w2) := get_latest parsed (of_string "ada") w1 in
  let (r3, w3) := store_persona plain duplicate state_of (ada FORMAL 8 2) w2 in
  r1 = Ok true /\ r2 = Ok (Some (ada FORMAL 8 2)) /\ r3 = Ok false /\ store w3 = store w1.
Proof.
  apply (store_get_latest plain parsed duplicate state_of (ada FORMAL 8 2) quiet_start);
    [done|done|by intros k|by vm_compute|done|].
  intros v [r Hr]. cbn in Hr. apply lookup_insert_Some in Hr as [[Hk _]|[_ Hr]].
  - by injection Hk as <-.
  - discriminate Hr.
Defined.

Definition some_order (a b : text) : Prop := True.
#[local] Instance some_order_dec : RelDecision some_order := fun _ _ => left I.

Lemma outdated_forever_witness :
  of_string "ada" ∈ outdated some_order (Some 7) (store start) /\
  of_string "ada" ∈ outdated some_order (Some 8)
    (store (store_persona plain duplicate state_of (ada CASUAL 8 3) start).2).
Proof.
  assert (H : of_string "ada" ∈ outdated some_order (Some 7) (store start)) by (vm_compute; left).
  split; [exact H|]. eapply (outdated_forever some_order 7 8 (store start)); [|lia|exact H].
  apply map_subseteq_spec. intros k r Hr. cbn in Hr. apply lookup_insert_Some in Hr as [[<- <-]|[_ Hr]].
  - by vm_compute.
  - discriminate Hr.
Defined.
End PersonaDemo.
