(* ===== verification/Similarity.v ===== *)
(** * Similarity of vectors

    Models [HandlerSimilarityCompute] and [NodeSimilarityCompute] of
    src/src/omnimemory/nodes/node_similarity_compute, on IEEE doubles, with
    [math.fsum] as CPython computes it (exact partial sums, rounded once). The
    formatting of a number in an error message and the C library's [pow] are
    arguments. *)

From S2P Require Import Prelude Floats.

(** ** [math.fsum] *)

Definition finite_float (x : spec_float) : bool :=
  match x with S754_zero _ | S754_finite _ _ _ => true | _ => false end.
Definition is_zero (x : spec_float) : bool := match x with S754_zero _ => true | _ => false end.
Definition is_nan (x : spec_float) : bool := match x with S754_nan => true | _ => false end.

(** A summand goes through the partial sums, leaving the rounding errors. *)
Fixpoint through (x : spec_float) (partials : list spec_float) : list spec_float * spec_float :=
  match partials with
  | [] => ([], x)
  | y :: partials =>
      let (x, y) := if SFltb (SFabs x) (SFabs y) then (y, x) else (x, y) in
      let hi := float_add x y in
      let lo := float_sub y (float_sub hi x) in
      let (kept, x) := through hi partials in
      (if is_zero lo then kept else lo :: kept, x)
  end.

Record sums : Type := Sums {
  partials : list spec_float;
  special_sum : spec_float;
  inf_sum : spec_float;
}.

Definition add_summand (s : sums) (x : spec_float) : res sums :=
  let (kept, x') := through x (partials s) in
  if is_zero x' then Ok (Sums kept (special_sum s) (inf_sum s))
  else if finite_float x' then Ok (Sums (kept ++ [x']) (special_sum s) (inf_sum s))
  else if finite_float x then Raise (OverflowError "intermediate overflow in fsum")
  else Ok (Sums [] (float_add (special_sum s) x)
             (if is_nan x then inf_sum s else float_add (inf_sum s) x)).

Fixpoint add_summands (s : sums) (l : list spec_float) : res sums :=
  match l with
  | [] => Ok s
  | x :: l => match add_summand s x with Ok s => add_summands s l | Raise e => Raise e end
  end.

(** The partial sums, largest first, are added until the sum is inexact; a tie
    is then decided by the sign of the next one. *)
Fixpoint collapse (hi : spec_float) (rest : list spec_float) : spec_float :=
  match rest with
  | [] => hi
  | y :: rest =>
      let x := hi in
      let hi := float_add x y in
      let lo := float_sub y (float_sub hi x) in
      if is_zero lo then collapse hi rest
      else
        match rest with
        | p :: _ =>
            if SFltb lo zero && SFltb p zero || SFltb zero lo && SFltb zero p then
              let y := float_mul lo two in
              let x := float_add hi y in
              if SFeqb y (float_sub x hi) then x else hi
            else hi
        | [] => hi
        end
  end.

Definition fsum (l : list spec_float) : res spec_float :=
  match add_summands (Sums [] zero zero) l with
  | Raise e => Raise e
  | Ok s =>
      if negb (is_zero (special_sum s)) then
        if is_nan (inf_sum s) then Raise (ValueError "-inf + inf in fsum") else Ok (special_sum s)
      else
        match rev (partials s) with
        | [] => Ok zero
        | hi :: rest => Ok (collapse hi rest)
        end
  end.

(** [math.sqrt] *)
Definition math_sqrt (x : spec_float) : res spec_float :=
  match x with
  | S754_finite true _ _ | S754_infinity true => Raise (ValueError "math domain error")
  | _ => Ok (SFsqrt 53 1024 x)
  end.

(** [x / y] *)
Definition true_div (x y : spec_float) : res spec_float :=
  if is_zero y then Raise (OtherException "ZeroDivisionError" "float division by zero")
  else Ok (float_div x y).

(** [min(1.0, x)] then [max(-1.0, x)]. *)
Definition minus_one : spec_float := SFopp one.
Definition clamp_unit (x : spec_float) : spec_float :=
  let x := min1 x in if SFltb minus_one x then x else minus_one.

(** ** The handler *)

Record handler : Type := Handler {
  _config : option spec_float;   (** its [epsilon] *)
  _initialized : bool;
}.

Definition default_epsilon : spec_float := float_ratio 1 10000000000.

Definition new : handler := Handler None false.

Definition initialize (config : option spec_float) : M handler unit := fun h =>
  if _initialized h then (Ok tt, h)
  else (Ok tt, Handler (Some (default default_epsilon config)) true).

Definition shutdown : M handler unit := fun _ => (Ok tt, Handler None false).

Definition _ensure_initialized : M handler unit := fun h =>
  if _initialized h then (Ok tt, h)
  else (Raise (RuntimeError ("HandlerSimilarityCompute is not initialized. " +:+
                             "Call initialize() before using the handler.")), h).

Definition config : M handler spec_float :=
  do! _ensure_initialized;
  let! h := get in
  match _config h with
  | None => raise (RuntimeError ("HandlerSimilarityCompute config is None after initialization check. " +:+
                                 "This indicates an internal state inconsistency."))
  | Some c => ret c
  end.

Section measures.
(** [f"{x:.2e}"], and the C library's [pow(x, 2.0)] on the positive doubles. *)
Context (format_2e : spec_float -> string) (pow2 : spec_float -> spec_float).

(** [math.isnan] and [math.isinf] of an element. *)
Definition check_element (name : string) (i : nat) (x : spec_float) : option exn :=
  match x with
  | S754_nan => Some (ValueError (name +:+ " contains NaN at index " +:+ pretty i))
  | S754_infinity s =>
      Some (ValueError (name +:+ " contains " +:+ (if s then "negative" else "positive") +:+
                        " infinity at index " +:+ pretty i))
  | _ => None
  end.

(** The pass through both vectors. *)
Fixpoint scan (check_zero : bool) (i : nat) (a b : list spec_float) (sum_sq_a sum_sq_b : spec_float)
    : res (spec_float * spec_float) :=
  match a, b with
  | x :: a, y :: b =>
      match check_element "vec_a" i x with
      | Some e => Raise e
      | None =>
          match check_element "vec_b" i y with
          | Some e => Raise e
          | None =>
              if check_zero
              then scan check_zero (S i) a b (float_add sum_sq_a (float_mul x x))
                     (float_add sum_sq_b (float_mul y y))
              else scan check_zero (S i) a b sum_sq_a sum_sq_b
          end
      end
  | _, _ => Ok (sum_sq_a, sum_sq_b)
  end.

Definition lift {A} (r : res A) : M handler A := fun h => (r, h).

Definition _validate_vectors (vec_a vec_b : list spec_float) (check_zero_magnitude : bool)
    : M handler (spec_float * spec_float) :=
  let len_a := length vec_a in
  let len_b := length vec_b in
  if (len_a =? 0)%nat then raise (ValueError "vec_a cannot be empty")
  else if (len_b =? 0)%nat then raise (ValueError "vec_b cannot be empty")
  else if negb (len_a =? len_b)%nat then
    raise (ValueError ("Dimension mismatch: vec_a has " +:+ pretty len_a +:+
                       " dimensions, vec_b has " +:+ pretty len_b +:+ " dimensions"))
  else
    let! s := lift (scan check_zero_magnitude 0 vec_a vec_b zero zero) in
    let (sum_sq_a, sum_sq_b) := s : spec_float * spec_float in
    if check_zero_magnitude then
      let! mag_a := lift (math_sqrt sum_sq_a) in
      let! mag_b := lift (math_sqrt sum_sq_b) in
      let! epsilon := config in
      if SFltb mag_a epsilon then
        raise (ValueError ("vec_a has zero magnitude (sum of squares: " +:+ format_2e sum_sq_a +:+ ")"))
      else if SFltb mag_b epsilon then
        raise (ValueError ("vec_b has zero magnitude (sum of squares: " +:+ format_2e sum_sq_b +:+ ")"))
      else ret (mag_a, mag_b)
    else ret (zero, zero).

Definition cosine_distance (vec_a vec_b : list spec_float) : M handler spec_float :=
  do! _ensure_initialized;
  let! mags := _validate_vectors vec_a vec_b true in
  let (mag_a, mag_b) := mags : spec_float * spec_float in
  let! dot_product := lift (fsum (zip_with float_mul vec_a vec_b)) in
  let! cosine_similarity := lift (true_div dot_product (float_mul mag_a mag_b)) in
  ret (float_sub one (clamp_unit cosine_similarity)).

(** [x ** 2]: only a finite number whose square is not raises. *)
Definition square (x : spec_float) : res spec_float :=
  match SFabs x with
  | S754_finite _ _ _ as y =>
      match pow2 y with
      | S754_infinity _ => Raise (OverflowError "(34, 'Numerical result out of range')")
      | z => Ok z
      end
  | S754_zero _ => Ok zero
  | y => Ok y
  end.

Fixpoint squares (l : list spec_float) : res (list spec_float) :=
  match l with
  | [] => Ok []
  | x :: l =>
      match square x with
      | Raise e => Raise e
      | Ok y => match squares l with Raise e => Raise e | Ok l => Ok (y :: l) end
      end
  end.

Definition euclidean_distance (vec_a vec_b : list spec_float) : M handler spec_float :=
  do! _ensure_initialized;
  do! _validate_vectors vec_a vec_b false;
  let! squared_diffs := lift (squares (zip_with float_sub vec_a vec_b)) in
  let! sum_squared := lift (fsum squared_diffs) in
  lift (math_sqrt sum_squared).

Record ModelSimilarityResult : Type := SimilarityResult {
  r_metric : string;
  r_similarity : option spec_float;
  r_distance : spec_float;
  r_is_match : option bool;
  r_threshold : option spec_float;
  r_dimensions : nat;
}.

Definition compare (vec_a vec_b : list spec_float) (metric : string) (threshold : option spec_float)
    : M handler ModelSimilarityResult :=
  do! _ensure_initialized;
  let dimensions := length vec_a in
  let is_match (distance : spec_float) := SFleb distance <$> threshold in
  if bool_decide (metric = "cosine") then
    let! distance := cosine_distance vec_a vec_b in
    let similarity := float_sub one distance in
    ret (SimilarityResult "cosine" (Some similarity) distance (is_match distance) threshold dimensions)
  else if bool_decide (metric = "euclidean") then
    let! distance := euclidean_distance vec_a vec_b in
    ret (SimilarityResult "euclidean" None distance (is_match distance) threshold dimensions)
  else
    raise (ValueError ("Unknown metric '" +:+ metric +:+ "'. Supported metrics: 'cosine', 'euclidean'")).

(** ** The node *)

Inductive operation : Type := op_cosine_distance | op_euclidean_distance | op_compare.

Record request : Type := Request {
  q_operation : operation;
  vector_a : list spec_float;
  vector_b : list spec_float;
  q_metric : string;
  q_threshold : option spec_float;
}.

(** What the request model accepts. *)
Definition request_valid (q : request) : bool :=
  (1 <=? length (vector_a q))%nat && (1 <=? length (vector_b q))%nat &&
  (length (vector_a q) =? length (vector_b q))%nat &&
  (bool_decide (q_metric q = "cosine") || bool_decide (q_metric q = "euclidean")) &&
  match q_threshold q with Some t => SFleb zero t | None => true end.

Record response : Type := Response {
  success : bool;
  distance : option spec_float;
  similarity : option spec_float;
  is_match : option bool;
  dimensions : option nat;
  error_message : option string;
}.

Definition measured (n : nat) (d : spec_float) : response :=
  Response true (Some d) None None (Some n) None.

(** [NodeSimilarityCompute.execute] *)
Definition execute (q : request) : M handler response :=
  try_except
    match q_operation q with
    | op_cosine_distance =>
        let! d := cosine_distance (vector_a q) (vector_b q) in
        ret (measured (length (vector_a q)) d)
    | op_euclidean_distance =>
        let! d := euclidean_distance (vector_a q) (vector_b q) in
        ret (measured (length (vector_a q)) d)
    | op_compare =>
        let! r := compare (vector_a q) (vector_b q) (q_metric q) (q_threshold q) in
        ret (Response true (Some (r_distance r)) (r_similarity r) (r_is_match r)
               (Some (r_dimensions r)) None)
    end
    (fun e =>
      match e with
      | ValueError m => Some (ret (Response false None None None None (Some m)))
      | _ => None
      end).
End measures.

(** ** Proofs *)

Section proofs.
Context (format_2e : spec_float -> string) (pow2 : spec_float -> spec_float).

Lemma lift_run {A} (r : res A) h : lift r h = (r, h).
Proof. done. Qed.

Lemma scan_swap check i : forall a b sa sb ma mb,
  scan check i a b sa sb = Ok (ma, mb) -> scan check i b a sb sa = Ok (mb, ma).
Proof.
  intros a. revert i. induction a as [|x a IH]; intros i [|y b] sa sb ma mb; simpl; try (by intros [= <- <-]).
  destruct (check_element _ _ x) eqn:Ex; [done|]. destruct (check_element _ _ y) eqn:Ey; [done|].
  assert (forall n z, check_element n i z = None <-> finite_float z = true) as Hc by by intros n [].
  rewrite (proj2 (Hc _ _) (proj1 (Hc _ _) Ex)), (proj2 (Hc _ _) (proj1 (Hc _ _) Ey)).
  destruct check; apply IH.
Qed.

(** What a call needs to return a distance, and the distance. *)
Definition cosine_of (a b : list spec_float) (h : handler) (d : spec_float) : Prop :=
  exists epsilon sa sb ma mb p s,
    _initialized h = true /\ _config h = Some epsilon /\ a <> [] /\ length a = length b /\
    scan true 0 a b zero zero = Ok (sa, sb) /\ math_sqrt sa = Ok ma /\ math_sqrt sb = Ok mb /\
    SFltb ma epsilon = false /\ SFltb mb epsilon = false /\
    fsum (zip_with float_mul a b) = Ok p /\ true_div p (float_mul ma mb) = Ok s /\
    d = float_sub one (clamp_unit s).

Lemma cosine_distance_ok a b h d :
  (cosine_distance format_2e a b h).1 = Ok d <-> cosine_of a b h d.
Proof.
  unfold cosine_of, cosine_distance, _validate_vectors, config, _ensure_initialized, lift, get, ret, raise, bind.
  split.
  - intros H. destruct (_initialized h) eqn:Ei; [|done].
    destruct (length a =? 0)%nat eqn:E1; [done|]. destruct (length b =? 0)%nat eqn:E2; [done|].
    destruct (length a =? length b)%nat eqn:E3; [|done]. cbn [negb] in H.
    destruct (scan true 0 a b zero zero) as [[sa sb]|] eqn:Es; [|done].
    destruct (math_sqrt sa) as [ma|] eqn:Ea; [|done]. destruct (math_sqrt sb) as [mb|] eqn:Eb; [|done].
    rewrite Ei in H. destruct (_config h) as [epsilon|] eqn:Ec; [|done]. cbn beta iota zeta in H.
    destruct (SFltb ma epsilon) eqn:Ema; [done|]. destruct (SFltb mb epsilon) eqn:Emb; [done|].
    cbn beta iota zeta in H. destruct (fsum _) as [p|] eqn:Ep; [|done].
    destruct (true_div _ _) as [s|] eqn:Et; [|done]. injection H as <-.
    exists epsilon, sa, sb, ma, mb, p, s. apply Nat.eqb_eq in E3. by destruct a.
  - intros (epsilon & sa & sb & ma & mb & p & s & Hi & Hc & Ha & Hl & Hs & Hma & Hmb & H1 & H2 & Hp & Ht & ->).
    rewrite Hi, <- Hl, Nat.eqb_refl. destruct a as [|x a]; [done|]. cbn [length Nat.eqb negb].
    rewrite Hs, Hma, Hmb, Hi, Hc. cbn beta iota zeta. rewrite H1, H2. cbn beta iota zeta. by rewrite Hp, Ht.
Qed.

Definition euclidean_of (a b : list spec_float) (h : handler) (d : spec_float) : Prop :=
  exists m qs s,
    _initialized h = true /\ a <> [] /\ length a = length b /\
    scan false 0 a b zero zero = Ok m /\ squares pow2 (zip_with float_sub a b) = Ok qs /\
    fsum qs = Ok s /\ math_sqrt s = Ok d.

Lemma euclidean_distance_ok a b h d :
  (euclidean_distance format_2e pow2 a b h).1 = Ok d <-> euclidean_of a b h d.
Proof.
  unfold euclidean_of, euclidean_distance, _validate_vectors, config, _ensure_initialized, lift, get, ret, raise, bind.
  split.
  - intros H. destruct (_initialized h) eqn:Ei; [|done].
    destruct (length a =? 0)%nat eqn:E1; [done|]. destruct (length b =? 0)%nat eqn:E2; [done|].
    destruct (length a =? length b)%nat eqn:E3; [|done]. cbn [negb] in H.
    destruct (scan false 0 a b zero zero) as [[sa sb]|] eqn:Es; [|done].
    cbn beta iota zeta in H. destruct (squares _ _) as [qs|] eqn:Eq; [|done].
    destruct (fsum _) as [p|] eqn:Ep; [|done]. cbn in H.
    exists (sa, sb), qs, p. apply Nat.eqb_eq in E3. by destruct a.
  - intros ([sa sb] & qs & s & Hi & Ha & Hl & Hs & Hq & Hp & Hd).
    rewrite Hi, <- Hl, Nat.eqb_refl. destruct a as [|x a]; [done|]. cbn [length Nat.eqb negb].
    rewrite Hs. cbn beta iota zeta. rewrite Hq. cbn beta iota zeta. by rewrite Hp.
Qed.

Lemma zip_float_mul_comm : forall a b, zip_with float_mul a b = zip_with float_mul b a.
Proof. induction a as [|x a IH]; intros [|y b]; simpl; try done. by rewrite IH, float_mul_comm. Qed.

Lemma squares_sub_comm : forall a b,
  squares pow2 (zip_with float_sub a b) = squares pow2 (zip_with float_sub b a).
Proof.
  induction a as [|x a IH]; intros [|y b]; simpl; try done. unfold square.
  by rewrite (float_sub_abs_comm x y), IH.
Qed.

(** Both distances are symmetric, to the last bit: the vectors may
    be exchanged whenever there is an answer. *)
Theorem distances_symmetric (a b : list spec_float) (h : handler) (d : spec_float) :
  ((cosine_distance format_2e a b h).1 = Ok d <-> (cosine_distance format_2e b a h).1 = Ok d) /\
  ((euclidean_distance format_2e pow2 a b h).1 = Ok d <->
   (euclidean_distance format_2e pow2 b a h).1 = Ok d).
Proof.
  rewrite !cosine_distance_ok, !euclidean_distance_ok.
  assert (Hc : forall a b, cosine_of a b h d -> cosine_of b a h d).
  { clear a b. intros a b (eps & sa & sb & ma & mb & p & s & Hi & Hc & Ha & Hl & Hs & Hma & Hmb & H1 & H2 & Hp & Ht & ->).
    exists eps, sb, sa, mb, ma, p, s. rewrite zip_float_mul_comm, float_mul_comm.
    split_and!; try done; [by destruct a, b|by apply scan_swap]. }
  assert (He : forall a b, euclidean_of a b h d -> euclidean_of b a h d).
  { clear a b Hc. intros a b ([sa sb] & qs & s & Hi & Ha & Hl & Hs & Hq & Hp & Hd).
    exists (sb, sa), qs, s. rewrite squares_sub_comm.
    split_and!; try done; [by destruct a, b|by apply scan_swap]. }
  split; split; auto.
Qed.

Lemma clamp_unit_within x : sized x -> within 0 (clamp_unit x).
Proof.
  intros Hx. unfold clamp_unit, min1. destruct (SFltb x one) eqn:E; [|by vm_compute].
  destruct (SFltb minus_one x) eqn:E'; [|by vm_compute].
  apply between_at_most; [by destruct x|]. unfold unit_float. destruct x as [s|[]| |[] m e]; try done.
  - apply andb_true_iff. split; [done|]. apply SFltb_leb. revert E'. unfold minus_one.
    replace one with (S754_finite false 4503599627370496 (-52)) by by vm_compute.
    unfold SFltb, SFcompare. simpl SFopp. cbn [SFabs].
    rewrite (Z.compare_antisym e), (SF_compare_pos _ m), (SF_compare_pos m), (Pos.compare_antisym m).
    by destruct (e ?= -52), (Pos.compare m _).
  - apply andb_true_iff. split; [done|]. by apply SFltb_leb.
Qed.

(** C30: the cosine distance is a number between 0 and 2 and the
    similarity [compare] derives from it one between -1 and 1, whatever the
    vectors are: never NaN, never outside the range by a rounding error. *)
Theorem cosine_in_range (a b : list spec_float) (h : handler) (d : spec_float) :
  (cosine_distance format_2e a b h).1 = Ok d ->
  at_most 1 d /\ within 0 (float_sub one d) /\
  forall threshold, exists r,
    (compare format_2e pow2 a b "cosine" threshold h).1 = Ok r /\
    r_distance r = d /\ r_similarity r = Some (float_sub one d) /\
    r_is_match r = (SFleb d <$> threshold) /\ r_dimensions r = length a.
Proof.
  intros H. assert (Hd : at_most 1 d).
  { apply cosine_distance_ok in H as (? & ? & ? & ? & ? & p & s & ? & ? & ? & ? & ? & ? & ? & ? & ? & ? & Ht & ->).
    apply one_minus_signed, clamp_unit_within. unfold true_div in Ht. destruct (is_zero _); [done|].
    injection Ht as <-. apply float_div_sized. }
  split; [done|]. split; [by apply one_minus_within|]. intros threshold.
  assert (Hi : _initialized h = true).
  { by apply cosine_distance_ok in H as (? & ? & ? & ? & ? & ? & ? & ? & _). }
  unfold compare, _ensure_initialized, bind. rewrite Hi.
  rewrite bool_decide_true by done. destruct (cosine_distance _ a b h) as [r h']. simpl in H. subst r.
  eexists. split; [reflexivity|done].
Qed.

Lemma fsum_zeros l : Forall (fun x => x = zero) l -> fsum l = Ok zero.
Proof.
  unfold fsum. intros Hl. assert (add_summands (Sums [] zero zero) l = Ok (Sums [] zero zero)) as ->; [|done].
  induction Hl as [|x l -> _ IH]; [done|exact IH].
Qed.

Lemma squares_zeros l : Forall (fun x => x = zero) l ->
  exists qs, squares pow2 l = Ok qs /\ Forall (fun x => x = zero) qs.
Proof.
  induction 1 as [|x l -> _ (qs & IH & Hq)]; simpl; [by exists []|]. rewrite IH. exists (zero :: qs).
  split; [done|by constructor].
Qed.

Lemma scan_finite check i a : forall j b sa sb, (j = i) -> length a = length b ->
  forallb finite_float a = true -> forallb finite_float b = true ->
  exists m, scan check i a b sa sb = Ok m.
Proof.
  revert i. induction a as [|x a IH]; intros i j [|y b] sa sb -> Hl Ha Hb; simpl in *; try done; [by eexists|].
  apply andb_true_iff in Ha as [Hx Ha], Hb as [Hy Hb].
  destruct x, y; try done; destruct check; eapply IH; eauto.
Qed.

(** The Euclidean distance of a vector of finite numbers to
    itself is exactly 0, and no distance is negative. *)
Theorem euclidean_zero (a b : list spec_float) (h : handler) (d : spec_float) :
  (a <> [] -> forallb finite_float a = true -> _initialized h = true ->
   (euclidean_distance format_2e pow2 a a h).1 = Ok zero) /\
  ((euclidean_distance format_2e pow2 a b h).1 = Ok d ->
   match d with S754_finite s _ _ | S754_infinity s => s = false | _ => True end).
Proof.
  split.
  - intros Ha Hf Hi. apply euclidean_distance_ok.
    destruct (scan_finite false 0 a 0 a zero zero eq_refl eq_refl Hf Hf) as [m Hm].
    assert (Hz : Forall (fun x => x = zero) (zip_with float_sub a a)).
    { clear -Hf. induction a as [|x a IH]; simpl in *; [done|]. apply andb_true_iff in Hf as [Hx Hf].
      constructor; [|by apply IH]. apply float_sub_diag. by destruct x. }
    destruct (squares_zeros _ Hz) as (qs & Hq & Hz'). exists m, qs, zero.
    split_and!; try done. by apply fsum_zeros.
  - rewrite euclidean_distance_ok. intros (m & qs & s & _ & _ & _ & _ & _ & _ & Hd).
    unfold math_sqrt in Hd. destruct s as [s|[]| |[] p e]; try done; injection Hd as <-; [done..|].
    simpl. destruct (SFsqrt_core_binary _ _ _ _) as [[q e'] l]. 
    pose proof (binary_round_aux_nonneg q e' l) as H. by destruct (binary_round_aux _ _ _ _ _ _).
Qed.

(** What may go wrong: only these errors come out of a measure. *)
Definition measure_error (e : exn) : Prop :=
  match e with
  | ValueError _ => True
  | OtherException cls _ => cls = "OverflowError" \/ cls = "ZeroDivisionError"
  | _ => False
  end.

Definition fails_with {A} (P : exn -> Prop) (r : res A) : Prop :=
  match r with Raise e => P e | Ok _ => True end.

Lemma wp_lift {A} (r : res A) Q h : wp (lift r) Q h <-> Q r h.
Proof. done. Qed.

Lemma fsum_errors l : fails_with measure_error (fsum l).
Proof.
  unfold fsum. assert (H : forall l s, fails_with measure_error (add_summands s l)).
  { clear l. induction l as [|x l IH]; intros s; simpl; [done|].
    assert (fails_with measure_error (add_summand s x)).
    { unfold add_summand. destruct (through _ _). repeat case_match; simpl; auto. }
    destruct (add_summand s x); [apply IH|done]. }
  specialize (H l (Sums [] zero zero)). destruct (add_summands _ _); [|done]. repeat case_match; done.
Qed.

Lemma squares_errors l : fails_with measure_error (squares pow2 l).
Proof.
  induction l as [|x l IH]; simpl; [done|].
  assert (fails_with measure_error (square pow2 x)).
  { unfold square. repeat case_match; simpl; auto. }
  destruct (square _ _); [|done]. by destruct (squares _ _).
Qed.

Lemma scan_errors check i : forall a b sa sb, fails_with measure_error (scan check i a b sa sb).
Proof.
  intros a. revert i. induction a as [|x a IH]; intros i [|y b] sa sb; simpl; try done.
  destruct x, y, check; simpl; auto; apply IH.
Qed.

Lemma math_sqrt_errors x : fails_with measure_error (math_sqrt x).
Proof. unfold math_sqrt. by destruct x as [|[]| |[]]. Qed.

Lemma true_div_errors x y : fails_with measure_error (true_div x y).
Proof. unfold true_div. case_match; simpl; auto. Qed.

Definition ready (h : handler) : Prop := _initialized h = true /\ is_Some (_config h).

(** A measure leaves the handler as it is. *)
Definition harmless {A} (h : handler) (r : res A) (h' : handler) : Prop :=
  h' = h /\ fails_with measure_error r.

Lemma ensured Q h : ready h -> Q (Ok tt) h -> wp _ensure_initialized Q h.
Proof. intros [Hi _] HQ. unfold wp, _ensure_initialized. by rewrite Hi. Qed.

Lemma validated a b check Q h : ready h ->
  (forall r, fails_with measure_error r -> Q r h) ->
  wp (_validate_vectors format_2e a b check) Q h.
Proof.
  intros Hr HQ. unfold _validate_vectors. do 3 (case_match; [wp_step; by apply HQ|]).
  wp_step. rewrite wp_lift. pose proof (scan_errors check 0 a b zero zero) as Hs.
  destruct (scan _ _ _ _ _ _) as [[sa sb]|]; [|by apply HQ].
  destruct check; [|wp_step; by apply HQ]. wp_step. rewrite wp_lift.
  pose proof (math_sqrt_errors sa). destruct (math_sqrt sa) as [ma|]; [|by apply HQ]. wp_step. rewrite wp_lift.
  pose proof (math_sqrt_errors sb). destruct (math_sqrt sb) as [mb|]; [|by apply HQ].
  wp_step. unfold config. wp_step. apply ensured; [done|]. wp_step. unfold get, wp at 1. cbn [fst snd].
  destruct Hr as [_ [eps ->]]. wp_step. repeat case_match; wp_step; by apply HQ.
Qed.

Lemma cosine_harmless a b h : ready h -> wp (cosine_distance format_2e a b) (harmless h) h.
Proof.
  intros Hr. unfold cosine_distance. wp_step. apply ensured; [done|]. wp_step.
  apply validated; [done|]. intros [[ma mb]|e] He; [|done]. wp_step. rewrite wp_lift.
  pose proof (fsum_errors (zip_with float_mul a b)). destruct (fsum _) as [p|]; [|done].
  wp_step. rewrite wp_lift. pose proof (true_div_errors p (float_mul ma mb)).
  destruct (true_div _ _); [|done]. by wp_step.
Qed.

Lemma euclidean_harmless a b h : ready h -> wp (euclidean_distance format_2e pow2 a b) (harmless h) h.
Proof.
  intros Hr. unfold euclidean_distance. wp_step. apply ensured; [done|]. wp_step.
  apply validated; [done|]. intros [m|e] He; [|done]. wp_step. rewrite wp_lift.
  pose proof (squares_errors (zip_with float_sub a b)). destruct (squares _ _) as [qs|]; [|done].
  wp_step. rewrite wp_lift. pose proof (fsum_errors qs). destruct (fsum qs) as [s|]; [|done].
  wp_step. rewrite wp_lift. split; [done|]. apply math_sqrt_errors.
Qed.

(** An initialised node answers every request, and is not changed
    by it, except that an overflow or a division by zero escapes it: a response
    is either a success with the distance the measure gives and the number of
    dimensions, or an error with nothing but its message. *)
Theorem similarity_answers (q : request) (h : handler) :
  ready h ->
  wp (execute format_2e pow2 q) (fun r h' => h' = h /\
    match r with
    | Ok resp =>
        if success resp then
          dimensions resp = Some (length (vector_a q)) /\ error_message resp = None /\
          exists d, distance resp = Some d /\
            ((cosine_distance format_2e (vector_a q) (vector_b q) h).1 = Ok d \/
             (euclidean_distance format_2e pow2 (vector_a q) (vector_b q) h).1 = Ok d)
        else exists m, resp = Response false None None None None (Some m)
    | Raise e => exists cls m, e = OtherException cls m /\
                   (cls = "OverflowError" \/ cls = "ZeroDivisionError")
    end) h.
Proof.
  intros Hr. pose proof (cosine_harmless (vector_a q) (vector_b q) h Hr) as Hc.
  pose proof (euclidean_harmless (vector_a q) (vector_b q) h Hr) as He.
  unfold harmless, wp in Hc, He. destruct Hr as [Hi _].
  unfold wp, execute, compare, _ensure_initialized, try_except, bind, ret, raise.
  destruct (cosine_distance _ _ _ h) as [rc hc] eqn:Ec, (euclidean_distance _ _ _ _ h) as [re he] eqn:Ee.
  cbn [fst snd] in *. destruct Hc as [-> Hc], He as [-> He].
  destruct (q_operation q); rewrite ?Hi; [| |do 2 try case_bool_decide].
  all: rewrite ?Ec, ?Ee; destruct rc as [x|[]], re as [y|[]]; simpl in *; try done; split; eauto 10.
Qed.
End proofs.

(** ** Concrete runs *)

Module SimilarityDemo.

(** As most platforms' [pow] answers: the square, rounded. *)
Definition exact_square (x : spec_float) : spec_float := float_mul x x.
Definition no_format (_ : spec_float) : string := "...".
Definition started : handler := (initialize None new).2.

Definition v (l : list Z) : list spec_float := float_of_Z <$> l.
Definition cosine a b := (cosine_distance no_format a b started).1.
Definition euclidean a b := (euclidean_distance no_format exact_square a b started).1.

Example orthogonal : cosine (v [1; 0]) (v [0; 3]) = Ok one.
Proof. by vm_compute. Qed.
Example opposite : cosine (v [1; 0]) (v [-1; 0]) = Ok two.
Proof. by vm_compute. Qed.
Example pythagoras : euclidean (v [0; 0]) (v [3; 4]) = Ok (float_of_Z 5).
Proof. by vm_compute. Qed.

(** The documentation asserts a distance of 0.0 from [1.0, 2.0, 3.0] to
    itself; this holds, but not of every vector: here it is a rounding error. *)
Example documented_identity : cosine (v [1; 2; 3]) (v [1; 2; 3]) = Ok zero.
Proof. by vm_compute. Qed.
Example not_identical : exists d, cosine (v [1; 1]) (v [1; 1]) = Ok d /\ d <> zero.
Proof. eexists. split; [by vm_compute|done]. Qed.

(** Opposite vectors, as far apart as vectors can be, are answered with the
    distance 0 when their squares are beyond the largest double: infinity
    divided by infinity is NaN, which is clamped to a similarity of 1. *)
Definition huge : Z := 10 ^ 200.
Example opposite_is_identical : cosine (v [huge]) (v [- huge]) = Ok zero.
Proof. by vm_compute. Qed.

(** The square of a large difference overflows, and the exception is none of
    those that the node answers; twice as far, the distance is infinite. *)
Definition far (z : Z) : request := Request op_euclidean_distance (v [z]) (v [- z]) "cosine" None.
Example overflow_escapes :
  (execute no_format exact_square (far huge) started).1 =
  Raise (OverflowError "(34, 'Numerical result out of range')").
Proof. by vm_compute. Qed.
Example farther_is_infinite :
  (execute no_format exact_square (far (10 ^ 308)) started).1 =
  Ok (measured 1 (S754_infinity false)).
Proof. by vm_compute. Qed.

(** A node that was not initialised raises instead of answering an error. *)
Example uninitialised_escapes :
  (execute no_format exact_square (far 1) new).1 =
  Raise (RuntimeError ("HandlerSimilarityCompute is not initialized. " +:+
                       "Call initialize() before using the handler.")).
Proof. by vm_compute. Qed.

Lemma cosine_in_range_witness :
  cosine (v [1; 2]) (v [3; -4]) = Ok (float_sub one (clamp_unit (float_div (float_of_Z (-5))
    (float_mul (SFsqrt 53 1024 (float_of_Z 5)) (float_of_Z 5))))) /\
  exists d, cosine (v [1; 2]) (v [3; -4]) = Ok d /\ at_most 1 d.
Proof.
  split; [by vm_compute|].
  assert (H : exists d, cosine (v [1; 2]) (v [3; -4]) = Ok d) by (eexists; by vm_compute).
  destruct H as [d Hd]. exists d. split; [exact Hd|].
  exact (proj1 (cosine_in_range no_format exact_square _ _ _ _ Hd)).
Defined.

Lemma euclidean_zero_witness : euclidean (v [1; 2]) (v [1; 2]) = Ok zero.
Proof.
  exact (proj1 (euclidean_zero no_format exact_square (v [1; 2]) (v [1; 2]) started zero)
    ltac:(done) ltac:(by vm_compute) eq_refl).
Defined.

Lemma similarity_answers_witness :
  ready started /\ exists resp,
    execute no_format exact_square (far 1) started = (Ok resp, started) /\
    distance resp = Some two /\ dimensions resp = Some 1%nat.
Proof.
  assert (Hr : ready started) by (split; [done|by eexists]). split; [exact Hr|].
  pose proof (similarity_answers no_format exact_square (far 1) started Hr) as [H1 H2].
  eexists. split; [by vm_compute|]. split; by vm_compute.
Defined.
End SimilarityDemo.
