(* ===== verification/Graph.v ===== *)
(** * Property graphs

    The graph database behind the memory and intent adapters, as the Cypher
    queries of src/src/omnimemory/handlers/adapters see it: nodes and edges
    with labels and properties, matching a node by a property, the edges at a
    node, and variable-length patterns, which match trails: no edge is used
    twice, nodes may be. *)

From S2P Require Import Prelude Text Floats.

(** ** Labels and types *)

(** [re.match(r"^\[A-Za-z_\]\[A-Za-z0-9_\]*$", v)]: the dollar also matches
    before a final newline. *)
Definition letter_ (c : ascii) : bool := char_in "A" "Z" c || char_in "a" "z" c || bool_decide (c = "_"%char).
Definition word_char (c : ascii) : bool := letter_ c || char_in "0" "9" c.
Definition newline : ascii := "010"%char.

Fixpoint word_tail (s : text) : bool :=
  match s with
  | [] => true
  | [c] => word_char c || bool_decide (c = newline)
  | c :: s => word_char c && word_tail s
  end.

Definition valid_identifier (v : text) : bool :=
  match v with [] => false | c :: v => letter_ c && word_tail v end.

(** ** Values *)

Inductive value : Type :=
  | Null
  | Bool (b : bool)
  | Int (z : Z)
  | Float (f : spec_float)
  | Str (s : text)
  | List (l : list value)
  | Map (m : list (text * value)).

#[export] Instance spec_float_eq_dec : EqDecision spec_float.
Proof. solve_decision. Defined.

Definition value_dec : forall x y : value, {x = y} + {x <> y}.
Proof.
  fix go 1. intros x y.
  assert (Hl : forall l m : list value, {l = m} + {l <> m}) by exact (list_eq_dec (A := value) (dec := go)).
  assert (Hm : forall l m : list (text * value), {l = m} + {l <> m}).
  { exact (list_eq_dec (A := text * value)
             (dec := fun p q => @prod_eq_dec text _ value go p q)). }
  decide equality; solve [apply decide; apply _].
Defined.
#[export] Instance value_eq_dec : EqDecision value := value_dec.

Record node : Type := Node {
  labels : list text;
  properties : gmap string value;
}.

Record edge : Type := Edge {
  source : nat;
  target : nat;
  type : text;
  e_properties : gmap string value;
}.

(** Nodes and edges are known by their places. *)
Record graph : Type := Graph {
  nodes : list node;
  edges : list edge;
}.

(** A row of a result. *)
Definition record : Type := gmap string value.

Definition property (k : string) (props : gmap string value) : value := default Null (props !! k).

(** [(x:l)] and [(x:l {k: v})] *)
Definition labelled (l : text) (n : node) : bool := bool_decide (l ∈ labels n).
Definition has (k : string) (v : text) (n : node) : bool :=
  bool_decide (property k (properties n) = Str v).

Definition node_ids (p : node -> bool) (g : graph) : list nat :=
  filter (fun i => match nodes g !! i with Some n => p n | None => false end = true)
    (seq 0 (length (nodes g))).

(** [-\[r\]->] and [-\[r\]-] from node [i]: the edge and the node it leads to. *)
Definition leads (bidirectional : bool) (i : nat) (e : edge) : option nat :=
  if bool_decide (source e = i) then Some (target e)
  else if bidirectional && bool_decide (target e = i) then Some (source e)
  else None.

Definition incident (bidirectional : bool) (g : graph) (i : nat) : list (nat * nat) :=
  omap (fun k => e ← edges g !! k; j ← leads bidirectional i e; Some (k, j))
    (seq 0 (length (edges g))).

(** [-\[r*1..depth\]-]: the ends of the trails from [i] with the edges of each,
    the last one first; [used] are the edges on the way to [i]. *)
Fixpoint trails (bidirectional : bool) (g : graph) (depth : nat) (used : list nat) (i : nat)
    : list (nat * list nat) :=
  match depth with
  | O => []
  | S depth =>
      flat_map (fun x => (x.2, x.1 :: used) :: trails bidirectional g depth (x.1 :: used) x.2)
        (filter (fun x => x.1 ∉ used) (incident bidirectional g i))
  end.

(** [ALL(rel IN r WHERE type(rel) IN types)] *)
Definition typed (types : list text) (g : graph) (r : list nat) : bool :=
  forallb (fun k => match edges g !! k with Some e => bool_decide (type e ∈ types) | None => false end) r.

(** [ORDER BY depth ASC]; rows of the same depth in the order found. *)
Definition sort_asc {A} (key : A -> Z) : list A -> list A := sort_desc (fun x => - key x).

Lemma sort_asc_spec {A} (key : A -> Z) l :
  sort_asc key l ≡ₚ l /\ StronglySorted (fun a b => key a <= key b) (sort_asc key l).
Proof.
  destruct (sort_desc_spec (fun x => - key x) l) as [Hp Hs]. split; [exact Hp|].
  eapply sorted_weaken; [|exact Hs]. unfold desc. intros; lia.
Qed.

(** [LIMIT $limit]; a negative one is an error. *)
Definition limited {A} (limit : Z) (l : list A) : res (list A) :=
  if limit <? 0 then Raise (OtherException "ClientError" "LIMIT must be a non-negative integer")
  else Ok (take (Z.to_nat limit) l).

(** ** Walks *)

Section walks.
Context (bidirectional : bool) (g : graph).

(** Edge [k] leads from [i] to [j]. *)
Definition step (i k j : nat) : Prop :=
  exists e, edges g !! k = Some e /\ leads bidirectional i e = Some j.

Lemma incident_step i k j : (k, j) ∈ incident bidirectional g i <-> step i k j.
Proof.
  unfold incident, step. rewrite list_elem_of_omap. split.
  - intros (k' & _ & H). destruct (edges g !! k') as [e|] eqn:E; [|done]. simpl in H.
    destruct (leads _ _ _) eqn:El; [|done]. simplify_eq/=. by exists e.
  - intros (e & E & H). exists k. rewrite E. simpl. rewrite H. split; [|done].
    apply elem_of_seq. apply lookup_lt_Some in E. lia.
Qed.

(** A walk from [i] to [j] along the edges [ks], in order. *)
Inductive walk (j : nat) : nat -> list nat -> Prop :=
  | walk_nil : walk j j []
  | walk_cons i k i' ks : step i k i' -> walk j i' ks -> walk j i (k :: ks).

Lemma trails_walk depth : forall used i j r,
  (j, r) ∈ trails bidirectional g depth used i ->
  exists ks, ks <> [] /\ (length ks <= depth)%nat /\ r = rev ks ++ used /\
    NoDup ks /\ (forall k, k ∈ ks -> k ∉ used) /\ walk j i ks.
Proof.
  induction depth as [|depth IH]; simpl; intros used i j r H; [by apply not_elem_of_nil in H|].
  apply list_elem_of_In, in_flat_map in H as ([k i'] & Hk & H).
  apply list_elem_of_In, list_elem_of_filter in Hk as [Hu Hk]. apply incident_step in Hk. simpl in *.
  destruct H as [[= <- <-]|H%list_elem_of_In].
  - exists [k]. split_and!; try done; [simpl; lia|apply NoDup_singleton| |].
    + intros k' ->%list_elem_of_singleton. done.
    + by eapply walk_cons; [|apply walk_nil].
  - apply IH in H as (ks & Hne & Hl & -> & Hnd & Hks & Hw). exists (k :: ks). split_and!; try done.
    + simpl. lia.
    + simpl. by rewrite <- app_assoc.
    + apply NoDup_cons. split; [|done]. intros Hin. apply Hks in Hin. apply Hin. left.
    + intros k' [->|Hin]%elem_of_cons; [done|]. apply Hks in Hin. intros ?. apply Hin. by right.
    + by eapply walk_cons.
Qed.

Lemma walk_trails depth : forall used i j ks,
  walk j i ks -> ks <> [] -> NoDup ks -> (length ks <= depth)%nat -> (forall k, k ∈ ks -> k ∉ used) ->
  (j, rev ks ++ used) ∈ trails bidirectional g depth used i.
Proof.
  induction depth as [|depth IH]; intros used i j ks Hw Hne Hnd Hl Hu.
  { destruct ks; [done|simpl in Hl; lia]. }
  destruct Hw as [|i k i' ks Hs Hw]; [done|]. cbn [trails]. apply list_elem_of_In, in_flat_map.
  exists (k, i'). split.
  - apply list_elem_of_In, list_elem_of_filter. split; [apply Hu; left|by apply incident_step].
  - apply NoDup_cons in Hnd as [Hk Hnd]. cbn [fst snd rev]. destruct ks as [|k2 ks].
    + inversion Hw; subst. by left.
    + right. apply list_elem_of_In. rewrite <- app_assoc.
      apply (IH (k :: used)); [done|done|done|simpl in *; lia|].
      intros k' Hk' [->|Hin]%elem_of_cons; [done|]. by apply (Hu k'); [right|].
Qed.

Lemma step_ends i k j i' j' : step i k j -> step i' k j' -> i' = i \/ i' = j.
Proof.
  intros (e & E & H) (e' & E' & H'). rewrite E in E'. injection E' as <-.
  unfold leads in *. repeat case_bool_decide; destruct bidirectional; simpl in *; simplify_eq; auto.
Qed.

Lemma step_fun i k j j' : step i k j -> step i k j' -> j = j'.
Proof. intros (e & E & H) (e' & E' & H'). congruence. Qed.

(** A walk together with the nodes it visits. *)
Inductive path (j : nat) : nat -> list nat -> list nat -> Prop :=
  | path_nil : path j j [] [j]
  | path_cons i k i' ks vs : step i k i' -> path j i' ks vs -> path j i (k :: ks) (i :: vs).

Lemma path_walk j i ks vs : path j i ks vs -> walk j i ks.
Proof. induction 1; [constructor|by eapply walk_cons]. Qed.

Lemma path_from j i ks vs v : path j i ks vs -> v ∈ vs -> NoDup vs ->
  exists ks' vs', path j v ks' vs' /\ NoDup vs' /\ ks' `suffix_of` ks.
Proof.
  induction 1 as [|i k i' ks vs Hs Hp IH]; intros Hv Hnd.
  - apply list_elem_of_singleton in Hv as ->. by exists [], [j]; split; [constructor|].
  - apply elem_of_cons in Hv as [->|Hv].
    + exists (k :: ks), (i :: vs). by split; [eapply path_cons|].
    + apply NoDup_cons in Hnd as [_ Hnd]. destruct (IH Hv Hnd) as (ks' & vs' & ? & ? & ?).
      exists ks', vs'. split_and!; [done|done|by apply suffix_cons_r].
Qed.

Lemma path_edge j i ks vs k : path j i ks vs -> k ∈ ks ->
  exists v v', step v k v' /\ v ∈ vs /\ v' ∈ vs.
Proof.
  induction 1 as [|i k0 i' ks vs Hs Hp IH]; intros Hk; [by apply not_elem_of_nil in Hk|].
  apply elem_of_cons in Hk as [->|Hk].
  - exists i, i'. split_and!; [done|left|right]. by destruct Hp; left.
  - destruct (IH Hk) as (v & v' & ? & ? & ?). exists v, v'. by split_and!; [|right|right].
Qed.

(** A walk that visits no node twice uses no edge twice. *)
Lemma path_NoDup j i ks vs : path j i ks vs -> NoDup vs -> NoDup ks.
Proof.
  induction 1 as [|i k i' ks vs Hs Hp IH]; intros Hnd; [constructor|].
  apply NoDup_cons in Hnd as [Hi Hnd]. apply NoDup_cons. split; [|by apply IH]. intros Hk.
  destruct (path_edge _ _ _ _ _ Hp Hk) as (v & v' & Hv & Hin & Hin').
  by destruct (step_ends _ _ _ _ _ Hv Hs) as [->| ->].
Qed.

Lemma walk_path j i ks : walk j i ks ->
  exists ks' vs, path j i ks' vs /\ NoDup vs /\ ks' `sublist_of` ks.
Proof.
  induction 1 as [|i k i' ks Hs Hw (ks' & vs & Hp & Hnd & Hl)].
  - exists [], [j]. split_and!; [constructor|apply NoDup_singleton|done].
  - destruct (decide (i ∈ vs)) as [Hi|Hi].
    + destruct (path_from _ _ _ _ i Hp Hi Hnd) as (ks2 & vs2 & ? & ? & Hs2).
      exists ks2, vs2. split_and!; [done|done|]. apply sublist_cons.
      etrans; [|exact Hl]. destruct Hs2 as [pre ->]. by apply sublist_inserts_l.
    + exists (k :: ks'), (i :: vs).
      split_and!; [by eapply path_cons|by apply NoDup_cons|by apply sublist_skip].
Qed.

(** The trails up to a depth reach what walks up to that depth reach, and each
    node by a trail that is not longer than any walk to it; the same of trails
    and walks of some edges only. *)
Lemma trails_shortest (P : nat -> Prop) depth i j n : i <> j -> (n <= depth)%nat ->
  (exists ks, walk j i ks /\ Forall P ks /\ (length ks <= n)%nat) <->
  (exists r, (j, r) ∈ trails bidirectional g depth [] i /\ Forall P r /\ (length r <= n)%nat).
Proof.
  intros Hij Hn. split.
  - intros (ks & Hw & HP & Hl). destruct (walk_path _ _ _ Hw) as (ks' & vs & Hp & Hnd & Hs).
    pose proof (sublist_length _ _ Hs).
    assert (HP' : Forall P ks').
    { rewrite Forall_forall in HP |- *. intros k Hk. apply HP. by eapply elem_of_sublist. }
    exists (rev ks'). rewrite length_rev. split_and!; [|by apply Forall_rev|lia].
    rewrite <- (app_nil_r (rev ks')).
    apply walk_trails; [by eapply path_walk| |by eapply path_NoDup|lia|].
    + by destruct Hp.
    + intros k _. apply not_elem_of_nil.
  - intros (r & Hr & HP & Hl). apply trails_walk in Hr as (ks & _ & _ & -> & _ & _ & Hw).
    rewrite app_nil_r in *. exists ks. rewrite length_rev in Hl. split_and!; [done| |done].
    apply Forall_rev in HP. by rewrite rev_involutive in HP.
Qed.
End walks.
