(* ===== verification/MemoryGraph.v ===== *)
(** * The graph of memories

    Models [AdapterGraphMemory] of src/src/omnimemory/handlers/adapters/
    adapter_graph_memory.py: the traversal around a memory with its bounds,
    scores and retries, the connections of a memory, and the initialisation.
    The errors that count as transient, the draws of the random module, the
    parsing of the URI and the driver are arguments. *)

From S2P Require Import Prelude Text Floats FloatOrder Calls Graph.

(** ** Data *)

Record ModelGraphMemoryConfig : Type := GraphMemoryConfig {
  max_depth : Z;
  default_depth : Z;
  default_limit : Z;
  max_limit : Z;
  bidirectional : bool;
  memory_node_label : text;
  score_filter_multiplier : spec_float;
  ensure_indexes : bool;
  max_retries : nat;
  retry_base_delay_seconds : spec_float;
  retry_max_delay_seconds : spec_float;
}.

Definition config_valid (c : ModelGraphMemoryConfig) : bool :=
  (1 <=? max_depth c) && (max_depth c <=? 10) && (1 <=? default_depth c) && (1 <=? default_limit c) &&
  (1 <=? max_limit c) && SFleb one (score_filter_multiplier c) &&
  SFleb (score_filter_multiplier c) (float_of_Z 10) && (max_retries c <=? 10)%nat &&
  SFltb zero (retry_base_delay_seconds c) && SFleb (retry_base_delay_seconds c) (float_of_Z 60) &&
  SFltb zero (retry_max_delay_seconds c) && SFleb (retry_max_delay_seconds c) (float_of_Z 300) &&
  valid_identifier (memory_node_label c) && (default_depth c <=? max_depth c) &&
  (default_limit c <=? max_limit c) &&
  SFleb (retry_base_delay_seconds c) (retry_max_delay_seconds c).

Inductive status : Type := success | error | not_found | no_results.

#[export] Instance status_eq_dec : EqDecision status.
Proof. solve_decision. Defined.

Record ModelRelatedMemory : Type := RelatedMemory {
  memory_id : text;
  score : spec_float;
  path : list text;
  depth : Z;
  m_labels : list value;
  m_properties : list (text * value);
}.

Record ModelRelatedMemoryResult : Type := RelatedMemoryResult {
  r_status : status;
  memories : list ModelRelatedMemory;
  total_count : nat;
  candidates_found : nat;
  max_depth_reached : Z;
  r_error_message : option string;
}.

Record ModelMemoryConnection : Type := MemoryConnection {
  source_id : value;
  target_id : value;
  relationship_type : value;
  weight : value;
  is_outgoing : value;
  created_at : value;
}.

Record ModelConnectionsResult : Type := ConnectionsResult {
  c_status : status;
  connections : list ModelMemoryConnection;
  c_total_count : nat;
  c_error_message : option string;
}.

Definition related_error (s : status) (m : string) : ModelRelatedMemoryResult :=
  RelatedMemoryResult s [] 0 0 0 (Some m).

(** ** The queries *)

Module CypherTemplates.
Section queries.
Context (label : text).

Definition found_memory (memory_id : text) (g : graph) : list nat :=
  node_ids (fun n => labelled label n && has "memory_id" memory_id n) g.

Definition node_exists (memory_id : text) (g : graph) : res (list record) :=
  Ok (take 1 ((fun i : nat => {[ "memory_id" := Str memory_id; "element_id" := Int (Z.of_nat i) ]} : record)
                <$> found_memory memory_id g)).

(** [related.memory_id <> $memory_id], which null is not. *)
Definition another (memory_id : text) (n : node) : bool :=
  match property "memory_id" (properties n) with Null => false | v => bool_decide (v <> Str memory_id) end.

Definition related_row (n : node) (depth : nat) : record :=
  {[ "memory_id" := property "memory_id" (properties n); "labels" := List (Str <$> labels n);
     "properties" := Map ((fun x : string * value => (of_string x.1, x.2)) <$> map_to_list (properties n));
     "depth" := Int (Z.of_nat depth) ]}.

Definition row_depth (r : record) : Z :=
  match r !! "depth" with Some (Int z) => z | _ => 0 end.

(** The rows of [find_related_query] and, with types, of
    [find_related_by_type_query], before the limit. A negative bound is a
    syntax error. *)
Definition related_rows (bidir : bool) (max_depth : nat) (memory_id : text) (types : option (list text))
    (g : graph) : list record :=
  flat_map (fun start =>
    omap (fun x : nat * list nat =>
      match nodes g !! x.1 with
      | Some n =>
          if labelled label n && another memory_id n &&
             match types with Some ts => typed ts g x.2 | None => true end
          then Some (related_row n (length x.2)) else None
      | None => None
      end) (trails bidir g max_depth [] start))
    (found_memory memory_id g).

Definition find_related_query (bidir : bool) (max_depth : Z) (memory_id : text)
    (types : option (list text)) (limit : Z) (g : graph) : res (list record) :=
  if max_depth <? 0 then Raise (OtherException "ClientError" "invalid path length")
  else limited limit (sort_asc row_depth
         (remove_dups (related_rows bidir (Z.to_nat max_depth) memory_id types g))).

(** The rows of the four [get_connections] queries. *)
Definition connection_row (memory_id : text) (i : nat) (e : edge) (n : node) : record :=
  {[ "source_id" := Str memory_id; "target_id" := property "memory_id" (properties n);
     "relationship_type" := Str (type e); "weight" := property "weight" (e_properties e);
     "created_at" := property "created_at" (e_properties e);
     "is_outgoing" := Bool (bool_decide (source e = i)) ]}.

Definition connection_rows (bidir : bool) (memory_id : text) (types : option (list text)) (g : graph)
    : list record :=
  flat_map (fun i =>
    omap (fun x : nat * nat =>
      e ← edges g !! x.1; n ← nodes g !! x.2;
      if labelled label n && match types with Some ts => bool_decide (type e ∈ ts) | None => true end
      then Some (connection_row memory_id i e n) else None) (incident bidir g i))
    (found_memory memory_id g).

Definition get_connections_query (bidir : bool) (memory_id : text) (types : option (list text))
    (limit : Z) (g : graph) : res (list record) :=
  limited limit (connection_rows bidir memory_id types g).
End queries.
End CypherTemplates.
Import CypherTemplates.

(** ** The adapter *)

(** Its attributes, the database, the delays slept and the numbers drawn. *)
Record world : Type := World {
  _handler : bool;
  _initialized : bool;
  db : calls graph;
  slept : list spec_float;
  drawn : nat;
}.

Definition on_db {A} (m : M (calls graph) A) : M world A := fun w =>
  let (r, d) := m (db w) in (r, World (_handler w) (_initialized w) d (slept w) (drawn w)).

Definition execute_query (q : graph -> res (list record)) : M world (list record) :=
  on_db (call (fun g => (q g, g))).

Definition is_InfraConnectionError (e : exn) : bool :=
  match e with OtherException cls _ => String.eqb cls "InfraConnectionError" | _ => false end.

Section adapter.
Context (cfg : ModelGraphMemoryConfig).
(** [isinstance(e, _TRANSIENT_ERRORS)]; the k-th [random.uniform(0.0, base)];
    [int] of a number or text that is not an integer. *)
Context (transient : exn -> bool) (uniform : nat -> spec_float -> spec_float)
        (int_of : value -> res Z).

Definition _ensure_initialized : M world unit := fun w =>
  if negb (_initialized w) || negb (_handler w)
  then (Raise (RuntimeError "AdapterGraphMemory not initialized. Call initialize() first."), w)
  else (Ok tt, w).

(** [min(base_delay * (2**attempt) + random.uniform(0.0, base_delay), max_delay)] *)
Definition retry_delay (attempt : nat) (jitter : spec_float) : spec_float :=
  let d := float_add (float_mul (retry_base_delay_seconds cfg) (float_of_Z (2 ^ Z.of_nat attempt))) jitter in
  if SFltb (retry_max_delay_seconds cfg) d then retry_max_delay_seconds cfg else d.

Definition sleep (attempt : nat) : M world unit := fun w =>
  let delay := retry_delay attempt (uniform (drawn w) (retry_base_delay_seconds cfg)) in
  (Ok tt, World (_handler w) (_initialized w) (db w) (slept w ++ [delay]) (S (drawn w))).

(** The loop over the attempts, [more] of them after this one. *)
Fixpoint attempts {A} (fn : M world A) (more attempt : nat) : M world A :=
  try_except fn
    (fun exc =>
      if transient exc then
        match more with
        | O => None
        | S more => Some (do! sleep attempt; attempts fn more (S attempt))
        end
      else None).

Definition _execute_with_retry {A} (fn : M world A) : M world A := attempts fn (max_retries cfg) 0.

(** *** [find_related] *)

Definition clamp_score (x : spec_float) : spec_float := max0 (if SFltb one x then one else x).

Definition bounded (given : option Z) (dflt most : Z) : Z := Z.min (default dflt given) most.

Definition depth_of (r : record) : res Z :=
  match r !! "depth" with
  | Some (Int z) => Ok z
  | Some (Bool b) => Ok (if b then 1 else 0)
  | Some (Float _ as v) | Some (Str _ as v) => int_of v
  | _ => Ok 1
  end.

(** [1.0 / (depth_to_node + 1)] *)
Definition score_of (depth : Z) : res spec_float :=
  if depth + 1 =? 0 then Raise (OtherException "ZeroDivisionError" "float division by zero")
  else Ok (float_ratio 1 (depth + 1)).

(** The constraints of the model. *)
Definition related_valid (m : ModelRelatedMemory) : bool :=
  unit_float (score m) && (1 <=? depth m) &&
  forallb (fun l => match l with Str _ => true | _ => false end) (m_labels m).

(** The loop over the records. *)
Fixpoint candidates (start : text) (min_score : spec_float) (rows : list record)
    (memories : list ModelRelatedMemory) (max_depth_reached : Z) (found : nat)
    : res (list ModelRelatedMemory * Z * nat) :=
  match rows with
  | [] => Ok (memories, max_depth_reached, found)
  | r :: rows =>
      match r !! "memory_id" with
      | Some (Str id) =>
          match depth_of r with
          | Raise e => Raise e
          | Ok d =>
              match score_of d with
              | Raise e => Raise e
              | Ok s =>
                  let reached := Z.max max_depth_reached d in
                  if SFltb s min_score then candidates start min_score rows memories reached (S found)
                  else
                    let m := RelatedMemory id s [start; id] d
                      (match r !! "labels" with Some (List l) => l | _ => [] end)
                      (match r !! "properties" with Some (Map p) => p | _ => [] end) in
                    if related_valid m
                    then candidates start min_score rows (memories ++ [m]) reached (S found)
                    else Raise (OtherException "ValidationError" "invalid related memory")
              end
          end
      | _ => candidates start min_score rows memories max_depth_reached found
      end
  end.

(** [heapq.nlargest(n, memories, key=lambda m: m.score)]: of equal ones the
    first. *)
Definition nlargest (n : Z) (l : list ModelRelatedMemory) : list ModelRelatedMemory :=
  take (Z.to_nat n) (sort_best score l).

Definition _do_find_related (start : text) (types : option (list text)) (depth limit query_limit : Z)
    (min_score : spec_float) : M world ModelRelatedMemoryResult :=
  let! node_records := execute_query (node_exists (memory_node_label cfg) start) in
  match node_records with
  | [] => ret (related_error not_found ("Memory '" +:+ to_string start +:+ "' not found in graph"))
  | _ =>
      let! rows := execute_query
        (find_related_query (memory_node_label cfg) (bidirectional cfg) depth start types query_limit) in
      match candidates start min_score rows [] 0 0 with
      | Raise e => raise e
      | Ok (found, reached, count) =>
          match nlargest limit found with
          | [] => ret (RelatedMemoryResult no_results [] 0 count reached None)
          | ms => ret (RelatedMemoryResult success ms (length ms) count reached None)
          end
      end
  end.

(** An empty list of types is as none. *)
Definition given_types (types : option (list text)) : option (list text) :=
  match types with Some [] => None | _ => types end.

Definition find_related (start : text) (depth : option Z) (types : option (list text))
    (limit : option Z) (min_score : spec_float) : M world ModelRelatedMemoryResult :=
  do! _ensure_initialized;
  let effective_depth := bounded depth (default_depth cfg) (max_depth cfg) in
  let effective_limit := bounded limit (default_limit cfg) (max_limit cfg) in
  let query_limit :=
    Z.min (trunc (float_mul (float_of_Z effective_limit) (score_filter_multiplier cfg))) (max_limit cfg) in
  try_except
    (_execute_with_retry
      (_do_find_related start (given_types types) effective_depth effective_limit query_limit
         (clamp_score min_score)))
    (fun e =>
      if transient e then Some (ret (related_error error ("Graph traversal failed: " +:+ exn_str e)))
      else if is_Exception e then Some (ret (related_error error ("Unexpected error: " +:+ exn_str e)))
      else None).

(** *** [get_connections] *)

(** What pydantic accepts as the fields of a connection. *)
Context (accepts : ModelMemoryConnection -> bool).

Definition field (k : string) (r : record) : value := default Null (r !! k).

Definition connection_of (r : record) : res ModelMemoryConnection :=
  let raw_weight := field "weight" r in
  let c := MemoryConnection (field "source_id" r) (field "target_id" r) (field "relationship_type" r)
    (if decide (raw_weight = Null) then Float one else raw_weight)
    (default (Bool true) (r !! "is_outgoing")) (field "created_at" r) in
  if accepts c then Ok c else Raise (OtherException "ValidationError" "invalid connection").

Fixpoint connections_of (rows : list record) : res (list ModelMemoryConnection) :=
  match rows with
  | [] => Ok []
  | r :: rows =>
      match connection_of r with
      | Raise e => Raise e
      | Ok c => match connections_of rows with Raise e => Raise e | Ok l => Ok (c :: l) end
      end
  end.

Definition no_connections : ModelConnectionsResult := ConnectionsResult no_results [] 0 None.
Definition connections_error (s : status) (m : string) : ModelConnectionsResult :=
  ConnectionsResult s [] 0 (Some m).

Definition _do_get_connections (start : text) (bidir : bool) (types : option (list text)) (limit : Z)
    : M world ModelConnectionsResult :=
  let! rows := execute_query (get_connections_query (memory_node_label cfg) bidir start types limit) in
  match rows with
  | [] =>
      let! exists_records := execute_query (node_exists (memory_node_label cfg) start) in
      match exists_records with
      | [] => ret (connections_error not_found ("Memory '" +:+ to_string start +:+ "' not found in graph"))
      | _ => ret no_connections
      end
  | _ =>
      match connections_of rows with
      | Raise e => raise e
      | Ok l => ret (ConnectionsResult success l (length l) None)
      end
  end.

Definition get_connections (start : text) (types : option (list text)) (limit : option Z)
    (bidir : option bool) : M world ModelConnectionsResult :=
  do! _ensure_initialized;
  if match limit with Some l => l <? 1 | None => false end then ret no_connections
  else
    let effective_limit := bounded limit (default_limit cfg) (max_limit cfg) in
    let effective_bidirectional := default (bidirectional cfg) bidir in
    try_except
      (_execute_with_retry
        (_do_get_connections start effective_bidirectional (given_types types) effective_limit))
      (fun e =>
        if transient e then Some (ret (connections_error error ("Query failed: " +:+ exn_str e)))
        else if is_Exception e then
          Some (ret (connections_error error ("Unexpected error: " +:+ exn_str e)))
        else None).

(** *** [initialize] and [shutdown] *)

(** [urlparse], of which the scheme and the host are used; the timeout in the
    message. *)
Context (urlparse : string -> string * string) (timeout_seconds : string).

(** How the steps before the index go: waiting for the lock, creating the
    handler and connecting it. *)
Record connecting : Type := Connecting {
  lock_wait : option exn;
  create_handler : option exn;
  connect : option exn;
}.

Definition set_state (handler initialized : bool) : M world unit :=
  modify (fun w => World handler initialized (db w) (slept w) (drawn w)).

(** The index: an error of the statement is only logged. *)
Definition create_index : M world unit :=
  if ensure_indexes cfg then
    try_except (do! execute_query (fun _ => Ok []); ret tt)
      (fun e => if is_Exception e then Some (ret tt) else None)
  else ret tt.

Definition initialize (uri : string) (c : connecting) : M world unit :=
  let (scheme, hostname) := urlparse uri in
  if String.eqb scheme "" || String.eqb hostname "" then
    raise (ValueError ("Invalid connection_uri: '" +:+ uri +:+ "'. Expected format: " +:+
                       "'bolt://hostname:port' or 'bolt+s://hostname:port'"))
  else
    try_except
      (do! attempt_of (lock_wait c);
       let! w := get in
       if _initialized w then ret tt
       else
         try_except
           (do! attempt_of (create_handler c);
            do! set_state true false;
            do! attempt_of (connect c);
            do! set_state true true;
            create_index)
           (fun e =>
             if is_InfraConnectionError e then None
             else if is_Exception e
             then Some (raise (RuntimeError ("Initialization failed: " +:+ exn_str e)))
             else None))
      (fun e =>
        if decide (e = deadline)
        then Some (raise (RuntimeError ("Initialization timed out after " +:+ timeout_seconds +:+ "s. " +:+
               "Possible causes: (1) Lock contention - another coroutine may be holding the " +:+
               "initialization lock (e.g., a concurrent initialize() call is still in progress); " +:+
               "(2) Database connection issue - the graph database may be slow or unresponsive. " +:+
               "Suggestions: Check if another initialization is in progress, verify the database " +:+
               "is reachable, or increase timeout_seconds in ModelGraphMemoryConfig.")))
        else None).

Definition shutdown (close : option exn) : M world unit :=
  let! w := get in
  if _initialized w && _handler w then
    do! attempt_of close;
    set_state false false
  else ret tt.
End adapter.

(** ** Proofs: the bounds of a call *)

Section bounds.
Context (cfg : ModelGraphMemoryConfig) (transient : exn -> bool)
        (uniform : nat -> spec_float -> spec_float) (int_of : value -> res Z).

Lemma wp_on_db {A} (m : M (calls graph) A) Q w :
  wp (on_db m) Q w <->
  wp m (fun r d => Q r (World (_handler w) (_initialized w) d (slept w) (drawn w))) (db w).
Proof. unfold wp, on_db. by destruct (m (db w)). Qed.

(** Before an answer, [n] queries and the delays [ds]. *)
Definition used (n : nat) (ds : list spec_float) (w w' : world) : Prop :=
  _handler w' = _handler w /\ _initialized w' = _initialized w /\
  (made (db w') <= made (db w) + n)%nat /\ slept w' = slept w ++ ds /\
  env (db w') = env (db w).

Lemma execute_query_used q Q w :
  (forall r w', used 1 [] w w' -> Q r w') -> wp (execute_query q) Q w.
Proof.
  intros HQ. unfold execute_query. rewrite wp_on_db.
  apply wp_store_call; [intros _|intros x applied _]; apply HQ; unfold used; simpl;
    rewrite app_nil_r; split_and!; try done; lia.
Qed.

Definition capped (d : spec_float) : Prop := SFltb (retry_max_delay_seconds cfg) d = false.

Lemma retry_delay_capped attempt jitter : capped (retry_delay cfg attempt jitter).
Proof.
  unfold capped, retry_delay. cbn zeta. destruct (SFltb _ (float_add _ _)) eqn:E; [apply SFltb_irrefl|done].
Qed.

(** The retries, by an invariant of the attempts that are left. *)
Lemma attempts_wp {A} (fn : M world A) (I : nat -> world -> Prop) Q :
  (forall n w, I (S n) w -> wp fn (fun r w' =>
     match r with
     | Ok a => Q (Ok a) w'
     | Raise e =>
         if transient e then
           match n with
           | O => Q (Raise e) w'
           | S _ => forall d, capped d ->
               I n (World (_handler w') (_initialized w') (db w') (slept w' ++ [d]) (S (drawn w')))
           end
         else Q (Raise e) w'
     end) w) ->
  forall more attempt w, I (S more) w -> wp (attempts cfg transient uniform fn more attempt) Q w.
Proof.
  intros Hfn more. induction more as [|more IH]; intros attempt w HI; cbn [attempts]; wp_step;
    (eapply wp_mono; [|by apply (Hfn _ _ HI)]); intros [a|e] w' HQ; simpl in *; try done;
    destruct (transient e); try done.
  wp_step. unfold sleep, wp at 1. cbn [fst snd]. apply IH, HQ, retry_delay_capped.
Qed.

Lemma used_trans n m ds es w1 w2 w3 :
  used n ds w1 w2 -> used m es w2 w3 -> used (n + m) (ds ++ es) w1 w3.
Proof.
  intros (? & ? & ? & Hs & ?) (? & ? & ? & Hs' & ?). unfold used. split_and!; try congruence; [lia|].
  by rewrite Hs', Hs, app_assoc.
Qed.

Lemma retry_used {A} (fn : M world A) k (P : res A -> Prop) w :
  (forall w, wp fn (fun r w' => used k [] w w' /\ P r) w) ->
  wp (_execute_with_retry cfg transient uniform fn) (fun r w' =>
    P r /\ exists ds, used (k * S (max_retries cfg)) ds w w' /\ (length ds <= max_retries cfg)%nat /\
             Forall capped ds) w.
Proof.
  intros Hfn. unfold _execute_with_retry.
  apply (attempts_wp fn (fun n w' => (n <= S (max_retries cfg))%nat /\
    exists ds, used (k * (S (max_retries cfg) - n)) ds w w' /\
      (length ds = S (max_retries cfg) - n)%nat /\ Forall capped ds)).
  - intros n w1 (Hn & ds & Hu & Hl & Hc). eapply wp_mono; [|apply Hfn]. intros r w2 [Hu2 HP]. simpl in *.
    pose proof (used_trans _ _ _ _ _ _ _ Hu Hu2) as Hu3. rewrite app_nil_r in Hu3.
    assert (Hmono : forall a b ds w w', (a <= b)%nat -> used a ds w w' -> used b ds w w').
    { unfold used. intros ????? ? (? & ? & ? & ? & ?). split_and!; try done; lia. }
    assert (HQ : P r /\ exists ds, used (k * S (max_retries cfg)) ds w w2 /\
        (length ds <= max_retries cfg)%nat /\ Forall capped ds).
    { split; [done|]. exists ds. split_and!; [|lia|done]. eapply Hmono; [|exact Hu3]. nia. }
    destruct r as [a|e]; [done|]. destruct (transient e); [|done].
    destruct n as [|n]; [done|]. intros d Hd. split; [lia|]. exists (ds ++ [d]).
    split_and!; [|rewrite length_app; simpl; lia|by apply Forall_app; split; [|constructor]].
    destruct Hu3 as (? & ? & ? & Hs & ?). unfold used. simpl.
    split_and!; [done|done|nia|by rewrite Hs, app_assoc|done].
  - split; [lia|]. exists []. split_and!; [|simpl; lia|constructor].
    unfold used. rewrite app_nil_r. split_and!; try done; lia.
Qed.

(** The statuses and counts of a result agree. *)
Definition related_wellformed (limit : Z) (r : ModelRelatedMemoryResult) : Prop :=
  total_count r = length (memories r) /\ (length (memories r) <= Z.to_nat limit)%nat /\
  (r_status r = success <-> memories r <> []) /\
  (is_Some (r_error_message r) <-> r_status r = error \/ r_status r = not_found).

Lemma related_error_wellformed limit s m : s = error \/ s = not_found ->
  related_wellformed limit (related_error s m).
Proof.
  intros Hs. unfold related_wellformed, related_error. simpl. split_and!; [done|lia| |].
  - by destruct Hs; subst.
  - split; [done|by eexists].
Qed.

Lemma do_find_related_used start types depth limit qlimit min_score w :
  wp (_do_find_related cfg int_of start types depth limit qlimit min_score)
    (fun r w' => used 2 [] w w' /\
       match r with Ok res => related_wellformed limit res | Raise _ => True end) w.
Proof.
  unfold _do_find_related. wp_step. apply execute_query_used. intros [rows|e] w1 H1.
  2: { split; [|done]. destruct H1 as (? & ? & ? & ? & ?). unfold used. split_and!; try done; lia. }
  destruct rows as [|row rows].
  { wp_step. split; [|by apply related_error_wellformed; right].
    destruct H1 as (? & ? & ? & ? & ?). unfold used. split_and!; try done; lia. }
  wp_step. apply execute_query_used. intros r w2 H2.
  pose proof (used_trans _ _ _ _ _ _ _ H1 H2) as Hu. cbn [Nat.add app] in Hu.
  destruct r as [rows2|e]; [|done]. destruct (candidates _ _ _ _ _ _ _) as [[[found reached] count]|e]; [|done].
  assert (Hlen : (length (nlargest limit found) <= Z.to_nat limit)%nat)
    by (unfold nlargest; rewrite length_take; lia).
  destruct (nlargest limit found) as [|m ms]; wp_step; split; try done; unfold related_wellformed; simpl;
    split_and!; try done; try lia; (split; [by intros [? ?]|by intros [?|?]]).
Qed.

(** On an initialised adapter [find_related] never raises, but
    for cancellation: every failure becomes a status, the status, the counts
    and the error message agree, and at most the limit of memories is
    returned. It queries the database at most twice per attempt, makes at most
    [max_retries] attempts after the first, and sleeps before each of these,
    never longer than the maximum delay. *)
Theorem find_related_answers (start : text) (depth : option Z) (types : option (list text))
    (limit : option Z) (min_score : spec_float) (w : world) :
  _initialized w = true -> _handler w = true ->
  (forall e, is_Exception e = false -> transient e = false) ->
  wp (find_related cfg transient uniform int_of start depth types limit min_score)
    (fun r w' =>
       match r with
       | Ok res => related_wellformed (bounded limit (default_limit cfg) (max_limit cfg)) res
       | Raise e => is_Exception e = false
       end /\
       exists ds, used (2 * S (max_retries cfg)) ds w w' /\ (length ds <= max_retries cfg)%nat /\
         Forall (fun d => SFltb (retry_max_delay_seconds cfg) d = false) ds) w.
Proof.
  intros Hi Hh Ht. unfold find_related. wp_step. unfold _ensure_initialized, wp at 1. rewrite Hi, Hh.
  cbn [negb orb fst snd]. wp_step. eapply wp_mono; [|apply retry_used; intros w'; apply do_find_related_used].
  intros [res|e] w' [HP Hu]; simpl in *; [done|].
  destruct (transient e); [wp_step; split; [apply related_error_wellformed; by left|done]|].
  destruct (is_Exception e) eqn:Ee; [wp_step; split; [apply related_error_wellformed; by left|done]|done].
Qed.
End bounds.

(** ** Proofs: what is found *)

(** The memory a row stands for. *)
Definition memory_of (start : text) (r : record) : ModelRelatedMemory :=
  let id := match r !! "memory_id" with Some (Str id) => id | _ => [] end in
  RelatedMemory id (float_ratio 1 (row_depth r + 1)) [start; id] (row_depth r)
    (match r !! "labels" with Some (List l) => l | _ => [] end)
    (match r !! "properties" with Some (Map p) => p | _ => [] end).

(** A row as the query gives it of a memory whose identifier is a text. *)
Definition good (r : record) : Prop :=
  exists n v d, r = related_row n d /\ property "memory_id" (properties n) = Str v /\ (1 <= d <= 10)%nat.

Definition passes (min_score : spec_float) (r : record) : Prop :=
  SFltb (float_ratio 1 (row_depth r + 1)) min_score = false.

#[export] Instance passes_dec min_score r : Decision (passes min_score r).
Proof. unfold passes. apply _. Defined.

Lemma related_row_fields n d :
  related_row n d !! "memory_id" = Some (property "memory_id" (properties n)) /\
  related_row n d !! "labels" = Some (List (Str <$> labels n)) /\
  related_row n d !! "properties" =
    Some (Map ((fun x : string * value => (of_string x.1, x.2)) <$> map_to_list (properties n))) /\
  related_row n d !! "depth" = Some (Int (Z.of_nat d)).
Proof. done. Qed.

Lemma good_depth r : good r -> 1 <= row_depth r <= 10.
Proof.
  intros (n & v & d & -> & _ & Hd). unfold row_depth.
  destruct (related_row_fields n d) as (_ & _ & _ & ->). lia.
Qed.

(** The ten scores: between 0 and 1, and none greater at a greater depth. *)
Definition depths : list nat := seq 1 10.
Lemma scores_checked :
  forallb (fun d => unit_float (float_ratio 1 (Z.of_nat d + 1)) &&
    forallb (fun d' => implb (d <=? d')%nat
      (negb (SFltb (float_ratio 1 (Z.of_nat d + 1)) (float_ratio 1 (Z.of_nat d' + 1)))) &&
      implb (d <? d')%nat
      (SFltb (float_ratio 1 (Z.of_nat d' + 1)) (float_ratio 1 (Z.of_nat d + 1)))) depths) depths = true.
Proof. by vm_compute. Qed.

Lemma scores d d' : 1 <= d <= 10 -> 1 <= d' <= 10 ->
  unit_float (float_ratio 1 (d + 1)) = true /\
  (d <= d' -> SFltb (float_ratio 1 (d + 1)) (float_ratio 1 (d' + 1)) = false) /\
  (d < d' -> SFltb (float_ratio 1 (d' + 1)) (float_ratio 1 (d + 1)) = true).
Proof.
  intros Hd Hd'. pose proof scores_checked as H. rewrite forallb_forall in H.
  assert (Hin : forall z, 1 <= z <= 10 -> In (Z.to_nat z) depths) by (intros; apply in_seq; lia).
  specialize (H _ (Hin d Hd)). rewrite Z2Nat.id in H by lia. apply andb_true_iff in H as [Hu H].
  rewrite forallb_forall in H. specialize (H _ (Hin d' Hd')). rewrite Z2Nat.id in H by lia.
  apply andb_true_iff in H as [H1 H2]. split_and!; [done|intros Hle|intros Hlt].
  - rewrite (proj2 (Nat.leb_le _ _)) in H1 by lia. by apply negb_true_iff in H1.
  - by rewrite (proj2 (Nat.ltb_lt _ _)) in H2 by lia.
Qed.

(** A deeper row does not pass where a nearer one did not. *)
Lemma passes_cut min_score r r' : good r -> good r' -> row_depth r <= row_depth r' ->
  passes min_score r' -> passes min_score r.
Proof.
  intros Hr%good_depth Hr'%good_depth Hle. unfold passes.
  destruct (SFltb (float_ratio 1 (row_depth r + 1)) _) eqn:E; [|done].
  intros H. destruct (decide (row_depth r = row_depth r')) as [He|Hne]; [congruence|].
  destruct (scores (row_depth r) (row_depth r') Hr Hr') as (_ & _ & Hlt).
  pose proof (SFltb_trans _ _ _ (Hlt ltac:(lia)) E). congruence.
Qed.

Section found.
Context (cfg : ModelGraphMemoryConfig) (transient : exn -> bool)
        (uniform : nat -> spec_float -> spec_float) (int_of : value -> res Z).

Lemma candidates_good start min_score : forall rows acc reached found,
  Forall good rows ->
  exists reached', candidates int_of start min_score rows acc reached found =
    Ok (acc ++ (memory_of start <$> filter (passes min_score) rows), reached', (found + length rows)%nat).
Proof.
  intros rows. induction rows as [|r rows IH]; intros acc reached found Hg; cbn [candidates].
  { exists reached. by rewrite app_nil_r, Nat.add_0_r. }
  apply Forall_cons in Hg as [Hr Hg]. pose proof (good_depth r Hr) as Hd.
  destruct Hr as (n & v & d & -> & Hv & Hd').
  destruct (related_row_fields n d) as (E1 & E2 & E3 & E4).
  assert (Erow : row_depth (related_row n d) = Z.of_nat d) by (unfold row_depth; by rewrite E4).
  rewrite E1, Hv. unfold depth_of. rewrite E4. unfold score_of. rewrite (proj2 (Z.eqb_neq _ _)) by lia.
  destruct (decide (passes min_score (related_row n d))) as [Hp|Hp];
    [rewrite filter_cons_True by done|rewrite filter_cons_False by done]; unfold passes in Hp; rewrite Erow in Hp.
  - rewrite Hp. destruct (scores (Z.of_nat d) (Z.of_nat d) ltac:(lia) ltac:(lia)) as (Hu & _ & _).
    rewrite E2, E3. unfold related_valid. cbn [score depth m_labels]. rewrite Hu, Zleb_T by lia.
    rewrite (proj2 (forallb_forall _ _)).
    2: { intros x Hx. apply list_elem_of_In, list_elem_of_fmap in Hx as (l & -> & _). done. }
    cbn [andb]. destruct (IH (acc ++ [memory_of start (related_row n d)]) (Z.max reached (Z.of_nat d)) (S found) Hg)
      as [reached' E]. exists reached'.
    assert (memory_of start (related_row n d) = RelatedMemory v (float_ratio 1 (Z.of_nat d + 1)) [start; v]
      (Z.of_nat d) (Str <$> labels n)
      ((fun x : string * value => (of_string x.1, x.2)) <$> map_to_list (properties n))) as Em.
    { unfold memory_of. by rewrite Erow, E1, E2, E3, Hv. }
    rewrite <- Em, E, <- app_assoc. simpl. by rewrite Nat.add_succ_r.
  - destruct (SFltb _ min_score); [|done].
    destruct (IH acc (Z.max reached (Z.of_nat d)) (S found) Hg) as [reached' E]. exists reached'.
    rewrite E. simpl. by rewrite Nat.add_succ_r.
Qed.

(** The rows around [start], nearest first. *)
Definition rows_around (start : text) (types : option (list text)) (depth : nat) (g : graph) : list record :=
  sort_asc row_depth (remove_dups
    (related_rows (memory_node_label cfg) (bidirectional cfg) depth start types g)).

(** The memories of the identifiers that are texts, which the adapter reads. *)
Definition texts_only (g : graph) : Prop :=
  forall i n, nodes g !! i = Some n -> labelled (memory_node_label cfg) n = true ->
    exists v, property "memory_id" (properties n) = Str v.

Lemma related_rows_elem start types depth g r :
  r ∈ rows_around start types depth g <->
  exists s j n ks, s ∈ found_memory (memory_node_label cfg) start g /\
    (j, ks) ∈ trails (bidirectional cfg) g depth [] s /\ nodes g !! j = Some n /\
    labelled (memory_node_label cfg) n = true /\ another start n = true /\
    match types with Some ts => typed ts g ks | None => true end = true /\
    r = related_row n (length ks).
Proof.
  unfold rows_around. rewrite (proj1 (sort_asc_spec row_depth _)), elem_of_remove_dups. unfold related_rows. rewrite list_elem_of_In, in_flat_map. split.
  - intros (s & Hs & Hr). apply list_elem_of_In in Hs.
    apply list_elem_of_In, list_elem_of_omap in Hr as ([j ks] & Hj & Hr). simpl in Hr.
    destruct (nodes g !! j) as [n|] eqn:En; [|done].
    destruct (labelled _ n) eqn:El, (another start n) eqn:Ea; try done.
    destruct types as [ts|]; [destruct (typed ts g ks) eqn:Et; [|done]|]; simpl in Hr; injection Hr as <-;
      exists s, j, n, ks; by split_and!.
  - intros (s & j & n & ks & Hs & Hj & En & El & Ea & Et & ->). exists s. split; [by apply list_elem_of_In|].
    apply list_elem_of_In, list_elem_of_omap. exists (j, ks). split; [done|]. simpl.
    rewrite En, El, Ea. destruct types as [ts|]; [rewrite Et|]; done.
Qed.

Lemma trail_length bidir g depth s j ks : (j, ks) ∈ trails bidir g depth [] s -> (1 <= length ks <= depth)%nat.
Proof.
  intros H. apply trails_walk in H as (ks' & Hne & Hl & -> & _). rewrite app_nil_r, length_rev.
  destruct ks'; [done|simpl in *; lia].
Qed.

Lemma rows_good start types depth g : texts_only g -> (depth <= 10)%nat ->
  Forall good (rows_around start types depth g).
Proof.
  intros Ht Hd. apply Forall_forall. intros r Hr.
  apply related_rows_elem in Hr as (s & j & n & ks & _ & Hj & En & El & _ & _ & ->).
  apply trail_length in Hj. destruct (Ht _ _ En El) as [v Hv]. exists n, v, (length ks). split_and!; try done; lia.
Qed.

Lemma rows_sorted min_score start types depth g : texts_only g -> (depth <= 10)%nat ->
  StronglySorted (fun a b => passes min_score b -> passes min_score a) (rows_around start types depth g) /\
  StronglySorted (fun a b => row_depth a <= row_depth b) (rows_around start types depth g).
Proof.
  intros Ht Hd. pose proof (rows_good start types depth g Ht Hd) as Hg. rewrite Forall_forall in Hg.
  assert (Hs : StronglySorted (fun a b => row_depth a <= row_depth b) (rows_around start types depth g)).
  { unfold rows_around. by apply (sort_asc_spec row_depth). }
  split; [|done]. eapply sorted_weaken; [|exact Hs]. intros x y Hx Hy Hle. apply passes_cut; auto.
Qed.

(** The whole call without failures. *)
Definition found_memories (start : text) (types : option (list text)) (depth limit : nat)
    (min_score : spec_float) (g : graph) : list ModelRelatedMemory :=
  memory_of start <$> take limit (filter (passes min_score) (rows_around start types depth g)).

Lemma nlargest_memories start min_score limit rows :
  Forall good rows -> StronglySorted (fun a b => row_depth a <= row_depth b) rows ->
  nlargest limit (memory_of start <$> filter (passes min_score) rows) =
  memory_of start <$> take (Z.to_nat limit) (filter (passes min_score) rows).
Proof.
  intros Hg Hs. unfold nlargest. rewrite sort_best_ranked, fmap_take; [done|].
  assert (Hs' : StronglySorted (fun a b => row_depth a <= row_depth b) (filter (passes min_score) rows)).
  { clear Hg. induction Hs as [|r rows Hs IH Hf]; [constructor|]. rewrite filter_cons. case_decide; [|done].
    constructor; [done|]. rewrite Forall_forall in *. intros x Hx. apply Hf.
    by apply list_elem_of_filter in Hx as [_ ?]. }
  assert (Hg' : Forall good (filter (passes min_score) rows)).
  { rewrite Forall_forall in *. intros x Hx. apply Hg. by apply list_elem_of_filter in Hx as [_ ?]. }
  revert Hs' Hg'. generalize (filter (passes min_score) rows) as l. induction 1 as [|r l Hl IH Hf]; [constructor|].
  intros Hg'. apply Forall_cons in Hg' as [Hr Hg']. cbn [fmap list_fmap]. constructor; [by apply IH|].
  apply Forall_forall. intros x Hx. apply list_elem_of_fmap in Hx as (r' & -> & Hin). simpl.
  apply (scores (row_depth r) (row_depth r')); [by apply good_depth|apply good_depth|].
  - exact (proj1 (Forall_forall _ _) Hg' r' Hin).
  - exact (proj1 (Forall_forall _ _) Hf r' Hin).
Qed.

(** A call in a database that nobody else uses, on a memory that is there. *)
Record calm (start : text) (depth limit : Z) (w : world) : Prop := {
  calm_init : _initialized w = true;
  calm_handler : _handler w = true;
  calm_quiet : quiet (db w);
  calm_texts : texts_only (store (db w));
  calm_start : found_memory (memory_node_label cfg) start (store (db w)) <> [];
  calm_depth : 0 <= depth <= 10;
  calm_limit : 1 <= limit <= max_limit cfg;
  calm_multiplier : limit <= trunc (float_mul (float_of_Z limit) (score_filter_multiplier cfg));
}.

Lemma find_related_calm start depth types limit min_score w :
  let D := bounded depth (default_depth cfg) (max_depth cfg) in
  let L := bounded limit (default_limit cfg) (max_limit cfg) in
  let ms := found_memories start (given_types types) (Z.to_nat D) (Z.to_nat L) (clamp_score min_score)
              (store (db w)) in
  calm start D L w ->
  wp (find_related cfg transient uniform int_of start depth types limit min_score)
    (fun r w' => store (db w') = store (db w) /\ exists res, r = Ok res /\ memories res = ms /\
       r_status res = if decide (ms = []) then no_results else success) w.
Proof.
  intros D L ms [Hi Hh Hq Ht Hs HD HL Hm]. unfold find_related. fold D L. wp_step.
  unfold _ensure_initialized, wp at 1. rewrite Hi, Hh. cbn [negb orb fst snd]. wp_step.
  set (ql := Z.min (trunc _) (max_limit cfg)). assert (Hql : L <= ql) by (unfold ql; lia).
  unfold _execute_with_retry. assert (Hdo : wp (_do_find_related cfg int_of start (given_types types) D L ql
    (clamp_score min_score)) (fun r w' => store (db w') = store (db w) /\ exists res, r = Ok res /\
      memories res = ms /\ r_status res = if decide (ms = []) then no_results else success) w).
  { unfold _do_find_related. wp_step. unfold execute_query. rewrite wp_on_db. apply quiet_store_call; [done|].
    cbn [fst snd]. unfold node_exists. destruct (found_memory _ start _) as [|i0 others] eqn:Ef; [done|].
    cbn [fmap list_fmap take]. wp_step. rewrite wp_on_db. apply quiet_store_call; [done|]. cbn [fst snd db store after].
    unfold find_related_query. rewrite Zltb_F by lia. unfold limited. rewrite Zltb_F by lia.
    pose proof (rows_good start (given_types types) (Z.to_nat D) (store (db w)) Ht ltac:(lia)) as Hg.
    destruct (rows_sorted (clamp_score min_score) start (given_types types) (Z.to_nat D) (store (db w)) Ht
      ltac:(lia)) as [Hc Hd].
    fold (rows_around start (given_types types) (Z.to_nat D) (store (db w))).
    set (rows := rows_around _ _ _ _) in *.
    assert (Hg' : Forall good (take (Z.to_nat ql) rows)).
    { rewrite <- (take_drop (Z.to_nat ql) rows) in Hg. by apply Forall_app in Hg as [? _]. }
    assert (Hd' : StronglySorted (fun a b => row_depth a <= row_depth b) (take (Z.to_nat ql) rows)).
    { rewrite <- (take_drop (Z.to_nat ql) rows) in Hd. by apply StronglySorted_app in Hd as (_ & ? & _). }
    destruct (candidates_good start (clamp_score min_score) _ [] 0 0 Hg') as [reached ->].
    cbn [app]. rewrite nlargest_memories by done.
    rewrite (take_filter_cut (passes (clamp_score min_score))) by (done || lia).
    change (memory_of start <$> take (Z.to_nat L) (filter (passes (clamp_score min_score)) rows)) with ms.
    destruct ms as [|m l]; wp_step; (split; [done|]); by eexists. }
  destruct (max_retries cfg); cbn [attempts]; wp_step; (eapply wp_mono; [|exact Hdo]);
    intros r w' (Hst & res & -> & H1 & H2); (split; [done|]); by exists res.
Qed.

(** Without failures the answer is exactly this: the rows of the
    traversal, nearest first, those whose score reaches the minimum, the first
    [limit] of them. The multiplier, documented to bring more results when it
    is raised, has no influence, as the rows that the minimum filters out come
    after those it keeps. *)
Theorem find_related_exact (start : text) (depth : option Z) (types : option (list text))
    (limit : option Z) (min_score : spec_float) (w : world) :
  let D := bounded depth (default_depth cfg) (max_depth cfg) in
  let L := bounded limit (default_limit cfg) (max_limit cfg) in
  let ms := memory_of start <$> take (Z.to_nat L) (filter (passes (clamp_score min_score))
              (rows_around start (given_types types) (Z.to_nat D) (store (db w)))) in
  calm start D L w ->
  wp (find_related cfg transient uniform int_of start depth types limit min_score)
    (fun r w' => store (db w') = store (db w) /\ exists res, r = Ok res /\ memories res = ms /\
       r_status res = if decide (ms = []) then no_results else success) w.
Proof. apply find_related_calm. Qed.

(** There is a way of [n] edges of these types from a memory [start]. *)
Definition reaches (start : text) (types : option (list text)) (g : graph) (j n : nat) : Prop :=
  exists s ks, s ∈ found_memory (memory_node_label cfg) start g /\ walk (bidirectional cfg) g j s ks /\
    match types with Some ts => typed ts g ks | None => true end = true /\ length ks = n.

Lemma typed_rev ts g ks : typed ts g (rev ks) = typed ts g ks.
Proof.
  apply Bool.eq_iff_eq_true. unfold typed. rewrite !forallb_forall.
  split; intros H k Hk; apply H; by apply in_rev + (rewrite in_rev, rev_involutive).
Qed.

Lemma found_sound start types depth limit min_score g m :
  m ∈ found_memories start types depth limit min_score g -> texts_only g -> (depth <= 10)%nat ->
  exists j n, nodes g !! j = Some n /\ labelled (memory_node_label cfg) n = true /\
    property "memory_id" (properties n) = Str (memory_id m) /\ memory_id m <> start /\
    reaches start types g j (Z.to_nat (MemoryGraph.depth m)) /\ 1 <= MemoryGraph.depth m <= Z.of_nat depth /\
    score m = float_ratio 1 (MemoryGraph.depth m + 1) /\ SFltb (score m) min_score = false.
Proof.
  intros Hm Ht Hd. apply list_elem_of_fmap in Hm as (r & -> & Hr).
  apply (subseteq_take limit) in Hr. apply list_elem_of_filter in Hr as [Hp Hr].
  pose proof Hr as Hr'. apply related_rows_elem in Hr as (s & j & n & ks & Hs & Hj & En & El & Ea & Et & ->).
  destruct (Ht _ _ En El) as [v Hv]. destruct (related_row_fields n (length ks)) as (E1 & _ & _ & E4).
  pose proof (trail_length _ _ _ _ _ _ Hj) as Hlen.
  assert (Erow : row_depth (related_row n (length ks)) = Z.of_nat (length ks)) by (unfold row_depth; by rewrite E4).
  exists j, n. unfold memory_of. cbn [memory_id MemoryGraph.depth score]. rewrite E1, Hv, Erow.
  unfold passes in Hp. rewrite Erow in Hp. split_and!; try done; try lia.
  - intros ->. unfold another in Ea. rewrite Hv in Ea. by case_bool_decide.
  - exists s, (rev ks). apply trails_walk in Hj as (ks' & _ & _ & -> & _ & _ & Hw).
    rewrite app_nil_r in *. rewrite rev_involutive, Nat2Z.id, length_rev.
    split_and!; [done|done| |done]. destruct types; [|done]. by rewrite <- typed_rev.
Qed.

Lemma found_complete start types depth limit min_score g j n k v :
  nodes g !! j = Some n -> labelled (memory_node_label cfg) n = true ->
  property "memory_id" (properties n) = Str v -> v <> start ->
  reaches start types g j k -> (k <= depth <= 10)%nat -> texts_only g ->
  SFltb (float_ratio 1 (Z.of_nat k + 1)) min_score = false ->
  let ms := found_memories start types depth limit min_score g in
  (exists m, m ∈ ms /\ memory_id m = v /\ MemoryGraph.depth m <= Z.of_nat k) \/
  (length ms = limit /\ forall m, m ∈ ms -> MemoryGraph.depth m <= Z.of_nat k).
Proof.
  intros En El Hv Hne (s & ks & Hs & Hw & Et & Hk) Hd Ht Hp ms.
  assert (Hsj : s <> j).
  { intros ->. unfold found_memory, node_ids in Hs. apply list_elem_of_filter in Hs as [Hs _].
    rewrite En in Hs. apply andb_true_iff in Hs as [_ Hs]. unfold has in Hs. rewrite Hv in Hs.
    case_bool_decide; congruence. }
  set (P k := match types with Some ts => typed ts g [k] | None => true end = true).
  assert (HP : forall l, Forall P l <-> match types with Some ts => typed ts g l | None => true end = true).
  { unfold P. intros l. destruct types as [ts|]; [|split; [done|]; intros _; by apply Forall_forall].
    unfold typed. rewrite forallb_forall, Forall_forall. setoid_rewrite list_elem_of_In.
    cbn [forallb]. setoid_rewrite andb_true_r. done. }
  destruct (proj1 (trails_shortest (bidirectional cfg) g P depth s j k Hsj ltac:(lia)))
    as (r & Hr & Hrt & Hrl); [exists ks; split_and!; [done|by apply HP|lia]|].
  assert (Hin : related_row n (length r) ∈ rows_around start types depth g).
  { apply related_rows_elem. exists s, j, n, r. split_and!; try done; [|by apply HP].
    unfold another. rewrite Hv. apply bool_decide_true. congruence. }
  pose proof (trail_length _ _ _ _ _ _ Hr) as Hlen.
  destruct (related_row_fields n (length r)) as (E1 & _ & _ & E4).
  assert (Erow : row_depth (related_row n (length r)) = Z.of_nat (length r)) by (unfold row_depth; by rewrite E4).
  destruct (rows_sorted min_score start types depth g Ht ltac:(lia)) as [_ Hsd].
  assert (Hpass : passes min_score (related_row n (length r))).
  { unfold passes. rewrite Erow. destruct (decide (length r = k)) as [->|]; [done|].
    destruct (SFltb (float_ratio 1 (Z.of_nat (length r) + 1)) min_score) eqn:E; [|done].
    destruct (scores (Z.of_nat (length r)) (Z.of_nat k) ltac:(lia) ltac:(lia)) as (_ & _ & Hlt).
    rewrite (SFltb_trans _ _ _ (Hlt ltac:(lia)) E) in Hp. done. }
  set (F := filter (passes min_score) (rows_around start types depth g)) in *.
  assert (HF : related_row n (length r) ∈ F) by (by apply list_elem_of_filter).
  assert (HFs : StronglySorted (fun a b => row_depth a <= row_depth b) F).
  { unfold F. clear -Hsd. induction Hsd as [|x l Hs IH Hf]; [constructor|]. rewrite filter_cons.
    case_decide; [|done]. constructor; [done|]. apply Forall_forall. intros y Hy.
    apply list_elem_of_filter in Hy as [_ Hy]. exact (proj1 (Forall_forall _ _) Hf y Hy). }
  unfold ms, found_memories. fold F. rewrite <- (take_drop limit F) in HF, HFs.
  apply elem_of_app in HF as [HF|HF].
  - left. exists (memory_of start (related_row n (length r))). split; [by apply list_elem_of_fmap_2|].
    unfold memory_of. cbn [memory_id MemoryGraph.depth]. rewrite E1, Hv, Erow. split; [done|lia].
  - right. apply StronglySorted_app in HFs as (Hc & _ & _). split.
    + rewrite length_fmap, length_take. destruct (decide (limit <= length F)%nat); [lia|].
      rewrite drop_ge in HF by lia. by apply not_elem_of_nil in HF.
    + intros m Hm. apply list_elem_of_fmap in Hm as (x & -> & Hx). specialize (Hc x _ Hx HF).
      rewrite Erow in Hc. unfold memory_of. cbn [MemoryGraph.depth]. lia.
Qed.

(** C31: the memories found are real and the nearest: each is
    another memory that a way of as many edges as its depth says leads to,
    along edges of the given types, with the score of that depth; and when a
    memory can be reached in [k] edges and [k] is within the bounds, then it is
    in the result at a depth of at most [k], unless the result is full of
    memories that are as near. *)
Theorem find_related_nearest (start : text) (depth : option Z) (types : option (list text))
    (limit : option Z) (min_score : spec_float) (w : world) :
  let D := bounded depth (default_depth cfg) (max_depth cfg) in
  let L := bounded limit (default_limit cfg) (max_limit cfg) in
  let g := store (db w) in
  calm start D L w ->
  wp (find_related cfg transient uniform int_of start depth types limit min_score)
    (fun r _ => exists res, r = Ok res /\
      (forall m, m ∈ memories res -> exists j n,
         nodes g !! j = Some n /\ labelled (memory_node_label cfg) n = true /\
         property "memory_id" (properties n) = Str (memory_id m) /\ memory_id m <> start /\
         reaches start (given_types types) g j (Z.to_nat (MemoryGraph.depth m)) /\
         1 <= MemoryGraph.depth m <= D /\ score m = float_ratio 1 (MemoryGraph.depth m + 1) /\
         SFltb (score m) (clamp_score min_score) = false) /\
      (forall j n k v, nodes g !! j = Some n -> labelled (memory_node_label cfg) n = true ->
         property "memory_id" (properties n) = Str v -> v <> start ->
         reaches start (given_types types) g j k -> Z.of_nat k <= D ->
         SFltb (float_ratio 1 (Z.of_nat k + 1)) (clamp_score min_score) = false ->
         (exists m, m ∈ memories res /\ memory_id m = v /\ MemoryGraph.depth m <= Z.of_nat k) \/
         (Z.of_nat (length (memories res)) = L /\
          forall m, m ∈ memories res -> MemoryGraph.depth m <= Z.of_nat k))) w.
Proof.
  intros D L g Hcalm. destruct Hcalm as [? ? ? Ht ? HD HL ?] eqn:Ec. clear Ec.
  eapply wp_mono; [|by apply (find_related_calm start depth types limit min_score w)].
  intros r w' (_ & res & -> & Hms & _). exists res. split; [done|]. rewrite Hms. fold D L g. split.
  - intros m Hm. apply found_sound in Hm as (j & n & ? & ? & ? & ? & ? & ? & ? & ?); [|done|lia].
    exists j, n. split_and!; try done; lia.
  - intros j n k v En El Hv Hne Hr Hk Hp.
    destruct (found_complete start (given_types types) (Z.to_nat D) (Z.to_nat L) (clamp_score min_score) g j n k v)
      as [?|[Hl ?]]; try done; [lia|by left|right]. split; [|done]. rewrite Hl. lia.
Qed.
End found.

(** ** Proofs: connections and the life cycle *)

Section connections.
Context (cfg : ModelGraphMemoryConfig) (transient : exn -> bool)
        (uniform : nat -> spec_float -> spec_float) (accepts : ModelMemoryConnection -> bool).

Definition connection (r : record) : ModelMemoryConnection :=
  let raw_weight := field "weight" r in
  MemoryConnection (field "source_id" r) (field "target_id" r) (field "relationship_type" r)
    (if decide (raw_weight = Null) then Float one else raw_weight)
    (default (Bool true) (r !! "is_outgoing")) (field "created_at" r).

Lemma connections_of_accepted rows : Forall (fun r => accepts (connection r) = true) rows ->
  connections_of accepts rows = Ok (connection <$> rows).
Proof.
  induction 1 as [|r rows Hr _ IH]; [done|]. cbn [connections_of]. unfold connection_of.
  fold (connection r). cbn zeta. by rewrite Hr, IH.
Qed.

(** The edge [k] of the memory [start] leads to another, seen from node [i]. *)
Definition connects (bidir : bool) (start : text) (types : option (list text)) (g : graph)
    (i : nat) (e : edge) (n : node) : Prop :=
  i ∈ found_memory (memory_node_label cfg) start g /\
  exists k j, edges g !! k = Some e /\ leads bidir i e = Some j /\ nodes g !! j = Some n /\
    labelled (memory_node_label cfg) n = true /\
    match types with Some ts => type e ∈ ts | None => True end.

Lemma connection_rows_elem bidir start types g r :
  r ∈ connection_rows (memory_node_label cfg) bidir start types g <->
  exists i e n, connects bidir start types g i e n /\ r = connection_row start i e n.
Proof.
  unfold connection_rows. rewrite list_elem_of_In, in_flat_map. split.
  - intros (i & Hi & Hr). apply list_elem_of_In in Hi.
    apply list_elem_of_In, list_elem_of_omap in Hr as ([k j] & Hkj & Hr).
    apply incident_step in Hkj as (e' & Ee & Hl). simpl in Hr. rewrite Ee in Hr. simpl in Hr.
    destruct (nodes g !! j) as [n|] eqn:En; [|done]. simpl in Hr.
    destruct (labelled _ n) eqn:El; [|done]. exists i, e', n.
    destruct types as [ts|]; simpl in Hr; [case_bool_decide; [|done]|]; injection Hr as <-;
      (split; [|done]); (split; [done|]); exists k, j; by split_and!.
  - intros (i & e & n & [Hi (k & j & Ee & Hl & En & El & Ht)] & ->). exists i.
    split; [by apply list_elem_of_In|]. apply list_elem_of_In, list_elem_of_omap. exists (k, j).
    split; [apply incident_step; by exists e|]. simpl. rewrite Ee. simpl. rewrite En. simpl. rewrite El.
    destruct types as [ts|]; [by rewrite bool_decide_true|done].
Qed.

(** Without failures the connections are those of the edges
    at the memory, each exactly as the edge says, the first [limit] of them;
    without any, the status tells a memory without connections from one that
    does not exist. *)
Theorem get_connections_exact (start : text) (types : option (list text)) (limit : option Z)
    (bidir : option bool) (w : world) :
  let L := bounded limit (default_limit cfg) (max_limit cfg) in
  let g := store (db w) in
  let rows := connection_rows (memory_node_label cfg) (default (bidirectional cfg) bidir) start
                (given_types types) g in
  _initialized w = true -> _handler w = true -> quiet (db w) -> 1 <= L ->
  (forall r, r ∈ rows -> accepts (connection r) = true) ->
  wp (get_connections cfg transient uniform accepts start types limit bidir)
    (fun r _ => exists res, r = Ok res /\
       connections res = connection <$> take (Z.to_nat L) rows /\
       c_total_count res = length (connections res) /\
       c_status res = (if decide (rows = [])
                       then if decide (found_memory (memory_node_label cfg) start g = [])
                            then not_found else no_results
                       else success) /\
       (forall c, c ∈ connection <$> rows <->
          exists i e n, connects (default (bidirectional cfg) bidir) start (given_types types) g i e n /\
            c = MemoryConnection (Str start) (property "memory_id" (properties n)) (Str (type e))
                  (if decide (property "weight" (e_properties e) = Null) then Float one
                   else property "weight" (e_properties e))
                  (Bool (bool_decide (source e = i))) (property "created_at" (e_properties e)))) w.
Proof.
  intros L g rows Hi Hh Hq HL Hacc. unfold get_connections. fold L. wp_step.
  unfold _ensure_initialized, wp at 1. rewrite Hi, Hh. cbn [negb orb fst snd]. wp_step.
  destruct (match limit with Some l => l <? 1 | None => false end) eqn:El.
  { destruct limit as [l|]; [|done]. breflect. unfold L, bounded in HL. simpl in HL. lia. }
  wp_step.
  assert (Hspec : forall c, c ∈ connection <$> rows <->
    exists i e n, connects (default (bidirectional cfg) bidir) start (given_types types) g i e n /\
      c = MemoryConnection (Str start) (property "memory_id" (properties n)) (Str (type e))
            (if decide (property "weight" (e_properties e) = Null) then Float one
             else property "weight" (e_properties e))
            (Bool (bool_decide (source e = i))) (property "created_at" (e_properties e))).
  { intros c. rewrite list_elem_of_fmap. unfold rows. setoid_rewrite connection_rows_elem. split.
    - intros (r & -> & i & e & n & Hc & ->). by exists i, e, n.
    - intros (i & e & n & Hc & ->). exists (connection_row start i e n). split; [done|]. by exists i, e, n. }
  unfold _execute_with_retry. assert (Hdo : wp (_do_get_connections cfg accepts start
      (default (bidirectional cfg) bidir) (given_types types) L)
    (fun r _ => exists res, r = Ok res /\ connections res = connection <$> take (Z.to_nat L) rows /\
       c_total_count res = length (connections res) /\
       c_status res = (if decide (rows = []) then if decide (found_memory (memory_node_label cfg) start g = [])
                            then not_found else no_results else success)) w).
  { unfold _do_get_connections. wp_step. unfold execute_query. rewrite wp_on_db. apply quiet_store_call; [done|].
    cbn [fst snd]. unfold get_connections_query, limited. rewrite Zltb_F by lia. fold g rows.
    destruct rows as [|r0 rs] eqn:Er.
    - rewrite take_nil. wp_step. rewrite wp_on_db. apply quiet_store_call; [done|]. cbn [fst snd db store after].
      unfold node_exists. fold g. destruct (found_memory _ start g); cbn [fmap list_fmap take]; wp_step; by eexists.
    - destruct (Z.to_nat L) as [|l] eqn:Eln; [lia|]. cbn [take]. rewrite connections_of_accepted.
      + wp_step. by eexists.
      + apply Forall_forall. intros r Hr. apply Hacc. apply elem_of_cons in Hr as [->|Hr]; [left|right].
        by apply subseteq_take in Hr. }
  destruct (max_retries cfg); cbn [attempts]; wp_step; (eapply wp_mono; [|exact Hdo]);
    intros r w' (res & -> & H1 & H2 & H3); exists res; by split_and!.
Qed.

(** A successful [initialize] leaves a usable adapter, and a failed
    one an unusable one, except for one case: cancellation while the index is
    created, by the adapter's own deadline for one, is reported as a failure of
    an adapter that is initialised. *)
Theorem initialize_outcomes (urlparse : string -> string * string) (timeout_seconds uri : string)
    (c : connecting) (w : world) :
  _initialized w = false ->
  wp (initialize cfg urlparse timeout_seconds uri c)
    (fun r w' => match r with
       | Ok _ => _initialized w' = true /\ _handler w' = true
       | Raise e =>
           _initialized w' = false \/
           (_initialized w' = true /\ ensure_indexes cfg = true /\ exists x applied,
              ends (env (db w) (made (db w))) = Fails x applied /\ is_Exception x = false)
       end) w.
Proof.
  intros Hi. unfold initialize. destruct (urlparse uri) as [scheme hostname].
  destruct (_ || _); [wp_step; by left|]. wp_step.
  destruct (lock_wait c) as [e|]; cbn [attempt_of]; wp_step.
  { destruct (decide (e = deadline)); [wp_step|]; by left. }
  unfold get, wp at 1. cbn [fst snd]. wp_step. rewrite Hi. wp_step.
  assert (Hlate : forall e (w' : world) (Q : res unit -> world -> Prop), (forall e, Q (Raise e) w') ->
    match (if is_InfraConnectionError e then None
           else if is_Exception e then Some (raise (RuntimeError ("Initialization failed: " +:+ exn_str e)))
           else None) with
    | Some k => wp k Q w'
    | None => Q (Raise e) w'
    end).
  { intros e w' Q HQ. destruct (is_InfraConnectionError e), (is_Exception e); try apply HQ. }
  destruct (create_handler c) as [e|]; cbn [attempt_of]; wp_step.
  { apply Hlate. intros e'. destruct (decide (e' = deadline)); [wp_step|]; by left. }
  unfold set_state. wp_step. destruct (connect c) as [e|]; cbn [attempt_of]; wp_step.
  { apply Hlate. intros e'. destruct (decide (e' = deadline)); [wp_step|]; by left. }
  unfold create_index. destruct (ensure_indexes cfg) eqn:Ex; wp_step; [|done].
  unfold execute_query. rewrite wp_on_db. apply wp_store_call; [intros _; wp_step; done|].
  intros x applied Hx. cbn [db] in Hx. destruct (is_Exception x) eqn:Ee; [wp_step; done|].
  wp_step. destruct (is_InfraConnectionError x);
    (destruct (decide (x = deadline)); [wp_step|]; right; split_and!; try done; by exists x, applied).
Qed.
End connections.

(** ** Concrete runs *)

Module MemoryGraphDemo.

Definition cfg : ModelGraphMemoryConfig :=
  GraphMemoryConfig 5 2 100 1000 true (of_string "Memory") (float_of_Z 3) true 3 one (float_of_Z 30).

Definition memory (id : string) : node :=
  Node [of_string "Memory"] {[ "memory_id" := Str (of_string id) ]}.
Definition link (i j : nat) (ty : string) : edge := Edge i j (of_string ty) ∅.

(** A triangle of three memories with a fourth one behind: a-b, b-c, a-c, c-d. *)
Definition triangle : graph :=
  Graph [memory "a"; memory "b"; memory "c"; memory "d"]
    [link 0 1 "related_to"; link 1 2 "related_to"; link 0 2 "caused"; link 2 3 "related_to"].

Definition idle (g : graph) : world :=
  World true true (Calls g (fun _ => CallEnv id Completes) 0) [] 0.

Definition never (_ : exn) : bool := false.
Definition no_jitter (_ : nat) (_ : spec_float) : spec_float := zero.
Definition no_int (_ : value) : res Z := Raise (ValueError "invalid literal for int()").

Definition related (depth limit : option Z) (min_score : spec_float) : list (string * Z) :=
  match (find_related cfg never no_jitter no_int (of_string "a") depth None limit min_score (idle triangle)).1 with
  | Ok r => (fun m => (to_string (memory_id m), MemoryGraph.depth m)) <$> memories r
  | Raise _ => []
  end.

Example config_is_valid : config_valid cfg = true.
Proof. by vm_compute. Qed.

(** A memory is listed once for each length of a way to it, and such
    repetitions take the places of others: with a limit of 3, d is missing. *)
Example duplicates : related None None zero = [("b", 1); ("c", 1); ("c", 2); ("b", 2); ("d", 2)].
Proof. by vm_compute. Qed.
Example crowded_out : related None (Some 3) zero = [("b", 1); ("c", 1); ("c", 2)].
Proof. by vm_compute. Qed.

(** The documented use of the minimum score. *)
Example only_neighbours : related None None half = [("b", 1); ("c", 1)].
Proof. by vm_compute. Qed.

(** A limit that is not positive: no results of [get_connections], an error of
    [find_related]. *)
Example negative_limit :
  (exists m, (find_related cfg never no_jitter no_int (of_string "a") None None (Some (-1)) zero
     (idle triangle)).1 = Ok (related_error error m)) /\
  (get_connections cfg never no_jitter (fun _ => true) (of_string "a") None (Some (-1)) None
     (idle triangle)).1 = Ok no_connections.
Proof. split; [eexists|]; by vm_compute. Qed.

(** A label may end with a newline, against the documentation. *)
Example newline_accepted : valid_identifier (of_string "Memory" ++ [newline]) = true.
Proof. by vm_compute. Qed.

(** One edge whose weight the model rejects makes the whole answer an error. *)
Definition unit_weight (c : ModelMemoryConnection) : bool :=
  match weight c with Float w => unit_float w | _ => false end.
Definition heavy : graph :=
  Graph (nodes triangle) (Edge 0 3 (of_string "related_to") {[ "weight" := Float two ]} :: edges triangle).
Example one_bad_weight :
  (get_connections cfg never no_jitter unit_weight (of_string "a") None None None (idle heavy)).1 =
  Ok (connections_error error "Unexpected error: invalid connection").
Proof. by vm_compute. Qed.

Lemma calm_demo limit : 1 <= limit <= 1000 ->
  limit <= trunc (float_mul (float_of_Z limit) (float_of_Z 3)) ->
  calm cfg (of_string "a") 2 limit (idle triangle).
Proof.
  intros Hl Hm. constructor; try done.
  intros i n Hn _. do 4 (destruct i as [|i]; [injection Hn as <-; by eexists|]). done.
Qed.

Lemma find_related_exact_witness :
  wp (find_related cfg never no_jitter no_int (of_string "a") None None (Some 3) zero)
    (fun r _ => exists res, r = Ok res /\ r_status res = success) (idle triangle).
Proof.
  eapply wp_mono; [|apply (find_related_exact cfg never no_jitter no_int (of_string "a") None None (Some 3) zero
    (idle triangle))].
  - intros r w' (_ & res & -> & _ & Hs). exists res. split; [done|]. rewrite Hs. by vm_compute.
  - exact (calm_demo 3 ltac:(lia) ltac:(by vm_compute)).
Defined.

Lemma find_related_nearest_witness :
  wp (find_related cfg never no_jitter no_int (of_string "a") None None None zero)
    (fun r _ => exists res, r = Ok res /\
       forall m, m ∈ memories res -> memory_id m <> of_string "a") (idle triangle).
Proof.
  eapply wp_mono; [|apply (find_related_nearest cfg never no_jitter no_int (of_string "a") None None None zero
    (idle triangle))].
  - intros r w' (res & -> & Hs & _). exists res. split; [done|]. intros m Hm.
    by destruct (Hs m Hm) as (_ & _ & _ & _ & _ & ? & _).
  - exact (calm_demo 100 ltac:(lia) ltac:(by vm_compute)).
Defined.

(** A database whose first answers are errors of the connection. *)
Definition flaky : world :=
  World true true
    (Calls triangle (fun k => CallEnv id (if (k <? 2)%nat
       then Fails (OtherException "InfraConnectionError" "refused") false else Completes)) 0) [] 0.
Definition connection_lost (e : exn) : bool :=
  match e with OtherException cls _ => String.eqb cls "InfraConnectionError" | _ => false end.

Lemma find_related_answers_witness :
  (exists r, (find_related cfg connection_lost no_jitter no_int (of_string "a") None None None zero flaky).1
     = Ok r /\ r_status r = success) /\
  slept (find_related cfg connection_lost no_jitter no_int (of_string "a") None None None zero flaky).2 =
    [one; two] /\
  wp (find_related cfg connection_lost no_jitter no_int (of_string "a") None None None zero)
    (fun _ w' => (made (db w') <= 8)%nat) flaky.
Proof.
  split; [eexists; split; by vm_compute|]. split; [by vm_compute|].
  eapply wp_mono; [|apply (find_related_answers cfg connection_lost no_jitter no_int (of_string "a")
    None None None zero flaky)].
  - intros r w' (_ & ds & Hu & _). by destruct Hu as (_ & _ & ? & _).
  - done.
  - done.
  - intros e. unfold is_Exception, connection_lost. destruct e as [| | | | | | | | |cls m]; try done.
    destruct (String.eqb cls "CancelledError") eqn:E; [|done]. apply String.eqb_eq in E as ->. by vm_compute.
Defined.

Lemma get_connections_exact_witness :
  wp (get_connections cfg never no_jitter unit_weight (of_string "c") None None None)
    (fun r _ => exists res, r = Ok res /\ length (connections res) = 3%nat) (idle triangle).
Proof.
  eapply wp_mono; [|apply (get_connections_exact cfg never no_jitter unit_weight (of_string "c") None None None
    (idle triangle)); [done|done|by intros k|done|]].
  - intros r w' (res & -> & Hc & _). exists res. split; [done|]. rewrite Hc. by vm_compute.
  - intros r Hr. apply connection_rows_elem in Hr as (i & e & n & [_ (k & j & He & _)] & ->).
    cbn [cfg bidirectional default] in He.
    do 4 (destruct k as [|k]; [injection He as <-; by vm_compute|]). done.
Defined.

Definition bolt (_ : string) : string * string := ("bolt", "localhost").

Lemma initialize_outcomes_witness :
  wp (initialize cfg bolt "30.0" "bolt://localhost" (Connecting None None None))
    (fun r w' => r = Ok tt /\ _initialized w' = true)
    (World false false (db (idle triangle)) [] 0).
Proof.
  pose proof (initialize_outcomes cfg bolt "30.0" "bolt://localhost" (Connecting None None None)
    (World false false (db (idle triangle)) [] 0) eq_refl) as H.
  split; [by vm_compute|]. unfold wp in H. by vm_compute.
Defined.

(** The deadline passes while the index is created: the adapter reports that
    its initialisation timed out, and answers queries all the same. *)
Definition slow_index : world :=
  World false false (Calls triangle (fun k => CallEnv id
    (if (k =? 0)%nat then Fails deadline true else Completes)) 0) [] 0.
Example timed_out_but_initialised :
  let w := (initialize cfg bolt "30.0" "bolt://localhost" (Connecting None None None) slow_index).2 in
  (exists m, (initialize cfg bolt "30.0" "bolt://localhost" (Connecting None None None) slow_index).1 =
     Raise (RuntimeError m)) /\
  _initialized w = true /\
  exists r, (find_related cfg never no_jitter no_int (of_string "a") None None None zero w).1 = Ok r /\
    r_status r = success.
Proof. split; [eexists; by vm_compute|]. split; [by vm_compute|]. eexists. split; by vm_compute. Qed.
End MemoryGraphDemo.
