(* ===== verification/Datetimes.v ===== *)
(** * Datetimes

    Python's UTC datetimes, as microseconds since the year 1, their calendar
    fields and [isoformat], whose texts order as the datetimes do: the graph
    database compares the texts. *)

From S2P Require Import Prelude Text Floats.

(** ** The calendar ([datetime._ord2ymd]) *)

Definition days_before_month : list Z := [0; 31; 59; 90; 120; 151; 181; 212; 243; 273; 304; 334].
Definition days_in_month : list Z := [31; 28; 31; 30; 31; 30; 31; 31; 30; 31; 30; 31].
Definition month_entry (l : list Z) (m : Z) : Z := default 0 (l !! Z.to_nat (m - 1)).

(** The month and the day of the [n]-th day of a year, counted from 0. *)
Definition month_day (leap : bool) (n : Z) : Z * Z :=
  let month := Z.shiftr (n + 50) 5 in
  let preceding := month_entry days_before_month month + (if (2 <? month) && leap then 1 else 0) in
  if n <? preceding then
    let month := month - 1 in
    let preceding := preceding - (month_entry days_in_month month + (if (month =? 2) && leap then 1 else 0)) in
    (month, n - preceding + 1)
  else (month, n - preceding + 1).

(** The year and the day in it, of the [n]-th day since 0001-01-01. *)
Definition year_day (n : Z) : Z * bool * Z :=
  let n400 := n / 146097 in
  let n := n mod 146097 in
  let n100 := n / 36524 in
  let n := n mod 36524 in
  let n4 := n / 1461 in
  let n := n mod 1461 in
  let n1 := n / 365 in
  let n := n mod 365 in
  let year := n400 * 400 + 1 + (n100 * 100 + n4 * 4 + n1) in
  if (n1 =? 4) || (n100 =? 4) then (year - 1, true, 365)
  else (year, (n1 =? 3) && (negb (n4 =? 24) || (n100 =? 3)), n).

Definition date (n : Z) : Z * Z * Z :=
  let '(year, leap, day) := year_day n in
  let (m, d) := month_day leap day in
  (year, m, d).

(** ** [isoformat] *)

Definition digit (z : Z) : ascii := ascii_of_nat (48 + Z.to_nat z).
Fixpoint pad (k : nat) (n : Z) : text :=
  match k with
  | O => []
  | S k => pad k (n / 10) ++ [digit (n mod 10)]
  end.

Definition day_length : micros := seconds 86400.
Definition last_day : Z := 3652058. (** 9999-12-31 *)
Definition is_datetime (t : micros) : Prop := 0 <= t < (last_day + 1) * day_length.

Definition isoformat (t : micros) : text :=
  let '(y, m, d) := date (t / day_length) in
  let s := t mod day_length / 1000000 in
  let us := t mod 1000000 in
  pad 4 y ++ of_string "-" ++ pad 2 m ++ of_string "-" ++ pad 2 d ++ of_string "T" ++
  pad 2 (s / 3600) ++ of_string ":" ++ pad 2 (s / 60 mod 60) ++ of_string ":" ++ pad 2 (s mod 60) ++
  (if us =? 0 then [] else of_string "." ++ pad 6 us) ++ of_string "+00:00".

Example isoformat_epoch : isoformat (719162 * day_length) = of_string "1970-01-01T00:00:00+00:00".
Proof. by vm_compute. Qed.
Example isoformat_leap_day :
  isoformat (730178 * day_length + seconds 86399 + 42) = of_string "2000-02-29T23:59:59.000042+00:00".
Proof. by vm_compute. Qed.
Example isoformat_last : isoformat (last_day * day_length) = of_string "9999-12-31T00:00:00+00:00".
Proof. by vm_compute. Qed.

(** [t - timedelta(hours=n)] *)
Definition minus_hours (t : micros) (n : Z) : res micros :=
  let days := n / 24 in
  if (days <? -999999999) || (999999999 <? days) then
    Raise (OverflowError "days; must have magnitude <= 999999999")
  else
    let r := t - seconds (3600 * n) in
    if (0 <=? r) && (r <? (last_day + 1) * day_length) then Ok r
    else Raise (OverflowError "date value out of range").

Lemma minus_hours_datetime t n r : minus_hours t n = Ok r -> is_datetime r.
Proof.
  unfold minus_hours, is_datetime. destruct (_ || _); [done|]. destruct (_ && _) eqn:E; [|done].
  intros [= <-]. breflect. lia.
Qed.

(** ** The order of texts *)

Fixpoint text_compare (s t : text) : comparison :=
  match s, t with
  | [], [] => Eq
  | [], _ => Lt
  | _, [] => Gt
  | c :: s, d :: t =>
      match Nat.compare (nat_of_ascii c) (nat_of_ascii d) with
      | Eq => text_compare s t
      | o => o
      end
  end.

Definition then_ (o p : comparison) : comparison := match o with Eq => p | _ => o end.

Lemma text_compare_refl s : text_compare s s = Eq.
Proof. induction s as [|c s IH]; simpl; [done|]. by rewrite Nat.compare_refl. Qed.

Lemma text_compare_app a b c d : length a = length b ->
  text_compare (a ++ c) (b ++ d) = then_ (text_compare a b) (text_compare c d).
Proof.
  revert b. induction a as [|x a IH]; intros [|y b]; simpl; try done. intros [= Hl].
  destruct (Nat.compare _ _); [by apply IH|done..].
Qed.

Lemma text_compare_same a c d : text_compare (a ++ c) (a ++ d) = text_compare c d.
Proof. by rewrite text_compare_app, text_compare_refl. Qed.

Lemma text_compare_antisym s t : text_compare t s = CompOpp (text_compare s t).
Proof.
  revert t. induction s as [|c s IH]; intros [|d t]; simpl; try done.
  rewrite Nat.compare_antisym. destruct (Nat.compare _ _); [apply IH|done..].
Qed.

Lemma text_compare_eq s t : text_compare s t = Eq -> s = t.
Proof.
  revert t. induction s as [|c s IH]; intros [|d t]; simpl; try done.
  destruct (Nat.compare _ _) eqn:E; try done. intros H. apply Nat.compare_eq in E.
  f_equal; [|by apply IH]. rewrite <- (ascii_nat_embedding c), E. apply ascii_nat_embedding.
Qed.

Lemma text_compare_trans o r s t : text_compare r s = o -> text_compare s t = o -> text_compare r t = o.
Proof.
  revert s t. induction r as [|c r IH]; intros [|d s] [|e t]; simpl; try congruence.
  destruct (Nat.compare_spec (nat_of_ascii c) (nat_of_ascii d)),
    (Nat.compare_spec (nat_of_ascii d) (nat_of_ascii e)),
    (Nat.compare_spec (nat_of_ascii c) (nat_of_ascii e)); try lia; try congruence.
  by apply IH.
Qed.

(** ** [isoformat] keeps the order *)

Lemma length_pad k : forall n, length (pad k n) = k.
Proof. induction k as [|k IH]; intros n; simpl; [done|]. rewrite length_app, IH. simpl. lia. Qed.

Lemma compare_lex a b c d k : 0 <= b < k -> 0 <= d < k ->
  (a * k + b ?= c * k + d) = then_ (a ?= c) (b ?= d).
Proof.
  intros Hb Hd. destruct (Z.compare_spec a c) as [->|H|H]; simpl.
  - by rewrite Z.add_compare_mono_l.
  - apply Z.compare_lt_iff. nia.
  - apply Z.compare_gt_iff. nia.
Qed.

Lemma compare_div_mod a b k : 0 < k -> (a ?= b) = then_ (a / k ?= b / k) (a mod k ?= b mod k).
Proof.
  intros Hk. pose proof (Z.mod_pos_bound a k Hk). pose proof (Z.mod_pos_bound b k Hk).
  rewrite <- (compare_lex _ _ _ _ k) by done. f_equal; rewrite Z.mul_comm; apply Z.div_mod; lia.
Qed.

Lemma digit_compare a b : 0 <= a < 10 -> 0 <= b < 10 -> text_compare [digit a] [digit b] = (a ?= b).
Proof.
  intros Ha Hb. cbn [text_compare]. unfold digit.
  rewrite !nat_ascii_embedding by lia.
  destruct (Z.compare_spec a b) as [->|H|H]; [by rewrite Nat.compare_refl| |].
  - by rewrite (proj2 (Nat.compare_lt_iff _ _)) by lia.
  - by rewrite (proj2 (Nat.compare_gt_iff _ _)) by lia.
Qed.

Lemma pad_compare k : forall a b, 0 <= a < 10 ^ Z.of_nat k -> 0 <= b < 10 ^ Z.of_nat k ->
  text_compare (pad k a) (pad k b) = (a ?= b).
Proof.
  induction k as [|k IH]; intros a b Ha Hb; [simpl in *; replace a with 0 by lia; by replace b with 0 by lia|].
  rewrite Nat2Z.inj_succ, Z.pow_succ_r in Ha, Hb by lia. cbn [pad].
  rewrite text_compare_app by (by rewrite !length_pad).
  rewrite (compare_div_mod a b 10) by lia. rewrite IH, digit_compare; [done|..].
  1,2: apply Z.mod_pos_bound; lia.
  all: split; [apply Z.div_pos; lia|apply Z.div_lt_upper_bound; lia].
Qed.

(** *** Dates *)

Definition days_before_year (y : Z) : Z := 365 * (y - 1) + (y - 1) / 4 - (y - 1) / 100 + (y - 1) / 400.

Lemma years_split a b c d : 0 <= b <= 3 -> 0 <= c <= 24 -> 0 <= d <= 3 ->
  days_before_year (400 * a + 100 * b + 4 * c + d + 1) = 146097 * a + 36524 * b + 1461 * c + 365 * d.
Proof.
  intros Hb Hc Hd. unfold days_before_year.
  replace (400 * a + 100 * b + 4 * c + d + 1 - 1) with (400 * a + 100 * b + 4 * c + d) by lia.
  rewrite <- (Z.div_unique (400 * a + 100 * b + 4 * c + d) 4 (100 * a + 25 * b + c) d) by lia.
  rewrite <- (Z.div_unique (400 * a + 100 * b + 4 * c + d) 100 (4 * a + b) (4 * c + d)) by lia.
  rewrite <- (Z.div_unique (400 * a + 100 * b + 4 * c + d) 400 a (100 * b + 4 * c + d)) by lia. lia.
Qed.

Lemma days_before_year_mono y z : y <= z -> days_before_year y <= days_before_year z.
Proof.
  intros H. unfold days_before_year.
  assert ((y - 1) / 4 <= (z - 1) / 4) by (apply Z.div_le_mono; lia).
  assert ((y - 1) / 400 <= (z - 1) / 400) by (apply Z.div_le_mono; lia).
  assert ((z - 1) / 100 - (y - 1) / 100 <= z - y).
  { pose proof (Z.div_mod (z - 1) 100 ltac:(lia)). pose proof (Z.div_mod (y - 1) 100 ltac:(lia)).
    pose proof (Z.mod_pos_bound (z - 1) 100 ltac:(lia)). pose proof (Z.mod_pos_bound (y - 1) 100 ltac:(lia)). lia. }
  lia.
Qed.

Definition leap_days (leap : bool) : Z := if leap then 1 else 0.

Lemma year_day_spec n : 0 <= n <= last_day ->
  let '(y, leap, day) := year_day n in
  n = days_before_year y + day /\ 0 <= day < 365 + leap_days leap /\
  days_before_year (y + 1) = days_before_year y + 365 + leap_days leap /\ 1 <= y <= 9999.
Proof.
  intros Hn. unfold last_day in Hn. unfold year_day. cbn zeta.
  pose proof (Z.div_mod n 146097 ltac:(lia)) as E1. pose proof (Z.mod_pos_bound n 146097 ltac:(lia)) as B1.
  set (a := n / 146097) in *. set (r1 := n mod 146097) in *.
  pose proof (Z.div_mod r1 36524 ltac:(lia)) as E2. pose proof (Z.mod_pos_bound r1 36524 ltac:(lia)) as B2.
  set (b := r1 / 36524) in *. set (r2 := r1 mod 36524) in *.
  pose proof (Z.div_mod r2 1461 ltac:(lia)) as E3. pose proof (Z.mod_pos_bound r2 1461 ltac:(lia)) as B3.
  set (c := r2 / 1461) in *. set (r3 := r2 mod 1461) in *.
  pose proof (Z.div_mod r3 365 ltac:(lia)) as E4. pose proof (Z.mod_pos_bound r3 365 ltac:(lia)) as B4.
  set (d := r3 / 365) in *. set (r4 := r3 mod 365) in *.
  assert (Ha : 0 <= a <= 24) by lia. assert (Hb : 0 <= b <= 4) by lia.
  assert (Hc : 0 <= c <= 24) by lia. assert (Hd : 0 <= d <= 4) by lia.
  clearbody a r1 b r2 c r3 d r4.
  assert (Hs : forall a b c d, 0 <= b <= 3 -> 0 <= c <= 24 -> 0 <= d <= 3 -> forall y,
    y = 400 * a + 100 * b + 4 * c + d + 1 ->
    days_before_year y = 146097 * a + 36524 * b + 1461 * c + 365 * d).
  { intros a' b' c' d' ??? y ->. by apply years_split. }
  destruct (Z.eqb_spec d 4) as [Ed|Ed], (Z.eqb_spec b 4) as [Eb|Eb]; cbn [orb].
  - lia.
  - rewrite (Hs a b c 3), (Hs a b (c + 1) 0) by lia. unfold leap_days. lia.
  - rewrite (Hs a 3 24 3), (Hs (a + 1) 0 0 0) by lia. unfold leap_days. lia.
  - rewrite (Hs a b c d) by lia. destruct (Z.eqb_spec d 3) as [E3d|E3d]; cbn [andb leap_days].
    + destruct (Z.eqb_spec c 24) as [E24|E24]; cbn [negb orb].
      * destruct (Z.eqb_spec b 3); cbn [leap_days];
          [rewrite (Hs (a + 1) 0 0 0) by lia|rewrite (Hs a (b + 1) 0 0) by lia]; lia.
      * rewrite (Hs a b (c + 1) 0) by lia. cbn [leap_days]. lia.
    + rewrite (Hs a b c (d + 1)) by lia. lia.
Qed.

Definition month_key (x : Z * Z) : Z := x.1 * 32 + x.2.

Lemma month_days_checked :
  forallb (fun leap => forallb (fun n =>
    let x := month_day leap (Z.of_nat n) in
    (1 <=? x.1) && (x.1 <=? 12) && (1 <=? x.2) && (x.2 <=? 31) &&
    ((Z.of_nat n =? 364 + leap_days leap) ||
     (month_key x <? month_key (month_day leap (Z.of_nat n + 1)))))
    (seq 0 (if leap : bool then 366 else 365))) [true; false] = true.
Proof. by vm_compute. Qed.

Lemma month_day_check leap n : 0 <= n < 365 + leap_days leap ->
  1 <= (month_day leap n).1 <= 12 /\ 1 <= (month_day leap n).2 <= 31 /\
  (n + 1 < 365 + leap_days leap -> month_key (month_day leap n) < month_key (month_day leap (n + 1))).
Proof.
  intros Hn. pose proof month_days_checked as H. rewrite forallb_forall in H.
  specialize (H leap ltac:(destruct leap; simpl; auto)). rewrite forallb_forall in H.
  assert (Hin : In (Z.to_nat n) (seq 0 (if leap then 366 else 365)))
    by (apply in_seq; unfold leap_days in *; destruct leap; lia).
  specialize (H _ Hin). cbn beta zeta in H. rewrite Z2Nat.id in H by lia. breflect.
  split; [lia|]. split; [lia|]. intros Hlast.
  destruct (Z.eqb_spec n (364 + leap_days leap)) as [E|E]; [lia|]. simpl in *. by breflect.
Qed.

Lemma month_day_mono leap n k : 0 <= n -> (0 < k)%nat -> n + Z.of_nat k < 365 + leap_days leap ->
  month_key (month_day leap n) < month_key (month_day leap (n + Z.of_nat k)).
Proof.
  intros Hn Hk. induction k as [|k IH]; [lia|]. intros Hlt. rewrite Nat2Z.inj_succ in *.
  destruct (month_day_check leap (n + Z.of_nat k) ltac:(lia)) as (_ & _ & Hstep).
  replace (n + Z.succ (Z.of_nat k)) with (n + Z.of_nat k + 1) by lia.
  destruct k as [|k]; [rewrite Z.add_0_r in *; apply Hstep; lia|].
  etrans; [apply IH; lia|apply Hstep; lia].
Qed.

Lemma month_day_compare leap n n' : 0 <= n < 365 + leap_days leap -> 0 <= n' < 365 + leap_days leap ->
  (n ?= n') = then_ ((month_day leap n).1 ?= (month_day leap n').1)
                    ((month_day leap n).2 ?= (month_day leap n').2).
Proof.
  intros Hn Hn'. destruct (month_day_check leap n Hn) as (? & ? & _).
  destruct (month_day_check leap n' Hn') as (? & ? & _). rewrite <- (compare_lex _ _ _ _ 32) by lia.
  change ((n ?= n') = (month_key (month_day leap n) ?= month_key (month_day leap n'))).
  destruct (Z.compare_spec n n') as [->|Hlt|Hlt]; symmetry; [by rewrite Z.compare_refl|..].
  - apply Z.compare_lt_iff. replace n' with (n + Z.of_nat (Z.to_nat (n' - n))) by lia.
    apply month_day_mono; lia.
  - apply Z.compare_gt_iff. replace n with (n' + Z.of_nat (Z.to_nat (n - n'))) by lia.
    apply month_day_mono; lia.
Qed.

Lemma date_compare n n' : 0 <= n <= last_day -> 0 <= n' <= last_day ->
  let '(y, m, d) := date n in
  let '(y', m', d') := date n' in
  (n ?= n') = then_ (y ?= y') (then_ (m ?= m') (d ?= d')) /\
  1 <= y <= 9999 /\ 1 <= m <= 12 /\ 1 <= d <= 31.
Proof.
  intros Hn Hn'. unfold date. pose proof (year_day_spec n Hn) as H. pose proof (year_day_spec n' Hn') as H'.
  destruct (year_day n) as [[y leap] k], (year_day n') as [[y' leap'] k'].
  destruct H as (-> & Hk & Hy & Hyr), H' as (-> & Hk' & Hy' & Hyr').
  pose proof (month_day_check leap k Hk) as (Hm & Hd & _).
  pose proof (month_day_compare leap k k' Hk) as Hc.
  destruct (month_day leap k) as [m d] eqn:E, (month_day leap' k') as [m' d'] eqn:E'. cbn [fst snd] in *.
  split; [|done]. destruct (Z.compare_spec y y') as [Ey|Hlt|Hlt]; cbn [then_].
  - subst y'. assert (leap' = leap) as -> by (unfold leap_days in *; destruct leap, leap'; lia || done).
    rewrite E' in Hc. cbn [fst snd] in Hc. rewrite <- Hc by done. by rewrite Z.add_compare_mono_l.
  - apply Z.compare_lt_iff. pose proof (days_before_year_mono (y + 1) y' ltac:(lia)). lia.
  - apply Z.compare_gt_iff. pose proof (days_before_year_mono (y' + 1) y ltac:(lia)). lia.
Qed.

(** *** The order *)

Definition tail (us : Z) : text := (if us =? 0 then [] else of_string "." ++ pad 6 us) ++ of_string "+00:00".

Lemma tail_compare a b : 0 <= a < 1000000 -> 0 <= b < 1000000 -> text_compare (tail a) (tail b) = (a ?= b).
Proof.
  intros Ha Hb. unfold tail.
  destruct (Z.eqb_spec a 0) as [->|Hna], (Z.eqb_spec b 0) as [->|Hnb]; [done|..].
  - symmetry. apply Z.compare_lt_iff. lia.
  - symmetry. apply Z.compare_gt_iff. lia.
  - rewrite <- !app_assoc, text_compare_same, text_compare_app, text_compare_refl by (by rewrite !length_pad).
    rewrite pad_compare by (simpl; lia). by destruct (a ?= b).
Qed.

Lemma then_assoc a b c : then_ (then_ a b) c = then_ a (then_ b c).
Proof. by destruct a. Qed.

(** Two [isoformat]s compare, character by character, as the datetimes. *)
Lemma isoformat_compare t t' : is_datetime t -> is_datetime t' ->
  text_compare (isoformat t) (isoformat t') = (t ?= t').
Proof.
  intros Ht Ht'. unfold is_datetime in *. assert (Hl : 0 < day_length) by done.
  unfold isoformat.
  assert (Hday : forall t, 0 <= t < (last_day + 1) * day_length -> 0 <= t / day_length <= last_day).
  { intros u Hu. split; [apply Z.div_pos; lia|]. apply Z.lt_succ_r, Z.div_lt_upper_bound; lia. }
  pose proof (date_compare _ _ (Hday t Ht) (Hday t' Ht')) as Hd.
  pose proof (date_compare _ _ (Hday t' Ht') (Hday t' Ht')) as Hd'.
  rewrite (compare_div_mod t t' day_length) by done.
  destruct (date (t / day_length)) as [[y m] d], (date (t' / day_length)) as [[y' m'] d'].
  destruct Hd as (-> & Hy & Hm & Hdd), Hd' as (_ & Hy' & Hm' & Hdd').
  assert (Hs : forall t, 0 <= t mod day_length / 1000000 < 86400).
  { intros u. pose proof (Z.mod_pos_bound u day_length ltac:(done)) as Hu. split; [apply Z.div_pos; lia|].
    apply Z.div_lt_upper_bound; [lia|]. unfold day_length, seconds in *. lia. }
  assert (Hus : forall t, t mod 1000000 = (t mod day_length) mod 1000000).
  { intros u. rewrite <- (Znumtheory.Zmod_div_mod 1000000 day_length); [done|lia|done|]. by exists 86400. }
  rewrite (compare_div_mod (t mod day_length) (t' mod day_length) 1000000) by lia. rewrite <- !Hus.
  pose proof (Hs t) as B. pose proof (Hs t') as B'.
  set (s := t mod day_length / 1000000) in *. set (s' := t' mod day_length / 1000000) in *.
  pose proof (Z.mod_pos_bound t 1000000 ltac:(lia)) as U. pose proof (Z.mod_pos_bound t' 1000000 ltac:(lia)) as U'.
  set (us := t mod 1000000) in *. set (us' := t' mod 1000000) in *. clearbody s s' us us'. clear Hs Hus.
  fold (tail us) (tail us').
  assert (B60 : forall x, 0 <= x mod 60 < 60) by (intros x; apply Z.mod_pos_bound; lia).
  assert (B3600 : forall x, 0 <= x < 86400 -> 0 <= x / 3600 < 24).
  { intros x Hx. split; [apply Z.div_pos; lia|apply Z.div_lt_upper_bound; lia]. }
  assert (E60 : forall x, x / 3600 = x / 60 / 60) by (intros x; by rewrite Z.div_div by lia).
  rewrite (compare_div_mod s s' 60), (compare_div_mod (s / 60) (s' / 60) 60), <- !E60 by lia.
  pose proof (B3600 s B). pose proof (B3600 s' B'). pose proof (B60 s). pose proof (B60 s').
  pose proof (B60 (s / 60)). pose proof (B60 (s' / 60)).
  repeat (rewrite text_compare_app by (by rewrite !length_pad); rewrite pad_compare by (simpl; lia);
          rewrite ?text_compare_same).
  rewrite tail_compare by lia. by rewrite !then_assoc.
Qed.
