(* ===== verification/IntentGraph.v ===== *)
(** * The graph of intents

    Models [AdapterIntentGraph] of src/src/omnimemory/handlers/adapters/
    adapter_intent_graph.py: storing the classification of an intent and the
    queries of a session, of the recent intents and of their distribution, on
    the property graphs of Graph.v. The classes of omnibase_core, the driver
    and the parsing of identifiers and datetimes are arguments. *)

From S2P Require Import Prelude Text Floats Calls Graph Datetimes.

(** ** Data *)

Record ModelAdapterIntentGraphConfig : Type := IntentGraphConfig {
  timeout_seconds : spec_float;
  session_node_label : text;
  intent_node_label : text;
  relationship_type : text;
  max_intents_per_session : Z;
  default_confidence_threshold : spec_float;
  auto_create_indexes : bool;
}.

Definition config_valid (c : ModelAdapterIntentGraphConfig) : bool :=
  SFleb (float_ratio 1 10) (timeout_seconds c) && SFleb (timeout_seconds c) (float_of_Z 300) &&
  valid_identifier (session_node_label c) && valid_identifier (intent_node_label c) &&
  valid_identifier (relationship_type c) && (1 <=? max_intents_per_session c) &&
  (max_intents_per_session c <=? 1000) && unit_float (default_confidence_threshold c).

(** A classification, and what the store remembers of it. *)
Record classification : Type := Classification {
  intent_category : text;
  confidence : spec_float;
  keywords : list text;
}.

Record ModelIntentStorageResult : Type := IntentStorageResult {
  s_success : bool;
  s_intent_id : option uuid;
  s_created : bool;
  s_error_message : option string;
}.

Record ModelIntentRecord : Type := IntentRecord {
  r_intent_id : uuid;
  r_session : text;
  r_category : text;
  r_confidence : spec_float;
  r_keywords : list text;
  r_created_at : micros;
  r_correlation_id : option uuid;
}.

Record ModelIntentQueryResult : Type := IntentQueryResult {
  q_success : bool;
  q_intents : list ModelIntentRecord;
  q_total_count : nat;
  q_error_message : option string;
}.

Record ModelIntentDistributionResult : Type := DistributionResult {
  d_success : bool;
  d_distribution : list (text * Z);
  d_total_intents : Z;
  d_time_range_hours : Z;
  d_error_message : option string;
}.

(** ** The queries *)

(** [SET x.key = value]: null removes the property. *)
Definition set_property (k : string) (v : value) (props : gmap string value) : gmap string value :=
  if decide (v = Null) then delete k props else <[k := v]> props.

Definition set_properties (l : list (string * value)) (props : gmap string value) : gmap string value :=
  fold_left (fun props x => set_property x.1 x.2 props) l props.

Definition on_node (j : nat) (l : list (string * value)) (g : graph) : graph :=
  Graph (alter (fun n => Node (labels n) (set_properties l (properties n))) j (nodes g)) (edges g).
Definition on_edge (k : nat) (l : list (string * value)) (g : graph) : graph :=
  Graph (nodes g)
    (alter (fun e => Edge (source e) (target e) (type e) (set_properties l (e_properties e))) k (edges g)).
Definition new_node (label : text) (l : list (string * value)) (g : graph) : graph :=
  Graph (nodes g ++ [Node [label] (set_properties l ∅)]) (edges g).
Definition new_edge (i j : nat) (ty : text) (g : graph) : graph :=
  Graph (nodes g) (edges g ++ [Edge i j ty ∅]).

(** [v >= w] of a number and of a text; anything else is null. *)
Definition number_of (v : value) : option spec_float :=
  match v with Int z => Some (float_of_Z z) | Float f => Some f | _ => None end.
Definition ge_number (v : value) (f : spec_float) : bool :=
  match number_of v with Some x => SFleb f x | None => false end.
Definition ge_text (v : value) (s : text) : bool :=
  match v with Str t => match text_compare s t with Gt => false | _ => true end | _ => false end.

(** [ORDER BY i.created_at_utc DESC]: nulls first, then the texts. *)
Definition created_before (a b : record) : bool :=
  match a !! "created_at_utc", b !! "created_at_utc" with
  | Some (Str s), Some (Str t) => match text_compare s t with Lt => true | _ => false end
  | Some (Str _), _ => true
  | _, _ => false
  end.

Fixpoint insert_latest (r : record) (l : list record) : list record :=
  match l with
  | [] => [r]
  | x :: l => if created_before x r then r :: x :: l else x :: insert_latest r l
  end.

Definition latest_first (l : list record) : list record := fold_left (fun l r => insert_latest r l) l [].

Module IntentCypherTemplates.
Section queries.
Context (session_label intent_label rel_type : text).

Record store_parameters : Type := StoreParameters {
  p_session_id : text;
  p_now : value;
  p_intent_id : value;
  p_category : text;
  p_confidence : value;
  p_keywords : value;
  p_correlation_id : value;
}.

Definition sessions (session_id : text) (g : graph) : list nat :=
  node_ids (fun n => labelled session_label n && has "session_id" session_id n) g.

(** The edges of a session to its intents that pass a test. *)
Definition intents_of (p : node -> bool) (s : nat) (g : graph) : list (nat * nat) :=
  filter (fun x => match edges g !! x.1, nodes g !! x.2 with
                   | Some e, Some n => bool_decide (type e = rel_type) && labelled intent_label n && p n
                   | _, _ => false
                   end = true) (incident false g s).

(** [MERGE (s:Session {session_id: $session_id}) ON CREATE SET ...] *)
Definition merge_session (p : store_parameters) (g : graph) : list nat * graph :=
  match sessions (p_session_id p) g with
  | [] =>
      ([length (nodes g)],
       new_node session_label [("session_id", Str (p_session_id p)); ("started_at_utc", p_now p);
                               ("user_context", Str [])] g)
  | ss => (ss, g)
  end.

(** [MERGE (s)-\[r\]->(i:Intent {intent_category: ...})] of one session, with
    [ON CREATE SET] and [ON MATCH SET]. *)
Definition merge_intent (p : store_parameters) (s : nat) (g : graph) : list (nat * nat) * graph :=
  match intents_of (has "intent_category" (p_category p)) s g with
  | [] =>
      let j := length (nodes g) in
      ([(length (edges g), j)],
       new_edge s j rel_type
         (new_node intent_label
            [("intent_category", Str (p_category p)); ("intent_id", p_intent_id p);
             ("created_at_utc", p_now p); ("confidence", p_confidence p); ("keywords", p_keywords p)] g))
  | ms =>
      (ms, fold_left (fun g x => on_node x.2 [("confidence", p_confidence p); ("keywords", p_keywords p)] g) ms g)
  end.

Fixpoint merge_intents (p : store_parameters) (ss : list nat) (g : graph) : list (nat * nat) * graph :=
  match ss with
  | [] => ([], g)
  | s :: ss =>
      let (ms, g) := merge_intent p s g in
      let (ms', g) := merge_intents p ss g in
      (ms ++ ms', g)
  end.

(** [a = b], which is null when one is. *)
Definition equals (a b : value) : value :=
  match a, b with Null, _ | _, Null => Null | _, _ => Bool (bool_decide (a = b)) end.

Definition node_property (k : string) (j : nat) (g : graph) : value :=
  match nodes g !! j with Some n => property k (properties n) | None => Null end.

Definition store_intent_query (p : store_parameters) (g : graph) : list record * graph :=
  let (ss, g) := merge_session p g in
  let (ms, g) := merge_intents p ss g in
  let g := fold_left (fun g x => on_edge x.1 [("timestamp_utc", p_now p); ("confidence", p_confidence p);
                                            ("correlation_id", p_correlation_id p)] g) ms g in
  ((fun x : nat * nat => {[ "intent_id" := node_property "intent_id" x.2 g;
       "was_created" := equals (node_property "created_at_utc" x.2 g) (p_now p) ]} : record) <$> ms, g).

Definition intent_row (g : graph) (x : nat * nat) : record :=
  {[ "intent_id" := node_property "intent_id" x.2 g; "intent_category" := node_property "intent_category" x.2 g;
     "confidence" := node_property "confidence" x.2 g; "keywords" := node_property "keywords" x.2 g;
     "created_at_utc" := node_property "created_at_utc" x.2 g;
     "correlation_id" := match edges g !! x.1 with Some e => property "correlation_id" (e_properties e) | None => Null end ]}.

Definition get_session_intents_query (session_id : text) (min_confidence : spec_float) (limit : Z)
    (g : graph) : res (list record) :=
  limited limit (latest_first
    (flat_map (fun s => intent_row g <$>
       intents_of (fun n => ge_number (property "confidence" (properties n)) min_confidence) s g)
       (sessions session_id g))).

(** [count(i)] by category. *)
Definition get_intent_distribution_query (since : text) (g : graph) : list record :=
  let found := node_ids (fun n => labelled intent_label n &&
                 ge_text (property "created_at_utc" (properties n)) since) g in
  let categories := (fun j => node_property "intent_category" j g) <$> found in
  sort_desc (fun r : record => match r !! "count" with Some (Int z) => z | _ => 0 end)
    ((fun c => {[ "category" := c; "count" := Int (Z.of_nat (length (filter (fun d => d = c) categories))) ]} : record)
       <$> remove_dups categories).

Definition get_recent_intents_query (cutoff : text) (min_confidence : option spec_float) (limit : Z)
    (g : graph) : res (list record) :=
  limited limit (latest_first
    (flat_map (fun s => (fun x => <[ "session_id" := node_property "session_id" s g ]> (intent_row g x)) <$>
       intents_of (fun n => ge_text (property "created_at_utc" (properties n)) cutoff &&
                    match min_confidence with
                    | Some c => ge_number (property "confidence" (properties n)) c
                    | None => true
                    end) s g)
       (node_ids (labelled session_label) g))).

Definition count_all_query (g : graph) : list record :=
  [{[ "session_count" := Int (Z.of_nat (length (node_ids (labelled session_label) g)));
      "intent_count" := Int (Z.of_nat (length (node_ids (labelled intent_label) g))) ]}].
End queries.
End IntentCypherTemplates.
Import IntentCypherTemplates.

(** ** The adapter *)

(** The handler, once created; whether it is connected; the database. *)
Record world : Type := World {
  _handler : bool;
  _initialized : bool;
  db : calls graph;
}.

Definition on_db {A} (m : M (calls graph) A) : M world A := fun w =>
  let (r, d) := m (db w) in (r, World (_handler w) (_initialized w) d).

Definition clamp (f : spec_float) : spec_float := max0 (if SFltb one f then one else f).

Section adapter.
Context (cfg : ModelAdapterIntentGraphConfig).
(** [UUID] of a text; [datetime.fromisoformat]; [str] of a value that is not a
    text; the values of [EnumIntentCategory]; what the record of omnibase_core
    accepts; the timeout in a message. *)
Context (parse_uuid : text -> option uuid) (fromisoformat : text -> option micros)
        (py_str : value -> text) (known_category : text -> bool)
        (accepts : ModelIntentRecord -> bool) (timeout_text : string).

Definition str (v : value) : text := match v with Str s => s | _ => py_str v end.

Definition not_initialized : string := "AdapterIntentGraph not initialized. Call initialize() first.".
Definition ready (w : world) : bool := _initialized w && _handler w.

(** [asyncio.timeout]: its own cancellation becomes [TimeoutError]. *)
Definition with_timeout {A} (m : M world A) : M world A :=
  try_except m (fun e => if decide (e = deadline) then Some (raise (TimeoutError "")) else None).

(** The two handlers the operations end with. *)
Definition answering {A} (timed_out failed : string -> A) (timeout_prefix failure_prefix : string)
    (m : M world A) : M world A :=
  try_except (with_timeout m)
    (fun e =>
      match e with
      | TimeoutError _ => Some (ret (timed_out (timeout_prefix +:+ " timed out after " +:+ timeout_text +:+ "s")))
      | _ => if is_Exception e then Some (ret (failed (failure_prefix +:+ " failed: " +:+ exn_str e))) else None
      end).

Definition storage_error (m : string) : ModelIntentStorageResult :=
  IntentStorageResult false None false (Some m).
Definition query_error (m : string) : ModelIntentQueryResult := IntentQueryResult false [] 0 (Some m).
Definition distribution_error (hours : Z) (m : string) : ModelIntentDistributionResult :=
  DistributionResult false [] 0 hours (Some m).

Definition uuid_value (u : uuid) : value := Str (of_string u).

(** The clock and the identifier drawn are arguments. *)
Definition store_intent (now : micros) (fresh : uuid) (session_id : text) (c : classification)
    (correlation_id : text) : M world ModelIntentStorageResult := fun w =>
  if blank session_id then (Ok (storage_error "session_id cannot be empty"), w)
  else if negb (ready w) then (Ok (storage_error not_initialized), w)
  else
    let parsed := match correlation_id with [] => None | _ => parse_uuid correlation_id end in
    let p := StoreParameters session_id (Str (isoformat now)) (uuid_value fresh) (intent_category c)
               (Float (confidence c)) (List (Str <$> keywords c))
               (match parsed with Some u => uuid_value u | None => Null end) in
    answering storage_error storage_error "Operation" "Storage"
      (let! records := on_db (call (fun g =>
         let (r, g) := store_intent_query (session_node_label cfg) (intent_node_label cfg) (relationship_type cfg) p g in
         (Ok r, g))) in
       match records with
       | [] => ret (IntentStorageResult true (Some fresh) false None)
       | r :: _ =>
           let was_created := match r !! "was_created" with Some (Bool b) => b | _ => false end in
           let id := match r !! "intent_id" with
                     | Some (Str s) => default fresh (parse_uuid s)
                     | _ => fresh
                     end in
           ret (IntentStorageResult true (Some id) was_created None)
       end) w.

(** *** Reading records *)

Definition field (k : string) (r : record) : value := default Null (r !! k).

(** The fields both queries read; [None] skips the record. *)
Definition read_fields (session : text) (category : text -> text) (r : record) : option ModelIntentRecord :=
  match r !! "intent_id" with
  | Some (Str s) =>
      match parse_uuid s with
      | None => None
      | Some id =>
          let keywords := match r !! "keywords" with Some (List l) => str <$> l | _ => [] end in
          let confidence :=
            match r !! "confidence" with
            | Some (Float f) => f
            | Some (Int z) => float_of_Z z
            | Some (Bool b) => if b then one else zero
            | _ => zero
            end in
          let correlation_id :=
            match field "correlation_id" r with Null => None | v => parse_uuid (str v) end in
          match fromisoformat (match r !! "created_at_utc" with Some v => str v | None => [] end) with
          | None => None
          | Some created_at =>
              Some (IntentRecord id session
                (category (match r !! "intent_category" with Some v => str v | None => of_string "unknown" end))
                confidence keywords created_at correlation_id)
          end
      end
  | _ => None
  end.

Definition category_or_unknown (s : text) : text := if known_category s then s else of_string "unknown".

(** The loop over the records; the constructor may refuse one. *)
Fixpoint read_records (read : record -> option ModelIntentRecord) (accepts : ModelIntentRecord -> bool)
    (rows : list record) : res (list ModelIntentRecord) :=
  match rows with
  | [] => Ok []
  | r :: rows =>
      match read r with
      | None => read_records read accepts rows
      | Some i =>
          if accepts i then
            match read_records read accepts rows with Ok l => Ok (i :: l) | Raise e => Raise e end
          else Raise (OtherException "ValidationError" "invalid intent record")
      end
  end.

Definition execute_query (q : graph -> res (list record)) : M world (list record) :=
  on_db (call (fun g => (q g, g))).

Definition of_res {A} (r : res A) : M world A := fun w => (r, w).

(** [max(1, min(limit or its default, max))] *)
Definition effective_limit (limit : option Z) : Z :=
  Z.max 1 (Z.min (default (max_intents_per_session cfg) limit) (max_intents_per_session cfg)).

Definition get_session_intents (session_id : text) (min_confidence : spec_float) (limit : option Z)
    : M world ModelIntentQueryResult := fun w =>
  if negb (ready w) then (Ok (query_error not_initialized), w)
  else
    let effective_min :=
      clamp (if SFltb zero min_confidence then min_confidence else default_confidence_threshold cfg) in
    answering query_error query_error "Query" "Query"
      (let! rows := execute_query (get_session_intents_query (session_node_label cfg) (intent_node_label cfg)
         (relationship_type cfg) session_id effective_min (effective_limit limit)) in
       match rows with
       | [] => ret (IntentQueryResult true [] 0 None)
       | _ =>
           let! l := of_res (read_records (read_fields session_id category_or_unknown) accepts rows) in
           ret (IntentQueryResult true l (length l) None)
       end) w.

(** The distribution is a dictionary: a later record replaces an earlier one. *)
Definition count_of (l : list (text * Z)) (r : record) : list (text * Z) :=
  match r !! "category", r !! "count" with
  | Some (Str c), Some (Int n) =>
      if bool_decide (c ∈ l.*1) then (fun x => if bool_decide (x.1 = c) then (c, n) else x) <$> l
      else l ++ [(c, n)]
  | _, _ => l
  end.

Definition total (l : list (text * Z)) : Z := fold_right (fun x n => x.2 + n) 0 l.

(** A result with a time range below one is refused by its model. *)
Definition distribution_result (r : ModelIntentDistributionResult) : M world ModelIntentDistributionResult :=
  if 1 <=? d_time_range_hours r then ret r
  else raise (OtherException "ValidationError" "time_range_hours: Input should be greater than or equal to 1").

Definition get_intent_distribution (now : micros) (time_range_hours : Z)
    : M world ModelIntentDistributionResult := fun w =>
  if negb (ready w) then distribution_result (distribution_error time_range_hours not_initialized) w
  else
    let hours := Z.max 1 time_range_hours in
    match minus_hours now hours with
    | Raise e => (Raise e, w)
    | Ok since =>
        answering (distribution_error hours) (distribution_error hours) "Query" "Query"
          (let! rows := execute_query (fun g =>
             Ok (get_intent_distribution_query (intent_node_label cfg) (isoformat since) g)) in
           let d := fold_left count_of rows [] in
           distribution_result (DistributionResult true d (total d) hours None)) w
    end.

(** The record of the recent intents keeps the category as it is, and its
    model wants a confidence between 0 and 1. *)
Definition read_recent (r : record) : option ModelIntentRecord :=
  match r !! "session_id" with
  | None | Some Null => None
  | Some v => read_fields (str v) (fun c => c) r
  end.

Inductive recent_status : Type := recent_success | recent_error | no_results.
Record recent_result : Type := RecentResult {
  rr_status : recent_status;
  rr_intents : list ModelIntentRecord;
  rr_total_count : nat;
  rr_error_message : option string;
}.

Definition recent_failed (m : string) : recent_result := RecentResult recent_error [] 0 (Some m).

Definition get_recent_intents (now : micros) (time_range_hours : Z) (min_confidence : option spec_float)
    (limit : option Z) : M world recent_result := fun w =>
  if negb (ready w) then (Ok (recent_failed not_initialized), w)
  else
    match minus_hours now (Z.max 1 time_range_hours) with
    | Raise e => (Raise e, w)
    | Ok cutoff =>
        answering recent_failed recent_failed "Query" "Query"
          (let! rows := execute_query (get_recent_intents_query (session_node_label cfg) (intent_node_label cfg)
             (relationship_type cfg) (isoformat cutoff) (clamp <$> min_confidence) (effective_limit limit)) in
           match rows with
           | [] => ret (RecentResult no_results [] 0 None)
           | _ =>
               let! l := of_res (read_records read_recent (fun i => unit_float (r_confidence i)) rows) in
               ret (RecentResult recent_success l (length l) None)
           end) w
    end.

(** *** Health *)

Record ModelIntentGraphHealth : Type := IntentGraphHealth {
  is_healthy : bool;
  h_initialized : bool;
  handler_healthy : option bool;
  h_error_message : option string;
  session_count : option Z;
  intent_count : option Z;
}.

(** How the [health_check] of the handler ends. *)
Definition health_check (handler_health : res bool) : M world bool := fun w =>
  if negb (ready w) then (Ok false, w)
  else
    try_except (with_timeout (of_res handler_health))
      (fun e => if is_Exception e then Some (ret false) else None) w.

Definition count_in (k : string) (rows : list record) : option Z :=
  match rows with r :: _ => match r !! k with Some (Int z) => Some z | _ => None end | [] => None end.

Definition get_health_details (handler_health : res bool) : M world ModelIntentGraphHealth := fun w =>
  if negb (ready w) then
    (Ok (IntentGraphHealth false false None (Some "Adapter not initialized") None None), w)
  else
    let unhealthy m := IntentGraphHealth false true None (Some m) None None in
    answering unhealthy unhealthy "Health check" "Health check"
      (let! healthy := of_res handler_health in
       if healthy : bool then
         let! rows := try_except
           (execute_query (fun g => Ok (count_all_query (session_node_label cfg) (intent_node_label cfg) g)))
           (fun e => if is_Exception e then Some (ret []) else None) in
         ret (IntentGraphHealth true true (Some true) None (count_in "session_count" rows)
                (count_in "intent_count" rows))
       else ret (IntentGraphHealth false true (Some false) (Some "Handler reports unhealthy") None None)) w.

(** *** [initialize] and [shutdown] *)

Context (urlparse : string -> string * string).

Definition set_state (handler initialized : bool) : M world unit :=
  modify (fun w => World handler initialized (db w)).

(** The errors of the five statements are only logged. *)
Fixpoint ensure_each (n : nat) : M world unit :=
  match n with
  | O => ret tt
  | S n =>
      do! try_except (do! execute_query (fun _ => Ok []); ret tt)
            (fun e => if is_Exception e then Some (ret tt) else None);
      ensure_each n
  end.

Definition _ensure_indexes : M world unit :=
  if auto_create_indexes cfg then ensure_each 5 else ret tt.

Record connecting : Type := Connecting {
  lock_wait : option exn;
  create_handler : option exn;
  connect : option exn;
}.

Definition initialize (uri : string) (c : connecting) : M world unit :=
  let (scheme, hostname) := urlparse uri in
  if String.eqb scheme "" || String.eqb hostname "" then
    raise (ValueError ("Invalid connection_uri: '" +:+ uri +:+ "'. Expected format: " +:+
                       "'bolt://hostname:port' or 'bolt+s://hostname:port'"))
  else
    try_except
      (with_timeout
        (do! attempt_of (lock_wait c);
         let! w := get in
         if _initialized w then ret tt
         else
           try_except
             (do! attempt_of (create_handler c);
              do! set_state true false;
              do! attempt_of (connect c);
              do! _ensure_indexes;
              set_state true true)
             (fun e =>
               if is_Exception e
               then Some (raise (RuntimeError ("Initialization failed: " +:+ exn_str e)))
               else None)))
      (fun e =>
        match e with
        | TimeoutError _ =>
            Some (raise (RuntimeError ("Initialization timed out after " +:+ timeout_text +:+ "s. " +:+
              "Possible causes: (1) Lock contention - another coroutine may be holding the " +:+
              "initialization lock; (2) Database connection issue - the graph database may be slow " +:+
              "or unresponsive. Suggestions: Check if another initialization is in progress, verify " +:+
              "the database is reachable, or increase timeout_seconds in config.")))
        | _ => None
        end).

Definition shutdown (close : option exn) : M world unit :=
  let! w := get in
  if ready w then
    do! attempt_of close;
    set_state false false
  else ret tt.
End adapter.

(** ** What the database holds *)

(** What is known of a category of a session. *)
Record entry : Type := Entry {
  e_id : uuid;
  e_created : micros;
  e_confidence : spec_float;
  e_keywords : list text;
  e_correlation : option uuid;
}.

Definition uuid_or_null (u : option uuid) : value := match u with Some u => uuid_value u | None => Null end.

Section store.
Context (sl il rt : text) (parse_uuid : text -> option uuid).

(** The text of an identifier is one of an identifier, and the time one of a datetime. *)
Definition canonical (u : uuid) : Prop := parse_uuid (of_string u) = Some u.
Definition proper (x : entry) : Prop :=
  canonical (e_id x) /\ is_datetime (e_created x) /\
  match e_correlation x with Some u => canonical u | None => True end.

(** Node [n] and the edge [e] to it say that [x] is known of category [cat]. *)
Definition holds_entry (n : node) (e : edge) (cat : text) (x : entry) : Prop :=
  property "intent_category" (properties n) = Str cat /\
  property "intent_id" (properties n) = uuid_value (e_id x) /\
  property "created_at_utc" (properties n) = Str (isoformat (e_created x)) /\
  property "confidence" (properties n) = Float (e_confidence x) /\
  property "keywords" (properties n) = List (Str <$> e_keywords x) /\
  property "correlation_id" (e_properties e) = uuid_or_null (e_correlation x).

Definition is_session (n : node) (sid : text) : Prop :=
  labelled sl n = true /\ property "session_id" (properties n) = Str sid.

(** Edge [k] is [e] and leads from the session [ns] to the intent [n]. *)
Definition linked (g : graph) (k : nat) (e : edge) (ns n : node) : Prop :=
  edges g !! k = Some e /\ nodes g !! source e = Some ns /\ nodes g !! target e = Some n /\
  type e = rt /\ labelled sl ns = true /\ labelled il n = true.

Definition stored (g : graph) (sid cat : text) (x : entry) : Prop :=
  exists k e ns n, linked g k e ns n /\ is_session ns sid /\ holds_entry n e cat x /\ proper x.

Record wf (g : graph) : Prop := Wf {
  wf_bounds k e : edges g !! k = Some e -> (source e < length (nodes g))%nat /\ (target e < length (nodes g))%nat;
  wf_labels i n : nodes g !! i = Some n -> labelled sl n = true -> labelled il n = true -> False;
  wf_session i n : nodes g !! i = Some n -> labelled sl n = true -> exists sid, is_session n sid;
  wf_same_session i j m n sid : nodes g !! i = Some m -> nodes g !! j = Some n ->
    is_session m sid -> is_session n sid -> i = j;
  wf_entry k e ns n : linked g k e ns n -> exists cat x, holds_entry n e cat x /\ proper x;
  wf_category k e ns n k' e' ns' n' cat : linked g k e ns n -> linked g k' e' ns' n' -> source e = source e' ->
    has "intent_category" cat n = true -> has "intent_category" cat n' = true -> k = k';
  wf_owner k e ns n k' e' ns' n' : linked g k e ns n -> linked g k' e' ns' n' -> target e = target e' -> k = k';
  wf_intent j n : nodes g !! j = Some n -> labelled il n = true ->
    exists k e ns, target e = j /\ linked g k e ns n;
}.

(** The memory the graph represents: what is known of each session and category. *)
Definition memory : Type := text -> text -> option entry.
Definition represents (g : graph) (m : memory) : Prop :=
  forall sid cat x, m sid cat = Some x <-> stored g sid cat x.
Definition assign (sid cat : text) (x : entry) (m : memory) : memory := fun s c =>
  if decide (s = sid /\ c = cat) then Some x else m s c.

(** *** The elements the queries find *)

Lemma elem_sessions sid g i :
  i ∈ sessions sl sid g <-> exists n, nodes g !! i = Some n /\ is_session n sid.
Proof.
  unfold sessions, node_ids, is_session. rewrite list_elem_of_filter, elem_of_seq. split.
  - intros [H _]. destruct (nodes g !! i) as [n|]; [|done]. exists n.
    apply andb_true_iff in H as [? H]. apply bool_decide_eq_true in H. done.
  - intros (n & E & ? & H). rewrite E. apply lookup_lt_Some in E. split; [|lia].
    apply andb_true_iff. by split; [|apply bool_decide_eq_true].
Qed.

Lemma elem_intents p s g k j :
  (k, j) ∈ intents_of il rt p s g <->
  exists e n, edges g !! k = Some e /\ source e = s /\ target e = j /\ nodes g !! j = Some n /\
    type e = rt /\ labelled il n = true /\ p n = true.
Proof.
  unfold intents_of. rewrite list_elem_of_filter, incident_step. simpl. unfold step. split.
  - intros [H (e & E & Hl)]. rewrite E in H. unfold leads in Hl. simpl in Hl.
    case_bool_decide; simplify_eq. destruct (nodes g !! target e) as [n|] eqn:En; [|done].
    apply andb_true_iff in H as [[H1 H2]%andb_true_iff H3]. apply bool_decide_eq_true in H1.
    by exists e, n.
  - intros (e & n & E & <- & <- & En & ? & H1 & H2). rewrite E, En. split.
    + rewrite H1, H2, !andb_true_r. by apply bool_decide_eq_true.
    + exists e. split; [done|]. unfold leads. by rewrite bool_decide_eq_true_2.
Qed.

Lemma NoDup_intents p s g : NoDup (intents_of il rt p s g).*1.
Proof.
  unfold intents_of, incident.
  assert (H : forall ks, NoDup ks -> NoDup (filter (fun x : nat * nat => match edges g !! x.1, nodes g !! x.2 with
                   | Some e, Some n => bool_decide (type e = rt) && labelled il n && p n
                   | _, _ => false
                   end = true) (omap (fun k => e ← edges g !! k; j ← leads false s e; Some (k, j)) ks)).*1).
  { induction ks as [|k ks IH]; intros Hnd; simpl; [constructor|].
    apply NoDup_cons in Hnd as [Hk Hnd]. specialize (IH Hnd).
    destruct (e ← edges g !! k; _) as [[k' j]|] eqn:E; [|done].
    destruct (edges g !! k) as [e|] eqn:Ee; [|done]. simpl in E.
    destruct (leads _ _ _); [|done]. injection E as -> ->. rewrite filter_cons.
    case_decide; [|done]. simpl. apply NoDup_cons. split; [|done].
    intros ([k2 j2] & -> & [_ Hin]%list_elem_of_filter)%list_elem_of_fmap. simpl in *.
    apply list_elem_of_omap in Hin as (k3 & Hk3 & Hin).
    destruct (edges g !! k3); [|done]. simpl in Hin. destruct (leads _ _ _); [|done]. by simplify_eq/=. }
  apply H, NoDup_seq.
Qed.

(** *** Values determine entries *)

Lemma of_string_inj s t : of_string s = of_string t -> s = t.
Proof.
  intros H. rewrite <- (Stdlib.Strings.String.string_of_list_ascii_of_string s).
  rewrite <- (Stdlib.Strings.String.string_of_list_ascii_of_string t). by f_equal.
Qed.

Lemma isoformat_inj t t' : is_datetime t -> is_datetime t' -> isoformat t = isoformat t' -> t = t'.
Proof.
  intros Ht Ht' E. apply Z.compare_eq. rewrite <- isoformat_compare by done.
  rewrite E. apply text_compare_refl.
Qed.

Lemma holds_entry_fun n e cat x cat' x' :
  holds_entry n e cat x -> holds_entry n e cat' x' -> proper x -> proper x' -> cat = cat' /\ x = x'.
Proof.
  intros (H1 & H2 & H3 & H4 & H5 & H6) (H1' & H2' & H3' & H4' & H5' & H6') (_ & Hd & _) (_ & Hd' & _).
  rewrite H1 in H1'. rewrite H2 in H2'. rewrite H3 in H3'. rewrite H4 in H4'. rewrite H5 in H5'.
  rewrite H6 in H6'. injection H1' as ->. split; [done|]. unfold uuid_value in *.
  destruct x as [id t c ks u], x' as [id' t' c' ks' u']; simpl in *.
  injection H2' as ->%of_string_inj. injection H3' as ->%isoformat_inj; [|done..].
  injection H4' as ->. injection H5' as E. apply list_fmap_eq_inj in E as ->; [|by intros ?? [= ->]].
  f_equal. destruct u, u'; simpl in H6'; simplify_eq; [|done]. f_equal. by apply of_string_inj.
Qed.

Lemma is_session_fun n sid sid' : is_session n sid -> is_session n sid' -> sid = sid'.
Proof. intros [_ H] [_ H']. congruence. Qed.

Lemma has_category n e cat cat' x : holds_entry n e cat x -> has "intent_category" cat' n = true -> cat' = cat.
Proof. intros [H _] H'. apply bool_decide_eq_true in H'. congruence. Qed.

Lemma category_has n e cat x : holds_entry n e cat x -> has "intent_category" cat n = true.
Proof. intros [H _]. by apply bool_decide_eq_true. Qed.

Lemma stored_link g sid cat x : wf g -> stored g sid cat x ->
  forall sid' x', stored g sid' cat x' -> sid = sid' -> x = x'.
Proof.
  intros Hwf (k & e & ns & n & Hl & Hs & Hh & Hp) sid' x' (k' & e' & ns' & n' & Hl' & Hs' & Hh' & Hp') <-.
  assert (source e = source e') as Es.
  { destruct Hl as (_ & E & _), Hl' as (_ & E' & _). by eapply (wf_same_session _ Hwf). }
  assert (k = k') as <- by (eapply (wf_category _ Hwf); eauto using category_has).
  destruct Hl as (E & _ & En & _), Hl' as (E' & _ & En' & _). rewrite E in E'. injection E' as <-.
  rewrite En in En'. injection En' as <-. by eapply holds_entry_fun.
Qed.

(** *** A session more *)

Lemma linked_node_more g n1 k e ns n : wf g ->
  linked (Graph (nodes g ++ [n1]) (edges g)) k e ns n <-> linked g k e ns n.
Proof.
  intros Hwf. unfold linked; simpl. split.
  - intros (E & H1 & H2 & H). destruct (wf_bounds _ Hwf k e E).
    rewrite lookup_app_l in H1, H2 by done. done.
  - intros (E & H1 & H2 & H). split_and!; try apply H; [done|by apply lookup_app_l_Some..].
Qed.

Lemma wf_new_session g n1 sid : wf g -> is_session n1 sid -> labelled il n1 = false ->
  sessions sl sid g = [] -> wf (Graph (nodes g ++ [n1]) (edges g)).
Proof.
  intros Hwf Hn1 Hil Hno.
  assert (Hfresh : forall i n, nodes g !! i = Some n -> is_session n sid -> False).
  { intros i n E Hs. apply (not_elem_of_nil i). rewrite <- Hno. apply elem_sessions. by exists n. }
  constructor; simpl.
  - intros k e E. rewrite length_app. simpl. destruct (wf_bounds _ Hwf k e E). lia.
  - intros i n [E|[-> ->]]%lookup_snoc; [by eapply wf_labels|congruence].
  - intros i n [E|[-> ->]]%lookup_snoc Hs; [by eapply wf_session|by exists sid].
  - intros i j m n sid' [E|[-> ->]]%lookup_snoc [E'|[-> ->]]%lookup_snoc Hm Hn; [..|done].
    + by eapply wf_same_session.
    + rewrite (is_session_fun _ _ _ Hn Hn1) in Hm. by edestruct Hfresh.
    + rewrite (is_session_fun _ _ _ Hm Hn1) in Hn. by edestruct Hfresh.
  - intros k e ns n Hl%(linked_node_more _ _ _ _ _ _ Hwf). by eapply wf_entry.
  - intros k e ns n k' e' ns' n' cat Hl%(linked_node_more _ _ _ _ _ _ Hwf) Hl'%(linked_node_more _ _ _ _ _ _ Hwf).
    by eapply wf_category.
  - intros k e ns n k' e' ns' n' Hl%(linked_node_more _ _ _ _ _ _ Hwf) Hl'%(linked_node_more _ _ _ _ _ _ Hwf). by eapply wf_owner.
  - intros j n [E|[-> ->]]%lookup_snoc Hl; [|congruence].
    destruct (wf_intent _ Hwf j n E Hl) as (k & e & ns & ? & ?). exists k, e, ns.
    split; [done|]. by apply linked_node_more.
Qed.

Lemma stored_node_more g n1 sid cat x : wf g ->
  stored (Graph (nodes g ++ [n1]) (edges g)) sid cat x <-> stored g sid cat x.
Proof. intros Hwf. unfold stored. by setoid_rewrite linked_node_more. Qed.

(** *** An intent more *)

Section attach.
Context (g : graph) (s : nat) (ns1 n1 : node) (e1 : edge) (cat1 : text) (x1 : entry).
Context (Hwf : wf g) (Hs : nodes g !! s = Some ns1) (Hns1 : labelled sl ns1 = true)
  (Hn1 : labelled il n1 = true) (Hn1s : labelled sl n1 = false)
  (He1 : source e1 = s /\ target e1 = length (nodes g) /\ type e1 = rt)
  (Hh : holds_entry n1 e1 cat1 x1) (Hp : proper x1)
  (Hno : forall k e ns n, linked g k e ns n -> source e = s -> has "intent_category" cat1 n = true -> False).

Let g' : graph := Graph (nodes g ++ [n1]) (edges g ++ [e1]).

Lemma linked_attach k e ns n :
  linked g' k e ns n <-> linked g k e ns n \/ (k = length (edges g) /\ e = e1 /\ ns = ns1 /\ n = n1).
Proof using Hwf Hs Hns1 Hn1 He1.
  destruct He1 as (Es & Et & Ety). unfold linked; simpl. split.
  - intros ([E|[-> ->]]%lookup_snoc & H1 & H2 & H); [left|right].
    + destruct (wf_bounds _ Hwf k e E). rewrite lookup_app_l in H1, H2 by done. done.
    + rewrite Es in H1. rewrite Et in H2. rewrite lookup_app_l in H1 by by eapply lookup_lt_Some.
      apply lookup_snoc in H2 as [H2|[_ ->]]; [apply lookup_lt_Some in H2; lia|].
      split_and!; try done. congruence.
  - intros [(E & H1 & H2 & H)|(-> & -> & -> & ->)].
    + split_and!; try apply H; by apply lookup_app_l_Some.
    + split_and!; try done; [apply lookup_snoc; by right|rewrite Es; by apply lookup_app_l_Some|].
      rewrite Et. apply lookup_snoc. by right.
Qed.

Lemma wf_attach : wf g'.
Proof using Hwf Hs Hns1 Hn1 Hn1s He1 Hh Hp Hno.
  destruct He1 as (Es & Et & Ety).
  constructor; unfold g'; simpl.
  - intros k e [E|[-> ->]]%lookup_snoc; rewrite length_app; simpl.
    + destruct (wf_bounds _ Hwf k e E). lia.
    + apply lookup_lt_Some in Hs. lia.
  - intros i n [E|[-> ->]]%lookup_snoc; [by eapply wf_labels|congruence].
  - intros i n [E|[-> ->]]%lookup_snoc Hsl; [by eapply wf_session|congruence].
  - intros i j m n sid' [E|[-> ->]]%lookup_snoc [E'|[-> ->]]%lookup_snoc [Hm ?] [Hn ?]; try congruence.
    by eapply wf_same_session.
  - intros k e ns n [Hl|(-> & -> & -> & ->)]%linked_attach; [by eapply wf_entry|by exists cat1, x1].
  - intros k e ns n k' e' ns' n' cat [Hl|(-> & -> & -> & ->)]%linked_attach
      [Hl'|(-> & -> & -> & ->)]%linked_attach Hse Hc Hc'; [by eapply wf_category| | |done].
    + rewrite (has_category _ _ _ _ _ Hh Hc') in Hc. edestruct Hno; [exact Hl|congruence|done].
    + rewrite (has_category _ _ _ _ _ Hh Hc) in Hc'. edestruct Hno; [exact Hl'|congruence|done].
  - intros k e ns n k' e' ns' n' [Hl|(-> & -> & -> & ->)]%linked_attach
      [Hl'|(-> & -> & -> & ->)]%linked_attach Hte; [by eapply wf_owner| | |done].
    + destruct (wf_bounds _ Hwf k e (proj1 Hl)). lia.
    + destruct (wf_bounds _ Hwf k' e' (proj1 Hl')). lia.
  - intros j n [E|[-> ->]]%lookup_snoc Hl.
    + destruct (wf_intent _ Hwf j n E Hl) as (k & e & ns & ? & ?). exists k, e, ns.
      split; [done|]. apply linked_attach. by left.
    + exists (length (edges g)), e1, ns1. split; [done|]. apply linked_attach. by right.
Qed.

Lemma stored_attach sid1 sid cat x : is_session ns1 sid1 ->
  stored g' sid cat x <-> stored g sid cat x \/ (sid = sid1 /\ cat = cat1 /\ x = x1).
Proof using Hwf Hs Hns1 Hn1 He1 Hh Hp.
  intros Hsid. unfold stored. setoid_rewrite linked_attach. split.
  - intros (k & e & ns & n & [Hl|(-> & -> & -> & ->)] & H1 & H2 & H3); [left; by exists k, e, ns, n|right].
    destruct (holds_entry_fun _ _ _ _ _ _ H2 Hh H3 Hp) as [-> ->].
    by rewrite (is_session_fun _ _ _ H1 Hsid).
  - intros [(k & e & ns & n & H & ?)|(-> & -> & ->)]; [exists k, e, ns, n; split; [by left|done]|].
    exists (length (edges g)), e1, ns1, n1. split; [by right|done].
Qed.
End attach.

(** *** An intent seen again *)

Section touch.
Context (g : graph) (k0 : nat) (e0 : edge) (ns0 n0 : node) (fn : node -> node) (fe : edge -> edge)
  (cat1 : text) (x1 : entry).
Context (Hwf : wf g) (Hl0 : linked g k0 e0 ns0 n0)
  (Hfn : labels (fn n0) = labels n0)
  (Hfe : source (fe e0) = source e0 /\ target (fe e0) = target e0 /\ type (fe e0) = type e0)
  (Hcat : has "intent_category" cat1 n0 = true)
  (Hh : holds_entry (fn n0) (fe e0) cat1 x1) (Hp : proper x1).

Let g' : graph := Graph (alter fn (target e0) (nodes g)) (alter fe k0 (edges g)).

Lemma labelled_fn l : labelled l (fn n0) = labelled l n0.
Proof using Hfn. unfold labelled. by rewrite Hfn. Qed.

Lemma node_touched i n : nodes g' !! i = Some n <->
  (target e0 = i /\ n = fn n0) \/ (target e0 <> i /\ nodes g !! i = Some n).
Proof using Hl0.
  destruct Hl0 as (_ & _ & E & _). unfold g'; simpl. rewrite lookup_alter_iff, E. split.
  - intros [(-> & x & [= <-] & ->)|H]; [by left|by right].
  - intros [(-> & ->)|H]; [left|by right]. split; [done|]. by exists n0.
Qed.

Lemma session_touched i n : nodes g' !! i = Some n -> labelled sl n = true -> nodes g !! i = Some n.
Proof using Hwf Hl0 Hfn.
  intros [[<- ->]|[_ ?]]%node_touched Hs; [|done]. rewrite labelled_fn in Hs.
  destruct Hl0 as (_ & _ & E & _ & _ & Hi). by destruct (wf_labels _ Hwf _ _ E Hs).
Qed.

Lemma session_untouched i n : nodes g !! i = Some n -> labelled sl n = true -> nodes g' !! i = Some n.
Proof using Hwf Hl0.
  intros E Hs. apply node_touched. right. split; [|done]. intros <-.
  destruct Hl0 as (_ & _ & E' & _ & _ & Hi). rewrite E in E'. injection E' as ->.
  by eapply wf_labels.
Qed.

Lemma linked_touch k e ns n :
  linked g' k e ns n <->
  (k <> k0 /\ linked g k e ns n) \/ (k = k0 /\ e = fe e0 /\ ns = ns0 /\ n = fn n0).
Proof using Hwf Hl0 Hfn Hfe.
  destruct Hfe as (Es & Et & Ety). pose proof Hl0 as (E0 & Es0 & Et0 & Ety0 & Hs0 & Hi0). split.
  - intros (E & H1 & H2 & H3 & H4 & H5). apply session_touched in H1; [|done].
    unfold g' in E; simpl in E. apply lookup_alter_iff in E as [[<- (e' & E & ->)]|[Hne E]].
    + rewrite E0 in E. injection E as <-. rewrite Es, Es0 in H1. injection H1 as <-.
      rewrite Et in H2. apply node_touched in H2 as [[_ ->]|[? _]]; [|done]. right. done.
    + left. split; [done|]. apply node_touched in H2 as [[Ht ->]|[? H2]]; [|by split_and!].
      destruct Hne. eapply (wf_owner _ Hwf); [exact Hl0| |exact Ht].
      instantiate (1 := n0). instantiate (1 := ns). split_and!; try done. by rewrite <- Ht.
  - intros [[Hne Hl]|(-> & -> & -> & ->)].
    + pose proof Hl as (E & H1 & H2 & H3 & H4 & H5). split_and!; try done.
      * apply lookup_alter_iff. right. done.
      * by apply session_untouched.
      * apply node_touched. right. split; [|done]. intros Ht. apply Hne. by eapply (wf_owner _ Hwf).
    + split_and!; rewrite ?Es, ?Et, ?labelled_fn; try done; [| | |by rewrite Ety].
      * apply lookup_alter_iff. left. split; [done|]. by exists e0.
      * by apply session_untouched.
      * apply node_touched. by left.
Qed.

Lemma wf_touch : wf g'.
Proof using Hwf Hl0 Hfn Hfe Hcat Hh Hp.
  pose proof Hfe as (Es & Et & Ety). pose proof Hl0 as (E0 & Es0 & Et0 & Ety0 & Hs0 & Hi0). constructor.
  - intros k e E. unfold g' in *; simpl in *. rewrite length_alter.
    apply lookup_alter_iff in E as [[-> (e' & E & ->)]|[_ E]]; [|by eapply wf_bounds].
    rewrite E0 in E. injection E as <-. rewrite Es, Et. by eapply wf_bounds.
  - intros i n E Hs. pose proof (session_touched _ _ E Hs) as E'. by eapply (wf_labels _ Hwf).
  - intros i n E Hs. pose proof (session_touched _ _ E Hs) as E'. by eapply (wf_session _ Hwf).
  - intros i j m n sid E E' Hm Hn. pose proof Hm as [Hm' _]. pose proof Hn as [Hn' _].
    eapply (wf_same_session _ Hwf); eauto using session_touched.
  - intros k e ns n [[_ Hl]|(-> & -> & -> & ->)]%linked_touch; [by eapply wf_entry|by exists cat1, x1].
  - intros k e ns n k' e' ns' n' cat [[? Hl]|(-> & -> & -> & ->)]%linked_touch
      [[? Hl']|(-> & -> & -> & ->)]%linked_touch Hse Hc Hc'; [by eapply wf_category| | |done].
    + rewrite (has_category _ _ _ _ _ Hh Hc') in Hc. rewrite Es in Hse. by eapply (wf_category _ Hwf).
    + rewrite (has_category _ _ _ _ _ Hh Hc) in Hc'. rewrite Es in Hse. by eapply (wf_category _ Hwf).
  - intros k e ns n k' e' ns' n' [[? Hl]|(-> & -> & -> & ->)]%linked_touch
      [[? Hl']|(-> & -> & -> & ->)]%linked_touch Hte; rewrite ?Et in Hte; [by eapply wf_owner| | |done];
      by eapply (wf_owner _ Hwf).
  - intros j n [[<- ->]|[Hne E]]%node_touched Hl.
    + exists k0, (fe e0), ns0. split; [done|]. apply linked_touch. by right.
    + destruct (wf_intent _ Hwf j n E Hl) as (k & e & ns & <- & Hk). exists k, e, ns.
      split; [done|]. apply linked_touch. left. split; [|done]. intros ->.
      destruct Hk as (Ek & _). congruence.
Qed.

Lemma stored_touch sid1 sid cat x : is_session ns0 sid1 ->
  stored g' sid cat x <->
  (stored g sid cat x /\ ~ (sid = sid1 /\ cat = cat1)) \/ (sid = sid1 /\ cat = cat1 /\ x = x1).
Proof using Hwf Hl0 Hfn Hfe Hcat Hh Hp.
  intros Hsid. unfold stored. setoid_rewrite linked_touch. split.
  - intros (k & e & ns & n & [[Hne Hl]|(-> & -> & -> & ->)] & H1 & H2 & H3); [left|right].
    + split; [by exists k, e, ns, n|]. intros [-> ->]. apply Hne.
      eapply (wf_category _ Hwf); [exact Hl|exact Hl0| |by eapply category_has|done].
      destruct Hl as (_ & E & _), Hl0 as (_ & E' & _). by eapply (wf_same_session _ Hwf).
    + destruct (holds_entry_fun _ _ _ _ _ _ H2 Hh H3 Hp) as [-> ->].
      by rewrite (is_session_fun _ _ _ H1 Hsid).
  - intros [[(k & e & ns & n & Hl & H1 & H2 & H3) Hne]|(-> & -> & ->)].
    + exists k, e, ns, n. split; [left|done]. split; [|done]. intros ->. apply Hne.
      pose proof Hl0 as (E' & E1' & E2' & _). destruct Hl as (E & E1 & E2 & _). rewrite E' in E.
      injection E as <-. rewrite E1' in E1. injection E1 as <-. rewrite E2' in E2. injection E2 as <-.
      split; [by eapply is_session_fun|]. symmetry. by eapply has_category.
    + exists k0, (fe e0), ns0, (fn n0). split; [by right|done].
Qed.
End touch.

(** *** [store_intent_query] assigns an entry *)

Lemma property_set k k' v props :
  property k (set_property k' v props) = if String.eqb k k' then v else property k props.
Proof.
  unfold property, set_property. destruct (String.eqb_spec k k') as [->|Hne]; case_decide as Hv.
  - by rewrite lookup_delete_eq, Hv.
  - by rewrite lookup_insert_eq.
  - by rewrite lookup_delete_ne by congruence.
  - by rewrite lookup_insert_ne by congruence.
Qed.

Lemma labelled_one l l' props : labelled l (Node [l'] props) = bool_decide (l = l').
Proof. unfold labelled. simpl. apply bool_decide_ext. apply list_elem_of_singleton. Qed.

(** What is known once an intent was seen, again or for the first time. *)
Definition observe (now : micros) (fresh : uuid) (c : spec_float) (kws : list text) (corr : option uuid)
    (old : option entry) : entry :=
  match old with
  | None => Entry fresh now c kws corr
  | Some x => Entry (e_id x) (e_created x) c kws corr
  end.

Section query.
Context (Hlabels : sl <> il).
Context (sid cat : text) (fresh : uuid) (now : micros) (c : spec_float) (kws : list text) (corr : option uuid).
Context (Hnow : is_datetime now) (Hfresh : canonical fresh)
  (Hcorr : match corr with Some u => canonical u | None => True end).

Definition the_parameters : store_parameters :=
  StoreParameters sid (Str (isoformat now)) (uuid_value fresh) cat (Float c) (List (Str <$> kws))
    (uuid_or_null corr).

Lemma merge_session_spec g : wf g ->
  exists s ns g1, merge_session sl the_parameters g = ([s], g1) /\ wf g1 /\
    nodes g1 !! s = Some ns /\ is_session ns sid /\
    forall sid' cat' x, stored g1 sid' cat' x <-> stored g sid' cat' x.
Proof using Hlabels.
  intros Hwf. unfold merge_session. simpl p_session_id.
  destruct (sessions sl sid g) as [|s ss] eqn:E.
  - set (g1 := new_node _ _ _).
    assert (Hn : is_session (Node [sl] (set_properties [("session_id", Str sid);
      ("started_at_utc", p_now the_parameters); ("user_context", Str [])] ∅)) sid).
    { split; [by rewrite labelled_one, bool_decide_eq_true|].
      simpl. by rewrite !property_set. }
    eexists _, _, g1. split; [done|]. split_and!; [| |exact Hn|].
    + eapply wf_new_session; [done|exact Hn| |done]. by rewrite labelled_one, bool_decide_eq_false.
    + apply lookup_snoc. by right.
    + intros. by apply stored_node_more.
  - assert (Hs : s ∈ sessions sl sid g) by (rewrite E; left).
    apply elem_sessions in Hs as (n & En & Hn).
    destruct ss as [|s' ss]; [by exists s, n, g|]. exfalso.
    assert (Hs' : s' ∈ sessions sl sid g) by (rewrite E; right; left).
    apply elem_sessions in Hs' as (n' & En' & Hn').
    assert (Hnd : NoDup (sessions sl sid g)) by apply NoDup_filter, NoDup_seq.
    rewrite E in Hnd. apply NoDup_cons in Hnd as [Hnd _]. apply Hnd.
    rewrite (wf_same_session _ Hwf _ _ _ _ _ En En' Hn Hn'). left.
Qed.

Lemma intents_of_linked g s ns p k j : nodes g !! s = Some ns -> labelled sl ns = true ->
  (k, j) ∈ intents_of il rt p s g <->
  exists e n, linked g k e ns n /\ source e = s /\ target e = j /\ p n = true.
Proof.
  intros Hs Hl. rewrite elem_intents. unfold linked. split.
  - intros (e & n & ? & <- & <- & ? & ? & ? & ?). by exists e, n.
  - intros (e & n & (? & ? & ? & ? & ? & ?) & <- & <- & ?). by exists e, n.
Qed.

(** The row of the result. *)
Definition stored_row (x : entry) : record :=
  {[ "intent_id" := uuid_value (e_id x); "was_created" := Bool (bool_decide (e_created x = now)) ]}.

Lemma was_created_spec x : proper x ->
  equals (Str (isoformat (e_created x))) (Str (isoformat now)) = Bool (bool_decide (e_created x = now)).
Proof using Hnow.
  intros (_ & Hd & _). simpl. f_equal. apply bool_decide_ext. split; [|by intros ->].
  intros [= E]. by apply isoformat_inj in E.
Qed.

(** The edges [ms] get the observation's properties, and the rows are read. *)
Definition edge_properties : list (string * value) :=
  [("timestamp_utc", Str (isoformat now)); ("confidence", Float c); ("correlation_id", uuid_or_null corr)].
Definition finish (ms : list (nat * nat)) (g : graph) : list record * graph :=
  let g := fold_left (fun g x => on_edge x.1 edge_properties g) ms g in
  ((fun x : nat * nat => {[ "intent_id" := node_property "intent_id" x.2 g;
      "was_created" := equals (node_property "created_at_utc" x.2 g) (Str (isoformat now)) ]} : record) <$> ms, g).

(** What a call that gives [rows] and [g'] has done to [g]. *)
Definition assigned (g g' : graph) (rows : list record) : Prop :=
  wf g' /\ exists old, (forall x, old = Some x <-> stored g sid cat x) /\
    rows = [stored_row (observe now fresh c kws corr old)] /\
    forall sid' cat' x, stored g' sid' cat' x <->
      (stored g sid' cat' x /\ ~ (sid' = sid /\ cat' = cat)) \/
      (sid' = sid /\ cat' = cat /\ x = observe now fresh c kws corr old).

Definition with_new_intent (g : graph) (s : nat) : graph :=
  new_edge s (length (nodes g)) rt (new_node il
    [("intent_category", Str cat); ("intent_id", uuid_value fresh); ("created_at_utc", Str (isoformat now));
     ("confidence", Float c); ("keywords", List (Str <$> kws))] g).

Lemma store_new_intent g s ns : wf g -> nodes g !! s = Some ns -> is_session ns sid ->
  (forall k e n, linked g k e ns n -> source e = s -> has "intent_category" cat n = true -> False) ->
  let (rows, g') := finish [(length (edges g), length (nodes g))]
(with_new_intent g s) in
  assigned g g' rows.
Proof using Hlabels Hnow Hfresh Hcorr.
  intros Hwf Hs Hns Hno. unfold finish. cbn [fold_left fst snd fmap list_fmap].
  unfold with_new_intent, new_edge, on_edge. cbn [nodes edges new_node].
  rewrite alter_app_r_alt, Nat.sub_diag by done. cbn [alter list_alter].
  cbn [source target type e_properties].
  set (n1 := Node [il] _). set (e1 := Edge s _ rt _).
  assert (Hh : holds_entry n1 e1 cat (Entry fresh now c kws corr)).
  { unfold holds_entry, n1, e1. cbn [properties e_properties set_properties fold_left fst snd edge_properties].
    by rewrite !property_set. }
  assert (Hp : proper (Entry fresh now c kws corr)) by done.
  assert (Hn1 : labelled il n1 = true) by (unfold n1; by rewrite labelled_one, bool_decide_eq_true).
  assert (Hn1s : labelled sl n1 = false) by (unfold n1; by rewrite labelled_one, bool_decide_eq_false).
  assert (Hnone : forall k e ns' n, linked g k e ns' n -> source e = s ->
    has "intent_category" cat n = true -> False).
  { intros k e ns' n Hl He Hc. assert (ns' = ns) as ->; [|by eapply Hno].
    destruct Hl as (_ & E & _). rewrite He in E. congruence. }
  assert (Hnone' : forall x, stored g sid cat x -> False).
  { intros x (k & e & ns' & n & Hl & Hsid & Hhe & _). eapply Hnone; [exact Hl| |by eapply category_has].
    destruct Hl as (_ & E & _). by eapply wf_same_session. }
  pose proof (proj1 Hns) as Hsl. split; [by eapply (wf_attach g s ns n1 e1)|]. exists None. split_and!.
  - intros x. split; [done|]. by intros ?%Hnone'.
  - unfold node_property. cbn [nodes]. rewrite lookup_app_r, Nat.sub_diag by done. cbn [lookup list_lookup].
    destruct Hh as (_ & -> & -> & _). unfold stored_row, observe.
    by rewrite (was_created_spec _ Hp).
  - intros sid' cat' x. rewrite (stored_attach g s ns n1 e1 cat (Entry fresh now c kws corr)) by done. split.
    + intros [H|H]; [left|by right]. split; [done|]. intros [-> ->]. by eapply Hnone'.
    + intros [[H _]|H]; [by left|by right].
Qed.

Lemma store_known_intent g k e ns n : wf g -> linked g k e ns n -> is_session ns sid ->
  has "intent_category" cat n = true ->
  let (rows, g') := finish [(k, target e)]
    (on_node (target e) [("confidence", Float c); ("keywords", List (Str <$> kws))] g) in
  assigned g g' rows.
Proof using Hnow Hcorr.
  intros Hwf Hl Hns Hc. unfold finish. cbn [fold_left fst snd fmap list_fmap].
  unfold on_edge, on_node. cbn [nodes edges].
  set (fn := fun n : node => Node _ _). set (fe := fun e : edge => Edge _ _ _ _).
  destruct (wf_entry _ Hwf _ _ _ _ Hl) as (cat0 & x & Hh & Hp).
  rewrite <- (has_category _ _ _ _ _ Hh Hc) in Hh. clear cat0.
  assert (Hh' : holds_entry (fn n) (fe e) cat (observe now fresh c kws corr (Some x))).
  { destruct Hh as (H1 & H2 & H3 & _). unfold holds_entry, fn, fe.
    cbn [properties e_properties set_properties fold_left fst snd edge_properties]. by rewrite !property_set. }
  assert (Hp' : proper (observe now fresh c kws corr (Some x))) by (destruct Hp as (? & ? & _); done).
  assert (Hst : stored g sid cat x) by by exists k, e, ns, n.
  split; [by eapply (wf_touch g k e ns n fn fe)|]. exists (Some x). split_and!.
  - intros y. split; [by intros [= <-]|]. intros Hy. f_equal. by eapply stored_link.
  - destruct Hl as (_ & _ & En & _). unfold node_property. cbn [nodes]. rewrite list_lookup_alter_eq, En.
    cbn [fmap option_fmap option_map]. destruct Hh' as (_ & -> & -> & _).
    unfold stored_row. by rewrite was_created_spec.
  - intros sid' cat' y. by rewrite (stored_touch g k e ns n fn fe cat (observe now fresh c kws corr (Some x))).
Qed.

Lemma store_intent_query_assigns g : wf g ->
  let (rows, g') := store_intent_query sl il rt the_parameters g in assigned g g' rows.
Proof using Hlabels Hnow Hfresh Hcorr.
  intros Hwf. unfold store_intent_query.
  destruct (merge_session_spec g Hwf) as (s & ns & g1 & -> & Hwf1 & Hs & Hns & Hst).
  cbn [merge_intents].
  assert (Hg : forall ms g2, (let (rows, g') := finish ms g2 in assigned g1 g' rows) ->
    let (rows, g') := finish (ms ++ []) g2 in assigned g g' rows).
  { intros ms g2. rewrite app_nil_r. destruct (finish ms g2) as [rows g']. intros (Hw & old & H1 & H2 & H3).
    split; [done|]. exists old. split_and!; [by setoid_rewrite <- Hst|done|by setoid_rewrite <- Hst]. }
  pose proof (proj1 Hns) as Hsl. unfold merge_intent. change (p_category the_parameters) with cat.
  destruct (intents_of il rt (has "intent_category" cat) s g1) as [|[k j] ms] eqn:E.
  - refine (Hg [(length (edges g1), length (nodes g1))] (with_new_intent g1 s) _).
    eapply (store_new_intent g1 s ns); [done..|]. intros k e n Hl He Hc.
    apply (not_elem_of_nil (k, target e)). rewrite <- E. apply (intents_of_linked _ _ ns); [done..|].
    by exists e, n.
  - assert (Hk : (k, j) ∈ intents_of il rt (has "intent_category" cat) s g1) by (rewrite E; left).
    apply (intents_of_linked _ _ ns) in Hk as (e & n & Hl & He & <- & Hc); [|done..].
    assert (ms = []) as ->.
    { destruct ms as [|[k' j'] ms]; [done|]. exfalso.
      assert (Hk' : (k', j') ∈ intents_of il rt (has "intent_category" cat) s g1) by (rewrite E; right; left).
      apply (intents_of_linked _ _ ns) in Hk' as (e' & n' & Hl' & He' & _ & Hc'); [|done..].
      pose proof (NoDup_intents (has "intent_category" cat) s g1) as Hnd. rewrite E in Hnd.
      apply NoDup_cons in Hnd as [Hnd _]. apply Hnd.
      rewrite (wf_category _ Hwf1 _ _ _ _ _ _ _ _ cat Hl Hl') by congruence. left. }
    refine (Hg [(k, target e)]
      (on_node (target e) [("confidence", Float c); ("keywords", List (Str <$> kws))] g1) _). by eapply (store_known_intent g1 k e ns n).
Qed.
End query.

(** *** What the queries list *)

(** The links found from the sessions [ss], and the entry a link stands for. *)
Definition found_links (p : node -> bool) (ss : list nat) (g : graph) : list (nat * (nat * nat)) :=
  flat_map (fun s => (fun x => (s, x)) <$> intents_of il rt p s g) ss.

Definition denotes (g : graph) (t : nat * (nat * nat)) (z : text * text * entry) : Prop :=
  exists e ns n, linked g t.2.1 e ns n /\ source e = t.1 /\ target e = t.2.2 /\
    is_session ns z.1.1 /\ holds_entry n e z.1.2 z.2 /\ proper z.2.

(** The entries that pass a test, the latest first. *)
Definition latest (a b : text * text * entry) : Prop := e_created b.2 <= e_created a.2.
Definition listing (g : graph) (P : text -> entry -> bool) (l : list (text * text * entry)) : Prop :=
  NoDup l /\ (forall s cat x, (s, cat, x) ∈ l <-> stored g s cat x /\ P s x = true) /\
  StronglySorted latest l.

Lemma elem_found p ss g t :
  t ∈ found_links p ss g <-> t.1 ∈ ss /\ t.2 ∈ intents_of il rt p t.1 g.
Proof.
  unfold found_links. rewrite list_elem_of_In, in_flat_map. split.
  - intros (s & Hs & (x & -> & Hx)%list_elem_of_In%list_elem_of_fmap). by rewrite list_elem_of_In.
  - intros [Hs Hx]. exists t.1. rewrite <- !list_elem_of_In. split; [done|].
    apply list_elem_of_fmap. exists t.2. by destruct t.
Qed.

Lemma NoDup_found p ss g : NoDup ss -> NoDup (found_links p ss g).
Proof.
  induction ss as [|s ss IH]; intros Hnd; simpl; [constructor|]. apply NoDup_cons in Hnd as [Hs Hnd].
  apply NoDup_app. split_and!; [| |by apply IH].
  - apply NoDup_fmap_2; [by intros ?? [= ->]|]. eapply NoDup_fmap_1, NoDup_intents.
  - intros t (x & -> & _)%list_elem_of_fmap [Ht _]%elem_found. done.
Qed.

Lemma found_denotes p ss g t : wf g ->
  (forall s, s ∈ ss -> exists n, nodes g !! s = Some n /\ labelled sl n = true) ->
  t ∈ found_links p ss g -> exists z, denotes g t z.
Proof.
  intros Hwf Hss [Hs Hx]%elem_found. destruct (Hss _ Hs) as (ns & Ens & Hns). destruct t as [s [k j]]. simpl in *.
  revert Hx. intros (e & n & Hl & He & Ht & _)%(intents_of_linked _ _ ns); [|done..].
  destruct (wf_entry _ Hwf _ _ _ _ Hl) as (cat & x & Hh & Hp).
  destruct (wf_session _ Hwf _ _ Ens Hns) as [sid Hsid]. by exists (sid, cat, x), e, ns, n.
Qed.

Lemma denotes_key g t t' z : wf g -> denotes g t z -> denotes g t' z -> t = t'.
Proof.
  intros Hwf (e & ns & n & Hl & He & Ht & Hs & Hh & _) (e' & ns' & n' & Hl' & He' & Ht' & Hs' & Hh' & _).
  destruct t as [s [k j]], t' as [s' [k' j']]; simpl in *.
  assert (s = s') as <-.
  { destruct Hl as (_ & E & _), Hl' as (_ & E' & _). subst. by eapply (wf_same_session _ Hwf). }
  assert (k = k') as <-.
  { eapply (wf_category _ Hwf); [exact Hl|exact Hl'|congruence|by eapply category_has..]. }
  destruct Hl as (E & _), Hl' as (E' & _). congruence.
Qed.

(** The entries the links denote: all of those sessions that pass the test. *)
Lemma found_entries p q ss g : wf g -> NoDup ss ->
  (forall s, s ∈ ss -> exists n, nodes g !! s = Some n /\ labelled sl n = true) ->
  (forall n e cat x, holds_entry n e cat x -> proper x -> p n = q x) ->
  exists l, Forall2 (denotes g) (found_links p ss g) l /\ NoDup l /\
    forall sid cat x, (sid, cat, x) ∈ l <->
      stored g sid cat x /\ q x = true /\ exists s n, s ∈ ss /\ nodes g !! s = Some n /\ is_session n sid.
Proof.
  intros Hwf Hnd Hss Hpq.
  destruct (choose_list (denotes g) (found_links p ss g)) as [l Hl].
  { intros t Ht. by eapply found_denotes. }
  exists l. split_and!; [done| |].
  { eapply NoDup_related; [|exact Hl|by apply NoDup_found]. intros ???. by apply denotes_key. }
  intros sid cat x. split.
  - intros [i Hi]%list_elem_of_lookup. destruct (Forall2_lookup_r _ _ _ _ _ Hl Hi) as ([s [k j]] & Ht & Hd).
    apply list_elem_of_lookup_2, elem_found in Ht as [Hs Hx]. simpl in Hs, Hx.
    destruct Hd as (e & ns & n & Hk & He & Hte & Hsid & Hh & Hp). simpl in *.
    destruct (Hss _ Hs) as (ns' & Ens & Hns). pose proof Hk as (_ & E & En & _). rewrite He, Ens in E.
    injection E as ->. split_and!; [by exists k, e, ns, n| |by exists s, ns].
    revert Hx. intros (e' & n' & Hk' & _ & Hte' & Hp')%(intents_of_linked _ _ ns); [|done..].
    destruct Hk' as (_ & _ & En' & _). rewrite <- (Hpq _ _ _ _ Hh Hp). rewrite Hte, <- Hte', En' in En. congruence.
  - intros ((k & e & ns & n & Hk & Hsid & Hh & Hp) & Hq & (s & ns' & Hs & Ens & Hns)).
    pose proof Hk as (_ & E & _). assert (source e = s) as He by by eapply (wf_same_session _ Hwf).
    rewrite He, Ens in E. injection E as ->.
    assert (Ht : (s, (k, target e)) ∈ found_links p ss g).
    { apply elem_found. split; [done|]. apply (intents_of_linked _ _ ns); [done|by destruct Hsid|].
      exists e, n. split_and!; try done. by rewrite (Hpq _ _ _ _ Hh Hp). }
    apply list_elem_of_lookup in Ht as [i Hi]. destruct (Forall2_lookup_l _ _ _ _ _ Hl Hi) as (z & Hz & Hd).
    assert (z = (sid, cat, x)) as ->; [|by eapply list_elem_of_lookup_2].
    destruct Hd as (e' & ns' & n' & Hk' & _ & _ & Hsid' & Hh' & Hp'). simpl in *.
    destruct Hk as (E & E1 & E2 & _), Hk' as (E' & E1' & E2' & _). rewrite E in E'. injection E' as <-.
    rewrite E1 in E1'. injection E1' as <-. rewrite E2 in E2'. injection E2' as <-.
    destruct (holds_entry_fun _ _ _ _ _ _ Hh Hh' Hp Hp') as [E3 E4].
    destruct z as [[??]?]; simpl in *. rewrite (is_session_fun _ _ _ Hsid Hsid'). congruence.
Qed.

(** *** Their rows *)

Definition entry_row (z : text * text * entry) : record :=
  {[ "intent_id" := uuid_value (e_id z.2); "intent_category" := Str z.1.2;
     "confidence" := Float (e_confidence z.2); "keywords" := List (Str <$> e_keywords z.2);
     "created_at_utc" := Str (isoformat (e_created z.2));
     "correlation_id" := uuid_or_null (e_correlation z.2) ]}.
Definition session_row (z : text * text * entry) : record := <["session_id" := Str z.1.1]> (entry_row z).

Lemma denotes_row g t z : denotes g t z -> intent_row g t.2 = entry_row z.
Proof.
  intros (e & ns & n & (E & _ & En & _) & _ & Ht & _ & (H1 & H2 & H3 & H4 & H5 & H6) & _).
  unfold intent_row, entry_row, node_property. rewrite <- Ht, En, E.
  by rewrite H1, H2, H3, H4, H5, H6.
Qed.

Lemma denotes_session g t z : denotes g t z -> node_property "session_id" t.1 g = Str z.1.1.
Proof.
  intros (e & ns & n & (_ & Es & _) & He & _ & [_ Hs] & _). unfold node_property. by rewrite <- He, Es.
Qed.

Lemma flat_map_found {A} (f : nat -> nat * nat -> A) p ss g :
  flat_map (fun s => f s <$> intents_of il rt p s g) ss = (fun t => f t.1 t.2) <$> found_links p ss g.
Proof.
  unfold found_links. induction ss as [|s ss IH]; simpl; [done|].
  rewrite IH, fmap_app. f_equal. rewrite <- list_fmap_compose. done.
Qed.

(** The order of the rows. *)
Definition not_before (a b : record) : Prop := created_before a b = false.

Lemma insert_latest_Permutation r l : insert_latest r l ≡ₚ r :: l.
Proof. induction l as [|x l IH]; simpl; [done|]. destruct (created_before _ _); [done|]. rewrite IH. constructor. Qed.

Lemma latest_first_Permutation l : latest_first l ≡ₚ l.
Proof.
  unfold latest_first. rewrite <- (app_nil_l l) at 2. generalize (@nil record) as acc.
  induction l as [|r l IH]; intros acc; simpl; [by rewrite app_nil_r|].
  rewrite IH, insert_latest_Permutation. by rewrite <- Permutation_middle.
Qed.

Section order.
Context (P : record -> Prop).
Context (Htotal : forall a b, P a -> P b -> created_before a b = true -> not_before b a)
  (Htrans : forall a b c, P a -> P b -> P c -> not_before a b -> not_before b c -> not_before a c).

Lemma insert_latest_sorted r l : P r -> Forall P l ->
  StronglySorted not_before l -> StronglySorted not_before (insert_latest r l).
Proof using Htotal Htrans.
  intros Hr HP. induction l as [|x l IH]; simpl; intros Hs; [by repeat constructor|].
  apply Forall_cons in HP as [Hx HP]. apply StronglySorted_inv in Hs as [Hs Hf].
  destruct (created_before x r) eqn:E.
  - apply Htotal in E; [|done..]. constructor; [by constructor|]. constructor; [done|].
    apply Forall_forall. intros y Hy. apply (Htrans r x y); try done.
    + by apply (proj1 (Forall_forall _ _) HP).
    + by apply (proj1 (Forall_forall _ _) Hf).
  - constructor; [by apply IH|]. rewrite insert_latest_Permutation. by constructor.
Qed.

Lemma latest_first_sorted l : Forall P l -> StronglySorted not_before (latest_first l).
Proof using Htotal Htrans.
  unfold latest_first. intros Hl.
  assert (H : forall acc, Forall P acc -> StronglySorted not_before acc ->
    StronglySorted not_before (fold_left (fun l r => insert_latest r l) l acc)); [|by apply H; constructor].
  induction Hl as [|r l Hr Hl IH]; intros acc Ha Hs; simpl; [done|]. apply IH.
  - rewrite insert_latest_Permutation. by constructor.
  - by apply insert_latest_sorted.
Qed.
End order.

(** Rows of a time, which order as the times do. *)
Definition timed (r : record) (t : micros) : Prop := is_datetime t /\ r !! "created_at_utc" = Some (Str (isoformat t)).

Lemma timed_before a b t u : timed a t -> timed b u -> created_before a b = (t <? u).
Proof.
  intros [Ht Ha] [Hu Hb]. unfold created_before. rewrite Ha, Hb. rewrite isoformat_compare by done.
  by destruct (Z.compare_spec t u), (Z.ltb_spec t u); try lia.
Qed.

Lemma latest_rows (row : text * text * entry -> record) l :
  (forall z, z ∈ l -> timed (row z) (e_created z.2)) ->
  exists l', l ≡ₚ l' /\ latest_first (row <$> l) = row <$> l' /\ StronglySorted latest l'.
Proof.
  intros Ht. assert (E : latest_first (row <$> l) ≡ₚ map row l) by apply latest_first_Permutation.
  apply Permutation_map_inv in E as (l' & E & Hp).
  exists l'. split_and!; [done|done|].
  assert (Hs : StronglySorted not_before (latest_first (row <$> l))).
  { apply (latest_first_sorted (fun r => exists t, timed r t)).
    - intros a b [t Ha] [u Hb]. unfold not_before. rewrite (timed_before a b t u), (timed_before b a u t) by done. lia.
    - intros a b c [t Ha] [u Hb] [v Hc]. unfold not_before.
      rewrite (timed_before a b t u), (timed_before b c u v), (timed_before a c t v) by done. lia.
    - apply Forall_forall. intros r (z & -> & Hz)%list_elem_of_fmap. by exists (e_created z.2); apply Ht. }
  rewrite E in Hs. assert (Ht' : Forall (fun z => timed (row z) (e_created z.2)) l').
  { apply Forall_forall. intros z Hz. apply Ht. by rewrite Hp. }
  clear E Hp Ht. induction l' as [|z l' IH]; [constructor|].
  apply Forall_cons in Ht' as [Hz Hl]. apply StronglySorted_inv in Hs as [Hs Hf]. constructor; [by apply IH|].
  apply Forall_forall. intros y Hy. apply (proj1 (Forall_forall _ _) Hl) in Hy as Hy'.
  assert (Hb : not_before (row z) (row y)) by (apply (proj1 (Forall_forall _ _) Hf), list_elem_of_In, in_map, list_elem_of_In; done).
  unfold not_before in Hb. rewrite (timed_before _ _ _ _ Hz Hy') in Hb. unfold latest. lia.
Qed.
End store.

(** ** The operations of the adapter *)

Section operations.
Context (cfg : ModelAdapterIntentGraphConfig).
Context (parse_uuid : text -> option uuid) (fromisoformat : text -> option micros)
        (py_str : value -> text) (known_category : text -> bool)
        (accepts : ModelIntentRecord -> bool) (timeout_text : string).

Local Notation sl := (session_node_label cfg).
Local Notation il := (intent_node_label cfg).
Local Notation rt := (relationship_type cfg).
Local Notation Wf := (wf sl il rt parse_uuid).
Local Notation Represents := (represents sl il rt parse_uuid).
Local Notation Stored := (stored sl il rt parse_uuid).
Local Notation Listing := (listing sl il rt parse_uuid).

Lemma wp_on_intents {A} (m : M (calls graph) A) Q w :
  wp m (fun r d => Q r (World (_handler w) (_initialized w) d)) (db w) -> wp (on_db m) Q w.
Proof. unfold wp, on_db. by destruct (m (db w)). Qed.

(** What the handlers at the end make of an exception. *)
Definition answer {A} (timed_out failed : string -> A) (tp fp : string) (e : exn) : res A :=
  let timeout := Ok (timed_out (tp +:+ " timed out after " +:+ timeout_text +:+ "s")) in
  if decide (e = deadline) then timeout
  else match e with
       | TimeoutError _ => timeout
       | _ => if is_Exception e then Ok (failed (fp +:+ " failed: " +:+ exn_str e)) else Raise e
       end.

Lemma wp_answering {A} (t f : string -> A) tp fp m Q w :
  wp m (fun r w' => match r with Ok _ => Q r w' | Raise e => Q (answer t f tp fp e) w' end) w ->
  wp (answering timeout_text t f tp fp m) Q w.
Proof.
  intros H. unfold answering, with_timeout. rewrite !wp_try. eapply wp_mono; [|exact H].
  intros [a|e] w' HQ; [done|]. unfold answer in HQ.
  destruct (decide (e = deadline)) as [->|Hne]; [rewrite wp_raise; by rewrite wp_ret|].
  destruct e; by rewrite ?wp_ret; try destruct (is_Exception _); rewrite ?wp_ret.
Qed.

(** A failed call becomes a result, but for a cancellation that is not the
    adapter's own. *)
Definition reported {A} (bad : A -> Prop) (e : exn) (r : res A) : Prop :=
  match r with Ok a => bad a | Raise e' => e' = e /\ is_Exception e = false /\ e <> deadline end.

Lemma answer_reported {A} (bad : A -> Prop) (t f : string -> A) tp fp e :
  (forall m, bad (t m)) -> (forall m, bad (f m)) -> reported bad e (answer t f tp fp e).
Proof.
  intros Ht Hf. unfold answer. destruct (decide _); [apply Ht|].
  destruct e; try (destruct (is_Exception _) eqn:E); simpl; auto.
Qed.

Lemma wp_execute_query q Q w :
  (ends (env (db w) (made (db w))) = Completes ->
   Q (q (found (db w))) (World (_handler w) (_initialized w) (after (db w) (found (db w))))) ->
  (forall x applied, ends (env (db w) (made (db w))) = Fails x applied ->
   Q (Raise x) (World (_handler w) (_initialized w) (after (db w) (found (db w))))) ->
  wp (execute_query q) Q w.
Proof.
  intros H1 H2. apply wp_on_intents, wp_store_call; [exact H1|]. intros x applied Hx. simpl.
  destruct applied; by eapply H2.
Qed.

Section laws.
Context (Hlabels : sl <> il).
Context (Hparse : forall t u, parse_uuid t = Some u -> canonical parse_uuid u)
        (Hiso : forall t, is_datetime t -> fromisoformat (isoformat t) = Some t).

(** *** [store_intent] *)

(** What an observation adds to what is known of its category in its session. *)
Definition observed (now : micros) (fresh : uuid) (sid : text) (c : classification) (corr : text)
    (m : memory) : entry :=
  observe now fresh (confidence c) (keywords c)
    (match corr with [] => None | _ => parse_uuid corr end) (m sid (intent_category c)).

(** C32: an intent seen in a session is remembered under its
    session and category: the first time as a new entry with the time and the
    identifier drawn, later by replacing the confidence, the keywords and the
    correlation identifier of the entry; nothing else changes, and the result
    has the entry's identifier. A call that fails leaves the memory as it was or
    as it should be, and is reported as a failure; the database stays
    well-formed. *)
Theorem store_intent_upserts now fresh sid c corr w m :
  ready w = true -> blank sid = false -> is_datetime now -> canonical parse_uuid fresh ->
  Wf (found (db w)) -> Represents (found (db w)) m ->
  let x := observed now fresh sid c corr m in
  let m' := assign sid (intent_category c) x m in
  wp (store_intent cfg parse_uuid timeout_text now fresh sid c corr)
    (fun r w' => Wf (store (db w')) /\ ready w' = true /\
      match ends (env (db w) (made (db w))) with
      | Completes =>
          r = Ok (IntentStorageResult true (Some (e_id x)) (bool_decide (e_created x = now)) None) /\
          Represents (store (db w')) m'
      | Fails e applied =>
          reported (fun a => s_success a = false /\ s_intent_id a = None) e r /\
          Represents (store (db w')) (if applied : bool then m' else m)
      end) w.
Proof using Hlabels Hparse.
  intros Hready Hsid Hnow Hfresh Hwf Hm x m'. unfold store_intent, wp at 1. rewrite Hsid, Hready. cbn [negb].
  set (parsed := match corr with [] => None | _ => parse_uuid corr end).
  assert (Hcorr : match parsed with Some u => canonical parse_uuid u | None => True end).
  { destruct parsed as [u|] eqn:E; [|done]. unfold parsed in E. destruct corr; [done|]. by eapply Hparse. }
  pose proof (store_intent_query_assigns sl il rt parse_uuid Hlabels sid (intent_category c) fresh now
    (confidence c) (keywords c) parsed Hnow Hfresh Hcorr (found (db w)) Hwf) as Hq.
  destruct (store_intent_query sl il rt _ (found (db w))) as [rows g'] eqn:Eq.
  destruct Hq as (Hwf' & old & Hold & Hrows & Hst).
  assert (old = m sid (intent_category c)) as ->.
  { apply option_eq. intros y. by rewrite Hold, (Hm _ _ y). }
  change (observe now fresh _ _ _ _) with x in Hst, Hrows.
  assert (Hm' : Represents g' m').
  { intros sid' cat' y. rewrite Hst, <- (Hm sid' cat' y). unfold m', assign.
    destruct (decide (sid' = sid /\ cat' = intent_category c)) as [[-> ->]|Hne]; split.
    - intros [= <-]. by right.
    - by intros [[_ []]|(_ & _ & ->)].
    - intros H. by left.
    - intros [[H _]|(-> & -> & _)]; [done|]. by destruct Hne. }
  apply wp_answering. rewrite wp_bind. apply wp_on_intents.
  apply (wp_store_call (fun g => let (r, g0) := store_intent_query sl il rt
    (the_parameters sid (intent_category c) fresh now (confidence c) (keywords c) parsed) g in (Ok r, g0)));
    rewrite Eq; cbn [fst snd].
  - intros Hc. rewrite Hc, Hrows. rewrite wp_ret. split_and!; [done|done| |done].
    assert (Hx : Stored g' sid (intent_category c) x) by (apply Hst; by right).
    destruct Hx as (_ & _ & _ & _ & _ & _ & _ & Hid & _). change (stored_row now x !! "intent_id") with (Some (uuid_value (e_id x))).
    change (stored_row now x !! "was_created") with (Some (Bool (bool_decide (e_created x = now)))).
    unfold uuid_value. by rewrite Hid.
  - intros e applied Hc. rewrite Hc. split_and!; [by destruct applied|done| |by destruct applied].
    by apply answer_reported.
Qed.

(** *** The queries *)

(** The record of an entry, with the name its category gets. *)
Definition entry_record (category : text -> text) (z : text * text * entry) : ModelIntentRecord :=
  IntentRecord (e_id z.2) z.1.1 (category z.1.2) (e_confidence z.2) (e_keywords z.2) (e_created z.2)
    (e_correlation z.2).

Lemma entry_row_fields z :
  entry_row z !! "intent_id" = Some (uuid_value (e_id z.2)) /\
  entry_row z !! "intent_category" = Some (Str z.1.2) /\
  entry_row z !! "confidence" = Some (Float (e_confidence z.2)) /\
  entry_row z !! "keywords" = Some (List (Str <$> e_keywords z.2)) /\
  entry_row z !! "created_at_utc" = Some (Str (isoformat (e_created z.2))) /\
  entry_row z !! "correlation_id" = Some (uuid_or_null (e_correlation z.2)).
Proof. by split_and!. Qed.

Lemma session_row_fields z : session_row z !! "session_id" = Some (Str z.1.1) /\
  forall k, String.eqb k "session_id" = false -> session_row z !! k = entry_row z !! k.
Proof.
  split; [done|]. intros k Hk. apply String.eqb_neq in Hk. by apply lookup_insert_ne.
Qed.

Lemma read_fields_same session category r r' :
  (forall k, String.eqb k "session_id" = false -> r !! k = r' !! k) ->
  read_fields parse_uuid fromisoformat py_str session category r =
  read_fields parse_uuid fromisoformat py_str session category r'.
Proof.
  intros H. unfold read_fields, field.
  rewrite (H "intent_id"), (H "keywords"), (H "confidence"), (H "correlation_id"), (H "created_at_utc"),
    (H "intent_category") by done. done.
Qed.

Lemma read_entry_row category z : proper parse_uuid z.2 ->
  read_fields parse_uuid fromisoformat py_str z.1.1 category (entry_row z) = Some (entry_record category z).
Proof using Hiso.
  intros (Hid & Ht & Hc). destruct (entry_row_fields z) as (H1 & H2 & H3 & H4 & H5 & H6).
  unfold read_fields, field, entry_record. rewrite H1, H2, H3, H4, H5, H6. unfold uuid_value. rewrite Hid.
  assert (str py_str <$> (Str <$> e_keywords z.2) = e_keywords z.2) as ->.
  { rewrite <- list_fmap_compose. apply list_fmap_id. }
  cbn [str]. rewrite Hiso by done. unfold uuid_or_null, uuid_value.
  destruct (e_correlation z.2) as [u|]; cbn [from_option id str]; [by rewrite Hc|done].
Qed.

Lemma read_records_all (read : record -> option ModelIntentRecord) (acc : ModelIntentRecord -> bool)
    (row : text * text * entry -> record) category l :
  (forall z, z ∈ l -> read (row z) = Some (entry_record category z) /\ acc (entry_record category z) = true) ->
  read_records read acc (row <$> l) = Ok (entry_record category <$> l).
Proof.
  induction l as [|z l IH]; intros H; [done|]. rewrite !fmap_cons. cbn [read_records].
  destruct (H z) as [-> ->]; [left|]. rewrite IH; [done|]. intros y Hy. apply H. by right.
Qed.

Lemma limited_take {A} (limit : option Z) (l : list A) :
  limited (effective_limit cfg limit) l = Ok (take (Z.to_nat (effective_limit cfg limit)) l).
Proof. unfold limited, effective_limit. by rewrite Zltb_F by lia. Qed.

Lemma listed_proper g P l z : Listing g P l -> z ∈ l -> proper parse_uuid z.2.
Proof. intros (_ & H & _) Hz. destruct z as [[s cat] x]. by apply H in Hz as [(_ & _ & _ & _ & _ & _ & _ & ?) _]. Qed.

(** The rows of a query of entries, sorted. *)
Lemma listing_of_links p q ss g (row : text * text * entry -> record) (f : nat -> nat * nat -> record)
    (sid_ok : text -> bool) :
  Wf g -> NoDup ss ->
  (forall s, s ∈ ss <-> exists n sid, nodes g !! s = Some n /\ is_session sl n sid /\ sid_ok sid = true) ->
  (forall n e cat x, holds_entry n e cat x -> proper parse_uuid x -> p n = q x) ->
  (forall t z, denotes sl il rt parse_uuid g t z -> f t.1 t.2 = row z) ->
  (forall z, proper parse_uuid z.2 -> timed (row z) (e_created z.2)) ->
  exists l, Listing g (fun sid x => sid_ok sid && q x) l /\
    latest_first (flat_map (fun s => f s <$> intents_of il rt p s g) ss) = row <$> l.
Proof.
  intros Hwf Hnd Hss Hpq Hrow Htimed.
  destruct (found_entries sl il rt parse_uuid p q ss g Hwf Hnd) as (l0 & Hl & Hnd0 & Hin); [|done|].
  { intros s (n & sid & ? & [? _] & _)%Hss. by exists n. }
  assert (Hp : forall z, z ∈ l0 -> timed (row z) (e_created z.2)).
  { intros [[sid cat] x] ((_ & _ & _ & _ & _ & _ & _ & Hp) & _)%Hin. by apply Htimed. }
  destruct (latest_rows row l0 Hp) as (l & Hperm & E & Hs). exists l. split.
  - split_and!; [by rewrite <- Hperm| |done]. intros sid cat x. rewrite <- Hperm, Hin, andb_true_iff. split.
    + intros (? & ? & s & n & (n' & sid' & En' & Hn' & Hok)%Hss & En & Hn). rewrite En in En'. injection En' as <-.
      rewrite <- (is_session_fun _ _ _ _ Hn Hn') in Hok. done.
    + intros (Hst & Hok & ?). split_and!; [done|done|].
      destruct Hst as (k & e & ns & n & (_ & En & _) & Hs1 & _). exists (source e), ns.
      split_and!; [|done|done]. apply Hss. by exists ns, sid.
  - rewrite flat_map_found, <- E. f_equal. eapply map_related; [|exact Hl]. intros t z Hd. by apply Hrow.
Qed.

Lemma entry_row_timed z : proper parse_uuid z.2 -> timed (entry_row z) (e_created z.2).
Proof. intros (_ & Hd & _). by split. Qed.

(** The least confidence asked for. *)
Definition least_confidence (min_confidence : spec_float) : spec_float :=
  clamp (if SFltb zero min_confidence then min_confidence else default_confidence_threshold cfg).

(** The rows read one by one. *)
Lemma wp_read {A} (none : A) (f : list ModelIntentRecord -> A) (read : record -> option ModelIntentRecord)
    (acc : ModelIntentRecord -> bool) (row : text * text * entry -> record) category a Q w :
  (forall z, z ∈ a -> read (row z) = Some (entry_record category z) /\ acc (entry_record category z) = true) ->
  Q (Ok (match a with [] => none | _ => f (entry_record category <$> a) end)) w ->
  wp (match row <$> a with
      | [] => ret none
      | _ => let! l := of_res (read_records read acc (row <$> a)) in ret (f l)
      end) Q w.
Proof.
  intros Ha HQ. rewrite (read_records_all read acc row category) by done. destruct a; exact HQ.
Qed.

(** Without a failure of the database the answer
    is the intents of the session that reach the confidence, the latest first,
    up to the limit, read back as they were remembered. *)
Theorem get_session_intents_exact sid min_confidence limit w :
  ready w = true -> Wf (found (db w)) -> ends (env (db w) (made (db w))) = Completes ->
  (forall cat x, Stored (found (db w)) sid cat x ->
     accepts (entry_record (category_or_unknown known_category) (sid, cat, x)) = true) ->
  wp (get_session_intents cfg parse_uuid fromisoformat py_str known_category accepts timeout_text
        sid min_confidence limit)
    (fun r w' => exists l,
       Listing (found (db w))
         (fun s x => bool_decide (s = sid) && SFleb (least_confidence min_confidence) (e_confidence x)) l /\
       let answer := take (Z.to_nat (effective_limit cfg limit)) l in
       r = Ok (IntentQueryResult true (entry_record (category_or_unknown known_category) <$> answer)
                 (length answer) None) /\
       store (db w') = found (db w)) w.
Proof using Hiso.
  intros Hready Hwf Hc Hacc. unfold get_session_intents, wp at 1. rewrite Hready. cbn [negb].
  destruct (listing_of_links
    (fun n => ge_number (property "confidence" (properties n)) (least_confidence min_confidence))
    (fun x => SFleb (least_confidence min_confidence) (e_confidence x)) (sessions sl sid (found (db w)))
    (found (db w)) entry_row (fun _ => intent_row (found (db w))) (fun s => bool_decide (s = sid)))
    as (l & Hl & E).
  - done.
  - apply NoDup_filter, NoDup_seq.
  - intros s. rewrite elem_sessions. split.
    + intros (n & ? & ?). exists n, sid. by rewrite bool_decide_eq_true.
    + intros (n & sid' & ? & ? & ->%bool_decide_eq_true). by exists n.
  - intros n e cat x (_ & _ & _ & -> & _) _. done.
  - intros t z. apply denotes_row.
  - apply entry_row_timed.
  - apply wp_answering. rewrite wp_bind. apply wp_execute_query; [intros _|congruence].
    unfold get_session_intents_query. unfold least_confidence in E. rewrite E, limited_take.
    rewrite <- fmap_take. set (a := take _ l).
    apply (wp_read _ (fun l => IntentQueryResult true l (length l) None) _ _ entry_row
      (category_or_unknown known_category)).
    + intros z Hz%take_elem. pose proof (listed_proper _ _ _ _ Hl Hz) as Hp.
      destruct Hl as (_ & Hin & _). destruct z as [[s cat] x]. apply Hin in Hz as [Hst Hok].
      apply andb_true_iff in Hok as [->%bool_decide_eq_true _].
      split; [by apply (read_entry_row _ (sid, cat, x))|by apply Hacc].
    + exists l. split; [done|]. fold a. split; [|done]. destruct a; [done|]. by rewrite length_fmap.
Qed.

(** The answer of [get_recent_intents]. *)
Definition recent_answer (l : list ModelIntentRecord) : recent_result :=
  match l with [] => RecentResult no_results [] 0 None | _ => RecentResult recent_success l (length l) None end.

(** Without a failure of the database the answer is
    the intents of all sessions first seen in the last hours and reaching the
    confidence, the latest first, up to the limit; a time range below one hour
    counts as one, and one that reaches before the year 1 raises. *)
Theorem get_recent_intents_exact now hours min_confidence limit w :
  ready w = true -> Wf (found (db w)) -> ends (env (db w) (made (db w))) = Completes ->
  (forall s cat x, Stored (found (db w)) s cat x -> unit_float (e_confidence x) = true) ->
  wp (get_recent_intents cfg parse_uuid fromisoformat py_str timeout_text now hours min_confidence limit)
    (fun r w' =>
       match minus_hours now (Z.max 1 hours) with
       | Raise e => r = Raise e /\ w' = w
       | Ok cutoff => exists l,
           Listing (found (db w)) (fun _ x => (cutoff <=? e_created x) &&
             match min_confidence with Some c => SFleb (clamp c) (e_confidence x) | None => true end) l /\
           r = Ok (recent_answer (entry_record (fun c => c) <$> take (Z.to_nat (effective_limit cfg limit)) l)) /\
           store (db w') = found (db w)
       end) w.
Proof using Hiso.
  intros Hready Hwf Hc Hacc. unfold get_recent_intents, wp at 1. rewrite Hready. cbn [negb].
  destruct (minus_hours now (Z.max 1 hours)) as [cutoff|e] eqn:Ecut; [|done].
  assert (Hcut : is_datetime cutoff) by by eapply minus_hours_datetime.
  set (q := fun x => (cutoff <=? e_created x) &&
    match min_confidence with Some c => SFleb (clamp c) (e_confidence x) | None => true end).
  destruct (listing_of_links
    (fun n => ge_text (property "created_at_utc" (properties n)) (isoformat cutoff) &&
       match clamp <$> min_confidence with
       | Some c => ge_number (property "confidence" (properties n)) c
       | None => true
       end)
    q (node_ids (labelled sl) (found (db w)))
    (found (db w)) session_row
    (fun s x => <["session_id" := node_property "session_id" s (found (db w))]> (intent_row (found (db w)) x))
    (fun _ => true)) as (l & Hl & E).
  - done.
  - apply NoDup_filter, NoDup_seq.
  - intros s. unfold node_ids. rewrite list_elem_of_filter, elem_of_seq. split.
    + intros [H _]. destruct (nodes _ !! s) as [n|] eqn:En; [|done].
      destruct (wf_session _ _ _ _ _ Hwf _ _ En H) as [sid Hsid]. by exists n, sid.
    + intros (n & sid & En & [Hn _] & _). rewrite En. apply lookup_lt_Some in En. split; [done|lia].
  - intros n e cat x (_ & _ & H1 & H2 & _) (_ & Hd & _). rewrite H1, H2. unfold q. f_equal.
    + cbn [ge_text]. rewrite isoformat_compare by done.
      by unfold Z.leb.
    + by destruct min_confidence.
  - intros t z Hd. rewrite (denotes_row _ _ _ _ _ _ _ Hd), (denotes_session _ _ _ _ _ _ _ Hd). done.
  - intros z (_ & Hd & _). by split.
  - apply wp_answering. rewrite wp_bind. apply wp_execute_query; [intros _|congruence].
    unfold get_recent_intents_query. rewrite E, limited_take, <- fmap_take. set (a := take _ l).
    apply (wp_read _ (fun l => RecentResult recent_success l (length l) None) _ _ session_row (fun c => c)).
    + intros z Hz%take_elem. pose proof (listed_proper _ _ _ _ Hl Hz) as Hp.
      destruct Hl as (_ & Hin & _). destruct z as [[s cat] x]. apply Hin in Hz as [Hst _].
      split; [|by eapply Hacc]. unfold read_recent. destruct (session_row_fields (s, cat, x)) as [H1 H2].
      rewrite H1. rewrite (read_fields_same _ _ _ _ H2). by apply (read_entry_row _ (s, cat, x)).
    + exists l. split; [|split; [|done]].
      * destruct Hl as (? & Hin & ?). split_and!; [done|exact Hin|done].
      * fold a. by destruct a.
Qed.

(** *** The distribution *)

Definition category_count (cats : list text) (c : text) : Z := Z.of_nat (occurrences c cats).

Lemma occurrences_pos cats c : 0 < category_count cats c <-> c ∈ cats.
Proof.
  unfold category_count, occurrences. induction cats as [|x cats IH].
  - split; [simpl; lia|by intros ?%not_elem_of_nil].
  - rewrite filter_cons, elem_of_cons. destruct (decide (x = c)) as [->|Hne]; [split; [by left|simpl; lia]|].
    rewrite IH. split; [by right|by intros [->|]].
Qed.

Lemma sum_occurrences cats : forall ks, NoDup ks -> (forall c, c ∈ cats -> c ∈ ks) ->
  total ((fun c => (c, category_count cats c)) <$> ks) = Z.of_nat (length cats).
Proof.
  induction cats as [|x cats IH]; intros ks Hnd Hks.
  - clear Hks Hnd. induction ks as [|k ks IH]; [done|]. exact IH.
  - assert (Hx : x ∈ ks) by (apply Hks; left). rewrite length_cons, Nat2Z.inj_succ, <- (IH ks Hnd).
    2: { intros c Hc. apply Hks. by right. }
    clear IH Hks. assert (Hc : forall k, category_count (x :: cats) k =
      category_count cats k + if decide (k = x) then 1 else 0).
    { intros k. unfold category_count, occurrences. rewrite filter_cons.
      destruct (decide (x = k)), (decide (k = x)); subst; try done; simpl; lia. }
    induction ks as [|k ks IH]; [by apply not_elem_of_nil in Hx|].
    apply NoDup_cons in Hnd as [Hk Hnd]. rewrite !fmap_cons. cbn [total fold_right snd]. fold total. rewrite Hc.
    apply elem_of_cons in Hx as [->|Hx].
    + rewrite decide_True by done.
      assert (E : (fun c => (c, category_count (k :: cats) c)) <$> ks = (fun c => (c, category_count cats c)) <$> ks).
      { apply list_fmap_ext. intros i c Hi. f_equal. rewrite Hc, decide_False; [lia|]. intros ->.
        apply Hk. by eapply list_elem_of_lookup_2. }
      unfold total in *. rewrite E. lia.
    + rewrite decide_False by (intros ->; done). specialize (IH Hnd Hx). unfold total in *. lia.
Qed.

Definition count_row (cats : list text) (c : text) : record :=
  {[ "category" := Str c; "count" := Int (category_count cats c) ]}.

Lemma count_rows cats cs acc : NoDup (acc.*1 ++ cs) ->
  fold_left count_of (count_row cats <$> cs) acc = acc ++ ((fun c => (c, category_count cats c)) <$> cs).
Proof.
  revert acc. induction cs as [|c cs IH]; intros acc Hnd; [by rewrite app_nil_r|].
  rewrite !fmap_cons. cbn [fold_left]. unfold count_of at 2.
  change (count_row cats c !! "category") with (Some (Str c)).
  change (count_row cats c !! "count") with (Some (Int (category_count cats c))). cbv beta iota.
  assert (Hc : c ∉ acc.*1).
  { apply NoDup_app in Hnd as (_ & H & _). intros Hin. apply (H c Hin). left. }
  rewrite bool_decide_eq_false_2 by done. rewrite IH.
  - by rewrite <- app_assoc.
  - rewrite fmap_app. cbn. by rewrite <- app_assoc.
Qed.

(** The nodes of the intents seen since a time stand for the entries. *)
Lemma intent_nodes p q g : Wf g ->
  (forall n e cat x, holds_entry n e cat x -> proper parse_uuid x -> p n = q x) ->
  exists l, Listing g (fun _ x => q x) l /\
    (fun j => node_property "intent_category" j g) <$> node_ids (fun n => labelled il n && p n) g
      ≡ₚ (fun z => Str z.1.2) <$> l.
Proof.
  intros Hwf Hpq. set (ss := node_ids (labelled sl) g).
  assert (Hss : forall s, s ∈ ss <-> exists n, nodes g !! s = Some n /\ labelled sl n = true).
  { intros s. unfold ss, node_ids. rewrite list_elem_of_filter, elem_of_seq. split.
    - intros [H _]. destruct (nodes g !! s) as [n|]; [by exists n|done].
    - intros (n & En & ?). rewrite En. apply lookup_lt_Some in En. split; [done|lia]. }
  assert (Hnd : NoDup ss) by apply NoDup_filter, NoDup_seq.
  destruct (found_entries sl il rt parse_uuid p q ss g Hwf Hnd) as (l0 & Hl & Hnd0 & Hin); [by intros s ?%Hss|done|].
  destruct (latest_rows entry_row l0) as (l & Hperm & _ & Hsort).
  { intros [[sid cat] x] ((_ & _ & _ & _ & _ & _ & _ & Hp) & _)%Hin. by apply entry_row_timed. }
  exists l. split.
  - split_and!; [by rewrite <- Hperm| |done]. intros sid cat x. rewrite <- Hperm, Hin. split; [by intros (? & ? & _)|].
    intros [Hst Hq]. split_and!; [done|done|].
    destruct Hst as (k & e & ns & n & (_ & En & _) & Hs1 & _). exists (source e), ns.
    split_and!; [|done|done]. apply Hss. exists ns. by destruct Hs1.
  - rewrite <- Hperm.
    assert (Hj : node_ids (fun n => labelled il n && p n) g ≡ₚ (fun t => t.2.2) <$> found_links il rt p ss g).
    { apply NoDup_Permutation; [apply NoDup_filter, NoDup_seq| |].
      - apply NoDup_fmap_2_strong; [|by apply NoDup_found]. intros t t' Ht Ht' E.
        destruct (found_denotes sl il rt parse_uuid p ss g t Hwf) as [z Hz]; [by intros s ?%Hss|done|].
        destruct (found_denotes sl il rt parse_uuid p ss g t' Hwf) as [z' Hz']; [by intros s ?%Hss|done|].
        destruct Hz as (e & ns & n & Hk & He & Hte & _), Hz' as (e' & ns' & n' & Hk' & He' & Hte' & _).
        destruct t as [s [k j]], t' as [s' [k' j']]; simpl in *. subst j'.
        assert (k = k') as <- by (eapply (wf_owner _ _ _ _ _ Hwf); [exact Hk|exact Hk'|congruence]).
        destruct Hk as (E1 & _), Hk' as (E2 & _). congruence.
      - intros j. unfold node_ids at 1. rewrite list_elem_of_filter, elem_of_seq, list_elem_of_fmap. split.
        + intros [H _]. destruct (nodes g !! j) as [n|] eqn:En; [|done]. apply andb_true_iff in H as [Hil Hp].
          destruct (wf_intent _ _ _ _ _ Hwf j n En Hil) as (k & e & ns & Hte & Hk).
          exists (source e, (k, j)). split; [done|]. apply elem_found. simpl.
          pose proof Hk as (_ & Es & _ & _ & Hsl & _). split; [apply Hss; by exists ns|].
          apply (intents_of_linked sl _ _ _ _ ns); [done..|]. by exists e, n.
        + intros ([s [k j']] & -> & [Hs Hx]%elem_found). simpl in *. apply Hss in Hs as (ns & Ens & Hns).
          revert Hx. intros (e & n & Hk & _ & <- & Hp)%(intents_of_linked sl _ _ _ _ ns); [|done..].
          destruct Hk as (_ & _ & En & _ & _ & Hil). rewrite En, Hil, Hp.
          apply lookup_lt_Some in En. split; [done|lia]. }
    rewrite Hj, <- list_fmap_compose.
    erewrite map_related; [reflexivity| |exact Hl].
    intros t z (e & ns & n & (_ & _ & En & _) & _ & Ht & _ & (H1 & _) & _).
    unfold compose, node_property. by rewrite <- Ht, En.
Qed.

(** The categories counted. *)
Lemma distribution_rows since g : Wf g -> is_datetime since ->
  exists l cs, Listing g (fun _ x => since <=? e_created x) l /\
    let cats := (fun z => z.1.2) <$> l in
    get_intent_distribution_query il (isoformat since) g = count_row cats <$> cs /\
    NoDup cs /\ forall c, c ∈ cs <-> c ∈ cats.
Proof.
  intros Hwf Hsince.
  destruct (intent_nodes (fun n => ge_text (property "created_at_utc" (properties n)) (isoformat since))
    (fun x => since <=? e_created x) g Hwf) as (l & Hl & Hperm).
  { intros n e cat x (_ & _ & -> & _) (_ & Hd & _). cbn [ge_text]. rewrite isoformat_compare by done.
    by unfold Z.leb. }
  unfold get_intent_distribution_query. cbv zeta. set (categories := _ <$> node_ids _ g) in *.
  set (cats := (fun z => z.1.2) <$> l).
  assert (Hcats : categories ≡ₚ Str <$> cats).
  { rewrite Hperm. unfold cats. by rewrite <- list_fmap_compose. }
  assert (Hcount : forall c, Z.of_nat (length (filter (fun d => d = Str c) categories)) = category_count cats c).
  { intros c. rewrite Hcats. unfold category_count, occurrences. clear. f_equal.
    induction cats as [|x cats IH]; [done|]. rewrite fmap_cons, !filter_cons.
    destruct (decide (Str x = Str c)), (decide (x = c)); simpl; congruence. }
  assert (Hdups : remove_dups categories ≡ₚ Str <$> remove_dups cats).
  { apply NoDup_Permutation; [apply NoDup_remove_dups| |].
    - apply NoDup_fmap_2, NoDup_remove_dups. by intros ?? [= ->].
    - intros v. rewrite elem_of_remove_dups, Hcats, !list_elem_of_fmap.
      by setoid_rewrite elem_of_remove_dups. }
  set (key := fun r : record => _). set (row := fun c : value => _).
  assert (Hrows : sort_desc key (row <$> remove_dups categories) ≡ₚ map (count_row cats) (remove_dups cats)).
  { rewrite (proj1 (sort_desc_spec key _)), Hdups, <- list_fmap_compose.
    erewrite list_fmap_ext; [reflexivity|]. intros i c _. unfold compose, row. by rewrite Hcount. }
  apply Permutation_map_inv in Hrows as (cs & E & Hcs). exists l, cs. split_and!; [done|exact E| |].
  - rewrite <- Hcs. apply NoDup_remove_dups.
  - intros c. by rewrite <- Hcs, elem_of_remove_dups.
Qed.

(** Without a failure of the database the
    distribution has, for every category of the intents first seen in the last
    hours, the number of sessions it was seen in, and no other category; the
    total is the number of these intents. *)
Theorem get_intent_distribution_exact now hours w :
  ready w = true -> Wf (found (db w)) -> ends (env (db w) (made (db w))) = Completes ->
  wp (get_intent_distribution cfg timeout_text now hours)
    (fun r w' =>
       match minus_hours now (Z.max 1 hours) with
       | Raise e => r = Raise e /\ w' = w
       | Ok since => exists l d,
           Listing (found (db w)) (fun _ x => since <=? e_created x) l /\
           r = Ok (DistributionResult true d (Z.of_nat (length l)) (Z.max 1 hours) None) /\ NoDup d.*1 /\
           (forall c n, (c, n) ∈ d <-> n = category_count ((fun z => z.1.2) <$> l) c /\ 0 < n) /\
           store (db w') = found (db w)
       end) w.
Proof.
  intros Hready Hwf Hc. unfold get_intent_distribution, wp at 1. rewrite Hready. cbn [negb].
  destruct (minus_hours now (Z.max 1 hours)) as [since|e] eqn:Ecut; [|done].
  destruct (distribution_rows since (found (db w)) Hwf) as (l & cs & Hl & E & Hnd & Hcs);
    [by eapply minus_hours_datetime|].
  apply wp_answering. rewrite wp_bind. apply wp_execute_query; [intros _|congruence].
  rewrite E, count_rows by done. rewrite app_nil_l. set (cats := (fun z => z.1.2) <$> l) in *.
  unfold distribution_result. cbn [d_time_range_hours]. rewrite Zleb_T by lia. rewrite wp_ret.
  rewrite sum_occurrences; [|done|by intros c ?%Hcs]. exists l, ((fun c => (c, category_count cats c)) <$> cs).
  unfold cats at 2. rewrite length_fmap. split_and!; [done|done| | |done].
  - rewrite <- list_fmap_compose. unfold compose. cbn. by rewrite list_fmap_id.
  - intros c n. rewrite list_elem_of_fmap. split.
    + intros (c' & [= -> ->] & Hin). split; [done|]. apply Hcs in Hin. by apply occurrences_pos.
    + intros [-> Hpos]. exists c. split; [done|]. apply Hcs. by apply occurrences_pos.
Qed.
End laws.

(** *** Errors *)

Lemma answer_elim {A} (R : res A -> Prop) (t f : string -> A) tp fp e :
  (forall m, R (Ok (t m))) -> (forall m, R (Ok (f m))) ->
  (forall e, is_Exception e = false /\ e <> deadline -> R (Raise e)) -> R (answer t f tp fp e).
Proof.
  intros Ht Hf He. pose proof (answer_reported (fun a => R (Ok a)) t f tp fp e Ht Hf) as H.
  destruct (answer _ _ _ _ _); [exact H|]. destruct H as (-> & ? & ?). by apply He.
Qed.

(** On any database, well-formed or not, a query
    leaves it as it found it, and raises only a cancellation that is not the
    adapter's own, and, when the time range is not one of datetimes or a model
    refuses it, [OverflowError] and [ValidationError]. *)
Theorem intent_queries_answer sid min_confidence min_recent limit now hours w :
  let cancelled e := is_Exception e = false /\ e <> deadline in
  let kept w' := store (db w') = store (db w) \/ store (db w') = found (db w) in
  wp (get_session_intents cfg parse_uuid fromisoformat py_str known_category accepts timeout_text
        sid min_confidence limit)
     (fun r w' => kept w' /\ match r with Raise e => cancelled e | Ok a => q_total_count a = length (q_intents a) end) w /\
  wp (get_recent_intents cfg parse_uuid fromisoformat py_str timeout_text now hours min_recent limit)
     (fun r w' => kept w' /\ match r with
        | Raise e => cancelled e \/ minus_hours now (Z.max 1 hours) = Raise e
        | Ok a => rr_total_count a = length (rr_intents a)
        end) w /\
  wp (get_intent_distribution cfg timeout_text now hours)
     (fun r w' => kept w' /\ match r with
        | Raise e => cancelled e \/ minus_hours now (Z.max 1 hours) = Raise e \/ (ready w = false /\ hours < 1)
        | Ok a => d_total_intents a = total (d_distribution a)
        end) w.
Proof.
  intros cancelled kept.
  assert (Hk : forall h i d, d = after (db w) (found (db w)) -> kept (World h i d)).
  { intros h i d ->. by right. }
  split_and!.
  - unfold get_session_intents, wp at 1. destruct (ready w); cbn [negb]; [|split; [by left|done]].
    apply wp_answering. rewrite wp_bind. apply wp_execute_query.
    + intros _. unfold get_session_intents_query. rewrite limited_take.
      destruct (take _ _) as [|r rows]; [by split; [apply Hk|]|]. unfold of_res, bind, wp.
      destruct (read_records _ _ _); [by split; [apply Hk|]|]. by split; [apply Hk|apply answer_elim].
    + intros x applied _. by split; [apply Hk|apply answer_elim].
  - unfold get_recent_intents, wp at 1. destruct (ready w); cbn [negb]; [|split; [by left|done]].
    destruct (minus_hours _ _) as [cutoff|e]; [|split; [by left|by right]].
    apply wp_answering. rewrite wp_bind. apply wp_execute_query.
    + intros _. unfold get_recent_intents_query. rewrite limited_take.
      destruct (take _ _) as [|r rows]; [by split; [apply Hk|]|]. unfold of_res, bind, wp.
      destruct (read_records _ _ _); [by split; [apply Hk|]|].
      split; [by apply Hk|apply answer_elim; try done; by left].
    + intros x applied _. split; [by apply Hk|apply answer_elim; try done; by left].
  - unfold get_intent_distribution, wp at 1. destruct (ready w); cbn [negb].
    2: { unfold distribution_result. cbn. destruct (1 <=? hours) eqn:E; breflect; cbn; (split; [by left|]);
         [done|]. right. by right. }
    destruct (minus_hours _ _) as [since|e]; [|split; [by left|right; by left]].
    apply wp_answering. rewrite wp_bind. apply wp_execute_query.
    + intros _. unfold distribution_result. cbn [d_time_range_hours]. rewrite Zleb_T by lia.
      by split; [apply Hk|].
    + intros x applied _. split; [by apply Hk|apply answer_elim; try done; by left].
Qed.

(** *** What a client sees of the database and of failures *)

(** A call or none was made, and the database behaves as before. *)
Definition called (w w' : world) : Prop :=
  _handler w' = _handler w /\ _initialized w' = _initialized w /\ env (db w') = env (db w).

Lemma wp_on_intents_called {A} (f : graph -> res A * graph) Q w :
  (forall r w', called w w' -> (forall x applied, ends (env (db w) (made (db w))) = Fails x applied -> r = Raise x) ->
     Q r w') -> wp (on_db (call f)) Q w.
Proof.
  intros HQ. apply wp_on_intents, wp_store_call.
  - intros Hc. apply HQ; [done|]. intros x applied Hx. congruence.
  - intros x applied Hx. apply HQ; [done|]. intros y applied' Hy. congruence.
Qed.

(** Nothing but a foreign cancellation is raised, and a failing call is
    reported as [bad]. *)
Definition answers {A} (bad : A -> Prop) (w : world) (r : res A) (w' : world) : Prop :=
  called w w' /\
  match r with Ok _ => True | Raise e => is_Exception e = false /\ e <> deadline end /\
  (ready w = false -> match r with Ok a => bad a | Raise _ => False end) /\
  forall x applied, ends (env (db w) (made (db w))) = Fails x applied -> reported bad x r.

Lemma answering_call {A B} (bad : B -> Prop) (t f : string -> B) tp fp (q : graph -> res A * graph)
    (k : A -> M world B) w :
  (forall m, bad (t m)) -> (forall m, bad (f m)) ->
  (forall a w', (k a w').2 = w' /\ match (k a w').1 with Raise e => is_Exception e = true | Ok _ => True end) ->
  ready w = true ->
  wp (answering timeout_text t f tp fp (let! a := on_db (call q) in k a)) (answers bad w) w.
Proof.
  intros Ht Hf Hk Hr. apply wp_answering. rewrite wp_bind. apply wp_on_intents_called.
  assert (Ha : forall (P : Prop) e w', called w w' ->
    (forall x applied, ends (env (db w) (made (db w))) = Fails x applied -> e = x) ->
    answers bad w (answer t f tp fp e) w').
  { intros _ e w' Hc Hx. pose proof (answer_reported bad t f tp fp e Ht Hf) as H.
    split_and!; [done| |congruence|intros x applied E; by rewrite <- (Hx x applied E)].
    destruct (answer _ _ _ _ _); [done|]. by destruct H as (-> & ? & ?). }
  intros [a|e] w' Hc Hx.
  - destruct (Hk a w') as [E1 E2]. unfold wp. rewrite E1. destruct (k a w').1 as [b|e] eqn:E.
    + split_and!; [done|done|congruence|]. intros x applied Hx'. by specialize (Hx x applied Hx').
    + apply (Ha True); [done|]. intros x applied Hx'. by specialize (Hx x applied Hx').
  - apply (Ha True); [done|]. intros x applied Hx'. specialize (Hx x applied Hx'). congruence.
Qed.

Lemma store_intent_answers now fresh sid c corr w :
  wp (store_intent cfg parse_uuid timeout_text now fresh sid c corr)
    (answers (fun a => s_success a = false) w) w.
Proof.
  unfold store_intent, wp at 1. destruct (blank sid); [by split_and!|].
  destruct (ready w) eqn:Hr; [|by split_and!]. cbn [negb].
  apply (answering_call (fun a => s_success a = false)); try done. by intros [|r l] w'.
Qed.

Lemma read_records_Exception read acc rows e : read_records read acc rows = Raise e -> is_Exception e = true.
Proof.
  induction rows as [|x rows IH]; simpl; [done|]. destruct (read x); [|done].
  destruct (acc _); [|by intros [= <-]]. by destruct (read_records read acc rows).
Qed.

Lemma session_answers sid min_confidence limit w :
  wp (get_session_intents cfg parse_uuid fromisoformat py_str known_category accepts timeout_text
        sid min_confidence limit)
    (fun r w' => answers (fun a => q_success a = false) w r w' /\
       match r with Ok a => Forall (fun i => accepts i = true) (q_intents a) | Raise _ => True end) w.
Proof.
  assert (Hread : forall read rows, match read_records read accepts rows with
    | Ok l => Forall (fun i => accepts i = true) l | Raise e => is_Exception e = true end).
  { intros read. induction rows as [|x rows IH]; simpl; [done|].
    destruct (read x); [|done]. destruct (accepts _) eqn:Ea; [|done].
    destruct (read_records read accepts rows); [by constructor|done]. }
  apply wp_conj.
  - unfold get_session_intents, wp at 1. destruct (ready w) eqn:Hr; cbn [negb].
    2: { by split_and!. }
    apply (answering_call (fun a => q_success a = false)); try done.
    intros [|r rows] w'; [done|]. unfold bind, of_res.
    pose proof (Hread (read_fields parse_uuid fromisoformat py_str sid (category_or_unknown known_category)) (r :: rows)) as H.
    by destruct (read_records _ _ _).
  - set (R := fun r : res ModelIntentQueryResult => match r with
      | Ok a => Forall (fun i => accepts i = true) (q_intents a) | Raise _ => True end).
    unfold get_session_intents, wp at 1. destruct (ready w); cbn [negb]; [|constructor].
    refine (wp_answering _ _ _ _ _ (fun r _ => R r) w _). rewrite wp_bind. apply wp_execute_query.
    + intros _. unfold get_session_intents_query. rewrite limited_take. destruct (take _ _) as [|r rows]; [constructor|].
      unfold wp, of_res, bind.
      pose proof (Hread (read_fields parse_uuid fromisoformat py_str sid (category_or_unknown known_category)) (r :: rows)) as H.
      destruct (read_records _ _ _); [exact H|]. apply (answer_elim R); intros; unfold R; constructor.
    + intros x applied _. apply (answer_elim R); intros; unfold R; constructor.
Qed.

(** The distribution raises besides, but only when the time range is refused. *)
Lemma distribution_answers now hours w :
  wp (get_intent_distribution cfg timeout_text now hours)
    (fun r w' => answers (fun a => d_success a = false) w r w' \/
       ((hours < 1 \/ ~ is_Ok (minus_hours now hours)) /\ called w w' /\
        exists e, r = Raise e /\ is_Exception e = true)) w.
Proof.
  unfold get_intent_distribution, wp at 1. destruct (ready w) eqn:Hr; cbn [negb].
  2: { unfold distribution_result. cbn [d_time_range_hours distribution_error].
       destruct (Z.leb_spec 1 hours); [left; by split_and!|right]. split_and!; [by left|done..|]. by eexists. }
  destruct (minus_hours _ _) as [since|e] eqn:Es.
  - left. apply (answering_call (fun a => d_success a = false)); try done.
    intros rows w'. unfold distribution_result. cbn [d_time_range_hours]. by rewrite Zleb_T by lia.
  - right. split_and!; [|done..|].
    + destruct (Z.ltb_spec hours 1); [by left|right]. rewrite Z.max_r in Es by lia. rewrite Es. by intros [? [=]].
    + exists e. split; [done|]. unfold minus_hours in Es. destruct (_ || _); [by injection Es as <-|].
      destruct (_ && _); [done|]. by injection Es as <-.
Qed.

Lemma minus_hours_Exception t n e : minus_hours t n = Raise e -> is_Exception e = true.
Proof. unfold minus_hours. destruct (_ || _); [by intros [= <-]|]. destruct (_ && _); [done|by intros [= <-]]. Qed.

Lemma recent_answers now hours min_confidence limit w :
  wp (get_recent_intents cfg parse_uuid fromisoformat py_str timeout_text now hours min_confidence limit)
    (fun r w' => called w w' /\
       match r with Ok _ => True | Raise e => is_Exception e = true \/ (is_Exception e = false /\ e <> deadline) end) w.
Proof.
  unfold get_recent_intents, wp at 1. destruct (ready w) eqn:Hr; cbn [negb]; [|done].
  destruct (minus_hours _ _) as [cutoff|e] eqn:Es.
  - eapply wp_mono; [|apply (answering_call (fun _ => True)); try done].
    + intros [a|e] w' (Hc & He & _); [done|]. split; [done|by right].
    + intros [|r rows] w'; [done|]. unfold bind, of_res. destruct (read_records _ _ _) as [l|e] eqn:E; [done|].
      split; [done|]. simpl. by eapply read_records_Exception.
  - split; [done|]. left. by eapply minus_hours_Exception.
Qed.

(** *** [initialize] *)

Context (urlparse : string -> string * string).

Lemma ensure_each_outcome n (Q : res unit -> world -> Prop) w :
  (forall r d, match r with Ok _ => True | Raise e => is_Exception e = false end ->
     Q r (World (_handler w) (_initialized w) d)) -> wp (ensure_each n) Q w.
Proof.
  revert w. induction n as [|n IH]; intros w HQ.
  - simpl. rewrite wp_ret. destruct w. by apply (HQ (Ok tt)).
  - cbn [ensure_each]. rewrite wp_bind, wp_try, wp_bind. apply wp_execute_query.
    + intros _. rewrite !wp_ret. by apply IH.
    + intros x applied _. destruct (is_Exception x) eqn:Ex; [rewrite wp_ret; by apply IH|].
      by apply (HQ (Raise x)).
Qed.

(** An [initialize] that returns leaves an adapter
    that answers, one that raises leaves one that does not, and what it raises is
    [ValueError] for the URI, [RuntimeError], or a cancellation that is not its
    own; of an adapter that is initialised it changes nothing. *)
Theorem intent_initialize_usable uri c w :
  (forall e, lock_wait c = Some e -> is_Exception e = false) ->
  (_initialized w = true -> _handler w = true) ->
  wp (initialize cfg timeout_text urlparse uri c)
    (fun r w' =>
       (_initialized w = true -> w' = w) /\
       match r with
       | Ok _ => ready w' = true
       | Raise e => _initialized w' = _initialized w /\
           match e with
           | ValueError _ => (urlparse uri).1 = ""%string \/ (urlparse uri).2 = ""%string
           | RuntimeError _ => True
           | _ => is_Exception e = false /\ e <> deadline
           end
       end) w.
Proof.
  intros Hlock Hw. unfold initialize. destruct (urlparse uri) as [scheme hostname]. cbn [fst snd].
  destruct (String.eqb_spec scheme "") as [->|_]; cbn [orb]; [by rewrite wp_raise; auto|].
  destruct (String.eqb_spec hostname "") as [->|_]; cbn [orb]; [by rewrite wp_raise; auto|].
  rewrite wp_try. unfold with_timeout. rewrite wp_try.
  set (Q := fun (r : res unit) (w' : world) => (_initialized w = true -> w' = w) /\
    match r with Ok _ => ready w' = true
    | Raise e => _initialized w' = _initialized w /\
        match e with RuntimeError _ => True | _ => is_Exception e = false end end).
  apply (wp_mono _ Q).
  { intros [[]|e] w'; [done|]. intros (H1 & H2 & H3). destruct (decide (e = deadline)) as [->|Hne]; [done|].
    by destruct e. }
  rewrite wp_bind. destruct (lock_wait c) as [e|]; cbn [attempt_of].
  { rewrite wp_raise. unfold Q. specialize (Hlock e eq_refl). split_and!; [done|done|by destruct e]. }
  rewrite wp_ret, wp_bind. unfold wp at 1, get. cbn. destruct (_initialized w) eqn:Ei.
  { rewrite wp_ret. unfold Q, ready. rewrite Ei. by rewrite Hw. }
  rewrite wp_try.
  assert (Hlate : forall e h d, wp (match (if is_Exception e
      then Some (raise (RuntimeError ("Initialization failed: " +:+ exn_str e))) else None) with
      | Some k => k | None => raise e end) Q (World h false d)).
  { intros e h d. unfold Q. destruct (is_Exception e) eqn:Ee; rewrite wp_raise; split_and!; try done.
    by destruct e. }
  assert (Hlate' : forall e w', _initialized w' = false -> match (if is_Exception e
      then Some (raise (RuntimeError ("Initialization failed: " +:+ exn_str e))) else None) with
      | Some k => wp k Q w' | None => Q (Raise e) w' end).
  { intros e [h i d] Hi. simpl in Hi. subst i. specialize (Hlate e h d). by destruct (is_Exception e). }
  rewrite wp_bind. destruct (create_handler c) as [e|]; cbn [attempt_of].
  { rewrite wp_raise. by apply Hlate'. }
  rewrite wp_ret, wp_bind. unfold set_state. rewrite wp_modify, wp_bind.
  destruct (connect c) as [e|]; cbn [attempt_of].
  { rewrite wp_raise. by apply Hlate'. }
  rewrite wp_ret, wp_bind. unfold _ensure_indexes.
  destruct (auto_create_indexes cfg).
  - apply ensure_each_outcome. cbn. intros [[]|e] d He; [|by apply Hlate'].
    done.
  - done.
Qed.
End operations.

(** ** Examples and witnesses *)

Module IntentGraphDemo.

Definition cfg : ModelAdapterIntentGraphConfig :=
  IntentGraphConfig (float_of_Z 30) (of_string "Session") (of_string "Intent") (of_string "HAD_INTENT") 100
    Floats.half true.

Example intent_config_is_valid : config_valid cfg = true.
Proof. by vm_compute. Qed.

(** Identifiers are the texts that are not empty. *)
Definition parse (t : text) : option uuid := match t with [] => None | _ => Some (to_string t) end.

Lemma parse_canonical t u : parse t = Some u -> canonical parse u.
Proof.
  unfold parse, canonical. intros H.
  assert (u = to_string t) as -> by (destruct t; [done|]; congruence).
  unfold of_string, to_string. rewrite Stdlib.Strings.String.list_ascii_of_string_of_list_ascii.
  exact H.
Qed.

(** [datetime.fromisoformat], by bisection. *)
Fixpoint search (fuel : nat) (s : text) (lo hi : Z) : option micros :=
  match fuel with
  | O => None
  | S fuel =>
      let mid := (lo + hi) / 2 in
      match text_compare s (isoformat mid) with
      | Eq => Some mid
      | Lt => search fuel s lo mid
      | Gt => search fuel s (mid + 1) hi
      end
  end.
Definition fromiso (s : text) : option micros := search 60 s 0 ((last_day + 1) * day_length).

Lemma search_finds fuel t : is_datetime t -> forall lo hi, 0 <= lo <= t -> t < hi <= (last_day + 1) * day_length ->
  hi - lo < 2 ^ Z.of_nat fuel -> search fuel (isoformat t) lo hi = Some t.
Proof.
  intros Ht. induction fuel as [|fuel IH]; intros lo hi Hlo Hhi Hf; [simpl in Hf; lia|].
  rewrite Nat2Z.inj_succ, Z.pow_succ_r in Hf by lia. cbn [search].
  pose proof (Z.div_mod (lo + hi) 2 ltac:(lia)). pose proof (Z.mod_pos_bound (lo + hi) 2 ltac:(lia)).
  set (mid := (lo + hi) / 2) in *. rewrite isoformat_compare; [|done|unfold is_datetime; lia].
  destruct (Z.compare_spec t mid) as [->|Hc|Hc]; [done|apply IH; lia|apply IH; lia].
Qed.

Lemma fromiso_isoformat t : is_datetime t -> fromiso (isoformat t) = Some t.
Proof. intros Ht. apply search_finds; [done|destruct Ht; lia|destruct Ht; lia|by vm_compute]. Qed.

Definition known (c : text) : bool := bool_decide (c ∈ of_string <$> ["debugging"; "explanation"]).
Definition py_text (v : value) : text := of_string "?".
Definition in_range (i : ModelIntentRecord) : bool := unit_float (r_confidence i).

(** 2026-01-01, and hours after it. *)
Definition start : micros := 739616 * day_length.
Definition hours (n : Z) : micros := start + seconds (3600 * n).

Definition seen (sid cat : string) (t : micros) (id : uuid) (c : spec_float) (g : graph) : graph :=
  (store_intent_query (session_node_label cfg) (intent_node_label cfg) (relationship_type cfg)
     (the_parameters (of_string sid) (of_string cat) id t c [of_string "fix"] None) g).2.

Notation DemoWf := (wf (session_node_label cfg) (intent_node_label cfg) (relationship_type cfg) parse).

Lemma seen_wf sid cat t id c g : is_datetime t -> canonical parse id -> DemoWf g -> DemoWf (seen sid cat t id c g).
Proof.
  intros Ht Hid Hg. unfold seen.
  pose proof (store_intent_query_assigns (session_node_label cfg) (intent_node_label cfg) (relationship_type cfg)
    parse ltac:(done) (of_string sid) (of_string cat) id t c [of_string "fix"] None Ht Hid I g Hg) as H.
  destruct (store_intent_query _ _ _ _ _) as [rows g']. exact (proj1 H).
Qed.

Lemma empty_wf : DemoWf (Graph [] []).
Proof. constructor; simpl; try done; intros; by repeat match goal with H : linked _ _ _ _ _ _ _ _ |- _ => destruct H as (? & _) end. Qed.

(** Debugging in session s1 at 0 and again at 10 hours, explanation at 3 hours,
    debugging in session s2 at 5 hours. *)
Definition history : graph :=
  seen "s1" "debugging" (hours 10) "i4" Floats.half
    (seen "s2" "debugging" (hours 5) "i3" one
       (seen "s1" "explanation" (hours 3) "i2" (float_ratio 1 4) (seen "s1" "debugging" start "i1" one (Graph [] [])))).

Lemma history_wf : DemoWf history.
Proof. unfold history. repeat (apply seen_wf; [by vm_compute|done|]). exact empty_wf. Qed.

Definition idle (g : graph) : world := World true true (Calls g (fun _ => CallEnv id Completes) 0).
Definition quiet_w := idle history.

Definition summary (l : list ModelIntentRecord) : list (string * string) :=
  (fun i => (to_string (r_session i), r_intent_id i)) <$> l.
Definition session_summary (r : res ModelIntentQueryResult) : list (string * string) :=
  match r with Ok a => summary (q_intents a) | Raise _ => [] end.
Definition recent_summary (r : res recent_result) : list (string * string) :=
  match r with Ok a => summary (rr_intents a) | Raise _ => [] end.

Definition session (min_confidence : spec_float) : res ModelIntentQueryResult :=
  (get_session_intents cfg parse fromiso py_text known in_range "30.0" (of_string "s1") min_confidence None quiet_w).1.
Definition recent (now : micros) (n : Z) : res recent_result :=
  (get_recent_intents cfg parse fromiso py_text "30.0" now n None None quiet_w).1.

(** An intent seen again keeps its identifier; the latest first seen comes
    first; a confidence of 0 is replaced by that of the configuration. *)
Example session_intents : session_summary (session (float_ratio 1 8)) = [("s1", "i2"); ("s1", "i1")].
Proof. by vm_compute. Qed.
Example zero_confidence : session_summary (session zero) = [("s1", "i1")].
Proof. by vm_compute. Qed.

(** An intent seen an hour ago, but first seen ten hours ago, is not recent. *)
Example seen_again_not_recent : recent_summary (recent (hours 11) 2) = [] /\
  recent_summary (recent (hours 11) 6) = [("s2", "i3")].
Proof. split; by vm_compute. Qed.

(** The distribution counts sessions: debugging was seen three times. *)
Example distribution : match (get_intent_distribution cfg "30.0" (hours 11) 24 quiet_w).1 with
  | Ok r => ((fun x => (to_string x.1, x.2)) <$> d_distribution r, d_total_intents r) | Raise _ => ([], 0) end
  = ([("debugging", 2); ("explanation", 1)], 3).
Proof. by vm_compute. Qed.

(** An intent seen again at the very time of its creation counts as created. *)
Example created_twice :
  match (store_intent cfg parse "30.0" (hours 5) "i9" (of_string "s2")
           (Classification (of_string "debugging") one []) [] quiet_w).1 with
  | Ok r => (s_created r, s_intent_id r) | Raise _ => (false, None) end = (true, Some "i3"%string).
Proof. by vm_compute. Qed.

(** What is raised although nothing should be. *)
Example time_range_raises :
  (get_recent_intents cfg parse fromiso py_text "30.0" start 20000000 None None quiet_w).1 =
    Raise (OverflowError "date value out of range") /\
  (get_intent_distribution cfg "30.0" start 0 (World false false (db quiet_w))).1 =
    Raise (OtherException "ValidationError" "time_range_hours: Input should be greater than or equal to 1").
Proof. split; by vm_compute. Qed.

(** One record that the model refuses makes the answer an error. *)
Example one_bad_record :
  (get_session_intents cfg parse fromiso py_text known (fun i => negb (bool_decide (r_intent_id i = "i2"%string)))
     "30.0" (of_string "s1") (float_ratio 1 8) None quiet_w).1 =
  Ok (query_error "Query failed: invalid intent record").
Proof. by vm_compute. Qed.

(** The deadline passes while the indexes are created: the handler stays
    connected, and [shutdown] does not close it. *)
Definition slow : world :=
  World false false (Calls (Graph [] []) (fun k => CallEnv id (if (k =? 3)%nat then Fails deadline true else Completes)) 0).
Example connection_leaked :
  let w := (initialize cfg "30.0" (fun _ => ("bolt"%string, "db"%string)) "bolt://db" (Connecting None None None) slow).2 in
  _handler w = true /\ ready w = false /\ (shutdown None w).2 = w.
Proof. by vm_compute. Qed.

Lemma store_intent_upserts_witness :
  wp (store_intent cfg parse "30.0" (hours 1) "i1" (of_string "s1")
        (Classification (of_string "debugging") one [of_string "fix"]) [] )
    (fun r _ => r = Ok (IntentStorageResult true (Some "i1"%string) true None)) (idle (Graph [] [])).
Proof.
  eapply wp_mono; [|apply (store_intent_upserts cfg parse "30.0" ltac:(done) parse_canonical (hours 1) "i1"
    (of_string "s1") (Classification (of_string "debugging") one [of_string "fix"]) [] (idle (Graph [] []))
    (fun _ _ => None)); try done]; [|exact empty_wf|].
  - intros r w' (_ & _ & -> & _). by vm_compute.
  - intros sid cat x. split; [done|]. by intros (k & e & ns & n & (E & _) & _).
Defined.

Lemma get_session_intents_exact_witness :
  wp (get_session_intents cfg parse fromiso py_text known (fun _ => true) "30.0" (of_string "s1") zero (Some 10))
    (fun r w' => is_Ok r /\ store (db w') = history) quiet_w.
Proof.
  eapply wp_mono; [|apply (get_session_intents_exact cfg parse fromiso py_text known (fun _ => true) "30.0"
    fromiso_isoformat (of_string "s1") zero (Some 10) quiet_w); [done|exact history_wf|done|done]].
  intros r w' (l & _ & -> & Hst). split; [by eexists|exact Hst].
Defined.

Lemma history_confidences s cat x :
  stored (session_node_label cfg) (intent_node_label cfg) (relationship_type cfg) parse history s cat x ->
  unit_float (e_confidence x) = true.
Proof.
  intros (k & e & ns & n & (_ & _ & En & _) & _ & (_ & _ & _ & Hc & _) & _).
  apply list_elem_of_lookup_2 in En. set (l := nodes history) in En.
  assert (Hl : forallb (fun n => match property "confidence" (properties n) with
    Float f => unit_float f | _ => true end) l = true) by (clear; by vm_compute).
  rewrite forallb_forall in Hl. apply list_elem_of_In, Hl in En. by rewrite Hc in En.
Qed.

Lemma get_recent_intents_exact_witness :
  wp (get_recent_intents cfg parse fromiso py_text "30.0" (hours 11) 24 (Some Floats.half) None)
    (fun r w' => is_Ok r /\ store (db w') = history) quiet_w.
Proof.
  eapply wp_mono; [|apply (get_recent_intents_exact cfg parse fromiso py_text "30.0"
    fromiso_isoformat (hours 11) 24 (Some Floats.half) None quiet_w); [done|exact history_wf|done|]].
  - intros r w'. replace (minus_hours (hours 11) (Z.max 1 24)) with (@Ok micros (hours (-13))) by by vm_compute.
    intros (l & _ & -> & Hst). split; [by eexists|exact Hst].
  - exact history_confidences.
Defined.

Lemma get_intent_distribution_exact_witness :
  wp (get_intent_distribution cfg "30.0" (hours 11) 24)
    (fun r w' => is_Ok r /\ store (db w') = history) quiet_w.
Proof.
  eapply wp_mono; [|apply (get_intent_distribution_exact cfg parse "30.0" (hours 11) 24 quiet_w);
    [done|exact history_wf|done]].
  intros r w'. replace (minus_hours (hours 11) (Z.max 1 24)) with (@Ok micros (hours (-13))) by by vm_compute.
  intros (l & d & _ & -> & _ & _ & Hst). split; [by eexists|exact Hst].
Defined.

Lemma intent_initialize_usable_witness :
  wp (initialize cfg "30.0" (fun _ => ("bolt"%string, "db"%string)) "bolt://db" (Connecting None None None))
    (fun r w' => match r with Ok _ => ready w' = true | Raise _ => _initialized w' = false end) slow.
Proof.
  eapply wp_mono; [|apply (intent_initialize_usable cfg "30.0" (fun _ => ("bolt"%string, "db"%string)) "bolt://db"
    (Connecting None None None) slow); [done|done]].
  intros [[]|e] w' [_ H]; [exact H|exact (proj1 H)].
Defined.
End IntentGraphDemo.
