(* ===== verification/Intents.v ===== *)
(** * Intents: handlers and nodes

    Models what stands before the graph of intents: [HandlerIntent] of src/src/
    omnimemory/handlers/handler_intent.py with its circuit breaker,
    [HandlerIntentStorageAdapter] of nodes/node_intent_storage_effect/adapters/
    adapter_intent_storage.py and [HandlerIntentQuery] of
    nodes/node_intent_query_effect/handlers/handler_intent_query.py. *)

From S2P Require Import Prelude Text Floats Calls Breaker Graph Datetimes IntentGraph.

(** What the adapter needs of the outside, and how texts and floats become
    numbers and numbers texts. *)
Record outside : Type := Outside {
  parse_uuid : text -> option uuid;
  fromisoformat : text -> option micros;
  py_str : value -> text;
  known_category : text -> bool;
  accepts : ModelIntentRecord -> bool;
  urlparse : string -> string * string;
  float_text : spec_float -> string;
  float_of_text : string -> option spec_float;
  int_of_text : string -> option Z;
  as_micros : spec_float -> micros;
}.

(** The adapter's operations with all of that. *)
Section adapter.
Context (o : outside) (cfg : ModelAdapterIntentGraphConfig).

Definition timeout_text : string := float_text o (timeout_seconds cfg).
Definition adapter_store := IntentGraph.store_intent cfg (parse_uuid o) timeout_text.
Definition adapter_session :=
  IntentGraph.get_session_intents cfg (parse_uuid o) (fromisoformat o) (py_str o) (known_category o) (accepts o)
    timeout_text.
Definition adapter_distribution := IntentGraph.get_intent_distribution cfg timeout_text.
Definition adapter_recent :=
  IntentGraph.get_recent_intents cfg (parse_uuid o) (fromisoformat o) (py_str o) timeout_text.
Definition adapter_initialize := IntentGraph.initialize cfg timeout_text (urlparse o).
End adapter.

(** A new adapter: of what was, only the database is left. *)
Definition new_adapter (w : IntentGraph.world) : IntentGraph.world := IntentGraph.World false false (db w).

(** An awaited step of which only the end matters may be cancelled. *)
Definition swallow {S} (m : M S unit) : M S unit :=
  try_except m (fun e => if is_Exception e then Some (ret tt) else None).

(** ** [HandlerIntent] *)

Module HandlerIntent.
Record t : Type := State {
  _adapter : bool;
  _adapter_config : ModelAdapterIntentGraphConfig;
  _initialized : bool;
  _connection_uri : string;
  _circuit_breaker : option CB.t;
  graph : IntentGraph.world;
}.

Section handler.
Context (o : outside).

Definition on_adapter {A} (m : M IntentGraph.world A) : M t A := fun s =>
  let (r, g) := m (graph s) in
  (r, State (_adapter s) (_adapter_config s) (_initialized s) (_connection_uri s) (_circuit_breaker s) g).
Definition set_breaker (b : option CB.t) (s : t) : t :=
  State (_adapter s) (_adapter_config s) (_initialized s) (_connection_uri s) b (graph s).

(** *** Options *)

Inductive option_value : Type :=
  | OBool (b : bool)
  | OInt (z : Z)
  | OFloat (f : spec_float)
  | OStr (s : string)
  | OOther (truth : bool).

(** [float(raw) if isinstance(raw, int | float | str) else dflt] *)
Definition float_option (raw : option option_value) (dflt : spec_float) : res spec_float :=
  match raw with
  | Some (OBool b) => Ok (if b then one else zero)
  | Some (OInt z) =>
      match float_of_Z z with
      | S754_infinity _ => Raise (OverflowError "int too large to convert to float")
      | f => Ok f
      end
  | Some (OFloat f) => Ok f
  | Some (OStr s) =>
      match float_of_text o s with
      | Some f => Ok f
      | None => Raise (ValueError ("could not convert string to float: " +:+ py_repr s))
      end
  | _ => Ok dflt
  end.

Definition int_option (raw : option option_value) (dflt : Z) : res Z :=
  match raw with
  | Some (OBool b) => Ok (if b then 1 else 0)
  | Some (OInt z) => Ok z
  | Some (OFloat (S754_infinity _)) => Raise (OverflowError "cannot convert float infinity to integer")
  | Some (OFloat S754_nan) => Raise (ValueError "cannot convert float NaN to integer")
  | Some (OFloat f) => Ok (trunc f)
  | Some (OStr s) =>
      match int_of_text o s with
      | Some z => Ok z
      | None => Raise (ValueError ("invalid literal for int() with base 10: " +:+ py_repr s))
      end
  | _ => Ok dflt
  end.

(** [bool(opts.get(key, True))] *)
Definition truth (raw : option option_value) : bool :=
  match raw with
  | None => true
  | Some (OBool b) | Some (OOther b) => b
  | Some (OInt z) => negb (z =? 0)
  | Some (OFloat (S754_zero _)) => false
  | Some (OFloat _) => true
  | Some (OStr s) => negb (String.eqb s "")
  end.

Definition res_bind {A B} (r : res A) (k : A -> res B) : res B :=
  match r with Ok a => k a | Raise e => Raise e end.

(** The breaker and the configuration the options ask for; the breaker is made
    before the configuration is checked. *)
Definition parse_options (opts : gmap string option_value)
    : res (CB.config * ModelAdapterIntentGraphConfig) :=
  res_bind (float_option (opts !! "timeout_seconds") (float_of_Z 30)) (fun timeout_seconds =>
  res_bind (int_option (opts !! "max_intents_per_session") 100) (fun max_intents_per_session =>
  res_bind (float_option (opts !! "default_confidence_threshold") zero) (fun default_confidence_threshold =>
  let auto_create_indexes := truth (opts !! "auto_create_indexes") in
  res_bind (int_option (opts !! "circuit_breaker_threshold") 5) (fun circuit_breaker_threshold =>
  res_bind (float_option (opts !! "circuit_breaker_reset_timeout") (float_of_Z 60)) (fun circuit_breaker_reset_timeout =>
  Ok (CB.Config circuit_breaker_threshold (as_micros o circuit_breaker_reset_timeout) 1,
      IntentGraphConfig timeout_seconds (of_string "Session") (of_string "Intent") (of_string "HAD_INTENT")
        max_intents_per_session default_confidence_threshold auto_create_indexes)))))).

(** *** Life cycle *)

Definition invalid_config : exn := OtherException "ValidationError" "invalid ModelAdapterIntentGraphConfig".

(** The body of the [try], in the order in which the attributes are set. *)
Definition set_up (now : micros) (uri : string) (opts : gmap string option_value) (c : IntentGraph.connecting) : M t unit :=
  match parse_options opts with
  | Raise e => raise e
  | Ok (cb, cfg) =>
      do! modify (set_breaker (Some (CB.init cb now)));
      if config_valid cfg then
        do! modify (fun s => State true cfg (_initialized s) (_connection_uri s) (_circuit_breaker s)
                                   (new_adapter (graph s)));
        do! on_adapter (adapter_initialize o cfg uri c);
        modify (fun s => State (_adapter s) (_adapter_config s) true uri (_circuit_breaker s) (graph s))
      else raise invalid_config
  end.

(** [close] is how the driver's shutdown would end. *)
Definition clean_up (close : option exn) : M t unit :=
  let! s := get in
  if _adapter s then
    do! swallow (on_adapter (IntentGraph.shutdown close));
    modify (fun s => State false (_adapter_config s) (_initialized s) (_connection_uri s) (_circuit_breaker s) (graph s))
  else ret tt.

Definition initialize (now : micros) (uri : string) (opts : gmap string option_value)
    (c : IntentGraph.connecting) (close : option exn) : M t unit :=
  let! s := get in
  if _initialized s then ret tt
  else
    try_except (set_up now uri opts c)
      (fun e => if is_Exception e
                then Some (do! clean_up close; raise (RuntimeError ("Initialization failed: " +:+ exn_str e)))
                else None).

(** The wait for the adapter's shutdown may time out as well. *)
Definition shutdown (close : option exn) : M t unit :=
  let! s := get in
  if _initialized s then
    do! (if _adapter s then
           do! swallow (on_adapter (IntentGraph.shutdown close));
           modify (fun s => State false (_adapter_config s) (_initialized s) (_connection_uri s) (_circuit_breaker s) (graph s))
         else ret tt);
    modify (fun s => State (_adapter s) (_adapter_config s) false (_connection_uri s) None (graph s))
  else ret tt.

(** *** Operations *)

Definition not_initialized : string := "HandlerIntent not initialized. Call initialize() first.".

(** The breaker around a call of the adapter, at the clock readings [t0] before
    and [t1] after it: a result that is not good is a failure. *)
Definition guarded {A} (t0 t1 : micros) (good : A -> bool) (b : CB.t) (m : M IntentGraph.world A) : M t A :=
  let (allowed, b) := CB.should_allow_request t0 b in
  do! modify (set_breaker (Some b));
  if negb allowed then
    raise (CircuitBreakerOpenError ("Circuit breaker is " +:+ CircuitBreakerState_value (CB.state b)))
  else
    try_except
      (let! r := on_adapter m in
       do! modify (set_breaker (Some (if good r then CB.record_success t1 b else CB.record_failure t1 b)));
       ret r)
      (fun e => if is_Exception e
                then Some (do! modify (set_breaker (Some (CB.record_failure t1 b))); raise e)
                else None).

Definition with_adapter {A} (t0 t1 : micros) (good : A -> bool) (unready : M t A)
    (m : ModelAdapterIntentGraphConfig -> M IntentGraph.world A) : M t A := fun s =>
  match _circuit_breaker s with
  | Some b => if _initialized s && _adapter s then guarded t0 t1 good b (m (_adapter_config s)) s else unready s
  | None => unready s
  end.

Definition store_intent (t0 t1 now : micros) (fresh : uuid) (session_id : text) (c : classification)
    (correlation_id : text) : M t ModelIntentStorageResult :=
  with_adapter t0 t1 s_success (ret (storage_error not_initialized))
    (fun cfg => adapter_store o cfg now fresh session_id c correlation_id).

Definition query_session (t0 t1 : micros) (session_id : text) (min_confidence : option spec_float)
    (limit : option Z) : M t ModelIntentQueryResult :=
  with_adapter t0 t1 q_success (ret (query_error not_initialized))
    (fun cfg => adapter_session o cfg session_id (default zero min_confidence) limit).

(** Not initialised, the result is built with the time range given. *)
Definition query_distribution (t0 t1 now : micros) (time_range_hours : Z) : M t ModelIntentDistributionResult :=
  with_adapter t0 t1 d_success
    (fun s => (match distribution_result (distribution_error time_range_hours not_initialized) (graph s) with
               | (r, _) => r end, s))
    (fun cfg => adapter_distribution o cfg now time_range_hours).

(** *** [health_check] *)

Definition show_Z (z : Z) : string := pretty.pretty z.

Definition health_check (handler_health : res bool) : M t ModelIntentGraphHealth := fun s =>
  if negb (_initialized s && _adapter s) then
    (Ok (IntentGraphHealth false false None (Some "Handler not initialized") None None), s)
  else
    let info :=
      match _circuit_breaker s with
      | Some b => "circuit_breaker=" +:+ CircuitBreakerState_value (CB.state b) +:+ ", failures=" +:+
                  show_Z (CB.failure_count b) +:+ "/" +:+ show_Z (CB.failure_threshold (CB.cfg b))
      | None => ""
      end in
    let with_info m := if String.eqb info "" then m else m +:+ " (" +:+ info +:+ ")" in
    if match _circuit_breaker s with Some b => bool_decide (CB.state b = OPEN) | None => false end then
      (Ok (IntentGraphHealth false true (Some true) (Some ("Circuit breaker is open (" +:+ info +:+ ")")) None None), s)
    else
      try_except
        (let! healthy := on_adapter (IntentGraph.health_check handler_health) in
         ret (IntentGraphHealth healthy true (Some healthy)
                (if healthy : bool then None else Some (with_info "Adapter health check failed")) None None))
        (fun e => if is_Exception e
                  then Some (ret (IntentGraphHealth false true None
                                    (Some (with_info ("Health check failed: " +:+ exn_str e))) None None))
                  else None) s.
End handler.
End HandlerIntent.

(** [except ValueError]: pydantic's [ValidationError] is one. *)
Definition is_ValueError (e : exn) : bool :=
  match e with ValueError _ => true | OtherException cls _ => String.eqb cls "ValidationError" | _ => false end.

(** ** [HandlerIntentStorageAdapter] *)

Module StorageAdapter.
Record ModelIntentStorageRequest : Type := Request {
  operation : string;
  session_id : option text;
  intent_data : option classification;
  correlation_id : option uuid;
  min_confidence : spec_float;
  limit : Z;
  time_range_hours : Z;
  user_context : text;
}.

Record ModelIntentRecordResponse : Type := RecordResponse {
  rec_intent_id : uuid;
  rec_category : text;
  rec_confidence : spec_float;
  rec_keywords : list text;
  rec_created_at_utc : text;
  rec_correlation_id : option uuid;
}.

Inductive status : Type := success | error | no_results.

Record ModelIntentStorageResponse : Type := Response {
  rs_status : status;
  rs_intent_id : option uuid;
  rs_session_id : option text;
  rs_created : bool;
  rs_intents : list ModelIntentRecordResponse;
  rs_distribution : list (text * Z);
  rs_total_intents : Z;
  rs_time_range_hours : Z;
  rs_error_message : option string;
}.

Definition error_response (session : option text) (m : string) : ModelIntentStorageResponse :=
  Response error None session false [] [] 0 24 (Some m).

Record t : Type := State {
  config : ModelAdapterIntentGraphConfig;
  _adapter : bool;
  _initialized : bool;
  _circuit_breaker : CB.t;
  graph : IntentGraph.world;
}.

Section storage.
Context (o : outside).
(** [detect_pii(text, "medium")], and the text with what was found redacted. *)
Context (has_pii : text -> bool) (redact : text -> text).

Definition given {A} (x : option A) : bool := match x with Some _ => true | None => false end.

(** The validators of the request. *)
Definition request_valid (r : ModelIntentStorageRequest) : bool :=
  match session_id r with Some [] => false | _ => true end &&
  unit_float (min_confidence r) && (1 <=? limit r) && (limit r <=? 1000) && (1 <=? time_range_hours r) &&
  (time_range_hours r <=? 720) && (Z.of_nat (length (user_context r)) <=? 10000) &&
  negb (negb (bool_decide (user_context r = [])) && has_pii (user_context r)) &&
  (if String.eqb (operation r) "store" then given (session_id r) && given (intent_data r)
   else if String.eqb (operation r) "get_session" then given (session_id r)
   else String.eqb (operation r) "get_distribution").

Definition new (cfg : ModelAdapterIntentGraphConfig) (cb : CB.config) (now : micros) (d : calls Graph.graph) : t :=
  State cfg false false (CB.init cb now) (IntentGraph.World false false d).

Definition on_adapter {A} (m : M IntentGraph.world A) : M t A := fun s =>
  let (r, g) := m (graph s) in (r, State (config s) (_adapter s) (_initialized s) (_circuit_breaker s) g).

Definition initialize (uri : string) (c : IntentGraph.connecting) : M t unit :=
  let! s := get in
  if _initialized s then ret tt
  else
    do! modify (fun s => State (config s) true (_initialized s) (_circuit_breaker s) (new_adapter (graph s)));
    do! on_adapter (adapter_initialize o (config s) uri c);
    modify (fun s => State (config s) (_adapter s) true (_circuit_breaker s) (graph s)).

Definition shutdown (close : option exn) : M t unit :=
  let! s := get in
  if _adapter s then
    do! on_adapter (IntentGraph.shutdown close);
    modify (fun s => State (config s) false false (_circuit_breaker s) (graph s))
  else ret tt.

(** *** The operations, on the adapter *)

Definition sanitized_context (r : ModelIntentStorageRequest) : text :=
  match user_context r with
  | [] => []
  | c => if has_pii c then redact c else c
  end.

(** The sanitised context is not passed on. *)
Definition _store_intent (cfg : ModelAdapterIntentGraphConfig) (now : micros) (fresh drawn : uuid)
    (r : ModelIntentStorageRequest) : M IntentGraph.world ModelIntentStorageResponse :=
  match session_id r, intent_data r with
  | None, _ => raise (ValueError "session_id is required for store operation")
  | _, None => raise (ValueError "intent_data is required for store operation")
  | Some session, Some data =>
      let _ := sanitized_context r in
      let! result := adapter_store o cfg now fresh session data (of_string (default drawn (correlation_id r))) in
      ret (if s_success result
           then Response success (s_intent_id result) (Some session) (s_created result) [] [] 0 24 None
           else Response error None (Some session) false [] [] 0 24 (s_error_message result))
  end.

Definition to_response (i : ModelIntentRecord) : res ModelIntentRecordResponse :=
  if unit_float (r_confidence i) then
    Ok (RecordResponse (r_intent_id i) (r_category i) (r_confidence i) (r_keywords i)
          (isoformat (r_created_at i)) (r_correlation_id i))
  else Raise (OtherException "ValidationError" "confidence").

Fixpoint to_responses (l : list ModelIntentRecord) : res (list ModelIntentRecordResponse) :=
  match l with
  | [] => Ok []
  | i :: l =>
      match to_response i with
      | Raise e => Raise e
      | Ok x => match to_responses l with Raise e => Raise e | Ok xs => Ok (x :: xs) end
      end
  end.

Definition _get_session_intents (cfg : ModelAdapterIntentGraphConfig) (r : ModelIntentStorageRequest)
    : M IntentGraph.world ModelIntentStorageResponse :=
  match session_id r with
  | None => raise (ValueError "session_id is required for get_session operation")
  | Some session =>
      let! result := adapter_session o cfg session (min_confidence r) (Some (limit r)) in
      if negb (q_success result) then ret (Response error None None false [] [] 0 24 (q_error_message result))
      else
        match q_intents result with
        | [] => ret (Response no_results None None false [] [] 0 24 None)
        | l => let! xs := of_res (to_responses l) in ret (Response success None None false xs [] 0 24 None)
        end
  end.

Definition _get_distribution (cfg : ModelAdapterIntentGraphConfig) (now : micros) (r : ModelIntentStorageRequest)
    : M IntentGraph.world ModelIntentStorageResponse :=
  let! result := adapter_distribution o cfg now (time_range_hours r) in
  ret (if d_success result
       then Response success None None false [] (d_distribution result) (d_total_intents result)
              (d_time_range_hours result) None
       else Response error None None false [] [] 0 24 (d_error_message result)).

(** [self._circuit_breaker.call(operation, request)] *)
Definition breaker_call {A} (t0 t1 : micros) (m : M IntentGraph.world A) : M t A := fun s =>
  let (r, g) := m (graph s) in
  let (allowed, _) := CB.should_allow_request t0 (_circuit_breaker s) in
  let (r, b) := CB.call t0 t1 (fun b => (r, b)) (_circuit_breaker s) in
  (r, State (config s) (_adapter s) (_initialized s) b (if allowed then g else graph s)).

Definition dispatch (t0 t1 now : micros) (fresh drawn : uuid) (r : ModelIntentStorageRequest)
    : M t ModelIntentStorageResponse := fun s =>
  (if String.eqb (operation r) "store" then
     breaker_call t0 t1 (_store_intent (config s) now fresh drawn r)
   else if String.eqb (operation r) "get_session" then
     breaker_call t0 t1 (_get_session_intents (config s) r)
   else if String.eqb (operation r) "get_distribution" then
     breaker_call t0 t1 (_get_distribution (config s) now r)
   else ret (error_response None ("Unknown operation: " +:+ operation r))) s.

Definition execute (t0 t1 now : micros) (fresh drawn : uuid) (r : ModelIntentStorageRequest)
    : M t ModelIntentStorageResponse := fun s =>
  if negb (_initialized s && _adapter s) then
    (Ok (error_response None "Adapter not initialized. Call initialize() first."), s)
  else
    try_except (dispatch t0 t1 now fresh drawn r)
      (fun e =>
        match e with
        | CircuitBreakerOpenError m => Some (ret (error_response None ("Service temporarily unavailable: " +:+ m)))
        | _ =>
            if is_ValueError e then Some (ret (error_response None ("Validation error: " +:+ exn_str e)))
            else if is_Exception e then
              Some (ret (error_response None ("Unexpected error (" +:+ exn_class e +:+ "): " +:+ exn_str e)))
            else None
        end) s.
End storage.
End StorageAdapter.

(** ** [HandlerIntentQuery] *)

Module IntentQuery.
Record ModelHandlerIntentQueryConfig : Type := QueryConfig {
  timeout_seconds : spec_float;
  default_time_range_hours : Z;
  default_limit : Z;
  default_min_confidence : spec_float;
}.

Record request : Type := Request {
  query_id : uuid;
  query_type : string;
  session_ref : text;
  min_confidence : spec_float;
  limit : Z;
  time_range_hours : Z;
}.

(** The response event, of omnibase_core, with its fields by query. *)
Inductive response : Type :=
  | from_error (query_type error_message : string)
  | distribution_response (distribution : list (text * Z)) (time_range_hours : Z)
  | session_response (intents : list ModelIntentRecord)
  | recent_response (intents : list ModelIntentRecord) (time_range_hours : Z)
  | health_response.

Record t : Type := State {
  _config : option ModelHandlerIntentQueryConfig;
  adapter_config : ModelAdapterIntentGraphConfig;
  _adapter : bool;
  _initialized : bool;
  graph : IntentGraph.world;
}.

Section query.
Context (o : outside).
(** What the payload of the event accepts. *)
Context (payload_ok : ModelIntentRecord -> bool).

Definition on_adapter {A} (m : M IntentGraph.world A) : M t A := fun s =>
  let (r, g) := m (graph s) in (r, State (_config s) (adapter_config s) (_adapter s) (_initialized s) g).

(** [default_adapter_config] has the timeout of the handler. *)
Definition default_adapter_config (c : ModelHandlerIntentQueryConfig) : ModelAdapterIntentGraphConfig :=
  IntentGraphConfig (timeout_seconds c) (of_string "Session") (of_string "Intent") (of_string "HAD_INTENT")
    100 zero true.
Definition default_config : ModelHandlerIntentQueryConfig := QueryConfig (float_of_Z 10) 24 100 zero.

Definition initialize (uri : string) (config : option ModelHandlerIntentQueryConfig)
    (given : option ModelAdapterIntentGraphConfig) (c : IntentGraph.connecting) : M t unit :=
  let! s := get in
  if _initialized s then ret tt
  else
    let cfg := default default_config config in
    let acfg := default (default_adapter_config cfg) given in
    do! modify (fun s => State (Some cfg) acfg true (_initialized s) (new_adapter (graph s)));
    do! on_adapter (adapter_initialize o acfg uri c);
    modify (fun s => State (_config s) (adapter_config s) (_adapter s) true (graph s)).

(** Whatever the adapter's shutdown raises, the adapter is dropped. *)
Definition shutdown (close : option exn) : M t unit :=
  let! s := get in
  if _initialized s then
    do! (if _adapter s then fun s =>
           let drop s := State (_config s) (adapter_config s) false (_initialized s) (graph s) in
           let (r, s) := swallow (on_adapter (IntentGraph.shutdown close)) s in (r, drop s)
         else ret tt);
    modify (fun s => State None (adapter_config s) (_adapter s) false (graph s))
  else ret tt.

Definition or_unknown (m : option string) : string :=
  match m with Some m => if String.eqb m "" then "Unknown error" else m | None => "Unknown error" end.

Definition _handle_distribution (cfg : ModelAdapterIntentGraphConfig) (now : micros) (r : request)
    : M IntentGraph.world response :=
  let! result := adapter_distribution o cfg now (time_range_hours r) in
  ret (if d_success result then distribution_response (d_distribution result) (time_range_hours r)
       else from_error "distribution" (or_unknown (d_error_message result))).

(** The records as payloads, or the response when one is refused. *)
Definition mapped (query : string) (l : list ModelIntentRecord) (k : list ModelIntentRecord -> response) : response :=
  if forallb payload_ok l then k l else from_error query "Failed to map intent records: invalid payload".

Definition _handle_session (cfg : ModelAdapterIntentGraphConfig) (r : request) : M IntentGraph.world response :=
  match session_ref r with
  | [] => ret (from_error "session" "session_ref is required for session queries")
  | session =>
      let! result := adapter_session o cfg session
        (if SFltb zero (min_confidence r) then min_confidence r else zero) (Some (limit r)) in
      ret (if q_success result then
             match q_intents result with
             | [] => session_response []
             | l => mapped "session" l session_response
             end
           else from_error "session" (or_unknown (q_error_message result)))
  end.

Definition _handle_recent (cfg : ModelAdapterIntentGraphConfig) (now : micros) (r : request)
    : M IntentGraph.world response :=
  let! result := adapter_recent o cfg now (time_range_hours r)
    (if SFltb zero (min_confidence r) then Some (min_confidence r) else None) (Some (limit r)) in
  ret (match rr_status result with
       | recent_error => from_error "recent" (or_unknown (rr_error_message result))
       | _ =>
           match rr_intents result with
           | [] => recent_response [] (time_range_hours r)
           | l => mapped "recent" l (fun l => recent_response l (time_range_hours r))
           end
       end).

(** The deadline of the handler itself, which the adapter passes on. *)
Definition handler_deadline : exn := CancelledError "handler deadline".

Definition dispatch (cfg : ModelAdapterIntentGraphConfig) (now : micros) (r : request)
    : M IntentGraph.world response :=
  if String.eqb (query_type r) "distribution" then _handle_distribution cfg now r
  else if String.eqb (query_type r) "session" then _handle_session cfg r
  else if String.eqb (query_type r) "recent" then _handle_recent cfg now r
  else if String.eqb (query_type r) "health_check" then ret health_response
  else ret (from_error (query_type r) ("Unknown query_type: " +:+ query_type r)).

Definition execute (now : micros) (r : request) : M t response := fun s =>
  match _config s with
  | Some config =>
      if _initialized s && _adapter s then
        let late := "Handler timeout after " +:+ float_text o (timeout_seconds config) +:+ "s" in
        on_adapter
          (try_except (dispatch (adapter_config s) now r)
            (fun e =>
              if decide (e = handler_deadline) then Some (ret (from_error (query_type r) late))
              else match e with
                   | TimeoutError _ => Some (ret (from_error (query_type r) late))
                   | _ => if is_Exception e then Some (ret (from_error (query_type r) (exn_str e))) else None
                   end)) s
      else (Ok (from_error (query_type r) "Handler not initialized"), s)
  | None => (Ok (from_error (query_type r) "Handler not initialized"), s)
  end.

Record ModelIntentQueryHealth : Type := QueryHealth {
  healthy : bool;
  h_initialized : bool;
  adapter_healthy : option bool;
  error_message : option string;
}.

Definition health_check (handler_health : res bool) : M t ModelIntentQueryHealth := fun s =>
  if negb (_initialized s) then (Ok (QueryHealth false false None (Some "Handler not initialized")), s)
  else if negb (_adapter s) then
    (Ok (QueryHealth false true None (Some "Adapter is None despite initialization")), s)
  else
    try_except
      (let! h := on_adapter (IntentGraph.health_check handler_health) in
       ret (QueryHealth h true (Some h) (if h : bool then None else Some "Adapter health check failed")))
      (fun e => if is_Exception e
                then Some (ret (QueryHealth false true None (Some ("Health check failed: " +:+ exn_str e))))
                else None) s.
End query.
End IntentQuery.

(** ** What the handler promises *)

Module HandlerIntentFacts.
Import HandlerIntent.
Section facts.
Context (o : outside).

(** A request to the handler, with the clock readings around it. *)
Inductive request : Type :=
  | Store (now : micros) (fresh : uuid) (session_id : text) (c : classification) (correlation_id : text)
  | Session (session_id : text) (min_confidence : option spec_float) (limit : option Z)
  | Distribution (now : micros) (time_range_hours : Z).
Record timed_request : Type := At { t0 : micros; t1 : micros; what : request }.

Definition perform (q : timed_request) : M t unit :=
  match what q with
  | Store now fresh sid c corr => do! store_intent o (t0 q) (t1 q) now fresh sid c corr; ret tt
  | Session sid m l => do! query_session o (t0 q) (t1 q) sid m l; ret tt
  | Distribution now h => do! query_distribution o (t0 q) (t1 q) now h; ret tt
  end.
Definition next (s : t) (q : timed_request) : t := (perform q s).2.

(** The handler is initialised, with breaker [b]. *)
Definition usable (s : t) (b : CB.t) : Prop :=
  _initialized s = true /\ _adapter s = true /\ _circuit_breaker s = Some b.

(** Every call of the database fails. *)
Definition failing (w : IntentGraph.world) : Prop :=
  forall k, exists e applied, ends (env (db w) k) = Fails e applied /\ (is_Exception e = true \/ e = deadline).

Definition with_breaker (b : CB.t) (s : t) : t := set_breaker (Some b) s.

(** A computation of the adapter that fails, whatever it leaves behind. *)
Definition fails {A} (good : A -> bool) (m : M IntentGraph.world A) (w : IntentGraph.world) : Prop :=
  wp m (fun r w' => called w w' /\
    match r with Ok a => good a = false | Raise e => is_Exception e = true end) w.

Lemma failing_called w w' : called w w' -> failing w -> failing w'.
Proof. intros (_ & _ & E) Hf k. rewrite E. apply Hf. Qed.

Lemma reported_fails {A} (good : A -> bool) (w : IntentGraph.world) (r : res A) : failing w ->
  (forall x applied, ends (env (db w) (made (db w))) = Fails x applied -> reported (fun a => good a = false) x r) ->
  match r with Ok a => good a = false | Raise e => is_Exception e = true end.
Proof.
  intros Hf H. destruct (Hf (made (db w))) as (x & applied & E & Hx). specialize (H x applied E).
  destruct r as [a|e]; [exact H|]. destruct H as (-> & He & Hd). destruct Hx; congruence.
Qed.

Lemma guarded_refused {A} q0 q1 (good : A -> bool) b m s :
  usable s b -> (CB.should_allow_request q0 b).1 = false ->
  (guarded q0 q1 good b m s).2 = s /\
  exists msg, (guarded q0 q1 good b m s).1 = Raise (CircuitBreakerOpenError msg).
Proof.
  intros (_ & _ & Hb) Hno. unfold guarded.
  destruct (CB.should_allow_request q0 b) as [allowed b'] eqn:E. simpl in Hno. subst allowed.
  assert (b' = b) as ->.
  { unfold CB.should_allow_request in E. destruct (CB.state b); [done| |done].
    destruct (CB.last_failure_time b); [|congruence]. by destruct (_ <=? _); simplify_eq. }
  unfold bind, modify, raise. simpl. split; [|by eexists]. destruct s; simpl in *. by rewrite <- Hb.
Qed.

Lemma guarded_fails {A} q0 q1 (good : A -> bool) b b' m s :
  CB.should_allow_request q0 b = (true, b') -> failing (graph s) -> fails good m (graph s) ->
  exists g r, guarded q0 q1 good b m s =
    (r, with_breaker (CB.record_failure q1 b')
          (State (_adapter s) (_adapter_config s) (_initialized s) (_connection_uri s) (_circuit_breaker s) g)) /\
    failing g.
Proof.
  intros E Hf Hm. unfold guarded. rewrite E. unfold fails, wp in Hm.
  unfold bind, modify, try_except, on_adapter, ret, raise. simpl.
  destruct (m (graph s)) as [r g]. simpl in Hm. destruct Hm as [Hc Hr].
  exists g. destruct r as [a|e]; rewrite Hr; eexists; (split; [done|]); by eapply failing_called.
Qed.

Lemma answers_fails {A} (good : A -> bool) (m : M IntentGraph.world A) w : failing w ->
  wp m (answers (fun a => good a = false) w) w -> fails good m w.
Proof.
  intros Hf. apply wp_mono. intros r w' (Hc & _ & _ & H). split; [done|]. by apply (reported_fails _ w).
Qed.

Lemma adapter_fails cfg w : failing w ->
  (forall now fresh sid c corr, fails s_success (adapter_store o cfg now fresh sid c corr) w) /\
  (forall sid m l, fails q_success (adapter_session o cfg sid m l) w) /\
  (forall now h, fails d_success (adapter_distribution o cfg now h) w).
Proof.
  intros Hf. split_and!; intros.
  - apply answers_fails; [done|]. apply store_intent_answers.
  - apply answers_fails; [done|]. eapply wp_mono; [|apply session_answers]. by intros r w' [H _].
  - eapply wp_mono; [|apply distribution_answers]. intros r w' [(Hc & _ & _ & H)|(_ & Hc & e & -> & He)]; [|done].
    split; [done|]. by apply (reported_fails _ w).
Qed.

(** A request that the breaker lets pass is a failure to it. *)
Lemma next_fails s b b' q : usable s b -> failing (graph s) -> CB.should_allow_request (t0 q) b = (true, b') ->
  usable (next s q) (CB.record_failure (t1 q) b') /\ failing (graph (next s q)).
Proof.
  intros (Hi & Ha & Hb) Hf E. destruct (adapter_fails (_adapter_config s) (graph s) Hf) as (H1 & H2 & H3).
  assert (Hgo : forall A (good : A -> bool) m,
    fails good m (graph s) -> let s' := ((do! guarded (t0 q) (t1 q) good b m; ret tt) s).2 in
    usable s' (CB.record_failure (t1 q) b') /\ failing (graph s')).
  { intros A good m Hm. destruct (guarded_fails (t0 q) (t1 q) good b b' m s E Hf Hm) as (g & r & Eg & Hg).
    unfold bind. rewrite Eg. by destruct r. }
  unfold next, perform. destruct (what q);
    unfold store_intent, query_session, query_distribution, with_adapter, bind; rewrite Hb, Hi, Ha;
    cbn [andb]; [apply (Hgo _ s_success)|apply (Hgo _ q_success)|apply (Hgo _ d_success)]; auto.
Qed.

Lemma next_refused s b q : usable s b -> (CB.should_allow_request (t0 q) b).1 = false ->
  next s q = s /\ exists msg, (perform q s).1 = Raise (CircuitBreakerOpenError msg).
Proof.
  intros Hu Hno. pose proof Hu as (Hi & Ha & Hb).
  assert (Hgo : forall A (good : A -> bool) m, let r := (do! guarded (t0 q) (t1 q) good b m; ret tt) s in
    r.2 = s /\ exists msg, r.1 = Raise (CircuitBreakerOpenError msg)).
  { intros A good m. destruct (guarded_refused (t0 q) (t1 q) good b m s Hu Hno) as (E & msg & Er).
    unfold bind. destruct (guarded _ _ _ _ _ s) as [r s']. simpl in *. subst. simpl. split; [done|by eexists]. }
  unfold next, perform. destruct (what q);
    unfold store_intent, query_session, query_distribution, with_adapter, bind; rewrite Hb, Hi, Ha;
    cbn [andb]; [apply (Hgo _ s_success)|apply (Hgo _ q_success)|apply (Hgo _ d_success)].
Qed.

Lemma closed_fails s b qs : usable s b -> failing (graph s) -> CB.state b = CLOSED ->
  CB.failure_count b + Z.of_nat (length qs) < CB.failure_threshold (CB.cfg b) ->
  exists b', usable (run next s qs) b' /\ failing (graph (run next s qs)) /\ CB.state b' = CLOSED /\
    CB.failure_count b' = CB.failure_count b + Z.of_nat (length qs) /\ CB.cfg b' = CB.cfg b.
Proof.
  revert s b. induction qs as [|q qs IH]; intros s b Hu Hf Hc Hn.
  - exists b. split_and!; try done. simpl. lia.
  - cbn [length] in Hn. rewrite Nat2Z.inj_succ in Hn.
    destruct (next_fails s b b q Hu Hf) as [Hu' Hf']; [unfold CB.should_allow_request; by rewrite Hc|].
    set (b' := CB.record_failure (t1 q) b) in *.
    assert (Hb' : CB.state b' = CLOSED /\ CB.failure_count b' = CB.failure_count b + 1 /\ CB.cfg b' = CB.cfg b).
    { unfold b', CB.record_failure, CB.count_failure. cbn. rewrite Hc. by rewrite Zleb_F by lia. }
    destruct Hb' as (H1 & H2 & H3).
    destruct (IH (next s q) b' Hu' Hf' H1) as (b2 & ? & ? & ? & Hn2 & Hc2); [rewrite H2, H3; lia|].
    exists b2. split_and!; try done; [|congruence]. cbn [length]. rewrite Hn2, H2. lia.
Qed.

(** C33: once as many requests in a row as the
    threshold have failed, whatever they were, the database is left alone: until
    the recovery timeout after the last one every request is refused with
    [CircuitBreakerOpenError], without a call and without any change. *)
Theorem handler_circuit_protects s b qs q later :
  usable s b -> failing (graph s) -> CB.state b = CLOSED -> CB.failure_count b = 0 ->
  Z.of_nat (length (qs ++ [q])) = CB.failure_threshold (CB.cfg b) ->
  Forall (fun r => t0 r < t1 q + CB.recovery_timeout (CB.cfg b)) later ->
  let s' := run next s (qs ++ [q]) in
  run next s' later = s' /\
  Forall (fun r => exists msg, (perform r s').1 = Raise (CircuitBreakerOpenError msg)) later.
Proof.
  intros Hu Hf Hc H0 Hn Hlater. rewrite length_app in Hn. cbn in Hn.
  destruct (closed_fails s b qs Hu Hf Hc) as (b1 & Hu1 & Hf1 & Hc1 & Hn1 & Hcfg); [lia|].
  cbv zeta. rewrite run_app. set (s1 := run next s qs) in *.
  destruct (next_fails s1 b1 b1 q Hu1 Hf1) as [Hu2 _]; [unfold CB.should_allow_request; by rewrite Hc1|].
  change (run next s1 [q]) with (next s1 q). set (s2 := next s1 q) in *.
  assert (Hopen : CB.state (CB.record_failure (t1 q) b1) = OPEN /\
    CB.last_failure_time (CB.record_failure (t1 q) b1) = Some (t1 q) /\
    CB.cfg (CB.record_failure (t1 q) b1) = CB.cfg b).
  { unfold CB.record_failure, CB.count_failure. cbn. rewrite Hc1, Hcfg. rewrite Zleb_T by lia. done. }
  destruct Hopen as (Ho & Hl & Hcfg2).
  assert (Href : forall r, r ∈ later -> next s2 r = s2 /\ exists msg, (perform r s2).1 = Raise (CircuitBreakerOpenError msg)).
  { intros r Hr. apply (next_refused s2 _ r Hu2). apply (proj1 (Forall_forall _ _) Hlater) in Hr.
    unfold CB.should_allow_request. rewrite Ho, Hl, Hcfg2. by rewrite Zleb_F by lia. }
  split; [|by apply Forall_forall; intros r Hr; apply Href].
  clear Hlater. clearbody s2. clear -Href. induction later as [|r later IH]; [done|].
  simpl. destruct (Href r) as [-> _]; [left|]. apply IH. intros r' Hr. apply Href. by right.
Qed.
End facts.
End HandlerIntentFacts.

(** ** Set-up of the handler *)

Module HandlerIntentSetup.
Import HandlerIntent.
Section facts.
Context (o : outside).

Lemma shutdown_unready (close : option exn) w : IntentGraph.ready w = false -> IntentGraph.shutdown close w = (Ok tt, w).
Proof. unfold IntentGraph.shutdown, bind, get. by intros ->. Qed.

(** What the set-up leaves when it raises and when it returns. *)
Lemma set_up_outcome now uri opts c s :
  _adapter s = false -> (forall e, IntentGraph.lock_wait c = Some e -> is_Exception e = false) ->
  wp (set_up o now uri opts c)
    (fun r s' => match r with
       | Ok _ => exists b, HandlerIntentFacts.usable s' b /\ CB.state b = CLOSED /\ CB.failure_count b = 0 /\
                   IntentGraph.ready (graph s') = true
       | Raise _ => _initialized s' = _initialized s /\ (_adapter s' = false \/ IntentGraph.ready (graph s') = false)
       end) s.
Proof.
  intros Ha Hlock. unfold set_up. destruct (parse_options o opts) as [[cb cfg]|e]; [|by split; [|left]].
  rewrite wp_bind, wp_modify. cbn beta iota. destruct (config_valid cfg); [|by split; [|left]].
  rewrite wp_bind, wp_modify. cbn beta iota. rewrite wp_bind.
  set (s1 := State true cfg _ _ _ _).
  pose proof (intent_initialize_usable cfg (timeout_text o cfg) (urlparse o) uri c (graph s1) Hlock ltac:(done)) as H.
  unfold wp, on_adapter, adapter_initialize in *. destruct (IntentGraph.initialize _ _ _ _ _ _) as [r g].
  destruct H as [_ H]. simpl in H |- *. destruct r as [[]|e]; simpl.
  - exists (CB.init cb now). by split_and!.
  - destruct H as [H _]. split; [done|]. right. unfold IntentGraph.ready. simpl in H. by rewrite H.
Qed.

(** A handler that [initialize] returns from is
    usable, with a closed breaker and an adapter that answers. One it raises from
    is not initialised, and has no adapter unless it was cancelled. The clean-up
    after an error never reaches the driver's shutdown: how that would end makes
    no difference, and a driver that was connected stays so. *)
Theorem intent_initialize_outcomes now uri opts c close s :
  _adapter s = false -> _initialized s = false ->
  (forall e, IntentGraph.lock_wait c = Some e -> is_Exception e = false) ->
  wp (initialize o now uri opts c close)
    (fun r s' => match r with
       | Ok _ => exists b, HandlerIntentFacts.usable s' b /\ CB.state b = CLOSED /\ CB.failure_count b = 0 /\
                   IntentGraph.ready (graph s') = true
       | Raise e => _initialized s' = false /\
           (is_Exception e = true -> _adapter s' = false /\ exists m, e = RuntimeError m)
       end) s /\
  forall close', initialize o now uri opts c close s = initialize o now uri opts c close' s.
Proof.
  intros Ha Hi Hlock. pose proof (set_up_outcome now uri opts c s Ha Hlock) as H.
  unfold initialize, wp, bind, get in *. rewrite Hi. unfold try_except.
  destruct (set_up o now uri opts c s) as [[[]|e] s'] eqn:E; simpl in H |- *; [by split|].
  destruct (is_Exception e) eqn:Ee; simpl; [|by rewrite Ee, (proj1 H), Hi].
  destruct H as [H1 H2].
  assert (Hc : forall close, clean_up close s' = (Ok tt,
    State false (_adapter_config s') (_initialized s') (_connection_uri s') (_circuit_breaker s') (graph s'))).
  { intros cl. unfold clean_up, bind, get. destruct (_adapter s') eqn:Ea; [|by destruct s'; simpl in *; subst].
    destruct H2 as [?|H2]; [done|]. unfold swallow, try_except, on_adapter. by rewrite shutdown_unready. }
  unfold bind. rewrite !Hc. simpl. split; [|by intros; rewrite Hc]. rewrite H1, Hi.
  split; [done|]. intros _. split; [done|by eexists].
Qed.
End facts.
End HandlerIntentSetup.

(** ** The breaker of the storage node *)

Module StorageFacts.
Import StorageAdapter.
Section facts.
Context (o : outside) (has_pii : text -> bool) (redact : text -> text).
Context (Haccepts : forall i, accepts o i = true -> unit_float (r_confidence i) = true).

Record timed_request : Type := At { t0 : micros; t1 : micros; now : micros; fresh : uuid; drawn : uuid;
  what : ModelIntentStorageRequest }.
Definition perform (q : timed_request) : M t ModelIntentStorageResponse :=
  execute o has_pii redact (t0 q) (t1 q) (now q) (fresh q) (drawn q) (what q).
Definition next (s : t) (q : timed_request) : t := (perform q s).2.

(** A request that its model accepts, made in or after the year 2. *)
Definition sensible (q : timed_request) : Prop :=
  request_valid has_pii (what q) = true /\ seconds (3600 * 24 * 365) <= now q /\ is_datetime (now q).

Definition quietly {A} (m : M IntentGraph.world A) : Prop := forall w,
  match (m w).1 with Ok _ => True | Raise e => is_Exception e = false end.

Lemma quietly_bind {A B} (m : M IntentGraph.world A) (k : A -> B) : quietly m -> quietly (let! a := m in ret (k a)).
Proof. intros Hm w. specialize (Hm w). unfold bind. by destruct (m w) as [[a|e] w']. Qed.

Lemma responses_accepted l : Forall (fun i => accepts o i = true) l -> exists xs, to_responses l = Ok xs.
Proof using Haccepts.
  induction 1 as [|i l Hi Hl [xs IH]]; simpl; [by eexists|]. unfold to_response. rewrite (Haccepts _ Hi), IH. by eexists.
Qed.

Lemma wp_quietly {A} (m : M IntentGraph.world A) :
  (forall w, wp m (fun r _ => match r with Ok _ => True | Raise e => is_Exception e = false end) w) -> quietly m.
Proof. done. Qed.

Lemma store_quiet cfg q : request_valid has_pii (what q) = true -> operation (what q) = "store"%string ->
  quietly (_store_intent o has_pii redact cfg (now q) (fresh q) (drawn q) (what q)).
Proof.
  unfold request_valid, _store_intent. intros Hv Hop. rewrite Hop in Hv. simpl String.eqb in Hv. cbv iota in Hv.
  apply andb_true_iff in Hv as [_ [H1 H2]%andb_true_iff].
  destruct (session_id (what q)) as [sid|]; [|done]. destruct (intent_data (what q)) as [c|]; [|done].
  apply quietly_bind, wp_quietly. intros w. eapply wp_mono; [|apply store_intent_answers].
  intros [a|e] w' (_ & H & _); [done|apply H].
Qed.

Lemma session_quiet cfg q : request_valid has_pii (what q) = true -> operation (what q) = "get_session"%string ->
  quietly (_get_session_intents o cfg (what q)).
Proof using Haccepts.
  unfold request_valid, _get_session_intents. intros Hv Hop. rewrite Hop in Hv. simpl String.eqb in Hv. cbv iota in Hv.
  apply andb_true_iff in Hv as [_ H1]. destruct (session_id (what q)) as [sid|]; [|done].
  apply wp_quietly. intros w. rewrite wp_bind. eapply wp_mono; [|apply session_answers].
  intros [a|e] w' [(_ & H & _) Hacc]; [|apply H]. destruct (q_success a); cbn [negb]; [|done].
  destruct (q_intents a) as [|i l] eqn:El; [done|]. rewrite ?El in Hacc.
  destruct (responses_accepted _ Hacc) as [xs E].
  unfold wp, bind, of_res. by rewrite E.
Qed.

Lemma distribution_quiet cfg q : sensible q -> quietly (_get_distribution o cfg (now q) (what q)).
Proof.
  intros (Hv & Hyear & Hnow). unfold _get_distribution. apply quietly_bind, wp_quietly. intros w.
  eapply wp_mono; [|apply distribution_answers].
  intros [a|e] w' [(_ & H & _)|(Hr & _ & e' & [= <-] & _)]; [done|apply H|]. exfalso.
  unfold request_valid in Hv. repeat (apply andb_true_iff in Hv as [Hv ?]). breflect.
  destruct Hr as [Hr|Hr]; [lia|]. apply Hr. unfold minus_hours.
  assert (time_range_hours (what q) / 24 <= 720 / 24) by (apply Z.div_le_mono; lia).
  assert (0 <= time_range_hours (what q) / 24) by (apply Z.div_pos; lia).
  rewrite !Zltb_F by (change (720 / 24) with 30 in *; lia). cbn [orb].
  unfold seconds, is_datetime in *. rewrite Zleb_T, Zltb_T by lia. by eexists.
Qed.

Lemma call_closed {A} q0 q1 (m : M IntentGraph.world A) s : quietly m -> CB.state (_circuit_breaker s) = CLOSED ->
  CB.state (_circuit_breaker (breaker_call q0 q1 m s).2) = CLOSED /\
  match (breaker_call q0 q1 m s).1 with Ok _ => True | Raise e => is_Exception e = false end.
Proof.
  intros Hm Hc. unfold breaker_call, CB.call, CB.should_allow_request. specialize (Hm (graph s)).
  destruct (m (graph s)) as [[a|e] g]; simpl in Hm; rewrite Hc; cbn.
  - unfold CB.record_success. cbn. by rewrite Hc.
  - destruct e; try done. by rewrite Hm.
Qed.

(** The circuit breaker of the storage node does
    not protect the database: whatever the database does, requests that their
    model accepts leave a closed breaker closed, and are all answered unless they
    are cancelled. *)
Theorem storage_breaker_never_trips s qs :
  CB.state (_circuit_breaker s) = CLOSED -> Forall sensible qs ->
  CB.state (_circuit_breaker (run next s qs)) = CLOSED /\
  forall q, q ∈ qs -> match (perform q (run next s qs)).1 with Ok _ => True | Raise e => is_Exception e = false end.
Proof using Haccepts.
  assert (Hone : forall s q, CB.state (_circuit_breaker s) = CLOSED -> sensible q ->
    CB.state (_circuit_breaker (next s q)) = CLOSED /\
    match (perform q s).1 with Ok _ => True | Raise e => is_Exception e = false end).
  { clear s qs. intros s q Hc Hq. unfold next, perform, execute. destruct (negb _); [done|].
    assert (Hd : CB.state (_circuit_breaker (dispatch o has_pii redact (t0 q) (t1 q) (now q) (fresh q) (drawn q) (what q) s).2) = CLOSED /\
      match (dispatch o has_pii redact (t0 q) (t1 q) (now q) (fresh q) (drawn q) (what q) s).1 with
      | Ok _ => True | Raise e => is_Exception e = false end).
    { unfold dispatch. pose proof Hq as (Hv & _).
      destruct (String.eqb_spec (operation (what q)) "store"); [apply call_closed; [by apply store_quiet|done]|].
      destruct (String.eqb_spec (operation (what q)) "get_session"); [apply call_closed; [by apply session_quiet|done]|].
      destruct (String.eqb _ _); [apply call_closed; [by apply distribution_quiet|done]|done]. }
    unfold try_except. destruct (dispatch _ _ _ _ _ _ _ _ _ _) as [[a|e] s']; simpl in *; [done|].
    destruct Hd as [Hd He]. destruct e as [| | | | | | | | |cls msg]; try done.
    simpl in He. apply negb_false_iff, String.eqb_eq in He as ->. by simpl. }
  intros Hc Hqs. assert (Hall : forall qs s, CB.state (_circuit_breaker s) = CLOSED -> Forall sensible qs ->
    CB.state (_circuit_breaker (run next s qs)) = CLOSED).
  { clear -Hone. induction qs as [|q qs IH]; intros s Hc Hqs; [done|]. apply Forall_cons in Hqs as [Hq Hqs].
    simpl. apply IH; [|done]. by apply Hone. }
  split; [by apply Hall|]. intros q Hq. apply Hone; [by apply Hall|].
  by apply (proj1 (Forall_forall _ _) Hqs).
Qed.
End facts.
End StorageFacts.

(** ** The query node *)

Module QueryFacts.
Import IntentQuery.
Section facts.
Context (o : outside) (payload_ok : ModelIntentRecord -> bool).

(** A handler that is initialised. *)
Definition serving (s : t) (config : ModelHandlerIntentQueryConfig) : Prop :=
  _config s = Some config /\ _initialized s = true /\ _adapter s = true.

Lemma wp_on_adapter {A} (m : M IntentGraph.world A) Q s :
  wp m (fun r g => Q r (State (_config s) (adapter_config s) (_adapter s) (_initialized s) g)) (graph s) ->
  wp (on_adapter m) Q s.
Proof. unfold wp, on_adapter. by destruct (m (graph s)). Qed.

(** What [execute] makes of the adapter's answer. *)
Lemma wp_query_execute config now r Q s : serving s config ->
  wp (dispatch o payload_ok (adapter_config s) now r)
    (fun res g =>
       let s' := State (_config s) (adapter_config s) (_adapter s) (_initialized s) g in
       match res with
       | Ok _ => Q res s'
       | Raise e => (forall m, Q (Ok (from_error (query_type r) m)) s') /\
           (is_Exception e = false -> e <> handler_deadline -> Q res s')
       end) (graph s) ->
  wp (execute o payload_ok now r) Q s.
Proof.
  intros (Hc & Hi & Ha) H. unfold execute, wp at 1. rewrite Hc, Hi, Ha. cbn [andb].
  apply wp_on_adapter. rewrite wp_try. eapply wp_mono; [|exact H].
  intros [a|e] g; [done|]. intros [H1 H2]. destruct (decide (e = handler_deadline)) as [->|Hne]; [apply H1|].
  destruct e; try apply H1. destruct (is_Exception _) eqn:Ee; [apply H1|by apply H2].
Qed.

(** A query that is executed is answered, whatever the
    database does, unless it is cancelled from outside, and changes nothing but
    the number of calls made. *)
Theorem query_execute_answers now r s config : serving s config ->
  wp (execute o payload_ok now r)
    (fun res s' => called (graph s) (graph s') /\ serving s' config /\
       match res with
       | Ok _ => True
       | Raise e => is_Exception e = false /\ e <> handler_deadline /\ e <> deadline
       end) s.
Proof.
  intros Hs. apply (wp_query_execute config); [done|]. match goal with |- wp _ ?Q _ => set (Q1 := Q) end.
  assert (Hgo : forall A (m : M IntentGraph.world A) (k : A -> response),
    wp m (fun res g => called (graph s) g /\
      match res with Ok _ => True | Raise e => is_Exception e = true \/ (is_Exception e = false /\ e <> deadline) end) (graph s) ->
    wp (let! a := m in ret (k a)) Q1 (graph s)).
  { intros A m k H. rewrite wp_bind. eapply wp_mono; [|exact H]. intros [a|e] g [Hc He]; [done|].
    split; [done|]. intros H1 H2. split_and!; try done. destruct He as [He|[_ He]]; [congruence|done]. }
  unfold dispatch. destruct (String.eqb (query_type r) "distribution").
  { unfold _handle_distribution. apply Hgo. eapply wp_mono; [|apply distribution_answers].
    intros [a|e] g [(Hc & He & _)|(_ & Hc & e' & E & He)]; split; try done; [by right|left; congruence]. }
  destruct (String.eqb (query_type r) "session").
  { unfold _handle_session. destruct (session_ref r) as [|c l]; [done|]. apply Hgo.
    eapply wp_mono; [|apply session_answers]. intros [a|e] g [(Hc & He & _) _]; split; try done. by right. }
  destruct (String.eqb (query_type r) "recent").
  { unfold _handle_recent. apply Hgo. eapply wp_mono; [|apply recent_answers]. intros [a|e] g [Hc He]; split; done. }
  by destruct (String.eqb (query_type r) "health_check").
Qed.

Local Notation Sl s := (session_node_label (adapter_config s)).
Local Notation Il s := (intent_node_label (adapter_config s)).
Local Notation Rt s := (relationship_type (adapter_config s)).
Local Notation StoredIn s := (stored (Sl s) (Il s) (Rt s) (parse_uuid o) (found (db (graph s)))).
Local Notation ListingOf s := (listing (Sl s) (Il s) (Rt s) (parse_uuid o) (found (db (graph s)))).
Local Notation as_known := (entry_record (category_or_unknown (known_category o))).
Local Notation as_stored := (entry_record (fun c => c)).

(** The records of what is remembered pass the models. *)
Definition presentable (s : t) : Prop := forall sid cat x, StoredIn s sid cat x ->
  accepts o (as_known (sid, cat, x)) = true /\ payload_ok (as_known (sid, cat, x)) = true /\
  payload_ok (as_stored (sid, cat, x)) = true /\ unit_float (e_confidence x) = true.

Lemma mapped_listed s P category k query l n :
  (forall sid cat x, StoredIn s sid cat x -> payload_ok (entry_record category (sid, cat, x)) = true) ->
  ListingOf s P l -> mapped payload_ok query (entry_record category <$> take n l) k = k (entry_record category <$> take n l).
Proof.
  intros Hp (_ & Hin & _). unfold mapped. replace (forallb _ _) with true; [done|]. symmetry.
  apply forallb_forall. intros i Hi. apply list_elem_of_In, list_elem_of_fmap in Hi as ([[sid cat] x] & -> & Hz).
  apply take_elem, Hin in Hz as [Hz _]. by apply Hp.
Qed.

(** C34: end to end, from the event to the rows of the
    graph: without a failure a session query answers with the intents remembered
    of the session that reach the confidence, a recent query with those of all
    sessions first seen in the time range, the latest first and up to the limit,
    and a distribution query with the number of sessions per category; the
    database is not changed. *)
Theorem query_execute_exact now r s config :
  serving s config -> IntentGraph.ready (graph s) = true ->
  wf (Sl s) (Il s) (Rt s) (parse_uuid o) (found (db (graph s))) ->
  ends (env (db (graph s)) (made (db (graph s)))) = Completes ->
  (forall u, is_datetime u -> fromisoformat o (isoformat u) = Some u) -> presentable s ->
  wp (execute o payload_ok now r)
    (fun res s' =>
       let n := Z.to_nat (effective_limit (adapter_config s) (Some (limit r))) in
       let asked := if SFltb zero (min_confidence r) then Some (min_confidence r) else None in
       (query_type r = "session"%string -> session_ref r <> [] -> exists l,
          ListingOf s (fun sid x => bool_decide (sid = session_ref r) &&
            SFleb (least_confidence (adapter_config s) (default zero asked)) (e_confidence x)) l /\
          res = Ok (session_response (as_known <$> take n l))) /\
       (forall cutoff, minus_hours now (Z.max 1 (time_range_hours r)) = Ok cutoff ->
         (query_type r = "recent"%string -> exists l,
            ListingOf s (fun _ x => (cutoff <=? e_created x) &&
              match asked with Some c => SFleb (clamp c) (e_confidence x) | None => true end) l /\
            res = Ok (recent_response (as_stored <$> take n l) (time_range_hours r))) /\
         (query_type r = "distribution"%string -> exists l d,
            ListingOf s (fun _ x => cutoff <=? e_created x) l /\
            (forall c k, (c, k) ∈ d <-> k = category_count ((fun z => z.1.2) <$> l) c /\ 0 < k) /\
            res = Ok (distribution_response d (time_range_hours r))))) s.
Proof.
  intros Hs Hready Hwf Hc Hiso Hpres.
  apply (wp_query_execute config); [done|]. match goal with |- wp _ ?Q _ => set (Q1 := Q) end.
  unfold dispatch. destruct (String.eqb_spec (query_type r) "distribution") as [Eq|Nd].
  - unfold _handle_distribution. rewrite wp_bind. eapply wp_mono; [|by apply (get_intent_distribution_exact
      (adapter_config s) (parse_uuid o) (timeout_text o (adapter_config s)) now (time_range_hours r) (graph s))].
    intros res g H. destruct (minus_hours now (Z.max 1 (time_range_hours r))) as [since|e] eqn:Es.
    + destruct H as (l & d & Hl & -> & _ & Hd & _). cbn [d_success]. split; [congruence|].
      intros cutoff [= <-]. split; [congruence|]. intros _. exists l, d. done.
    + destruct H as [-> _]. split; intros; (split; [congruence|]); intros ? [=].
  - destruct (String.eqb_spec (query_type r) "session") as [Eq|Ns].
    + unfold _handle_session. destruct (session_ref r) as [|ch sid] eqn:Esid.
      { split; [done|]. intros cutoff _. split; congruence. }
      rewrite wp_bind. eapply wp_mono; [|apply (get_session_intents_exact
        (adapter_config s) (parse_uuid o) (fromisoformat o) (py_str o) (known_category o) (accepts o)
        (timeout_text o (adapter_config s)) Hiso (ch :: sid) _ (Some (limit r)) (graph s)); try done;
        intros cat x Hx; by apply Hpres].
      intros res g (l & Hl & -> & _). cbn [q_success q_intents]. split.
      2: { intros cutoff _. split; congruence. }
      intros _ _. exists l. split; [by destruct (SFltb zero (min_confidence r))|].
      rewrite <- (mapped_listed s _ _ session_response "session" l _ (fun _ _ _ H => proj1 (proj2 (Hpres _ _ _ H))) Hl).
      by destruct (as_known <$> _).
    + destruct (String.eqb_spec (query_type r) "recent") as [Eq|Nr].
      * unfold _handle_recent. rewrite wp_bind. eapply wp_mono; [|apply (get_recent_intents_exact
          (adapter_config s) (parse_uuid o) (fromisoformat o) (py_str o) (timeout_text o (adapter_config s)) Hiso now
          (time_range_hours r) _ (Some (limit r)) (graph s)); try done; intros sid cat x Hx; by eapply Hpres].
        intros res g H. destruct (minus_hours now (Z.max 1 (time_range_hours r))) as [cutoff|e] eqn:Es.
        -- destruct H as (l & Hl & -> & _). split; [congruence|]. intros c [= <-]. split; [|congruence].
           intros _. exists l. split; [done|].
           rewrite <- (mapped_listed s _ _ (fun l => recent_response l (time_range_hours r)) "recent" l _
             (fun _ _ _ H => proj1 (proj2 (proj2 (Hpres _ _ _ H)))) Hl).
           by destruct (as_stored <$> _).
        -- destruct H as [-> _]. split; intros; (split; [congruence|]); intros ? [=].
      * destruct (String.eqb (query_type r) "health_check"); (split; [congruence|]); intros; split; congruence.
Qed.
End facts.
End QueryFacts.

(** ** Examples and witnesses *)

Module IntentsDemo.
Import IntentGraphDemo.

Definition demo_outside : outside :=
  Outside parse fromiso py_text known in_range (fun _ => ("bolt"%string, "db"%string)) (fun _ => "30.0"%string)
    (fun _ => None) (fun _ => None) (fun f => seconds (trunc f)).
Definition cb : CB.config := CB.Config 2 (seconds 60) 1.

Definition broken : IntentGraph.world :=
  IntentGraph.World true true (Calls (Graph [] []) (fun _ => CallEnv id (Fails (OSError "refused") false)) 0).
Definition lost : calls graph := Calls (Graph [] []) (fun _ => CallEnv id Completes) 0.

(** *** The handler *)

Definition handler (g : IntentGraph.world) : HandlerIntent.t :=
  HandlerIntent.State true cfg true "bolt://db" (Some (CB.init cb 0)) g.
Definition debugging : classification := Classification (of_string "debugging") one [].
Definition at_time (n : Z) (q : HandlerIntentFacts.request) : HandlerIntentFacts.timed_request :=
  HandlerIntentFacts.At (seconds n) (seconds n) q.
Definition store (sid : string) : HandlerIntentFacts.request :=
  HandlerIntentFacts.Store start "i1" (of_string sid) debugging [].
Definition after (g : IntentGraph.world) (qs : list HandlerIntentFacts.timed_request) : HandlerIntent.t :=
  run (HandlerIntentFacts.next demo_outside) (handler g) qs.

(** Two requests with an empty session identifier, which never reach the
    database, open the circuit for everybody. *)
Example callers_open_circuit :
  let s := after (idle (Graph [] [])) [at_time 1 (store ""); at_time 2 (store "")] in
  made (db (HandlerIntent.graph s)) = 0%nat /\
  (HandlerIntentFacts.perform demo_outside (at_time 3 (store "s1")) s).1 =
    Raise (CircuitBreakerOpenError "Circuit breaker is open").
Proof. split; by vm_compute. Qed.

Lemma handler_circuit_protects_witness :
  let s' := after broken [at_time 1 (store "s1"); at_time 2 (store "s2")] in
  run (HandlerIntentFacts.next demo_outside) s' [at_time 30 (store "s1"); at_time 61 (store "s2")] = s'.
Proof.
  refine (proj1 (HandlerIntentFacts.handler_circuit_protects demo_outside (handler broken) (CB.init cb 0)
    [at_time 1 (store "s1")] (at_time 2 (store "s2")) [at_time 30 (store "s1"); at_time 61 (store "s2")] _ _ _ _ _ _));
    try done.
  - intros k. exists (OSError "refused"), false. split; [done|by left].
  - by repeat constructor.
Defined.

Definition fresh_handler (d : calls graph) : HandlerIntent.t :=
  HandlerIntent.State false cfg false "" None (IntentGraph.World false false d).
Definition connects : IntentGraph.connecting := IntentGraph.Connecting None None None.

(** An option that is no number. *)
Example bad_option :
  (HandlerIntent.initialize demo_outside 0 "bolt://db" {[ "max_intents_per_session"%string := HandlerIntent.OStr "many" ]}
     connects None (fresh_handler lost)).1 =
  Raise (RuntimeError "Initialization failed: invalid literal for int() with base 10: 'many'").
Proof. by vm_compute. Qed.

Lemma intent_initialize_outcomes_witness :
  wp (HandlerIntent.initialize demo_outside 0 "bolt://db" ∅ connects None)
    (fun r s => match r with
       | Ok _ => IntentGraph.ready (HandlerIntent.graph s) = true
       | Raise _ => HandlerIntent._initialized s = false end) (fresh_handler lost).
Proof.
  pose proof (HandlerIntentSetup.intent_initialize_outcomes demo_outside 0 "bolt://db" ∅ connects None
    (fresh_handler lost) ltac:(done) ltac:(done) ltac:(done)) as [H _].
  eapply wp_mono; [|exact H]. intros [u|e] s; [by intros (b & _ & _ & _ & ?)|by intros [? _]].
Defined.

(** *** The storage node *)

Definition node (g : IntentGraph.world) : StorageAdapter.t :=
  StorageAdapter.State cfg true true (CB.init cb 0) g.
Definition store_request (context : string) : StorageAdapter.ModelIntentStorageRequest :=
  StorageAdapter.Request "store" (Some (of_string "s1")) (Some debugging) None zero 100 24 (of_string context).
Definition no_pii (_ : text) : bool := false.
Definition sent (n : Z) (q : StorageAdapter.ModelIntentStorageRequest) : StorageFacts.timed_request :=
  StorageFacts.At (seconds n) (seconds n) start "i1" "c1" q.
Definition node_after (g : IntentGraph.world) (qs : list StorageFacts.timed_request) : StorageAdapter.t :=
  run (StorageFacts.next demo_outside no_pii id) (node g) qs.

(** Four failures, twice the threshold: each called the database, and the
    circuit is closed. *)
Example database_not_protected :
  let s := node_after broken [sent 1 (store_request ""); sent 2 (store_request ""); sent 3 (store_request "");
                              sent 4 (store_request "")] in
  made (db (StorageAdapter.graph s)) = 4%nat /\ CB.state (StorageAdapter._circuit_breaker s) = CLOSED /\
  CB.failure_count (StorageAdapter._circuit_breaker s) = 0.
Proof. split_and!; by vm_compute. Qed.

(** The context of the user makes no difference to what is stored. *)
Example user_context_dropped :
  StorageFacts.perform demo_outside no_pii id (sent 1 (store_request "editing main.v")) (node (idle (Graph [] []))) =
  StorageFacts.perform demo_outside no_pii id (sent 1 (store_request "")) (node (idle (Graph [] []))).
Proof. done. Qed.

Lemma storage_breaker_never_trips_witness :
  CB.state (StorageAdapter._circuit_breaker (node_after broken [sent 1 (store_request ""); sent 2 (store_request "")])) = CLOSED.
Proof.
  refine (proj1 (StorageFacts.storage_breaker_never_trips demo_outside no_pii id _ (node broken)
    [sent 1 (store_request ""); sent 2 (store_request "")] _ _)); [done|done|].
  by repeat constructor.
Defined.

(** *** The query node *)

Definition query_config : IntentQuery.ModelHandlerIntentQueryConfig := IntentQuery.default_config.
Definition query_node (g : IntentGraph.world) : IntentQuery.t :=
  IntentQuery.State (Some query_config) cfg true true g.
Definition query (ty sid : string) (h : Z) : IntentQuery.request :=
  IntentQuery.Request "q1" ty (of_string sid) zero 10 h.
Definition any_payload (_ : ModelIntentRecord) : bool := true.

(** The time range of the response is the one asked for, not the one used. *)
Example range_not_clamped :
  (IntentQuery.execute demo_outside any_payload (hours 11) (query "distribution" "" 0) (query_node quiet_w)).1 =
  Ok (IntentQuery.distribution_response [] 0).
Proof. by vm_compute. Qed.

Lemma query_execute_answers_witness :
  wp (IntentQuery.execute demo_outside any_payload (hours 11) (query "recent" "" 24))
    (fun _ s' => called broken (IntentQuery.graph s')) (query_node broken).
Proof.
  eapply wp_mono; [|apply (QueryFacts.query_execute_answers demo_outside any_payload (hours 11)
    (query "recent" "" 24) (query_node broken) query_config); done].
  by intros r s' (H & _).
Defined.

Lemma query_execute_exact_witness :
  wp (IntentQuery.execute demo_outside any_payload (hours 11) (query "session" "s1" 24))
    (fun r _ => exists l, r = Ok (IntentQuery.session_response l)) (query_node quiet_w).
Proof.
  eapply wp_mono; [|apply (QueryFacts.query_execute_exact demo_outside any_payload (hours 11)
    (query "session" "s1" 24) (query_node quiet_w) query_config);
    [done|done|exact history_wf|done|exact fromiso_isoformat|]].
  - intros r s' [H _]. destruct H as (l & _ & ->); [done|done|]. by eexists.
  - intros sid cat x Hx. pose proof (history_confidences _ _ _ Hx) as H. by split_and!.
Defined.
End IntentsDemo.
