(* ===== verification/Embedding.v ===== *)
(** * The clients of the embedding servers

    Module [MlxClient] models [EmbeddingClient] of
    src/src/omnimemory/nodes/node_memory_retrieval_effect/adapters/
    adapter_embedding_client.py, whose requests are retried; module
    [HttpClient] models [EmbeddingHttpClient] of src/src/omnimemory/handlers/
    adapters/adapter_embedding_http.py, whose requests pass the rate limiter of
    RateLimiter.v and whose answers are parsed. The tasks of that client run
    side by side: each call goes from one stage to the next, between its
    awaits, in any interleaving. The servers, httpx and the handler of the
    ONEX framework are arguments: how each request ends. *)

From Stdlib Require Import QArith Qpower.
From S2P Require Import Prelude Text Floats Json RateLimiter.

Open Scope Z_scope.

(** The exceptions of both clients; the last two are subclasses of the first. *)
Definition EmbeddingClientError (m : string) : exn := OtherException "EmbeddingClientError" m.
Definition EmbeddingConnectionError (m : string) : exn := OtherException "EmbeddingConnectionError" m.
Definition EmbeddingTimeoutError (m : string) : exn := OtherException "EmbeddingTimeoutError" m.

(** [isinstance(e, EmbeddingClientError)] *)
Definition is_EmbeddingClientError (e : exn) : bool :=
  match e with
  | OtherException c _ =>
      String.eqb c "EmbeddingClientError" || String.eqb c "EmbeddingConnectionError" ||
      String.eqb c "EmbeddingTimeoutError"
  | _ => false
  end.

(** [try: await check() / return True / except EmbeddingClientError: return False] *)
Definition reachable {S A} (check : M S A) : M S bool :=
  try_except (do! check; ret true) (fun e => if is_EmbeddingClientError e then Some (ret false) else None).

(** [asyncio.gather] of a task for each item behind
    [asyncio.Semaphore(max_concurrency)]. The results come in the order of
    the items, whatever order the tasks end in; of the tasks that raise, the
    one that does so first, [first] among them, gives the exception. With no
    permits the tasks wait for ever, and a semaphore refuses a negative
    number of them. *)
Definition gather {A} (max_concurrency : Z) (first : nat) (ends : list (res A)) : option (res (list A)) :=
  if max_concurrency <? 0 then Some (Raise (ValueError "Semaphore initial value must be >= 0"))
  else if max_concurrency =? 0 then None
  else
    let raised := omap (fun r => match r with Raise e => Some e | Ok _ => None end) ends in
    match raised !! first, raised with
    | Some e, _ | None, e :: _ => Some (Raise e)
    | None, [] => Some (Ok (omap (fun r => match r with Ok a => Some a | Raise _ => None end) ends))
    end.

(** ** The client with retries *)

Module MlxClient.

Record config : Type := Config {
  base_url : string;
  timeout_seconds : string;   (** as text *)
  max_retries : Z;
  retry_base_delay : Q;       (** seconds *)
  embedding_dimension : Z;
}.

(** The constraints of [ModelEmbeddingClientConfig]. *)
Definition config_valid (c : config) : bool :=
  (0 <=? max_retries c) && (max_retries c <=? 10) && negb (Qle_bool (retry_base_delay c) 0) &&
  (0 <? embedding_dimension c).

(** How a request ends: an exception of httpx, or a response with its status,
    its text and what [response.json()] gives. *)
Inductive outcome : Type :=
  | Timeout (msg : string)
  | Refused (msg : string)
  | Response (status_code : Z) (body_text : string) (body : res json)
  | Fails (e : exn).

(** The two fields that tell whether the client is open. *)
Record conn : Type := Conn { _client : bool; _connected : bool }.

(** The connection; for each request, what other tasks do to it before this
    one runs again and how the request ends; the texts sent and the sleeps. *)
Record world : Type := World {
  connection : conn;
  server : nat -> (conn -> conn) * outcome;
  sent : list text;
  slept : list Q;
}.

Definition set_conn (c : conn) (w : world) : world := World c (server w) (sent w) (slept w).
Definition embed_url (c : config) : string :=
  to_string (rev (lstrip_chars (Ascii.eqb "/") (rev (of_string (base_url c))))) +:+ "/embed".
Definition is_connected (c : conn) : bool := _connected c && _client c.
Definition connect : M world unit :=
  modify (fun w => if _connected (connection w) then w else set_conn (Conn true true) w).
Definition close : M world unit := modify (set_conn (Conn false false)).

(** The exceptions that the loop of [get_embedding] catches, as values. *)
Inductive caught : Type :=
  | TimeoutException (msg : string)
  | ConnectError (msg : string)
  | HTTPStatusError (status_code : Z) (body_text : string).

Definition is_success (code : Z) : bool := (200 <=? code) && (code <? 300).

(** The end of [_execute_request]: the embedding in the body. *)
Definition embedding_of (body : json) : res (list json) :=
  let checked (embedding : json) :=
    match embedding with
    | JList l => Ok l
    | j => Raise (EmbeddingClientError ("Expected list for embedding, got " +:+ type_str j))
    end in
  let unexpected := Raise (EmbeddingClientError
    ("Unexpected response format from embedding server: " +:+ type_str body)) in
  match body with
  | JList _ => checked body
  | JDict d => if dict_has d "embedding" then checked (dict_get d "embedding" JNull) else unexpected
  | _ => unexpected
  end.

Definition answered (o : outcome) : res (caught + list json) :=
  match o with
  | Timeout m => Ok (inl (TimeoutException m))
  | Refused m => Ok (inl (ConnectError m))
  | Fails e => Raise e
  | Response code t body =>
      if negb (is_success code) then Ok (inl (HTTPStatusError code t))
      else match body with
           | Raise e => Raise e
           | Ok j => match embedding_of j with Ok l => Ok (inr l) | Raise e => Raise e end
           end
  end.

Section client.
Context (c : config).

Definition _execute_request (t : text) : M world (caught + list json) := fun w =>
  if negb (_client (connection w)) then (Raise (EmbeddingClientError "Client not connected"), w)
  else
    let '(others, o) := server w (length (sent w)) in
    (answered o, World (others (connection w)) (server w) (sent w ++ [t]) (slept w)).

Definition sleep (d : Q) : M world unit :=
  modify (fun w => World (connection w) (server w) (sent w) (slept w ++ [d])).

Definition HTTP_CLIENT_ERROR_MIN : Z := 400.
Definition HTTP_CLIENT_ERROR_MAX : Z := 500.

(** The [except] clauses: raise at once, or remember for another attempt. *)
Definition classify (e : caught) : exn + exn :=
  match e with
  | TimeoutException m =>
      inr (EmbeddingTimeoutError ("Embedding timeout after " +:+ timeout_seconds c +:+ "s: " +:+ m))
  | ConnectError m =>
      inr (EmbeddingConnectionError ("Connection failed to " +:+ base_url c +:+ ": " +:+ m))
  | HTTPStatusError code t =>
      if (HTTP_CLIENT_ERROR_MIN <=? code) && (code <? HTTP_CLIENT_ERROR_MAX) then
        inl (EmbeddingClientError ("Embedding server returned client error: " +:+ pretty code +:+
          " - " +:+ t))
      else inr (EmbeddingClientError ("Embedding server error: " +:+ pretty code))
  end.

Definition delay (attempt : nat) : Q := (retry_base_delay c * inject_Z (2 ^ Z.of_nat attempt))%Q.

(** [for attempt in range(max_retries + 1)], with [remaining] to go. *)
Fixpoint attempts (t : text) (remaining attempt : nat) (last_exception : option exn)
    : M world (list json) :=
  match remaining with
  | O =>
      match last_exception with
      | Some e => raise e
      | None => raise (EmbeddingClientError "Unexpected error: no exception captured")
      end
  | S remaining =>
      let! r := _execute_request t in
      match r with
      | inr l => ret l
      | inl e =>
          match classify e with
          | inl e => raise e
          | inr e =>
              do! if Z.of_nat attempt <? max_retries c then sleep (delay attempt) else ret tt;
              attempts t remaining (S attempt) (Some e)
          end
      end
  end.

Definition get_embedding (t : text) : M world (list json) :=
  if blank t then raise (EmbeddingClientError "Text cannot be empty")
  else
    do! connect;
    attempts t (Z.to_nat (max_retries c + 1)) 0 None.

(** [ends] are the ends of [get_embedding] on the texts. *)
Definition get_embeddings_batch (texts : list text) (max_concurrency : Z) (first : nat)
    (ends : text -> res (list json)) : option (res (list (list json))) :=
  match texts with
  | [] => Some (Ok [])
  | _ => gather max_concurrency first (ends <$> texts)
  end.

Definition health_check : M world bool := reachable (get_embedding (of_string "health check")).

End client.
End MlxClient.

(** ** The client over the HTTP handler *)

Module HttpClient.

Inductive EnumEmbeddingProviderType : Type := LOCAL | OPENAI | VLLM.

Definition value (p : EnumEmbeddingProviderType) : string :=
  match p with LOCAL => "local" | OPENAI => "openai" | VLLM => "vllm" end.

(** The first member, in order, whose value is the normalized one. *)
Definition from_string (v : string) : res EnumEmbeddingProviderType :=
  let normalized := strip (lower v) in
  match filter (fun p => value p = normalized) [LOCAL; OPENAI; VLLM] with
  | p :: _ => Ok p
  | [] => Raise (ValueError ("Unknown provider type: " +:+ v))
  end.

Record config : Type := Config {
  provider : EnumEmbeddingProviderType;
  base_url : string;
  model : string;
  timeout_seconds : string;   (** as text *)
  embedding_dimension : Z;
  strict_dimension_validation : bool;
  rate_limit_rpm : Z;
  rate_limit_tpm : Z;
  auth_header : option string;
  embed_endpoint_path : option string;
  health_check_text : text;
}.

(** The constraints on the numbers, and the validator of the model. *)
Definition config_valid (c : config) : bool :=
  (0 <? embedding_dimension c) && (embedding_dimension c <=? 8192) &&
  (0 <=? rate_limit_rpm c) && (rate_limit_rpm c <=? 10000) &&
  (0 <=? rate_limit_tpm c) && (rate_limit_tpm c <=? 10000000) &&
  negb ((0 <? rate_limit_tpm c) && (rate_limit_rpm c =? 0)) &&
  (1 <=? Z.of_nat (length (health_check_text c))) && (Z.of_nat (length (health_check_text c)) <=? 100).

(** The field validators. *)
Definition normalize_url (v : string) : string :=
  to_string (rev (lstrip_chars (Ascii.eqb "/") (rev (of_string v)))).
Definition validate_embed_endpoint_path (v : option string) : option string :=
  match v with
  | Some v => Some (if String.prefix "/" v then v else "/" +:+ v)
  | None => None
  end.

Definition embed_endpoint (c : config) : string :=
  match embed_endpoint_path c with
  | Some path => base_url c +:+ path
  | None =>
      match provider c with
      | OPENAI => base_url c +:+ "/v1/embeddings"
      | _ => base_url c +:+ "/embed"
      end
  end.

(** The envelope of a request, less its fixed and random fields. *)
Record envelope : Type := Envelope {
  url : string;
  headers : list (string * string);
  body : list (string * text);
  correlation_id : uuid;
}.

Definition _build_envelope (c : config) (t : text) (cid : uuid) : envelope :=
  Envelope (embed_endpoint c)
    (("Content-Type", "application/json") ::
       match auth_header c with
       | Some h => if String.eqb h "" then [] else [("Authorization", h)]
       | None => []
       end)
    match provider c with
    | OPENAI => [("input", t); ("model", of_string (model c))]
    | _ => [("text", t)]
    end cid.

Section parse.
(** [str] of a value. *)
Context (py_str : json -> string).
Context (c : config).

Definition suffix (cid : uuid) : string := " (correlation_id=" +:+ cid +:+ ")".

(** What the body holds where an embedding is expected; [JNull] is [None]. *)
Definition candidate (body : json) : json :=
  match body with
  | JList _ => body
  | JDict d =>
      if dict_has d "data" then
        match dict_get d "data" JNull with
        | JList (JDict first_item :: _) => dict_get first_item "embedding" JNull
        | _ => JNull
        end
      else dict_get d "embedding" JNull
  | _ => JNull
  end.

Definition _extract_embedding (body : json) (cid : uuid) (skip_dimension_validation : bool)
    : res (list json) :=
  match candidate body with
  | JNull => Raise (EmbeddingClientError ("Could not extract embedding from response" +:+ suffix cid))
  | JList l =>
      if negb skip_dimension_validation && negb (Z.of_nat (length l) =? embedding_dimension c) &&
         strict_dimension_validation c
      then Raise (EmbeddingClientError ("Embedding dimension mismatch: expected " +:+
        pretty (embedding_dimension c) +:+ ", got " +:+ pretty (length l) +:+ suffix cid))
      else Ok l
  | j => Raise (EmbeddingClientError ("Expected list for embedding, got " +:+ type_str j +:+ suffix cid))
  end.

Definition is_success (status : json) : bool :=
  match status with JString t => bool_decide (t = of_string "success") | _ => false end.

Definition _parse_response (result : json) (cid : uuid) (skip : bool) : res (list json) :=
  match result with
  | JDict d =>
      let status := dict_get d "status" JNull in
      if negb (is_success status) then
        Raise (EmbeddingClientError ("Request failed with status=" +:+ py_str status +:+ suffix cid))
      else
        match dict_get d "payload" (JDict []) with
        | JDict payload =>
            let status_code := dict_get payload "status_code" (JInt 0) in
            match at_least status_code 400 with
            | Raise e => Raise e
            | Ok true =>
                let body := dict_get payload "body" (JDict []) in
                let error_msg :=
                  match body with
                  | JDict b => if dict_has b "error" then py_str (dict_get b "error" JNull) else py_str body
                  | _ => py_str body
                  end in
                Raise (EmbeddingClientError ("HTTP " +:+ py_str status_code +:+ ": " +:+ error_msg +:+
                  suffix cid))
            | Ok false => _extract_embedding (dict_get payload "body" JNull) cid skip
            end
        | _ => Raise (EmbeddingClientError ("Invalid payload structure" +:+ suffix cid))
        end
  | _ => Raise (EmbeddingClientError ("Invalid response: result is not a dict" +:+ suffix cid))
  end.

End parse.

(** How [handler.execute] ends: a result, or an exception, of the framework's
    two classes or another one. *)
Inductive reply : Type :=
  | Answers (result : json)
  | InfraConnectionError (msg : string)
  | InfraTimeoutError (msg : string)
  | Fails (e : exn).

(** What a task of the client is for: a call of [get_embedding], or of
    [health_check]. *)
Inductive job : Type := GetEmbedding (t : text) | HealthCheck.

Definition is_embedding (j : job) : bool := match j with GetEmbedding _ => true | HealthCheck => false end.

(** What [handler.execute] was called with, when and for what, and when the
    limiter granted it, unless it was not asked. *)
Record request : Type := Request {
  sent_at : micros;
  sent_for : job;
  granted_at : option micros;
  sent_envelope : envelope;
}.

(** The attributes of the client, the clock, and the requests made. *)
Record client : Type := Client {
  _handler : bool;
  _initialized : bool;
  _rate_limiter : option limiter;
  clock : micros;
  sent : list request;
}.

Definition set_open (h i : bool) (w : client) : client := Client h i (_rate_limiter w) (clock w) (sent w).
Definition set_limiter (l : limiter) (w : client) : client :=
  Client (_handler w) (_initialized w) (Some l) (clock w) (sent w).
Definition log_request (q : request) (w : client) : client :=
  Client (_handler w) (_initialized w) (_rate_limiter w) (clock w) (sent w ++ [q]).
Definition pass (d : N) (w : client) : client :=
  Client (_handler w) (_initialized w) (_rate_limiter w) (clock w + Z.of_N d) (sent w).

(** The limiter of [__init__]: the one given, or one for the configured rate. *)
Definition new_rate_limiter (c : config) (given : option limiter) : res (option limiter) :=
  match given with
  | Some l => Ok (Some l)
  | None =>
      if 0 <? rate_limit_rpm c then
        match RateLimiterRegistry.make_config (value (provider c)) (model c) (rate_limit_rpm c)
                (rate_limit_tpm c) one with
        | Raise e => Raise e
        | Ok lc =>
            match new_limiter lc with
            | Some l => Ok (Some l)
            | None => Raise (OverflowError "cannot convert float infinity to integer")
            end
        end
      else Ok None
  end.

(** Both under [_init_lock], so that no other call of either sees them half
    done; [ends] is how the start or the stop of the handler ends. The
    handler is kept when it fails. *)
Definition initialize (ends : option exn) : M client unit := fun w =>
  if _initialized w then (Ok tt, w)
  else
    match ends with
    | Some e => (Raise e, set_open true false w)
    | None => (Ok tt, set_open true true w)
    end.

Definition shutdown (ends : option exn) : M client unit := fun w =>
  match ends with
  | Some e => if _handler w then (Raise e, w) else (Ok tt, set_open false false w)
  | None => (Ok tt, set_open false false w)
  end.

(** What a call returns. *)
Inductive answer : Type := Embedding (l : list json) | Healthy (b : bool).

(** Where a task is: not yet begun, in the loop of the limiter's [acquire]
    with the backoff of its next turn, past the limiter, waiting for the
    answer to its request, or over. Between two of these, other tasks of the
    client may run and time passes. *)
Inductive stage : Type :=
  | Called
  | Acquiring (backoff : micros)
  | Cleared (granted : option micros)
  | Awaiting
  | Ended (r : res answer).

Section client_steps.
Context (py_str : json -> string) (c : config).

(** [_execute_embedding_request] up to [await handler.execute(envelope)]
    and after it. *)
Definition send_request (j : job) (t : text) (cid : uuid) (granted : option micros) : M client unit :=
  let! h := gets _handler in
  if negb h then raise (EmbeddingClientError "Client not initialized - call initialize() first")
  else fun w => (Ok tt, log_request (Request (clock w) j granted (_build_envelope c t cid)) w).

Definition receive (cid : uuid) (skip : bool) (r : reply) : res (list json) :=
  match r with
  | Answers result => _parse_response py_str c result cid skip
  | InfraConnectionError m =>
      Raise (EmbeddingConnectionError ("Connection failed to " +:+ base_url c +:+ ": " +:+ m))
  | InfraTimeoutError m =>
      Raise (EmbeddingTimeoutError ("Timeout after " +:+ timeout_seconds c +:+ "s: " +:+ m))
  | Fails e => Raise e
  end.

(** [self._rate_limiter.acquire(tokens=1)]: its checks before the loop, and a
    turn of the loop. A turn may come at any time after the sleep before it
    began: what the sleep lasts is not used. *)
Definition acquire_begins (w : client) : stage :=
  match _rate_limiter w with
  | None => Cleared None
  | Some l =>
      if (0 <? max_tokens l) && (max_tokens l <? 1) then
        Ended (Raise (ValueError ("tokens (1) exceeds maximum allowed (" +:+ pretty (max_tokens l) +:+ ") for " +:+
          RateLimiter.provider (cfg l) +:+ "/" +:+ RateLimiter.model (cfg l))))
      else Acquiring (initial_backoff (cfg l))
  end.

Definition acquire_turn (backoff : micros) (w : client) : stage * client :=
  match _rate_limiter w with
  | None => (Cleared None, w)
  | Some l =>
      match try_acquire 1 (clock w) l with
      | (Ok true, l) => (Cleared (Some (clock w)), set_limiter l w)
      | (Ok false, l) =>
          (Acquiring (Z.min (backoff * backoff_percent (cfg l) / 100) (max_backoff (cfg l))), set_limiter l w)
      | (Raise e, l) => (Ended (Raise e), set_limiter l w)
      end
  end.

(** [get_embedding] from one stage to the next: [starts] is how the start of
    the handler ends and [r] how the request does, where these are awaited.
    [cid] is the correlation id given, or a new one. *)
Definition get_embedding (t : text) (cid : uuid) (s : stage) (starts : option exn) (r : reply) (w : client)
    : stage * client :=
  match s with
  | Called =>
      if blank t then (Ended (Raise (EmbeddingClientError "Text cannot be empty")), w)
      else
        match initialize starts w with
        | (Raise e, w) => (Ended (Raise e), w)
        | (Ok _, w) => (acquire_begins w, w)
        end
  | Acquiring backoff => acquire_turn backoff w
  | Cleared granted =>
      match send_request (GetEmbedding t) t cid granted w with
      | (Raise e, w) => (Ended (Raise e), w)
      | (Ok _, w) => (Awaiting, w)
      end
  | Awaiting =>
      (Ended match receive cid false r with Ok l => Ok (Embedding l) | Raise e => Raise e end, w)
  | Ended _ => (s, w)
  end.

(** [health_check] does not ask the limiter. Its [try] does not cover the
    start of the handler. *)
Definition answers_health (r : res (list json)) : stage :=
  match (reachable (fun w : unit => (r, w)) tt).1 with
  | Ok b => Ended (Ok (Healthy b))
  | Raise e => Ended (Raise e)
  end.

Definition health_check (cid : uuid) (s : stage) (starts : option exn) (r : reply) (w : client) : stage * client :=
  match s with
  | Called =>
      match initialize starts w with
      | (Raise e, w) => (Ended (Raise e), w)
      | (Ok _, w) => (Cleared None, w)
      end
  | Acquiring _ | Ended _ => (s, w)
  | Cleared granted =>
      match send_request HealthCheck (health_check_text c) cid granted w with
      | (Raise e, w) => (answers_health (Raise e), w)
      | (Ok _, w) => (Awaiting, w)
      end
  | Awaiting => (answers_health (receive cid true r), w)
  end.

(** A batch opens the client, then makes a task of [get_embedding] for each
    text; [ends] is how these end. *)
Definition get_embeddings_batch (texts : list text) (max_concurrency : Z) (starts : option exn) (first : nat)
    (ends : text -> res (list json)) (w : client) : option (res (list (list json))) * client :=
  match texts with
  | [] => (Some (Ok []), w)
  | _ =>
      if max_concurrency <? 1 then
        (Some (Raise (ValueError ("max_concurrency must be positive (>= 1), got " +:+ pretty max_concurrency))), w)
      else
        match initialize starts w with
        | (Raise e, w) => (Some (Raise e), w)
        | (Ok _, w) => (gather max_concurrency first (ends <$> texts), w)
        end
  end.

(** The tasks of one client, in the order of their calls. *)
Record task : Type := Task { job_of : job; cid_of : uuid; stage_of : stage }.

Record system : Type := System { client_of : client; tasks : list task }.

(** A call is made, alone or by a batch; a task goes on to its next stage, or
    is cancelled; the client is opened or closed; time passes. *)
Inductive event : Type :=
  | Calls (j : job) (cid : uuid)
  | Resumes (i : nat) (starts : option exn) (r : reply)
  | Cancels (i : nat) (msg : string)
  | Opens (starts : option exn)
  | Closes (stops : option exn)
  | Passes (d : N).

Definition resume (k : task) (starts : option exn) (r : reply) (w : client) : task * client :=
  let (s, w) :=
    match job_of k with
    | GetEmbedding t => get_embedding t (cid_of k) (stage_of k) starts r w
    | HealthCheck => health_check (cid_of k) (stage_of k) starts r w
    end in
  (Task (job_of k) (cid_of k) s, w).

Definition cancel (msg : string) (k : task) : task :=
  match stage_of k with
  | Ended _ => k
  | _ => Task (job_of k) (cid_of k) (Ended (Raise (CancelledError msg)))
  end.

Definition step (s : system) (e : event) : system :=
  match e with
  | Calls j cid => System (client_of s) (tasks s ++ [Task j cid Called])
  | Resumes i starts r =>
      match tasks s !! i with
      | Some k => let (k, w) := resume k starts r (client_of s) in System w (<[i := k]> (tasks s))
      | None => s
      end
  | Cancels i msg =>
      match tasks s !! i with
      | Some k => System (client_of s) (<[i := cancel msg k]> (tasks s))
      | None => s
      end
  | Opens starts => System (initialize starts (client_of s)).2 (tasks s)
  | Closes stops => System (shutdown stops (client_of s)).2 (tasks s)
  | Passes d => System (pass d (client_of s)) (tasks s)
  end.

End client_steps.
End HttpClient.

(** ** Proofs: retries *)

Module MlxFacts.
Import MlxClient.

Section proofs.
Context (c : config).

(** No other task opens or closes the client. *)
Definition steady (w : world) : Prop := forall k o, (server w k).1 o = o.

(** What the [k]-th request yields, and what becomes of it. *)
Definition yields (w : world) (k : nat) : res (caught + list json) := answered (server w k).2.

Definition transient (r : res (caught + list json)) : bool :=
  match r with
  | Ok (inl e) => match classify c e with inr _ => true | inl _ => false end
  | _ => false
  end.

Definition settle (r : res (caught + list json)) : res (list json) :=
  match r with
  | Raise e => Raise e
  | Ok (inr l) => Ok l
  | Ok (inl e) => match classify c e with inl e | inr e => Raise e end
  end.

(** The world after [n] requests and the sleeps between them, the first of
    them after attempt [a]. *)
Definition tried (t : text) (a k : nat) (w : world) : world :=
  World (connection w) (server w) (sent w ++ replicate (S k) t) (slept w ++ (delay c <$> seq a k)).

Lemma attempts_S t r a last : attempts c t (S r) a last =
  (let! o := _execute_request t in
   match o with
   | inr l => ret l
   | inl e =>
       match classify c e with
       | inl e => raise e
       | inr e =>
           do! if Z.of_nat a <? max_retries c then sleep (delay c a) else ret tt;
           attempts c t r (S a) (Some e)
       end
   end).
Proof. done. Qed.

Lemma attempts_exact t r : forall a last w,
  Z.of_nat a + Z.of_nat r = max_retries c -> _client (connection w) = true -> steady w ->
  exists k, (k <= r)%nat /\ (forall j, (j < k)%nat -> transient (yields w (length (sent w) + j)) = true) /\
    ((k < r)%nat -> transient (yields w (length (sent w) + k)) = false) /\
    attempts c t (S r) a last w = (settle (yields w (length (sent w) + k)), tried t a k w).
Proof.
  induction r as [|r IH]; intros a last w Hmax Hc Hs; rewrite attempts_S; unfold bind at 1, _execute_request;
    rewrite Hc; cbn [negb]; pose proof (Hs (length (sent w)) (connection w)) as Ho;
    destruct (server w (length (sent w))) as [others o] eqn:Eo; cbn [fst] in Ho; rewrite Ho;
    assert (Hy : yields w (length (sent w) + 0) = answered o) by (rewrite Nat.add_0_r; unfold yields; by rewrite Eo).
  - exists 0%nat. split_and!; [lia|lia|lia|]. rewrite Hy.
    destruct (answered o) as [[e|l]|e]; simpl; unfold tried; simpl; rewrite ?app_nil_r; try done.
    destruct (classify c e) as [e'|e']; [by rewrite ?app_nil_r|].
    rewrite Zltb_F by lia. by rewrite ?app_nil_r.
  - destruct (transient (answered o)) eqn:Et.
    + destruct (answered o) as [[e|l]|e] eqn:Ea; try done. simpl in Et.
      destruct (classify c e) as [|e'] eqn:Ec; [done|].
      unfold bind at 1. rewrite Zltb_T by lia. unfold sleep, modify. cbv beta iota.
      match goal with |- context [attempts _ _ _ _ _ ?w'] => set (w1 := w') end.
      destruct (IH (S a) (Some e') w1 ltac:(lia) Hc Hs) as (k & Hk & Hb & Hf & Hr).
      assert (Hl : length (sent w1) = S (length (sent w))) by (simpl; rewrite length_app; simpl; lia).
      assert (Hsame : forall j, yields w1 (length (sent w1) + j) = yields w (length (sent w) + S j)).
      { intros j. rewrite Hl. unfold yields. simpl. by rewrite Nat.add_succ_r. }
      exists (S k). split_and!; [lia| |intros; rewrite <- Hsame; apply Hf; lia|].
      * intros [|j] Hj; [rewrite Hy; simpl; by rewrite Ec|]. rewrite <- Hsame. apply Hb. lia.
      * rewrite Hr, Hsame. f_equal. unfold tried. simpl.
        f_equal; [by rewrite <- app_assoc|by rewrite <- app_assoc].
    + exists 0%nat. split_and!; [lia|lia|by rewrite Hy|]. rewrite Hy.
      destruct (answered o) as [[e|l]|e]; simpl in *; unfold tried; simpl; rewrite ?app_nil_r; try done.
      by destruct (classify c e).
Qed.

(** An embedding takes at most [max_retries + 1]
    requests, all with the text asked for. Only failures that may pass (a
    timeout, a refused connection, a status that is not a client error) are
    followed by another request, after the configured delay times a power of
    two; the first answer of another kind, or the last failure, decides the
    result. *)
Theorem embedding_retries (t : text) (w : world) :
  config_valid c = true -> steady w -> _client (connection w) = _connected (connection w) ->
  blank t = false ->
  exists k, Z.of_nat k <= max_retries c /\
    (forall j, (j < k)%nat -> transient (yields w (length (sent w) + j)) = true) /\
    (Z.of_nat k < max_retries c -> transient (yields w (length (sent w) + k)) = false) /\
    get_embedding c t w =
      (settle (yields w (length (sent w) + k)), tried t 0 k (set_conn (Conn true true) w)).
Proof.
  unfold config_valid. intros Hc Hs Hopen Ht. breflect.
  set (w1 := set_conn (Conn true true) w).
  destruct (attempts_exact t (Z.to_nat (max_retries c)) 0 None w1 ltac:(lia) eq_refl Hs)
    as (k & Hk & Hb & Hf & Hr).
  exists k. split_and!; [lia|exact Hb|intros; apply Hf; lia|].
  unfold get_embedding. rewrite Ht. unfold bind at 1, connect, modify.
  replace (Z.to_nat (max_retries c + 1)) with (S (Z.to_nat (max_retries c))) by lia.
  replace (if _connected (connection w) then w else _) with w1; [exact Hr|].
  unfold w1. destruct (_connected (connection w)) eqn:Ec; [|done].
  destruct w as [[cl co] sv se sl]. simpl in *. by subst.
Qed.
End proofs.

(** A health check answers, unless what went wrong is none of the client's
    own exceptions. *)
Lemma reachable_answers {S A} (check : M S A) s :
  (reachable check s).1 = Ok true /\ is_Ok (check s).1 \/
  exists e, (check s).1 = Raise e /\
    (reachable check s).1 = (if is_EmbeddingClientError e then Ok false else Raise e).
Proof.
  unfold reachable, try_except, bind. destruct (check s) as [[a|e] s']; simpl; [left; split; [done|by exists a]|right].
  exists e. split; [done|]. by destruct (is_EmbeddingClientError e).
Qed.
End MlxFacts.

(** ** Proofs: gathering *)

Section gathered.
Context {A : Type}.
Implicit Types (ends : list (res A)).

(** A batch gives one result for each item, in order, or one of the
    exceptions. *)
Lemma gather_answers max_concurrency first ends : 0 < max_concurrency ->
  exists r, gather max_concurrency first ends = Some r /\
    match r with
    | Ok l => ends = Ok <$> l
    | Raise e => Raise e ∈ ends
    end.
Proof.
  intros Hm. unfold gather. rewrite Zltb_F by lia. rewrite (proj2 (Z.eqb_neq _ _)) by lia.
  set (raised := omap _ ends).
  assert (Hr : forall e, e ∈ raised -> Raise e ∈ ends).
  { intros e ([?|?] & He & [= <-])%list_elem_of_omap; done. }
  destruct (raised !! first) as [e|] eqn:E.
  { exists (Raise e). split; [done|]. apply Hr. by eapply list_elem_of_lookup_2. }
  destruct raised as [|e es] eqn:Er.
  - eexists. split; [done|]. simpl. subst raised. clear E Hr. induction ends as [|[a|e] ends IH]; simpl in *; [done| |done].
    f_equal. by apply IH.
  - exists (Raise e). split; [done|]. apply Hr. left.
Qed.
End gathered.

(** ** Proofs: the rate of requests *)

Lemma submseteq_filter_length {A} (P : A -> Prop) `{!forall x, Decision (P x)} (l k : list A) :
  l ⊆+ k -> (length (filter P l) <= length (filter P k))%nat.
Proof. intros [k' ->]%submseteq_Permutation. rewrite filter_app, length_app. lia. Qed.

Lemma granted_times t (h : list (micros * Z)) :
  length (filter (fun g => t - SECONDS_PER_MINUTE <= g <= t) h.*1) = length (granted_in_minute t h).
Proof.
  unfold granted_in_minute. induction h as [|[x a] h IH]; [done|].
  rewrite fmap_cons, !filter_cons. unfold in_minute in *. cbn [fst]. repeat case_decide; simpl; auto; done.
Qed.

(** Times of which no sixty seconds hold more than [m] are at most [m] for
    each minute begun. *)
Lemma minutes_begun (m : Z) (t0 : micros) (n : nat) (l : list micros) :
  (forall t, Z.of_nat (length (filter (fun g => t - SECONDS_PER_MINUTE <= g <= t) l)) <= m) ->
  Forall (fun g => t0 <= g < t0 + Z.of_nat n * SECONDS_PER_MINUTE) l ->
  Z.of_nat (length l) <= m * Z.of_nat n.
Proof.
  revert l. induction n as [|n IH]; intros l Hm Hl.
  - destruct l as [|g l]; [simpl; lia|]. apply Forall_cons in Hl as [Hg _]. lia.
  - set (b := t0 + Z.of_nat n * SECONDS_PER_MINUTE).
    assert (length l = (length (filter (fun g => g < b)%Z l) + length (filter (fun g => ~ g < b)%Z l))%nat) as Hlen.
    { by rewrite <-length_app, filter_app_complement. }
    assert (H1 : Z.of_nat (length (filter (fun g => g < b) l)) <= m * Z.of_nat n).
    { apply IH.
      - intros t. eapply Z.le_trans; [|exact (Hm t)].
        apply inj_le, submseteq_filter_length, sublist_submseteq, sublist_filter.
      - apply Forall_forall. intros g [Hb Hg]%list_elem_of_filter. rewrite Forall_forall in Hl.
        specialize (Hl g Hg). lia. }
    assert (H2 : Z.of_nat (length (filter (fun g => ~ g < b) l)) <= m).
    { specialize (Hm (b + SECONDS_PER_MINUTE)). eapply Z.le_trans; [|exact Hm].
      apply inj_le, submseteq_length, sublist_submseteq. clear Hm H1 Hlen.
      induction Hl as [|x l Hx Hl IHl]; [done|]. rewrite !filter_cons.
      unfold b, SECONDS_PER_MINUTE, seconds in *.
      repeat case_decide; first [exact IHl|exfalso; lia|by apply sublist_skip|by apply sublist_cons]. }
    rewrite Hlen, Nat2Z.inj_add, Nat2Z.inj_succ, Z.mul_succ_r. lia.
Qed.

Module HttpFacts.
Import HttpClient.

Section proofs.
Context (py_str : json -> string) (c : config) (t0 : micros).

(** The slot a task holds that it has not used yet. *)
Definition slot (s : stage) : option micros := match s with Cleared g => g | _ => None end.

(** The limiter of the client has granted each slot used and each one in
    [held], once. *)
Definition limited (w : client) (held : list micros) : Prop :=
  exists l h, _rate_limiter w = Some l /\ tracks (clock w) l h /\ max_requests l = rate_limit_rpm c /\
    omap granted_at (sent w) ++ held ⊆+ h.*1 /\ Forall (fun g => t0 <= g) h.*1 /\ t0 <= clock w.

Lemma limited_fewer w held held' : held' ⊆+ held -> limited w held -> limited w held'.
Proof.
  intros Hh (l & h & Hl & Htr & Hm & Hs & Ht). exists l, h. split_and!; try done; [|naive_solver..].
  etrans; [|exact Hs]. by apply submseteq_app.
Qed.

(** An embedding request has a slot, granted before it is sent. *)
Definition slotted (j : job) (now : micros) (g : option micros) : Prop :=
  is_embedding j = true -> exists t, g = Some t /\ t0 <= t <= now.

Definition stamped (w : client) : Prop :=
  Forall (fun q => slotted (sent_for q) (sent_at q) (granted_at q)) (sent w).

Definition ready (now : micros) (k : task) : Prop :=
  match stage_of k with Cleared g => slotted (job_of k) now g | _ => True end.

(** What a step of a task keeps, where [rest] are the slots of the others. *)
Record sound (w : client) (k : task) (rest : list micros) : Prop := {
  sound_limited : limited w (option_list (slot (stage_of k)) ++ rest);
  sound_stamped : stamped w;
  sound_ready : ready (clock w) k;
}.

Lemma initialize_same starts w : let w' := (initialize starts w).2 in
  _rate_limiter w' = _rate_limiter w /\ clock w' = clock w /\ sent w' = sent w.
Proof. unfold initialize. destruct (_initialized w), starts; done. Qed.

Lemma limited_same w w' held :
  _rate_limiter w' = _rate_limiter w -> clock w' = clock w -> sent w' = sent w ->
  limited w held -> limited w' held.
Proof. unfold limited. by intros -> -> ->. Qed.

Lemma sound_ended w j cid r rest : limited w rest -> stamped w -> sound w (Task j cid (Ended r)) rest.
Proof. by split. Qed.

Lemma acquire_turn_sound j cid b w rest :
  limited w rest -> stamped w ->
  sound (acquire_turn b w).2 (Task j cid (acquire_turn b w).1) rest /\ clock (acquire_turn b w).2 = clock w.
Proof.
  intros (l & h & Hl & Htr & Hm & Hs & Ht & Hc) Hst. unfold acquire_turn. rewrite Hl.
  pose proof (serve_tracks (clock w) l h (clock w, 1) ltac:(simpl; lia) Htr) as Hserve.
  unfold serve in Hserve. simpl in Hserve.
  destruct (try_acquire 1 (clock w) l) as [[[]|e] l1] eqn:E; pose proof (try_acquire_limits _ _ _ _ _ E) as (_ & Hm' & _);
    (split; [|done]); (split; [|exact Hst|]); try done.
  - exists l1, (h ++ [(clock w, 1)]). simpl. split_and!; [done|done|congruence| | |done].
    + rewrite fmap_app. simpl. rewrite (Permutation_app_comm h.*1). simpl.
      rewrite <-Permutation_middle. by constructor.
    + rewrite fmap_app. apply Forall_app. split; [done|]. by constructor.
  - intros _. exists (clock w). simpl. split; [done|lia].
  - exists l1, h. simpl. split_and!; try done. congruence.
  - exists l1, h. simpl. split_and!; try done. congruence.
Qed.

Lemma send_request_sound j t cid g w rest :
  limited w (option_list g ++ rest) -> stamped w -> slotted j (clock w) g ->
  let w' := (send_request c j t cid g w).2 in
  limited w' rest /\ stamped w' /\ clock w' = clock w.
Proof.
  intros (l & h & Hl & Htr & Hm & Hs & Ht & Hc) Hst Hg. unfold send_request, bind, gets.
  destruct (_handler w); simpl; (split_and!; [|try done|done]).
  - exists l, h. simpl. split_and!; try done. rewrite omap_app. simpl. destruct g; simpl in *; [|by rewrite app_nil_r].
    by rewrite <-app_assoc.
  - apply Forall_app. split; [done|]. by constructor.
  - exists l, h. split_and!; try done. etrans; [|exact Hs]. apply submseteq_app; [done|]. by apply submseteq_inserts_l.
Qed.
(** Opening the client touches neither the limiter nor the requests. *)
Lemma opened_sound starts w rest : limited w rest -> stamped w ->
  let w' := (initialize starts w).2 in limited w' rest /\ stamped w' /\ clock w' = clock w.
Proof.
  intros Hl Hst w'. destruct (initialize_same starts w) as (H1 & H2 & H3). fold w' in H1, H2, H3. split_and!.
  - by apply (limited_same w).
  - by unfold stamped; rewrite H3.
  - done.
Qed.

Lemma acquire_begins_sound j cid w rest : limited w rest -> stamped w ->
  sound w (Task j cid (acquire_begins w)) rest.
Proof.
  intros Hl Hst. unfold acquire_begins. pose proof Hl as (l & h & -> & _). case_match; by split.
Qed.

Lemma get_embedding_sound t cid s starts r w rest : sound w (Task (GetEmbedding t) cid s) rest ->
  let p := get_embedding py_str c t cid s starts r w in
  sound p.2 (Task (GetEmbedding t) cid p.1) rest /\ clock p.2 = clock w.
Proof.
  intros [Hl Hst Hr] p. unfold p, get_embedding. destruct s as [|b|g| |r0].
  - destruct (blank t); [done|]. destruct (opened_sound starts w rest Hl Hst) as (Hl' & Hst' & Hc).
    destruct (initialize starts w) as [[u|e] w']; simpl in *; (split; [|done]);
      [by apply acquire_begins_sound|by apply sound_ended].
  - by apply acquire_turn_sound.
  - destruct (send_request_sound (GetEmbedding t) t cid g w rest Hl Hst Hr) as (Hl' & Hst' & Hc).
    destruct (send_request c (GetEmbedding t) t cid g w) as [[u|e] w']; simpl in *; (split; [|done]); by split.
  - split; [|done]. by split.
  - done.
Qed.

Lemma answers_health_ended r : exists r', answers_health r = Ended r'.
Proof. unfold answers_health. case_match; eauto. Qed.

Lemma health_check_sound cid s starts r w rest : sound w (Task HealthCheck cid s) rest ->
  let p := health_check py_str c cid s starts r w in
  sound p.2 (Task HealthCheck cid p.1) rest /\ clock p.2 = clock w.
Proof.
  intros [Hl Hst Hr] p. unfold p, health_check. destruct s as [|b|g| |r0].
  - destruct (opened_sound starts w rest Hl Hst) as (Hl' & Hst' & Hc).
    destruct (initialize starts w) as [[u|e] w']; simpl in *; (split; [|done]); by split.
  - done.
  - destruct (send_request_sound HealthCheck (health_check_text c) cid g w rest Hl Hst Hr) as (Hl' & Hst' & Hc).
    destruct (send_request c HealthCheck _ cid g w) as [[u|e] w']; simpl in *; (split; [|done]); [by split|].
    destruct (answers_health_ended (Raise e)) as [? ->]. by split.
  - destruct (answers_health_ended (receive py_str c cid true r)) as [? ->]. split; [|done]. by split.
  - done.
Qed.

Lemma resume_sound k starts r w rest : sound w k rest ->
  let p := resume py_str c k starts r w in sound p.2 p.1 rest /\ clock p.2 = clock w.
Proof.
  intros Hk p. unfold p, resume. destruct k as [[t|] cid s]; cbn [job_of cid_of stage_of].
  - pose proof (get_embedding_sound t cid s starts r w rest Hk) as H. by destruct (get_embedding _ _ _ _ _ _ _ _).
  - pose proof (health_check_sound cid s starts r w rest Hk) as H. by destruct (health_check _ _ _ _ _ _ _).
Qed.

(** The whole system. *)
Definition slots (ks : list task) : list micros := omap (fun k => slot (stage_of k)) ks.

Record in_step (s : system) : Prop := {
  step_limited : limited (client_of s) (slots (tasks s));
  step_stamped : stamped (client_of s);
  step_ready : Forall (ready (clock (client_of s))) (tasks s);
}.

Lemma slots_split ks i k : ks !! i = Some k ->
  slots ks ≡ₚ option_list (slot (stage_of k)) ++ slots (delete i ks).
Proof.
  intros Hk. unfold slots. rewrite (delete_Permutation ks i k Hk) at 1. simpl. by destruct (slot _).
Qed.

Lemma slots_replaced ks i k k' : ks !! i = Some k ->
  slots (<[i := k']> ks) ≡ₚ option_list (slot (stage_of k')) ++ slots (delete i ks).
Proof.
  intros Hk. pose proof (lookup_lt_Some _ _ _ Hk) as Hi.
  rewrite (slots_split (<[i := k']> ks) i k') by by apply list_lookup_insert_eq.
  assert (delete i (<[i := k']> ks) = delete i ks) as ->; [|done].
  revert i Hi Hk. induction ks as [|k0 ks IH]; intros [|i] Hi Hk; simpl in *; try done. f_equal. apply IH; [lia|done].
Qed.

Lemma limited_permuted w held held' : held' ≡ₚ held -> limited w held -> limited w held'.
Proof. intros H. apply limited_fewer. by rewrite H. Qed.

Lemma step_in_step s e : in_step s -> in_step (step py_str c s e).
Proof.
  intros [Hl Hst Hr]. destruct e as [j cid|i starts r|i msg|starts|stops|d]; simpl.
  - split; simpl; [|done|].
    + unfold slots. rewrite omap_app. simpl. by rewrite app_nil_r.
    + apply Forall_app. split; [done|]. by repeat constructor.
  - destruct (tasks s !! i) as [k|] eqn:Hk; [|by split].
    assert (Hsound : sound (client_of s) k (slots (delete i (tasks s)))).
    { split; [|done|by eapply Forall_lookup_1 in Hr]. eapply limited_permuted; [|exact Hl]. symmetry. by apply slots_split. }
    destruct (resume_sound k starts r _ _ Hsound) as [[Hl' Hst' Hr'] Hc].
    destruct (resume py_str c k starts r (client_of s)) as [k' w']. cbn [fst snd] in *. split; simpl; [|done|].
    + eapply limited_permuted; [|exact Hl']. by apply (slots_replaced _ i k k').
    + apply Forall_insert; [by rewrite Hc|done].
  - destruct (tasks s !! i) as [k|] eqn:Hk; [|by split].
    split; simpl; [|done|].
    + eapply limited_fewer; [|exact Hl]. rewrite (slots_replaced _ i k (cancel msg k)), (slots_split (tasks s) i k) by done.
      apply submseteq_app; [|done]. unfold cancel. destruct (stage_of k) eqn:E; try rewrite E; simpl; try done.
      apply submseteq_nil_l.
    + apply Forall_insert; [done|]. apply (Forall_lookup_1 _ _ _ _ Hr) in Hk. unfold cancel.
      by destruct (stage_of k) eqn:E.
  - destruct (opened_sound starts _ _ Hl Hst) as (Hl' & Hst' & Hc). split; simpl; [done|done|by rewrite Hc].
  - unfold shutdown. destruct stops, (_handler (client_of s)); by split.
  - destruct Hl as (l & h & Hl & Htr & Hm & Hs & Ht & Hc). split; simpl; [|done|].
    + exists l, h. split_and!; try done; simpl; [|lia]. eapply tracks_later; [|exact Htr]. simpl. lia.
    + eapply Forall_impl; [exact Hr|]. unfold ready, slotted. intros k. destruct (stage_of k); try done.
      intros H Hj. destruct (H Hj) as (t & -> & ?). exists t. split; [done|]. simpl. lia.
Qed.

Lemma new_in_step l : config_valid c = true -> 0 < rate_limit_rpm c -> new_rate_limiter c None = Ok l ->
  in_step (System (Client false false l t0 []) []).
Proof.
  unfold config_valid. intros Hv Hr Hnew. breflect. unfold new_rate_limiter in Hnew. rewrite Zltb_T in Hnew by done.
  destruct (RateLimiterRegistry.make_config _ _ _ _ _) as [lc|] eqn:Em; [|done].
  unfold RateLimiterRegistry.make_config in Em. destruct (_ || _) in Em; [done|]. injection Em as <-.
  match type of Hnew with context [new_limiter ?lc] => set (k := lc) in * end.
  destruct (new_limiter k) as [l'|] eqn:El; [|done]. injection Hnew as <-. split; [|by constructor..].
  exists l', []. simpl. split; [done|]. split; [|split; [|split; [done|split; [by constructor|lia]]]].
  - apply (new_limiter_tracks k); [done|]. unfold valid_config, k. simpl. unfold seconds. split_and!; try lia; done.
  - apply (unit_burst_is_strict k l'); [done| |done]. simpl. lia.
Qed.

(** The grants used, in any sixty seconds, and the requests sent since the
    beginning. *)
Lemma grants_in_minute w held t : limited w held ->
  Z.of_nat (length (filter (fun g => t - SECONDS_PER_MINUTE <= g <= t) (omap granted_at (sent w)))) <= rate_limit_rpm c.
Proof.
  intros (l & h & _ & Htr & <- & Hs & _). eapply Z.le_trans; [|apply (tracks_requests _ _ _ Htr t)].
  rewrite <-granted_times. apply inj_le, submseteq_filter_length. etrans; [|exact Hs]. by apply submseteq_inserts_r.
Qed.

Lemma sent_by w held t : limited w held -> stamped w -> t0 <= t ->
  Z.of_nat (length (filter (fun q => is_embedding (sent_for q) = true /\ sent_at q <= t) (sent w)))
    <= rate_limit_rpm c * ((t - t0) / SECONDS_PER_MINUTE + 1).
Proof.
  intros Hl Hst Ht. set (n := Z.to_nat ((t - t0) / SECONDS_PER_MINUTE + 1)).
  assert (Hq : 0 <= (t - t0) / SECONDS_PER_MINUTE) by (apply Z.div_pos; [lia|done]).
  assert ((t - t0) / SECONDS_PER_MINUTE + 1 = Z.of_nat n) as -> by lia.
  set (early := filter _ (sent w)). transitivity (Z.of_nat (length (omap granted_at early))).
  - apply inj_le. unfold early. clear -Hst. induction Hst as [|q l Hq Hl IH]; [done|].
    rewrite filter_cons. case_decide as H; [|done]. destruct (Hq (proj1 H)) as (g & Hg & _). simpl. rewrite Hg. simpl.
    by apply le_n_S.
  - apply (minutes_begun _ t0 n).
    + intros u. eapply Z.le_trans; [|by apply (grants_in_minute w held u)].
      apply inj_le, submseteq_filter_length, sublist_submseteq. unfold early.
      clear. induction (sent w) as [|q l IH]; [done|]. rewrite filter_cons. simpl.
      case_decide; simpl; destruct (granted_at q); try done; [by apply sublist_skip|by apply sublist_cons].
    + apply Forall_forall. intros g (q & [[He Hs] Hin]%list_elem_of_filter & Hg)%list_elem_of_omap.
      unfold stamped in Hst. rewrite Forall_forall in Hst. destruct (Hst q Hin He) as (g' & Hg' & Hle).
      simplify_eq. pose proof (Z.mul_succ_div_gt (t - t0) SECONDS_PER_MINUTE ltac:(done)). lia.
Qed.

(** C35: whatever tasks use one client - single calls and batches that
    overlap, health checks, cancellations, closing and opening - and however
    long they wait between the limiter and the server, a client configured
    with a rate never uses more than [rate_limit_rpm] of the limiter's grants
    of any sixty seconds; each embedding request has a grant of its own, from
    before it is sent; and no more than [rate_limit_rpm] of them are sent for
    each minute begun since the client was made. Health checks have no grant
    and are not counted. *)
Theorem embedding_rate l (events : list event) :
  config_valid c = true -> 0 < rate_limit_rpm c -> new_rate_limiter c None = Ok l ->
  let requests := sent (client_of (run (step py_str c) (System (Client false false l t0 []) []) events)) in
  (forall t, Z.of_nat (length (filter (fun g => t - SECONDS_PER_MINUTE <= g <= t) (omap granted_at requests)))
    <= rate_limit_rpm c) /\
  (forall q, q ∈ requests -> is_embedding (sent_for q) = true ->
    exists g, granted_at q = Some g /\ t0 <= g <= sent_at q) /\
  (forall t, t0 <= t ->
    Z.of_nat (length (filter (fun q => is_embedding (sent_for q) = true /\ sent_at q <= t) requests))
      <= rate_limit_rpm c * ((t - t0) / SECONDS_PER_MINUTE + 1)).
Proof.
  intros Hv Hr Hnew. pose proof (new_in_step l Hv Hr Hnew) as H0.
  assert (Hs : in_step (run (step py_str c) (System (Client false false l t0 []) []) events)).
  { apply (run_invariant (step py_str c) in_step (fun _ => True)); [|done|by apply Forall_true].
    intros s e Hs _. by apply step_in_step. }
  destruct Hs as [Hl Hst _]. intros requests. fold requests in Hst. split_and!.
  - intros t. by eapply grants_in_minute.
  - unfold stamped in Hst. rewrite Forall_forall in Hst. exact Hst.
  - intros t Ht. by eapply sent_by.
Qed.
End proofs.

(** A response is accepted only when it is a success below status 400 whose
    body holds the embedding in one of three shapes, of the configured
    dimension when that is checked and required. *)
Lemma parse_response_sound py_str c result cid skip l :
  _parse_response py_str c result cid skip = Ok l ->
  exists d payload body, result = JDict d /\
    dict_get d "status" JNull = JString (of_string "success") /\
    dict_get d "payload" (JDict []) = JDict payload /\ dict_get payload "body" JNull = body /\
    at_least (dict_get payload "status_code" (JInt 0)) 400 = Ok false /\
    candidate body = JList l /\
    (skip = false -> strict_dimension_validation c = true -> Z.of_nat (length l) = embedding_dimension c).
Proof.
  unfold _parse_response. destruct result as [| | | | | |d]; try done.
  destruct (is_success (dict_get d "status" JNull)) eqn:Es; [|done]. cbn [negb].
  destruct (dict_get d "payload" (JDict [])) as [| | | | | |payload] eqn:Ep; try done.
  destruct (at_least _ _) as [[]|] eqn:Ea; try done.
  unfold _extract_embedding. destruct (candidate _) as [| | | | |l0|] eqn:Ec; try done.
  destruct (_ && strict_dimension_validation c) eqn:Ed; [done|]. intros [= ->].
  exists d, payload, (dict_get payload "body" JNull). split_and!; try done.
  - unfold is_success in Es. destruct (dict_get d "status" JNull); try done. by apply bool_decide_eq_true in Es as ->.
  - intros -> Hstrict. rewrite Hstrict, andb_true_r in Ed. cbn [negb andb] in Ed.
    by apply negb_false_iff, Z.eqb_eq in Ed.
Qed.
End HttpFacts.

(** ** Concrete inputs *)

Module EmbeddingDemo.

Definition vector : json := JList [JFloat one; JFloat zero].

Section mlx.
Import MlxClient.
Definition mlx : MlxClient.config := MlxClient.Config "http://host:8000/" "5.0" 2 (1 # 10) 2.
Definition script (l : list outcome) (k : nat) : (conn -> conn) * outcome :=
  (fun o => o, default (Timeout "") (l !! k)).
Definition facing (l : list outcome) : MlxClient.world := MlxClient.World (Conn false false) (script l) [] [].
Definition ask (l : list outcome) : res (list json) * list Q :=
  let (r, w) := MlxClient.get_embedding mlx (of_string "hello") (facing l) in (r, MlxClient.slept w).

Example mlx_url : embed_url mlx = "http://host:8000/embed".
Proof. reflexivity. Qed.
Example mlx_recovers : ask [Response 503 "" (Ok JNull); Refused "reset"; Response 200 "" (Ok vector)] =
  (Ok [JFloat one; JFloat zero], [(1 # 10) * 1; (1 # 10) * 2]%Q).
Proof. vm_compute. reflexivity. Qed.
Example mlx_client_error : ask [Response 404 "gone" (Ok JNull)] =
  (Raise (EmbeddingClientError "Embedding server returned client error: 404 - gone"), []).
Proof. vm_compute. reflexivity. Qed.
Example mlx_gives_up : (ask []).1 = Raise (EmbeddingTimeoutError "Embedding timeout after 5.0s: ").
Proof. vm_compute. reflexivity. Qed.
(** Other failures of the transport, and a body that is not JSON, are not
    retried, nor are they errors of the client. *)
Example mlx_read_error : ask [MlxClient.Fails (OtherException "ReadError" "")] =
  (Raise (OtherException "ReadError" ""), []).
Proof. vm_compute. reflexivity. Qed.
(** The dimension of the answer is not checked. *)
Example mlx_any_dimension : (ask [Response 200 "" (Ok (JList []))]).1 = Ok [].
Proof. vm_compute. reflexivity. Qed.
(** With no permits the batch never ends. *)
Example mlx_batch_stuck : MlxClient.get_embeddings_batch [of_string "a"] 0 0 (fun _ => Ok []) = None.
Proof. reflexivity. Qed.

Lemma embedding_retries_witness :
  exists k, Z.of_nat k <= 2 /\ ask [Response 500 "" (Ok JNull); Response 200 "" (Ok vector)] =
    (MlxFacts.settle mlx (MlxFacts.yields
       (facing [Response 500 "" (Ok JNull); Response 200 "" (Ok vector)]) k),
     delay mlx <$> seq 0 k).
Proof.
  destruct (MlxFacts.embedding_retries mlx (of_string "hello")
    (facing [Response 500 "" (Ok JNull); Response 200 "" (Ok vector)]))
    as (k & Hk & _ & _ & H); [done|by intros k o|done|done|].
  exists k. split; [exact Hk|]. unfold ask. rewrite H. reflexivity.
Defined.
End mlx.

Section http.
Import HttpClient.
Definition http : HttpClient.config :=
  HttpClient.Config OPENAI "https://api" "ada" "30.0" 2 true 2 0 (Some "Bearer x") None (of_string "health").

Definition success (body : json) : json :=
  JDict [(of_string "status", JString (of_string "success"));
         (of_string "payload", JDict [(of_string "status_code", JInt 200); (of_string "body", body)])].
Definition openai_body : json :=
  JDict [(of_string "data", JList [JDict [(of_string "embedding", vector)]])].

Definition openai : reply := Answers (success openai_body).
Definition http_limiter : option limiter :=
  match new_rate_limiter http None with Ok l => l | Raise _ => None end.
Definition new_client : HttpClient.client := HttpClient.Client false false http_limiter 0 [].
Definition no_text (j : json) : string := "...".
Definition after (events : list event) : system := run (step no_text http) (System new_client []) events.

(** Each task goes on [n] times, one task after the other. *)
Definition rounds (n tasks : nat) : list event :=
  mjoin (replicate n ((fun i => Resumes i None openai) <$> seq 0 tasks)).
Definition three_calls : list event :=
  [Calls (GetEmbedding (of_string "a")) "c1"; Calls (GetEmbedding (of_string "b")) "c2";
   Calls (GetEmbedding (of_string "c")) "c3"; Calls HealthCheck "c4"].
Definition busy : list event := three_calls ++ rounds 6 4 ++ [Passes 60000001] ++ rounds 3 4.

Example http_endpoint : embed_endpoint http = "https://api/v1/embeddings".
Proof. reflexivity. Qed.
(** Of three calls that overlap the third waits for a minute to pass; the
    health check does not wait. *)
Example http_paced : (fun q => (sent_at q, granted_at q)) <$> HttpClient.sent (client_of (after busy)) =
  [(0, None); (0, Some 0); (0, Some 0); (60000001, Some 60000001)].
Proof. vm_compute. reflexivity. Qed.
Example http_answers : stage_of <$> tasks (after busy) =
  replicate 3 (HttpClient.Ended (Ok (Embedding [JFloat one; JFloat zero]))) ++ [HttpClient.Ended (Ok (Healthy true))].
Proof. vm_compute. reflexivity. Qed.
(** Two slots granted at once may be used much later, so that the requests of
    a minute can be more than its grants. *)
Definition late : list event :=
  three_calls ++ Passes 10 :: rounds 2 2 ++ Passes 60000000 :: rounds 2 3 ++ [Passes 1] ++ rounds 3 3.
Example http_bunched : (fun q => (sent_at q, granted_at q)) <$> HttpClient.sent (client_of (after late)) =
  [(60000010, Some 10); (60000010, Some 10); (60000011, Some 60000011)].
Proof. vm_compute. reflexivity. Qed.
(** A task cancelled between the limiter and the server wastes its slot. *)
Example http_cancelled : HttpClient.sent (client_of (after
    ([Calls (GetEmbedding (of_string "a")) "c1"] ++ rounds 2 1 ++ [Cancels 0 "timeout"] ++ rounds 2 1))) = [].
Proof. vm_compute. reflexivity. Qed.
(** A dict with a [data] that holds no embedding is not searched further. *)
Example http_data_first : candidate (JDict [(of_string "data", JList []); (of_string "embedding", vector)]) = JNull.
Proof. reflexivity. Qed.
(** A status code that is not a number makes the health check raise. *)
Definition odd_status : reply :=
  Answers (JDict [(of_string "status", JString (of_string "success"));
                  (of_string "payload", JDict [(of_string "status_code", JNull)])]).
Example health_check_raises : (health_check no_text http "c" Awaiting None odd_status new_client).1 =
  HttpClient.Ended (Raise (OtherException "TypeError" "'>=' not supported between these instances")).
Proof. vm_compute. reflexivity. Qed.
(** The start of the handler is outside the [try] of the health check. *)
Example health_check_start : (health_check no_text http "c" Called (Some (OSError "no route")) openai new_client).1 =
  HttpClient.Ended (Raise (OSError "no route")).
Proof. reflexivity. Qed.

Lemma embedding_rate_witness :
  let requests := HttpClient.sent (client_of (after busy)) in
  length requests = 4%nat /\
  Z.of_nat (length (filter (fun g => 60000000 - SECONDS_PER_MINUTE <= g <= 60000000) (omap granted_at requests)))
    <= rate_limit_rpm http.
Proof.
  destruct (HttpFacts.embedding_rate no_text http 0 http_limiter busy) as (H & _);
    [vm_compute; reflexivity..|]. split; [vm_compute; reflexivity|]. exact (H 60000000).
Defined.
End http.
End EmbeddingDemo.
