(* ===== verification/Retrieval.v ===== *)
(** * Memory retrieval: requests, and the vector and text back ends

    Models the requests and responses of src/src/omnimemory/nodes/
    node_memory_retrieval_effect/models, and the in-memory back ends behind
    which the handler searches: [HandlerQdrantMock] (handlers/
    handler_qdrant_mock.py, module [QdrantMock]) by similarity of embeddings,
    and [HandlerDbMock] (handlers/handler_db_mock.py, module [DbMock]) by the
    words of a text. Snapshots are a class of the ONEX framework, of which the
    record keeps what the code reads; SHA-256 and the embedding client
    (Embedding.v) are arguments. *)

From Stdlib Require Import SpecFloat.
From S2P Require Import Prelude Text Floats Similarity Graph FloatOrder.

Open Scope Z_scope.

(** ** Dictionaries, in insertion order *)

Section dict.
Context {A : Type}.
Implicit Types (d : list (string * A)).

Fixpoint dict_find (k : string) d : option A :=
  match d with
  | [] => None
  | (k', v) :: d => if String.eqb k' k then Some v else dict_find k d
  end.

(** [d[k] = v]: a key keeps its place. *)
Fixpoint dict_set (k : string) (v : A) d : list (string * A) :=
  match d with
  | [] => [(k, v)]
  | (k', v') :: d => if String.eqb k' k then (k, v) :: d else (k', v') :: dict_set k v d
  end.

Lemma dict_find_set k k' v d :
  dict_find k (dict_set k' v d) = if String.eqb k' k then Some v else dict_find k d.
Proof.
  induction d as [|[j w] d IH]; simpl; [done|].
  destruct (String.eqb j k') eqn:E; simpl; [apply String.eqb_eq in E as ->; by destruct (String.eqb k' k)|].
  destruct (String.eqb j k) eqn:E'; [|done]. apply String.eqb_eq in E' as ->. rewrite String.eqb_sym in E. by rewrite E.
Qed.

Lemma dict_set_keys k v d x : x ∈ (dict_set k v d).*1 <-> x = k \/ x ∈ d.*1.
Proof.
  induction d as [|[j w] d IH]; simpl; [by rewrite list_elem_of_singleton, elem_of_nil; tauto|].
  destruct (String.eqb j k) eqn:E; simpl; rewrite !elem_of_cons; [apply String.eqb_eq in E as ->; tauto|].
  rewrite IH. tauto.
Qed.

Lemma dict_set_NoDup k v d : NoDup d.*1 -> NoDup (dict_set k v d).*1.
Proof.
  induction d as [|[j w] d IH]; simpl; intros Hd; [apply NoDup_singleton|].
  apply NoDup_cons in Hd as [Hj Hd]. destruct (String.eqb j k) eqn:E; simpl.
  - apply String.eqb_eq in E as ->. by constructor.
  - constructor; [|by apply IH]. rewrite dict_set_keys. intros [->|H]; [by rewrite String.eqb_refl in E|done].
Qed.

Lemma dict_find_elem k v d : NoDup d.*1 -> dict_find k d = Some v <-> (k, v) ∈ d.
Proof.
  induction d as [|[j w] d IH]; simpl; intros Hd; [by rewrite elem_of_nil|].
  apply NoDup_cons in Hd as [Hj Hd]. rewrite elem_of_cons, <- IH by done.
  destruct (String.eqb j k) eqn:E.
  - apply String.eqb_eq in E as ->. split; [intros [= ->]; by left|]. intros [[= ->]|H]; [done|].
    rewrite IH in H by done. destruct Hj. apply list_elem_of_fmap. by exists (k, v).
  - split; [by right|]. intros [[= -> _]|?]; [by rewrite String.eqb_refl in E|done].
Qed.

Lemma dict_find_keys k d : is_Some (dict_find k d) <-> k ∈ d.*1.
Proof.
  induction d as [|[j w] d IH]; simpl; [rewrite elem_of_nil; split; [by intros [? [=]]|done]|].
  rewrite elem_of_cons, <- IH. destruct (String.eqb j k) eqn:E.
  - apply String.eqb_eq in E as ->. split; [by left|by eexists].
  - split; [by right|]. intros [->|?]; [by rewrite String.eqb_refl in E|done].
Qed.
End dict.

(** ** Requests and responses *)

Inductive operation : Type := op_search | op_search_text | op_search_graph.

Definition operation_value (o : operation) : string :=
  match o with op_search => "search" | op_search_text => "search_text" | op_search_graph => "search_graph" end.
#[export] Instance operation_eq_dec : EqDecision operation.
Proof. solve_decision. Defined.

(** What the code reads of a [ModelMemorySnapshot]; the identifier and the
    type of the subject as text. *)
Record ModelMemorySnapshot : Type := Snapshot {
  snapshot_id : string;
  subject : option (option text * option text);   (** key, type *)
  tags : list text;
}.

Definition vector : Type := list spec_float.

Record ModelMemoryRetrievalRequest : Type := Request {
  req_operation : operation;
  query_text : option text;
  query_embedding : option vector;
  req_snapshot_id : option string;
  limit : Z;
  similarity_threshold : spec_float;
  traversal_depth : Z;
  relationship_types : option (list string);
  metadata_filters : option (list (string * string));
  req_tags : option (list text);
}.

(** The field constraints and [validate_operation_fields]. *)
Definition request_valid (q : ModelMemoryRetrievalRequest) : bool :=
  (1 <=? limit q) && (limit q <=? 1000) && unit_float (similarity_threshold q) &&
  (1 <=? traversal_depth q) && (traversal_depth q <=? 10) &&
  match req_operation q with
  | op_search => bool_decide (is_Some (query_text q) \/ is_Some (query_embedding q))
  | op_search_text => bool_decide (is_Some (query_text q))
  | op_search_graph => bool_decide (is_Some (req_snapshot_id q))
  end.

Record ModelSearchResult : Type := SearchResult {
  snapshot : ModelMemorySnapshot;
  score : spec_float;
  distance : option spec_float;
  path : option (list string);
}.

(** The constructor: the score must lie in the unit interval. *)
Definition make_result (s : ModelMemorySnapshot) (sc : spec_float) (d : option spec_float)
    (p : option (list string)) : res ModelSearchResult :=
  if unit_float sc then Ok (SearchResult s sc d p) else Raise (OtherException "ValidationError" "score").

Inductive status : Type := success | error | no_results.

Record ModelMemoryRetrievalResponse : Type := Response {
  resp_status : status;
  results : list ModelSearchResult;
  total_count : Z;
  query_embedding_used : option vector;
  error_message : option string;
}.

Definition failed (msg : string) : ModelMemoryRetrievalResponse := Response error [] 0 None (Some msg).
Definition nothing (used : option vector) (msg : option string) : ModelMemoryRetrievalResponse :=
  Response no_results [] 0 used msg.
Definition found_results (rs : list ModelSearchResult) (used : option vector) : ModelMemoryRetrievalResponse :=
  Response success rs (Z.of_nat (length rs)) used None.

(** [self._snapshots[key]] *)
Definition stored {A} (d : list (string * A)) (k : string) : res A :=
  match dict_find k d with Some a => Ok a | None => Raise (OtherException "KeyError" k) end.

(** A list comprehension whose items may raise. *)
Fixpoint collect {A B} (f : A -> res B) (l : list A) : res (list B) :=
  match l with
  | [] => Ok []
  | x :: l =>
      match f x with
      | Raise e => Raise e
      | Ok y => match collect f l with Ok ys => Ok (y :: ys) | Raise e => Raise e end
      end
  end.

(** [not snapshot.snapshot_id or not str(snapshot.snapshot_id).strip()] *)
Definition no_id (s : ModelMemorySnapshot) : bool := blank (of_string (snapshot_id s)).

(** [" ".join(parts)] *)
Fixpoint join_space (parts : list text) : text :=
  match parts with
  | [] => []
  | [p] => p
  | p :: parts => p ++ " "%char :: join_space parts
  end.

(** [if value:] on an optional string *)
Definition truthy_text (t : option text) : list text :=
  match t with Some (c :: t) => [c :: t] | _ => [] end.

(** [sorted by score, highest first][:limit] *)
Definition top {A} (limit : Z) (l : list (A * spec_float)) : list (A * spec_float) :=
  take (Z.to_nat limit) (sort_best snd l).

(** [sum] of doubles, which CPython compensates since 3.12. *)
Fixpoint sum_loop (l : list spec_float) (total c : spec_float) : spec_float :=
  match l with
  | [] => if negb (is_zero c) && finite_float c then float_add total c else total
  | x :: l =>
      let t := float_add total x in
      let lost := if SFleb (SFabs x) (SFabs total) then float_add (float_sub total t) x
                  else float_add (float_sub x t) total in
      sum_loop l t (float_add c lost)
  end.
Definition float_sum (l : list spec_float) : spec_float :=
  match l with [] => zero | x :: l => sum_loop l (float_add zero x) zero end.

(** ** The vector back end *)

Module QdrantMock.

Record config : Type := Config {
  embedding_dimension : Z;
  simulate_latency_ms : Z;
  use_real_embeddings : bool;
  embedding_server_url : option string;
}.

Definition is_url (u : string) : bool := String.prefix "http://" u || String.prefix "https://" u.

(** The latency constraint and [validate_embedding_url_requirement]. *)
Definition config_valid (c : config) : bool :=
  (0 <=? simulate_latency_ms c) &&
  (negb (use_real_embeddings c) ||
   match embedding_server_url c with Some u => negb (String.eqb u "") && is_url u | None => false end).

Record t : Type := Qdrant {
  _config : config;
  _snapshots : list (string * ModelMemorySnapshot);
  _embeddings : list (string * vector);
  _initialized : bool;
  _embedding_client : bool;   (** it is not [None] *)
}.

Definition new (c : config) : t := Qdrant c [] [] false false.

(** The configuration of the client requires a positive dimension. *)
Definition initialize : M t unit := fun s =>
  let c := _config s in
  if _initialized s then (Ok tt, s)
  else if use_real_embeddings c then
    match embedding_server_url c with
    | None | Some EmptyString =>
        (Raise (ValueError "embedding_server_url is required when use_real_embeddings=True"), s)
    | Some u =>
        if negb (is_url u) then
          (Raise (ValueError ("embedding_server_url must be a valid HTTP(S) URL, got: " +:+ py_repr u)), s)
        else if embedding_dimension c <=? 0 then (Raise (OtherException "ValidationError" ""), s)
        else (Ok tt, Qdrant c (_snapshots s) (_embeddings s) true true)
    end
  else (Ok tt, Qdrant c (_snapshots s) (_embeddings s) true (_embedding_client s)).

Definition shutdown : M t unit := fun s =>
  (Ok tt, if _initialized s then Qdrant (_config s) [] [] false false else s).

Definition clear (s : t) : t := Qdrant (_config s) [] [] (_initialized s) (_embedding_client s).

Section handler.
(** [hashlib.sha256(text).digest()], as bytes, and the embedding client. *)
Context (sha256 : text -> list Z) (client : text -> res vector).

Definition _text_to_mock_embedding (c : config) (x : text) : res vector :=
  let text_hash := sha256 x in
  let embedding := (fun i => float_ratio (nth (i mod length text_hash) text_hash 0 mod 100) 100) <$>
    seq 0 (Z.to_nat (embedding_dimension c)) in
  match math_sqrt (float_sum ((fun x => float_mul x x) <$> embedding)) with
  | Raise e => Raise e
  | Ok norm => Ok ((fun x => if SFltb zero norm then float_div x norm else zero) <$> embedding)
  end.

Definition _generate_mock_embedding (c : config) (s : ModelMemorySnapshot) : res vector :=
  let parts := match subject s with Some (key, _) => truthy_text key | None => [] end ++ tags s in
  _text_to_mock_embedding c (lower_text (join_space parts)).

(** One turn of the loop of [seed_snapshots]. *)
Definition seed_snapshot (embeddings : list (string * vector)) (s : ModelMemorySnapshot) : M t unit :=
  fun q =>
    if no_id s then (Ok tt, q)
    else
      let key := snapshot_id s in
      let snapshots := dict_set key s (_snapshots q) in
      let embed v := (Ok tt, Qdrant (_config q) snapshots (dict_set key v (_embeddings q))
                               (_initialized q) (_embedding_client q)) in
      match dict_find key embeddings with
      | Some v => embed v
      | None =>
          match _generate_mock_embedding (_config q) s with
          | Ok v => embed v
          | Raise e => (Raise e, Qdrant (_config q) snapshots (_embeddings q) (_initialized q)
                                   (_embedding_client q))
          end
      end.

Fixpoint seed_snapshots (snapshots : list ModelMemorySnapshot) (embeddings : list (string * vector))
    : M t unit :=
  match snapshots with
  | [] => ret tt
  | s :: snapshots => do! seed_snapshot embeddings s; seed_snapshots snapshots embeddings
  end.

Definition _get_embedding (x : text) (s : t) : res vector :=
  if _embedding_client s then client x else _text_to_mock_embedding (_config s) x.

Definition _cosine_similarity (a b : vector) : res spec_float :=
  let n := Nat.min (length a) (length b) in
  let a := take n a in
  let b := take n b in
  let dot_product := float_sum (zip_with float_mul a b) in
  match math_sqrt (float_sum ((fun x => float_mul x x) <$> a)),
        math_sqrt (float_sum ((fun x => float_mul x x) <$> b)) with
  | Ok magnitude_a, Ok magnitude_b =>
      if SFeqb magnitude_a zero || SFeqb magnitude_b zero then Ok zero
      else
        match true_div dot_product (float_mul magnitude_a magnitude_b) with
        | Ok similarity => Ok (max0 (min1 similarity))
        | Raise e => Raise e
        end
  | Raise e, _ | _, Raise e => Raise e
  end.

(** The snapshots at least as similar as required, in the order stored. *)
Fixpoint scan (query : vector) (threshold : spec_float) (embeddings : list (string * vector))
    : res (list (string * spec_float)) :=
  match embeddings with
  | [] => Ok []
  | (key, v) :: embeddings =>
      match _cosine_similarity query v with
      | Raise e => Raise e
      | Ok similarity =>
          match scan query threshold embeddings with
          | Raise e => Raise e
          | Ok l => Ok (if SFleb threshold similarity then (key, similarity) :: l else l)
          end
      end
  end.

Definition to_result (s : t) (r : string * spec_float) : res ModelSearchResult :=
  match stored (_snapshots s) r.1 with
  | Ok snap => make_result snap r.2 (Some (float_sub one r.2)) None
  | Raise e => Raise e
  end.

Definition search (q : ModelMemoryRetrievalRequest) (query : vector) (s : t)
    : res ModelMemoryRetrievalResponse :=
  match scan query (similarity_threshold q) (_embeddings s) with
  | Raise e => Raise e
  | Ok scored =>
      match top (limit q) scored with
      | [] => Ok (nothing (Some query) None)
      | scored =>
          match collect (to_result s) scored with
          | Raise e => Raise e
          | Ok rs => Ok (found_results rs (Some query))
          end
      end
  end.

Definition execute (q : ModelMemoryRetrievalRequest) : M t ModelMemoryRetrievalResponse :=
  do! initialize;
  match req_operation q with
  | op_search => fun s =>
      match query_embedding q, query_text q with
      | Some query, _ => (search q query s, s)
      | None, Some x =>
          (match _get_embedding x s with Ok query => search q query s | Raise e => Raise e end, s)
      | None, None =>
          (Ok (failed ("HandlerQdrantMock: Either query_text or query_embedding required for operation '" +:+
             operation_value (req_operation q) +:+ "'")), s)
      end
  | o => ret (failed ("HandlerQdrantMock: Only supports 'search', got '" +:+ operation_value o +:+ "'"))
  end.

End handler.
End QdrantMock.

(** ** The text back end *)

Module DbMock.

Record config : Type := Config { simulate_latency_ms : Z; case_sensitive : bool }.

Record t : Type := Db {
  _config : config;
  _snapshots : list (string * ModelMemorySnapshot);
  _initialized : bool;
}.

Definition new (c : config) : t := Db c [] false.
Definition initialize : M t unit := modify (fun s => Db (_config s) (_snapshots s) true).
Definition shutdown : M t unit := modify (fun s => if _initialized s then Db (_config s) [] false else s).
Definition clear (s : t) : t := Db (_config s) [] (_initialized s).

Definition seed_snapshots (snapshots : list ModelMemorySnapshot) (s : t) : t :=
  Db (_config s)
    (fold_left (fun d x => if no_id x then d else dict_set (snapshot_id x) x d) snapshots (_snapshots s))
    (_initialized s).

Definition MIN_TOKEN_LENGTH : nat := 2.

(** The pieces between runs of other characters, with the one read so far. *)
Fixpoint pieces (word x : text) : list text :=
  match x with
  | [] => [word]
  | c :: x => if word_char c then pieces (word ++ [c]) x else word :: pieces [] x
  end.

(** [re.split(r"[^\w]+", text)] gives these but for empty ones, which the
    length excludes. *)
Definition _tokenize (x : text) : list text :=
  filter (fun w => (MIN_TOKEN_LENGTH <= length w)%nat) (pieces [] x).

(** [t in s] *)
Definition within_text (t s : text) : bool := match index s t 0 with Some _ => true | None => false end.

Definition _get_snapshot_text (c : config) (s : ModelMemorySnapshot) : text :=
  let subject_parts := match subject s with Some (key, type) => truthy_text key ++ truthy_text type | None => [] end in
  let combined := join_space (subject_parts ++ tags s ++ [of_string (snapshot_id s)]) in
  if case_sensitive c then combined else lower_text combined.

(** What one search term adds: to the score, and to the terms matched. *)
Definition term_score (x : text) (tokens : list text) (term : text) : option spec_float :=
  if bool_decide (term ∈ tokens) then Some two
  else if existsb (within_text term) tokens then Some one
  else if within_text term x then Some half
  else None.

Definition add_term (x : text) (tokens : list text) (acc : spec_float * Z) (term : text) : spec_float * Z :=
  match term_score x tokens term with
  | Some v => (float_add acc.1 v, acc.2 + 1)
  | None => acc
  end.

Definition _compute_text_score (c : config) (s : ModelMemorySnapshot) (terms : list text) : spec_float :=
  match terms with
  | [] => zero
  | _ =>
      let x := _get_snapshot_text c s in
      let (score, matched_terms) := fold_left (add_term x (_tokenize x)) terms (zero, 0) in
      float_mul score (float_add one (float_ratio matched_terms (Z.of_nat (length terms))))
  end.

(** Metadata filters always pass. *)
Definition _matches_filters (s : ModelMemorySnapshot) (q : ModelMemoryRetrievalRequest) : bool :=
  match req_tags q with
  | Some ((_ :: _) as ts) => existsb (fun tag => bool_decide (tag ∈ tags s)) ts
  | _ => true
  end.

Definition search_terms (c : config) (x : text) : list text :=
  _tokenize (if case_sensitive c then x else lower_text x).

Definition scored (q : ModelMemoryRetrievalRequest) (terms : list text) (s : t) : list (string * spec_float) :=
  omap (fun e =>
    let score := _compute_text_score (_config s) e.2 terms in
    if SFltb zero score && _matches_filters e.2 q then Some (e.1, score) else None) (_snapshots s).

(** [score / max_score] for each, when the first is positive. *)
Definition normalize (l : list (string * spec_float)) : list (string * spec_float) :=
  match l with
  | [] => []
  | (_, max_score) :: _ =>
      if SFltb zero max_score then (fun r => (r.1, float_div r.2 max_score)) <$> l else l
  end.

Definition to_result (s : t) (r : string * spec_float) : res ModelSearchResult :=
  match stored (_snapshots s) r.1 with
  | Ok snap => make_result snap r.2 None None
  | Raise e => Raise e
  end.

Definition search (q : ModelMemoryRetrievalRequest) (x : text) (s : t) : res ModelMemoryRetrievalResponse :=
  match normalize (top (limit q) (scored q (search_terms (_config s) x) s)) with
  | [] => Ok (nothing None None)
  | l => match collect (to_result s) l with
         | Ok rs => Ok (found_results rs None)
         | Raise e => Raise e
         end
  end.

Definition execute (q : ModelMemoryRetrievalRequest) : M t ModelMemoryRetrievalResponse :=
  do! initialize;
  match req_operation q with
  | op_search_text => fun s =>
      match query_text q with
      | Some x => (search q x s, s)
      | None =>
          (Ok (failed ("HandlerDbMock: query_text is required for operation '" +:+
             operation_value (req_operation q) +:+ "'")), s)
      end
  | o => ret (failed ("HandlerDbMock: Only supports 'search_text', got '" +:+ operation_value o +:+ "'"))
  end.

End DbMock.

(** ** Proofs: ranking and building results *)

(** The [n] best of the candidates, best first. *)
Definition best_of {A} (n : Z) (candidates chosen : list (A * spec_float)) : Prop :=
  exists rest, candidates ≡ₚ chosen ++ rest /\ StronglySorted (better snd) chosen /\
    (forall x y, x ∈ chosen -> y ∈ rest -> better snd x y) /\
    Z.of_nat (length chosen) <= n /\ (rest <> [] -> Z.of_nat (length chosen) = n).

Lemma top_best {A} n (l : list (A * spec_float)) :
  0 <= n -> Forall (fun x => number x.2) l -> best_of n l (top n l).
Proof.
  intros Hn Hl. destruct (take_best snd (Z.to_nat n) l Hl) as (rest & Hp & Hs & Hb & Hr).
  exists rest. unfold top. split_and!; try done.
  - rewrite length_take. lia.
  - intros H. rewrite Hr by done. lia.
Qed.

Lemma best_of_elem {A} n (l chosen : list (A * spec_float)) x : best_of n l chosen -> x ∈ chosen -> x ∈ l.
Proof. intros (rest & Hp & _) Hx. rewrite Hp, elem_of_app. by left. Qed.

Lemma collect_Ok {A B} (f : A -> res B) l : Forall (fun x => is_Ok (f x)) l ->
  exists ys, collect f l = Ok ys /\ Forall2 (fun x y => f x = Ok y) l ys.
Proof.
  induction 1 as [|x l [y Hy] _ (ys & IH & Hys)]; [by exists []|].
  exists (y :: ys). simpl. rewrite Hy, IH. split; [done|by constructor].
Qed.

Lemma collect_inv {A B} (f : A -> res B) l ys : collect f l = Ok ys -> Forall2 (fun x y => f x = Ok y) l ys.
Proof.
  revert ys. induction l as [|x l IH]; intros ys H; simpl in H; [by simplify_eq|].
  destruct (f x) as [y|] eqn:Ef; [|done]. destruct (collect f l) as [ys'|]; [|done]. simplify_eq.
  constructor; auto.
Qed.

Lemma make_result_Ok s sc d p r : make_result s sc d p = Ok r ->
  unit_float sc = true /\ r = SearchResult s sc d p.
Proof. unfold make_result. destruct (unit_float sc); [by intros [= <-]|done]. Qed.

(** Snapshots stored under their identifiers. *)
Definition keyed (d : list (string * ModelMemorySnapshot)) : Prop :=
  NoDup d.*1 /\ Forall (fun e => snapshot_id e.2 = e.1) d.

Lemma keyed_set s d : keyed d -> keyed (dict_set (snapshot_id s) s d).
Proof.
  intros [Hn Hf]. split; [by apply dict_set_NoDup|]. clear Hn.
  induction Hf as [|[k v] d Hk Hf IH]; simpl; [by repeat constructor|].
  destruct (String.eqb k _); by constructor.
Qed.

Lemma keyed_stored d k : keyed d -> k ∈ d.*1 -> exists s, stored d k = Ok s /\ snapshot_id s = k.
Proof.
  intros [Hn Hf] Hk. unfold stored. apply dict_find_keys in Hk as [s Hs]. exists s. rewrite Hs.
  split; [done|]. apply dict_find_elem in Hs; [|done]. rewrite Forall_forall in Hf. by apply (Hf (k, s)).
Qed.

(** ** Proofs: the vector back end *)

Module QdrantFacts.
Import QdrantMock.

Record wf (s : t) : Prop := {
  wf_keyed : keyed (_snapshots s);
  wf_embeddings : NoDup (_embeddings s).*1;
  wf_covered : forall k, k ∈ (_embeddings s).*1 -> k ∈ (_snapshots s).*1;
}.

Section proofs.
Context (sha256 : text -> list Z) (client : text -> res vector).

Lemma wf_new c : wf (new c).
Proof. split; simpl; [split; [constructor|done]|constructor|done]. Qed.

Lemma wf_clear s : wf (clear s).
Proof. split; simpl; [split; [constructor|done]|constructor|done]. Qed.

Lemma seed_snapshot_wf embeddings s q : wf q -> wf (seed_snapshot sha256 embeddings s q).2.
Proof.
  intros [Hk He Hc]. unfold seed_snapshot. destruct (no_id s); [done|].
  assert (H : forall v, wf (Qdrant (_config q) (dict_set (snapshot_id s) s (_snapshots q))
    (dict_set (snapshot_id s) v (_embeddings q)) (_initialized q) (_embedding_client q))).
  { intros v. split; simpl; [by apply keyed_set|by apply dict_set_NoDup|].
    intros k. rewrite !dict_set_keys. intros [->|H]; auto. }
  destruct (dict_find _ embeddings); [apply H|].
  destruct (_generate_mock_embedding _ _ _); [apply H|].
  split; simpl; [by apply keyed_set|done|]. intros k Hin. apply dict_set_keys. auto.
Qed.

Lemma seed_snapshots_wf l embeddings q : wf q -> wf (seed_snapshots sha256 l embeddings q).2.
Proof.
  revert q. induction l as [|s l IH]; intros q Hq; simpl; [done|]. unfold bind.
  pose proof (seed_snapshot_wf embeddings s q Hq) as H.
  destruct (seed_snapshot _ _ _ _) as [[[]|e] q']; [by apply IH|done].
Qed.

Lemma cosine_unit a b x : _cosine_similarity a b = Ok x -> at_most 0 x.
Proof.
  unfold _cosine_similarity. destruct (math_sqrt _) as [ma|]; [|done]. destruct (math_sqrt _) as [mb|]; [|done].
  destruct (_ || _); [intros [= <-]; done|].
  unfold true_div. destruct (is_zero _); [done|]. intros [= <-]. apply clamp10_at_most, float_div_sized.
Qed.

(** What a stored embedding has to be for the query. *)
Definition similar (query : vector) (threshold : spec_float) (r : string * spec_float)
    (e : string * vector) : Prop :=
  r.1 = e.1 /\ _cosine_similarity query e.2 = Ok r.2 /\ SFleb threshold r.2 = true.

Lemma scan_spec query threshold embeddings : Forall (fun e => is_Ok (_cosine_similarity query e.2)) embeddings ->
  exists l, scan query threshold embeddings = Ok l /\
    l.*1 `sublist_of` embeddings.*1 /\
    forall r, r ∈ l <-> exists e, e ∈ embeddings /\ similar query threshold r e.
Proof.
  induction 1 as [|[k v] embeddings [sim Hsim] _ (l & IH & Hsub & Hl)]; simpl.
  { exists []. split_and!; [done|constructor|]. intros r. rewrite elem_of_nil. split; [done|].
    intros (e & He & _). by apply elem_of_nil in He. }
  simpl in Hsim. rewrite Hsim, IH. eexists. split; [done|].
  destruct (SFleb threshold sim) eqn:E; (split; [by constructor|]); intros r.
  - rewrite elem_of_cons, Hl. split.
    + intros [->|(e & He & Hs)]; [exists (k, v); split; [left|done]|exists e; split; [by right|done]].
    + intros (e & He & Hs). apply elem_of_cons in He as [->|He]; [left|right; by exists e].
      destruct r as [j x], Hs as (H1 & H2 & _). simpl in *. congruence.
  - rewrite Hl. split.
    + intros (e & He & Hs). exists e. split; [by right|done].
    + intros (e & He & Hs). apply elem_of_cons in He as [->|He]; [|by exists e].
      destruct Hs as (_ & H2 & H3). simpl in H2. rewrite Hsim in H2. simplify_eq. congruence.
Qed.

(** A search by embedding, when the similarity of every
    stored embedding to the query can be computed, returns the [limit] best
    of the snapshots whose similarity reaches the threshold, best first, each
    once, with the similarity as score and its complement as distance. *)
Theorem vector_search (q : ModelMemoryRetrievalRequest) (query : vector) (s : t) :
  wf s -> request_valid q = true ->
  Forall (fun e => is_Ok (_cosine_similarity query e.2)) (_embeddings s) ->
  exists chosen candidates r, search q query s = Ok r /\
    best_of (limit q) candidates chosen /\
    NoDup candidates.*1 /\
    (forall c, c ∈ candidates <-> exists e, e ∈ _embeddings s /\
       similar query (similarity_threshold q) c e) /\
    Forall2 (fun c x => snapshot_id (snapshot x) = c.1 /\ stored (_snapshots s) c.1 = Ok (snapshot x) /\
      score x = c.2 /\ unit_float c.2 = true /\ distance x = Some (float_sub one c.2)) chosen (results r) /\
    (resp_status r = success <-> chosen <> []) /\ (resp_status r = no_results <-> chosen = []).
Proof.
  unfold request_valid. intros Hw Hq Hall. breflect.
  destruct (scan_spec query (similarity_threshold q) (_embeddings s) Hall) as (cands & Hscan & Hsub & Hc).
  assert (Hunit : Forall (fun c => at_most 0 c.2) cands).
  { apply Forall_forall. intros c Hin. apply Hc in Hin as (e & _ & _ & Hcos & _). by eapply cosine_unit. }
  assert (Hbest : best_of (limit q) cands (top (limit q) cands)).
  { apply top_best; [lia|]. eapply Forall_impl; [exact Hunit|]. intros c. apply below_number. }
  exists (top (limit q) cands), cands. unfold search. rewrite Hscan.
  assert (Hok : Forall (fun c => exists x, to_result s c = Ok x /\ snapshot_id (snapshot x) = c.1 /\
    stored (_snapshots s) c.1 = Ok (snapshot x) /\ score x = c.2 /\ unit_float c.2 = true /\
    distance x = Some (float_sub one c.2)) (top (limit q) cands)).
  { apply Forall_forall. intros c Hin. apply (best_of_elem _ _ _ _ Hbest) in Hin.
    rewrite Forall_forall in Hunit. specialize (Hunit c Hin). apply at_most_unit in Hunit.
    apply Hc in Hin as (e & He & Hk & _).
    destruct (keyed_stored (_snapshots s) c.1 (wf_keyed _ Hw)) as (snap & Hst & Hid).
    { rewrite Hk. apply (wf_covered _ Hw). apply list_elem_of_fmap. by exists e. }
    unfold to_result, make_result. rewrite Hst, Hunit. by eexists. }
  assert (Hnd : NoDup cands.*1) by (eapply sublist_NoDup; [apply wf_embeddings, Hw|done]).
  revert Hbest Hok. destruct (top (limit q) cands) as [|c cs]; intros Hbest Hok.
  - eexists. split; [done|]. split_and!; try done.
  - destruct (collect_Ok (to_result s) (c :: cs)) as (rs & -> & Hrs).
    { eapply Forall_impl; [exact Hok|]. intros x (y & Hy & _). by exists y. }
    eexists. split; [done|]. split_and!; try done. simpl.
    clear Hbest. revert Hok. induction Hrs as [|x y l rs Hx _ IH]; intros Hok; [constructor|].
    apply Forall_cons in Hok as [(y' & Hy' & Hprops) Hok]. constructor; [|by apply IH].
    assert (y = y') as -> by congruence. done.
Qed.
End proofs.
End QdrantFacts.

(** ** Proofs: the text back end *)

Module DbFacts.
Import DbMock.

(** Words, and the pieces of a text that are their runs. *)
Definition all_word (x : text) : Prop := Forall (fun c => word_char c = true) x.

(** A run of word characters lies within one piece. *)
Lemma pieces_run t : all_word t -> t <> [] ->
  forall a b word, exists u v, (u ++ t ++ v) ∈ pieces word (a ++ t ++ b) /\ all_word t.
Proof.
  intros Ht Hne. assert (Hin : forall t' b word, all_word t' -> exists v, (word ++ t' ++ v) ∈ pieces word (t' ++ b)).
  { intros t' b. induction t' as [|c t' IH]; intros word Hw.
    - simpl. clear. revert word. induction b as [|d b IH]; intros word; simpl.
      + exists []. rewrite app_nil_r. by left.
      + destruct (word_char d); [|exists []; rewrite app_nil_r; by left].
        destruct (IH (word ++ [d])) as [v Hv]. exists (d :: v). by rewrite <- app_assoc in Hv.
    - apply Forall_cons in Hw as [Hc Hw]. simpl. rewrite Hc.
      destruct (IH (word ++ [c]) Hw) as [v Hv]. exists v. by rewrite <- app_assoc in Hv. }
  intros a b. induction a as [|c a IH]; intros word; simpl.
  - destruct (Hin t b word Ht) as [v Hv]. by exists word, v.
  - destruct (word_char c); [by apply IH|]. destruct (IH []) as (u & v & Huv & _).
    exists u, v. split; [by right|done].
Qed.

Lemma find_from_spec pos t s : is_Some (find_from pos t s) <-> exists a b, s = a ++ t ++ b.
Proof.
  revert pos. induction s as [|c s IH]; intros pos; simpl; destruct (starts_with t _) eqn:E.
  - apply starts_with_spec in E as [r Hr]. split; [intros _; by exists [], r|by eexists].
  - split; [by intros [? [=]]|]. intros (a & b & H). symmetry in H. apply app_nil in H as [-> H].
    assert (starts_with t [] = true); [|congruence]. apply starts_with_spec. by exists b.
  - apply starts_with_spec in E as [r Hr]. split; [intros _; by exists [], r|by eexists].
  - rewrite IH. split; [intros (a & b & ->); by exists (c :: a), b|].
    intros ([|d a] & b & H); simpl in H; [|simplify_eq; by exists a, b].
    assert (starts_with t (c :: s) = true); [|congruence]. apply starts_with_spec. by exists b.
Qed.

Lemma within_text_spec t s : within_text t s = true <-> exists a b, s = a ++ t ++ b.
Proof.
  unfold within_text, index. rewrite drop_0, <- (find_from_spec 0). destruct (find_from 0 t s).
  - split; [by eexists|done].
  - split; [done|]. by intros [? [=]].
Qed.

(** A term that occurs in a text occurs in one of its tokens: the third
    clause of the score never applies. *)
Lemma substring_in_token term x :
  all_word term -> (MIN_TOKEN_LENGTH <= length term)%nat -> within_text term x = true ->
  existsb (within_text term) (_tokenize x) = true.
Proof.
  intros Hw Hl (a & b & ->)%within_text_spec.
  destruct (pieces_run term Hw ltac:(destruct term; simpl in Hl; [unfold MIN_TOKEN_LENGTH in Hl; lia|done]) a b [])
    as (u & v & Huv & _).
  apply existsb_exists. exists (u ++ term ++ v). split.
  - apply list_elem_of_In. unfold _tokenize. apply list_elem_of_filter. split; [|done].
    rewrite !length_app. lia.
  - apply within_text_spec. by exists u, v.
Qed.

Lemma pieces_all_word word x w : all_word word -> w ∈ pieces word x -> all_word w.
Proof.
  revert word. induction x as [|c x IH]; intros word Hw; simpl.
  - by intros ->%list_elem_of_singleton.
  - destruct (word_char c) eqn:E; [apply IH; apply Forall_app; by repeat constructor|].
    rewrite elem_of_cons. intros [->|H]; [done|]. revert H. apply IH. constructor.
Qed.

Lemma tokens_are_words x w : w ∈ _tokenize x -> all_word w /\ (MIN_TOKEN_LENGTH <= length w)%nat.
Proof.
  unfold _tokenize. rewrite list_elem_of_filter. intros [Hl Hw]. split; [|done].
  eapply pieces_all_word; [|exact Hw]. constructor.
Qed.

(** What a term of a query adds is two for a token, one for a part of one. *)
Lemma term_score_cases query term x : term ∈ _tokenize query ->
  term_score x (_tokenize x) term =
    if bool_decide (term ∈ _tokenize x) then Some two
    else if within_text term x then Some one else None.
Proof.
  intros (Hw & Hl)%tokens_are_words. unfold term_score. case_bool_decide; [done|].
  destruct (within_text term x) eqn:E; [by rewrite substring_in_token|].
  destruct (existsb _ _) eqn:Ee; [|done]. exfalso.
  apply existsb_exists in Ee as (tok & Hin & Ht). apply list_elem_of_In in Hin.
  unfold _tokenize in Hin. apply list_elem_of_filter in Hin as [_ Hin].
  apply within_text_spec in Ht as (a & b & ->). assert (within_text term x = true); [|congruence].
  apply within_text_spec. clear -Hin.
  assert (H : forall x word, (a ++ term ++ b) ∈ pieces word x -> exists u v, word ++ x = u ++ term ++ v).
  { clear. induction x as [|c x IH]; intros word; simpl.
    - intros <-%list_elem_of_singleton. exists a, b. by rewrite app_nil_r.
    - destruct (word_char c).
      + intros (u & v & H)%IH. exists u, v. by rewrite <- app_assoc in H.
      + rewrite elem_of_cons. intros [<-|(u & v & H)%IH].
        * exists a, (b ++ c :: x). by rewrite <- !app_assoc.
        * exists (word ++ c :: u), v. simpl in H. rewrite H. by rewrite <- app_assoc. }
  by apply (H x []).
Qed.

(** The scores are canonical doubles of a known size. *)
Definition sized_score (n : nat) (x : spec_float) : Prop := canonical x /\ below (8 * Z.of_nat n) (-1) x.

Lemma term_value x tokens term v : term_score x tokens term = Some v -> canonical v /\ below 4 (-1) v.
Proof.
  assert (H : Forall (fun v => canonical v /\ below 4 (-1) v) [two; one; half])
    by (repeat constructor; vm_compute; done).
  rewrite Forall_forall in H. unfold term_score.
  intros E. apply H. destruct (bool_decide _); [simplify_eq; by left|].
  destruct (existsb _ _); [simplify_eq; right; by left|].
  destruct (within_text _ _); [simplify_eq; right; right; by left|done].
Qed.

Lemma add_terms x tokens terms : forall n score matched, Z.of_nat (n + length terms) < 2 ^ 50 ->
  canonical score -> below (4 * Z.of_nat n) (-1) score -> 0 <= matched <= Z.of_nat n ->
  let r := fold_left (add_term x tokens) terms (score, matched) in
  canonical r.1 /\ below (4 * Z.of_nat (n + length terms)) (-1) r.1 /\ 0 <= r.2 <= Z.of_nat (n + length terms).
Proof.
  induction terms as [|term terms IH]; intros n score matched Hn Hc Hb Hm;
    [simpl; by rewrite Nat.add_0_r|].
  cbn [length fold_left] in *. replace (n + S (length terms))%nat with (S n + length terms)%nat in * by lia.
  assert (Hstep : add_term x tokens (score, matched) term = match term_score x tokens term with
    | Some v => (float_add score v, matched + 1) | None => (score, matched) end) by done.
  rewrite Hstep. destruct (term_score x tokens term) as [v|] eqn:E.
  - apply term_value in E as [Hcv Hbv]. apply (IH (S n)); [done|by apply float_add_canonical| |simpl; lia].
    apply (float_add_below (4 * Z.of_nat n) (-1) 4 (-1)); try done; try lia; simpl; lia.
  - apply (IH (S n)); [done|done| |simpl; lia]. eapply below_mono; [exact Hb|lia|]. simpl. lia.
Qed.

Lemma text_score_sized c s terms : Z.of_nat (length terms) < 2 ^ 50 ->
  sized_score (length terms) (_compute_text_score c s terms).
Proof.
  intros Hn. unfold sized_score, _compute_text_score. destruct terms as [|t ts]; [done|].
  set (x := _get_snapshot_text c s).
  pose proof (add_terms x (_tokenize x) (t :: ts) 0 zero 0 Hn I I ltac:(lia)) as H.
  destruct (fold_left _ _ _) as [score matched]. simpl in H. destruct H as (Hc & Hb & Hm).
  set (n := Z.of_nat (length (t :: ts))) in *.
  assert (Hr : at_most 0 (float_ratio matched n)) by (apply float_ratio_unit; cbn [length Nat.add] in *; lia).
  assert (Hone : at_most 0 one) by (vm_compute; done).
  assert (Hadd : at_most 1 (float_add one (float_ratio matched n))) by by apply (float_add_at_most 0).
  split; [apply float_mul_canonical; [done|apply float_add_one_canonical]|].
  eapply (float_mul_below (4 * n) (-1) (2 ^ 52) (-51)); [exact Hb|exact Hadd|lia| |lia|done].
  replace (-1 - (-1 + -51)) with 51 by lia. lia.
Qed.

Lemma scored_keys q terms s : (scored q terms s).*1 `sublist_of` (_snapshots s).*1.
Proof.
  unfold scored. induction (_snapshots s) as [|[k v] d IH]; simpl; [constructor|].
  destruct (_ && _); simpl; by constructor.
Qed.

Lemma scored_elem q terms s c : c ∈ scored q terms s <->
  exists e, e ∈ _snapshots s /\ c = (e.1, _compute_text_score (_config s) e.2 terms) /\
    SFltb zero (_compute_text_score (_config s) e.2 terms) = true /\ _matches_filters e.2 q = true.
Proof.
  unfold scored. rewrite list_elem_of_omap. split; intros (e & He & H); exists e; split; try done.
  - destruct (SFltb _ _), (_matches_filters _ _); simplify_eq/=; done.
  - destruct H as (-> & -> & ->). done.
Qed.

(** C37: a text search returns the [limit] best of the stored
    snapshots that match a term of the query and the tags, best first, each
    once; the scores returned are those of the ranking divided by the best
    one, and lie between zero and one. It never fails. *)
Theorem text_search (q : ModelMemoryRetrievalRequest) (x : text) (s : t) :
  keyed (_snapshots s) -> request_valid q = true ->
  Z.of_nat (length (search_terms (_config s) x)) < 2 ^ 50 ->
  exists chosen candidates r, search q x s = Ok r /\
    best_of (limit q) candidates chosen /\
    NoDup candidates.*1 /\
    (forall c, c ∈ candidates <-> exists e, e ∈ _snapshots s /\
       c = (e.1, _compute_text_score (_config s) e.2 (search_terms (_config s) x)) /\
       SFltb zero c.2 = true /\ _matches_filters e.2 q = true) /\
    Forall2 (fun c y => snapshot_id (snapshot y) = c.1 /\ stored (_snapshots s) c.1 = Ok (snapshot y) /\
      (exists best, head chosen = Some best /\ score y = float_div c.2 best.2) /\
      unit_float (score y) = true) chosen (results r) /\
    (resp_status r = success <-> chosen <> []) /\ (resp_status r = no_results <-> chosen = []).
Proof.
  unfold request_valid. intros Hk Hq Hterms. breflect.
  set (terms := search_terms _ x) in *. set (cands := scored q terms s).
  assert (Hsized : Forall (fun c => sized_score (length terms) c.2 /\ SFltb zero c.2 = true /\
    c.1 ∈ (_snapshots s).*1) cands).
  { apply Forall_forall. intros c (e & He & -> & Hpos & _)%scored_elem. simpl.
    split_and!; [by apply text_score_sized|done|]. apply list_elem_of_fmap. by exists e. }
  assert (Hbest : best_of (limit q) cands (top (limit q) cands)).
  { apply top_best; [lia|]. eapply Forall_impl; [exact Hsized|]. intros c ((_ & Hb) & _). by apply below_number in Hb. }
  assert (Hel : forall c, c ∈ cands <-> exists e, e ∈ _snapshots s /\
    c = (e.1, _compute_text_score (_config s) e.2 terms) /\ SFltb zero c.2 = true /\ _matches_filters e.2 q = true).
  { intros c. unfold cands. rewrite scored_elem. split; intros (e & He & -> & H'); by exists e. }
  exists (top (limit q) cands), cands. unfold search. fold terms. fold cands.
  assert (Hnd : NoDup cands.*1) by (eapply sublist_NoDup; [apply Hk|apply scored_keys]).
  assert (Hch : Forall (fun c => sized_score (length terms) c.2 /\ SFltb zero c.2 = true /\
    c.1 ∈ (_snapshots s).*1) (top (limit q) cands)).
  { apply Forall_forall. intros c Hin. rewrite Forall_forall in Hsized. apply Hsized.
    by apply (best_of_elem _ _ _ _ Hbest). }
  revert Hbest Hch. destruct (top (limit q) cands) as [|[bk best] cs]; intros Hbest Hch.
  { eexists. split; [done|]. split_and!; done. }
  unfold normalize. pose proof Hch as [(Hbs & Hpos & _) _]%Forall_cons. simpl in Hbs, Hpos. rewrite Hpos.
  set (l := (bk, best) :: cs) in *.
  assert (Hle : Forall (fun c => SFleb c.2 best = true) l).
  { destruct Hbest as (rest & _ & Hs & _). apply StronglySorted_inv in Hs as [_ Hs].
    constructor; [apply SFleb_refl; destruct Hbs as [_ Hb]; by apply below_number in Hb|exact Hs]. }
  assert (Hok : Forall (fun c => exists y, to_result s (c.1, float_div c.2 best) = Ok y /\
    snapshot_id (snapshot y) = c.1 /\ stored (_snapshots s) c.1 = Ok (snapshot y) /\
    (exists b, Some (bk, best) = Some b /\ score y = float_div c.2 b.2) /\ unit_float (score y) = true) l).
  { apply Forall_forall. intros c Hin. rewrite Forall_forall in Hch, Hle.
    destruct (Hch c Hin) as ((Hcc & Hcb) & _ & Hkey). destruct Hbs as [Hbc Hbb].
    pose proof (float_div_unit c.2 best _ _ Hcc Hbc Hcb Hbb Hpos (Hle c Hin)) as Hunit%at_most_unit.
    destruct (keyed_stored _ _ Hk Hkey) as (snap & Hst & Hid).
    unfold to_result, make_result. simpl. rewrite Hst, Hunit.
    eexists. split; [done|]. split_and!; try done. by exists (bk, best). }
  set (f := fun r : string * spec_float => (r.1, float_div r.2 best)).
  destruct (collect_Ok (to_result s) (f <$> l)) as (rs & Hcol & Hrs).
  { apply Forall_fmap. eapply Forall_impl; [exact Hok|]. intros c (y & Hy & _). by exists y. }
  exists (found_results rs None). split.
  { assert (Hne : f <$> l <> []) by done. destruct (f <$> l); [done|]. by rewrite Hcol. }
  split_and!; try done. simpl. clear Hcol Hbest Hch Hle. clearbody l.
  revert rs Hrs Hok. induction l as [|c l IH]; intros rs Hrs Hok.
  - by apply Forall2_nil_inv_l in Hrs as ->.
  - apply Forall2_cons_inv_l in Hrs as (y & rs' & Hy & Hrs & ->).
    apply Forall_cons in Hok as [(y' & Hy' & Hprops) Hok]. constructor; [|by apply IH].
    change (to_result s (f c) = Ok y') in Hy'. assert (y = y') as -> by congruence. exact Hprops.
Qed.
End DbFacts.

(** ** Concrete inputs *)

Module RetrievalDemo.

Definition zeros (_ : text) : list Z := repeat 7 32.
Definition no_client (_ : text) : res vector := Raise (OtherException "EmbeddingConnectionError" "").
Definition snap (id key : string) (ts : list string) : ModelMemorySnapshot :=
  Snapshot id (Some (Some (of_string key), None)) (of_string <$> ts).
Definition ask (o : operation) (x : string) (query : option vector) (n : Z) : ModelMemoryRetrievalRequest :=
  Request o (Some (of_string x)) query (Some "s1") n half 2 None None None.
Definition v (l : list Z) : vector := float_of_Z <$> l.

Definition memories : list ModelMemorySnapshot :=
  [snap "s1" "login error" []; snap "s2" "login page" ["error-log"]; snap "s3" "weather" []].

Definition qdrant : QdrantMock.t :=
  (QdrantMock.seed_snapshots zeros memories [("s1", v [1; 0]); ("s2", v [3; 4]); ("s3", v [0; 1])]
     (QdrantMock.new (QdrantMock.Config 2 0 false None))).2.
Definition db : DbMock.t := DbMock.seed_snapshots memories (DbMock.new (DbMock.Config 0 false)).

Definition ranking (r : res ModelMemoryRetrievalResponse) : list string :=
  match r with Ok r => snapshot_id ∘ snapshot <$> results r | Raise _ => ["raised"] end.

Example vector_ranking :
  ranking (QdrantMock.execute zeros no_client (ask op_search "" (Some (v [1; 0])) 10) qdrant).1 = ["s1"; "s2"].
Proof. vm_compute. reflexivity. Qed.
Example text_ranking :
  ranking (DbMock.execute (ask op_search_text "Error login" None 10) db).1 = ["s1"; "s2"].
Proof. vm_compute. reflexivity. Qed.
Example text_tags :
  ranking (DbMock.execute (Request op_search_text (Some (of_string "login")) None None 10 half 2 None None
    (Some [of_string "error-log"])) db).1 = ["s2"].
Proof. vm_compute. reflexivity. Qed.
(** Without an embedding the digest of the text decides. *)
Example mock_embedding :
  ranking (QdrantMock.execute zeros no_client (ask op_search "anything" None 10)
    (QdrantMock.seed_snapshots zeros memories [] (QdrantMock.new (QdrantMock.Config 2 0 false None))).2).1 =
  ["s1"; "s2"; "s3"].
Proof. vm_compute. reflexivity. Qed.

(** A query that is not a number is as similar as can be to everything. *)
Example nan_query : ranking (QdrantMock.execute zeros no_client
    (ask op_search "" (Some [S754_nan; zero]) 10) qdrant).1 = ["s1"; "s2"; "s3"].
Proof. vm_compute. reflexivity. Qed.

(** A term given twice counts twice, which changes the ranking. *)
Definition two_docs : DbMock.t :=
  DbMock.seed_snapshots [snap "a" "red blue" []; snap "b" "green tree" []] (DbMock.new (DbMock.Config 0 false)).
Example repeated_term :
  (ranking (DbMock.execute (ask op_search_text "red green tree" None 10) two_docs).1,
   ranking (DbMock.execute (ask op_search_text "red red red green tree" None 10) two_docs).1) =
  (["b"; "a"], ["a"; "b"]).
Proof. vm_compute. reflexivity. Qed.

Lemma qdrant_wf : QdrantFacts.wf qdrant.
Proof. apply QdrantFacts.seed_snapshots_wf, QdrantFacts.wf_new. Qed.

Lemma vector_search_witness :
  exists (chosen candidates : list (string * spec_float)) r,
    QdrantMock.search (ask op_search "" (Some (v [1; 0])) 1) (v [1; 0]) qdrant = Ok r /\
    best_of 1 candidates chosen /\ length (results r) = length chosen.
Proof.
  destruct (QdrantFacts.vector_search (ask op_search "" (Some (v [1; 0])) 1) (v [1; 0]) qdrant)
    as (chosen & cands & r & Hr & Hb & _ & _ & Hf & _).
  - apply QdrantFacts.seed_snapshots_wf, QdrantFacts.wf_new.
  - vm_compute. reflexivity.
  - assert (H : forallb (fun e => match QdrantMock._cosine_similarity (v [1; 0]) e.2 with Ok _ => true | _ => false end)
      (QdrantMock._embeddings qdrant) = true) by (vm_compute; reflexivity).
    rewrite forallb_forall in H. apply Forall_forall. intros e He%list_elem_of_In. specialize (H e He).
    destruct (QdrantMock._cosine_similarity _ _) as [x|]; [by exists x|done].
  - exists chosen, cands, r. split; [exact Hr|]. split; [exact Hb|]. symmetry. exact (Forall2_length _ _ _ Hf).
Defined.

Lemma text_search_witness :
  exists (chosen : list (string * spec_float)) r, DbMock.search (ask op_search_text "" None 1) (of_string "Error login") db = Ok r /\
    length chosen = 1%nat /\ length (results r) = length chosen.
Proof.
  destruct (DbFacts.text_search (ask op_search_text "" None 1) (of_string "Error login") db)
    as (chosen & cands & r & Hr & Hb & _ & _ & Hf & _).
  - split; [by apply (bool_decide_unpack _); vm_compute|by repeat constructor].
  - vm_compute. reflexivity.
  - vm_compute. reflexivity.
  - exists chosen, r. split; [exact Hr|]. split; [|symmetry; exact (Forall2_length _ _ _ Hf)].
    assert (E : results (match DbMock.search (ask op_search_text "" None 1) (of_string "Error login") db with
      Ok r => r | Raise _ => failed "" end) = results r) by (by rewrite Hr).
    apply Forall2_length in Hf. rewrite Hf, <- E. vm_compute. reflexivity.
Defined.
End RetrievalDemo.
