(* ===== verification/Traversal.v ===== *)
(** * Memory retrieval: the graph back end and the handler

    Models [HandlerGraphMock] (src/src/omnimemory/nodes/
    node_memory_retrieval_effect/handlers/handler_graph_mock.py, module
    [GraphMock]), a breadth-first search over relationships, and
    [HandlerMemoryRetrieval] (handlers/handler_memory_retrieval.py, module
    [Handler]), which sends a request to the back end of its operation and
    turns exceptions into responses. *)

From Stdlib Require Import SpecFloat.
From S2P Require Import Prelude Text Floats FloatOrder Retrieval.

Open Scope Z_scope.

(** ** The graph back end *)

Module GraphMock.

Record config : Type := Config {
  simulate_latency_ms : Z;
  max_traversal_depth : Z;
  bidirectional : bool;
}.

Definition config_valid (c : config) : bool := (0 <=? simulate_latency_ms c) && (1 <=? max_traversal_depth c).

Record HandlerGraphRelationship : Type := Relationship {
  source_id : string;
  target_id : string;
  relationship_type : string;
  weight : spec_float;
}.

(** A neighbour: target, type, weight. *)
Definition neighbour : Type := string * string * spec_float.

Record t : Type := Graph {
  _config : config;
  _snapshots : list (string * ModelMemorySnapshot);
  _relationships : list HandlerGraphRelationship;
  _adjacency : list (string * list neighbour);
  _initialized : bool;
}.

Definition new (c : config) : t := Graph c [] [] [] false.
Definition initialize : M t unit :=
  modify (fun s => Graph (_config s) (_snapshots s) (_relationships s) (_adjacency s) true).
Definition shutdown : M t unit :=
  modify (fun s => if _initialized s then Graph (_config s) [] [] [] false else s).
Definition clear (s : t) : t := Graph (_config s) [] [] [] (_initialized s).

(** [if key not in d: d[key] = []] *)
Definition ensure (k : string) (d : list (string * list neighbour)) : list (string * list neighbour) :=
  match dict_find k d with Some _ => d | None => dict_set k [] d end.

(** [d[key].append(...)] after that. *)
Definition append_neighbour (k : string) (n : neighbour) (d : list (string * list neighbour))
    : list (string * list neighbour) :=
  dict_set k (default [] (dict_find k (ensure k d)) ++ [n]) (ensure k d).

Definition seed_snapshot (s : t) (x : ModelMemorySnapshot) : t :=
  if no_id x then s
  else Graph (_config s) (dict_set (snapshot_id x) x (_snapshots s)) (_relationships s)
         (ensure (snapshot_id x) (_adjacency s)) (_initialized s).
Definition seed_snapshots (snapshots : list ModelMemorySnapshot) (s : t) : t :=
  fold_left seed_snapshot snapshots s.

Definition add_relationship (source target type : string) (w : spec_float) (s : t) : t :=
  let adjacency := append_neighbour source (target, type, w) (_adjacency s) in
  Graph (_config s) (_snapshots s) (_relationships s ++ [Relationship source target type w])
    (if bidirectional (_config s) then append_neighbour target (source, type, w) adjacency else adjacency)
    (_initialized s).

(** An entry of the queue. *)
Record entry : Type := Entry {
  current_id : string;
  depth : nat;
  e_path : list string;
  cum_weight : spec_float;
}.

(** [allowed_types and rel_type not in allowed_types] *)
Definition filtered (allowed_types : option (list string)) (type : string) : bool :=
  match allowed_types with
  | Some ((_ :: _) as types) => negb (bool_decide (type ∈ types))
  | _ => false
  end.

(** The loop over the neighbours of an entry. *)
Fixpoint explore (allowed : option (list string)) (e : entry) (ns : list neighbour)
    (visited : list string) (queue : list entry) : list string * list entry :=
  match ns with
  | [] => (visited, queue)
  | (target, type, w) :: ns =>
      if bool_decide (target ∈ visited) || filtered allowed type then explore allowed e ns visited queue
      else explore allowed e ns (target :: visited)
             (queue ++ [Entry target (S (depth e)) (e_path e ++ [target]) (float_mul (cum_weight e) w)])
  end.

Definition neighbours (s : t) (k : string) : list neighbour := default [] (dict_find k (_adjacency s)).

(** [cum_weight * (1.0 / (depth + 1))], then [min(1.0, score)]. *)
Definition path_score (e : entry) : spec_float :=
  min1 (float_mul (cum_weight e) (float_ratio 1 (Z.of_nat (depth e) + 1))).

(** What an entry adds to the results. *)
Definition result_of (s : t) (start : string) (e : entry) : res (list ModelSearchResult) :=
  if bool_decide (current_id e = start) then Ok []
  else
    match dict_find (current_id e) (_snapshots s) with
    | None => Ok []
    | Some snap =>
        match make_result snap (path_score e) None (Some (e_path e)) with
        | Ok r => Ok [r]
        | Raise x => Raise x
        end
    end.

Section traverse.
Context (s : t) (start : string) (max_depth : nat) (allowed : option (list string)) (limit : Z).

(** The loop of [_traverse_bfs], up to the sort. *)
Fixpoint bfs (fuel : nat) (queue : list entry) (visited : list string) (acc : list ModelSearchResult)
    : option (res (list ModelSearchResult)) :=
  match fuel with
  | O => None
  | S fuel =>
      match queue with
      | [] => Some (Ok acc)
      | e :: queue =>
          if negb (Z.of_nat (length acc) <? limit) then Some (Ok acc)
          else
            match result_of s start e with
            | Raise x => Some (Raise x)
            | Ok rs =>
                if (max_depth <=? depth e)%nat then bfs fuel queue visited (acc ++ rs)
                else
                  let (visited, queue) := explore allowed e (neighbours s (current_id e)) visited queue in
                  bfs fuel queue visited (acc ++ rs)
            end
      end
  end.

(** Every iteration takes one entry, and a node is entered at most once. *)
Definition targets : list string := mjoin ((fun d => (fun n => n.1.1) <$> d.2) <$> _adjacency s).
Definition fuel : nat := S (S (length targets)).

Definition _traverse_bfs : res (list ModelSearchResult) :=
  match bfs fuel [Entry start 0 [start] one] [start] [] with
  | Some (Ok rs) => Ok (sort_best score rs)
  | Some (Raise x) => Raise x
  | None => Raise (OtherException "OutOfFuel" "")
  end.
End traverse.

Definition types_of (q : ModelMemoryRetrievalRequest) : option (list string) :=
  match relationship_types q with Some ((_ :: _) as ts) => Some ts | _ => None end.

Definition max_depth (q : ModelMemoryRetrievalRequest) (s : t) : nat :=
  Z.to_nat (Z.min (traversal_depth q) (max_traversal_depth (_config s))).

Definition search (q : ModelMemoryRetrievalRequest) (start : string) (s : t) : res ModelMemoryRetrievalResponse :=
  match dict_find start (_snapshots s) with
  | None =>
      Ok (nothing None (Some ("HandlerGraphMock: Start snapshot '" +:+ start +:+ "' not found for operation '" +:+
        operation_value (req_operation q) +:+ "'")))
  | Some _ =>
      match _traverse_bfs s start (max_depth q s) (types_of q) (limit q) with
      | Raise e => Raise e
      | Ok [] => Ok (nothing None None)
      | Ok rs => Ok (found_results rs None)
      end
  end.

Definition execute (q : ModelMemoryRetrievalRequest) : M t ModelMemoryRetrievalResponse :=
  do! initialize;
  match req_operation q with
  | op_search_graph => fun s =>
      match req_snapshot_id q with
      | Some start => (search q start s, s)
      | None =>
          (Ok (failed ("HandlerGraphMock: snapshot_id is required for operation '" +:+
             operation_value (req_operation q) +:+ "'")), s)
      end
  | o => ret (failed ("HandlerGraphMock: Only supports 'search_graph', got '" +:+ operation_value o +:+ "'"))
  end.

End GraphMock.

(** ** The handler *)

Module Handler.

Record config : Type := Config {
  qdrant_config : bool;   (** it is not [None] *)
  qdrant_mock_config : QdrantMock.config;
  db_config : DbMock.config;
  graph_config : GraphMock.config;
  use_stub_handlers : bool;
}.

Definition config_valid (c : config) : bool :=
  (use_stub_handlers c || qdrant_config c) && QdrantMock.config_valid (qdrant_mock_config c) &&
  (0 <=? DbMock.simulate_latency_ms (db_config c)) && GraphMock.config_valid (graph_config c).

Record t : Type := Retrieval {
  _config : config;
  _qdrant_handler : option QdrantMock.t;
  _db_handler : option DbMock.t;
  _graph_handler : option GraphMock.t;
  _initialized : bool;
}.

Definition new (c : config) : t := Retrieval c None None None false.

(** The three handlers are started together; those of the texts and the graph
    cannot fail. When one does fail the new handlers are kept. *)
Definition initialize : M t unit := fun h =>
  if _initialized h then (Ok tt, h)
  else
    let c := _config h in
    if use_stub_handlers c then
      let (r, q) := QdrantMock.initialize (QdrantMock.new (qdrant_mock_config c)) in
      let d := (DbMock.initialize (DbMock.new (db_config c))).2 in
      let g := (GraphMock.initialize (GraphMock.new (graph_config c))).2 in
      (r, Retrieval c (Some q) (Some d) (Some g) match r with Ok _ => true | Raise _ => false end)
    else
      (Raise (OtherException "NotImplementedError"
         "Production handlers not yet implemented. Set use_stub_handlers=True"), h).

Definition not_initialized : exn := RuntimeError "Handler not initialized. Call initialize() first.".

Section handler.
Context (sha256 : text -> list Z) (client : text -> res vector).

Definition seed_snapshots (snapshots : list ModelMemorySnapshot) (embeddings : list (string * vector))
    : M t unit := fun h =>
  if negb (_initialized h) then (Raise not_initialized, h)
  else
    let (r, q) :=
      match _qdrant_handler h with
      | Some q => let (r, q) := QdrantMock.seed_snapshots sha256 snapshots embeddings q in (r, Some q)
      | None => (Ok tt, None)
      end in
    match r with
    | Raise e => (Raise e, Retrieval (_config h) q (_db_handler h) (_graph_handler h) (_initialized h))
    | Ok _ =>
        (Ok tt, Retrieval (_config h) q (DbMock.seed_snapshots snapshots <$> _db_handler h)
                  (GraphMock.seed_snapshots snapshots <$> _graph_handler h) (_initialized h))
    end.

Definition add_graph_relationship (source target type : string) (w : spec_float) : M t unit := fun h =>
  if negb (_initialized h) then (Raise not_initialized, h)
  else
    match _graph_handler h with
    | None => (Raise (RuntimeError "Graph handler not available"), h)
    | Some g => (Ok tt, Retrieval (_config h) (_qdrant_handler h) (_db_handler h)
                          (Some (GraphMock.add_relationship source target type w g)) (_initialized h))
    end.

Definition clear : M t unit := fun h =>
  if negb (_initialized h) then (Raise not_initialized, h)
  else (Ok tt, Retrieval (_config h) (QdrantMock.clear <$> _qdrant_handler h) (DbMock.clear <$> _db_handler h)
                 (GraphMock.clear <$> _graph_handler h) (_initialized h)).

(** A back end's [execute], on its part of the handler. *)
Definition on_part {P A} (part : t -> option P) (put : P -> t -> t) (absent : M t A) (m : M P A) : M t A := fun h =>
  match part h with
  | None => absent h
  | Some p => let (r, p) := m p in (r, put p h)
  end.

Definition unavailable (name : string) (q : ModelMemoryRetrievalRequest) : M t ModelMemoryRetrievalResponse :=
  ret (failed ("HandlerMemoryRetrieval: " +:+ name +:+ " handler not available for operation '" +:+
    operation_value (req_operation q) +:+ "'")).

Definition dispatch (q : ModelMemoryRetrievalRequest) : M t ModelMemoryRetrievalResponse :=
  match req_operation q with
  | op_search =>
      on_part _qdrant_handler
        (fun p h => Retrieval (_config h) (Some p) (_db_handler h) (_graph_handler h) (_initialized h))
        (unavailable "Qdrant" q) (QdrantMock.execute sha256 client q)
  | op_search_text =>
      on_part _db_handler
        (fun p h => Retrieval (_config h) (_qdrant_handler h) (Some p) (_graph_handler h) (_initialized h))
        (unavailable "Database" q) (DbMock.execute q)
  | op_search_graph =>
      on_part _graph_handler
        (fun p h => Retrieval (_config h) (_qdrant_handler h) (_db_handler h) (Some p) (_initialized h))
        (unavailable "Graph" q) (GraphMock.execute q)
  end.

Definition execute (q : ModelMemoryRetrievalRequest) : M t ModelMemoryRetrievalResponse :=
  do! initialize;
  try_except (dispatch q) (fun e =>
    if is_Exception e then
      Some (ret (failed ("HandlerMemoryRetrieval: Retrieval failed: " +:+ exn_str e +:+ " for operation '" +:+
        operation_value (req_operation q) +:+ "'")))
    else None).

Definition shutdown : M t unit := fun h =>
  (Ok tt, if _initialized h then Retrieval (_config h) None None None false else h).

End handler.
End Handler.

(** ** Proofs: the breadth-first search *)

Module GraphFacts.
Import GraphMock.

Section search.
Context (s : t) (start : string) (D : nat) (allowed : option (list string)).

(** A relationship the search may follow. *)
Definition edge (u v : string) (w : spec_float) : Prop :=
  exists type, (v, type, w) ∈ neighbours s u /\ filtered allowed type = false.

(** A way from the start: its length, end, nodes and weight. *)
Inductive route : nat -> string -> list string -> spec_float -> Prop :=
  | route_start : route 0 start [start] one
  | route_step n u v p w w' : route n u p w -> edge u v w' -> route (S n) v (p ++ [v]) (float_mul w w').

Definition reach (n : nat) (v : string) : Prop := exists p w, route n v p w.

(** The shortest of them. *)
Definition entry_ok (e : entry) : Prop :=
  route (depth e) (current_id e) (e_path e) (cum_weight e) /\
  (forall n, reach n (current_id e) -> (depth e <= n)%nat) /\ (depth e <= D)%nat.

Lemma route_length n v p w : route n v p w -> length p = S n.
Proof. induction 1; [done|]. rewrite length_app. simpl. lia. Qed.

Lemma neighbours_target u v type w : (v, type, w) ∈ neighbours s u -> v ∈ targets s.
Proof.
  unfold neighbours, targets. induction (_adjacency s) as [|[k ns] d IH]; simpl; [by intros ?%elem_of_nil|].
  destruct (String.eqb k u); simpl; rewrite elem_of_app; [|auto].
  intros H. left. apply list_elem_of_fmap. by exists (v, type, w).
Qed.

Lemma route_target n v p w : route n v p w -> v ∈ start :: targets s.
Proof. destruct 1 as [|n u v p w w' _ (type & H & _)]; [left|right]. by eapply neighbours_target. Qed.

(** What the loop over the neighbours adds to the queue. *)
Definition child_of (e : entry) (v : string) (w : spec_float) : entry :=
  Entry v (S (depth e)) (e_path e ++ [v]) (float_mul (cum_weight e) w).

Lemma explore_spec e ns : forall visited queue visited' queue',
  explore allowed e ns visited queue = (visited', queue') ->
  exists new, queue' = queue ++ new /\
    Forall (fun c => exists v type w, (v, type, w) ∈ ns /\ filtered allowed type = false /\
      v ∉ visited /\ c = child_of e v w) new /\
    NoDup (current_id <$> new) /\
    (forall x, x ∈ visited' <-> x ∈ visited \/ x ∈ current_id <$> new) /\
    (forall v type w, (v, type, w) ∈ ns -> filtered allowed type = false -> v ∈ visited').
Proof.
  induction ns as [|[[v type] w] ns IH]; intros visited queue visited' queue' H; simpl in H.
  { simplify_eq. exists []. split_and!; [by rewrite app_nil_r|constructor|constructor| |].
    - intros x. rewrite elem_of_nil. tauto.
    - intros v type w Hin. by apply elem_of_nil in Hin. }
  destruct (bool_decide (v ∈ visited) || filtered allowed type) eqn:E.
  - destruct (IH _ _ _ _ H) as (new & -> & Hnew & Hnd & Hv & Hall). exists new.
    split_and!; [done| |done|done|].
    + eapply Forall_impl; [exact Hnew|]. intros c (v' & ty & w' & Hin & Hrest). exists v', ty, w'. split; [by right|done].
    + intros v' ty w' [Heq|Hin]%elem_of_cons Hf; [|by eapply Hall]. simplify_eq. apply Hv. left.
      rewrite Hf, orb_false_r in E. by apply bool_decide_eq_true in E.
  - destruct (IH _ _ _ _ H) as (new & -> & Hnew & Hnd & Hv & Hall).
    apply orb_false_iff in E as [Hvis Hf]. apply bool_decide_eq_false in Hvis.
    exists (child_of e v w :: new). split_and!.
    + by rewrite <- app_assoc.
    + constructor; [exists v, type, w; split_and!; try done; by left|].
      eapply Forall_impl; [exact Hnew|]. intros c (v' & ty & w' & Hin & Hf' & Hn & Hc).
      exists v', ty, w'. split_and!; try done; [by right|]. intros Hx. apply Hn. by right.
    + simpl. constructor; [|done]. intros (c & Hc & Hin)%list_elem_of_fmap.
      rewrite Forall_forall in Hnew. destruct (Hnew c Hin) as (v' & ty & w' & _ & _ & Hn & ->).
      simpl in Hc. subst. apply Hn. by left.
    + intros x. rewrite Hv. simpl. rewrite !elem_of_cons. tauto.
    + intros v' ty w' [Heq|Hin]%elem_of_cons Hf'; [|by eapply Hall]. simplify_eq. apply Hv. left. by left.
Qed.

(** The state of the search: the entries taken, in order, and the queue. *)
Record inv (done queue : list entry) (visited : list string) : Prop := {
  inv_nodup : NoDup (current_id <$> done ++ queue);
  inv_visited : forall x, x ∈ visited <-> x ∈ current_id <$> done ++ queue;
  inv_ok : Forall entry_ok (done ++ queue);
  inv_sorted : StronglySorted (fun a b => depth a <= depth b)%nat (done ++ queue);
  inv_window : forall a b, a ∈ queue -> b ∈ queue -> (depth b <= S (depth a))%nat;
  inv_closed : forall e v w, e ∈ done -> (depth e < D)%nat -> edge (current_id e) v w -> v ∈ visited;
  inv_start : start ∈ visited;
}.

Lemma inv_first : inv [] [Entry start 0 [start] one] [start].
Proof.
  split; simpl.
  - apply NoDup_singleton.
  - done.
  - repeat constructor; simpl; lia.
  - repeat constructor.
  - intros a b ->%list_elem_of_singleton ->%list_elem_of_singleton. simpl. lia.
  - intros e v w H. by apply elem_of_nil in H.
  - by left.
Qed.

(** A node that the search may reach and has not seen lies behind the queue. *)
Lemma frontier done queue visited n v p w : inv done queue visited -> route n v p w -> (n <= D)%nat ->
  v ∉ visited -> exists e, e ∈ queue /\ (depth e < n)%nat.
Proof.
  intros Hi. induction 1 as [|n u v p w w' Hr IH He]; intros Hn Hv; [by destruct (Hv (inv_start _ _ _ Hi))|].
  destruct (decide (u ∈ visited)) as [Hu|Hu].
  - apply (inv_visited _ _ _ Hi) in Hu. apply list_elem_of_fmap in Hu as (e & -> & Hin).
    pose proof (inv_ok _ _ _ Hi) as Hok. rewrite Forall_forall in Hok.
    destruct (Hok e Hin) as (_ & Hmin & _). specialize (Hmin n ltac:(by exists p, w)).
    apply elem_of_app in Hin as [Hin|Hin]; [|exists e; split; [done|lia]].
    destruct Hv. eapply (inv_closed _ _ _ Hi); [exact Hin|lia|exact He].
  - destruct (IH ltac:(lia) Hu) as (e & Hin & Hlt). exists e. split; [done|lia].
Qed.

Lemma inv_head_least done e queue visited x : inv done (e :: queue) visited -> x ∈ e :: queue ->
  (depth e <= depth x)%nat.
Proof.
  intros Hi. pose proof (inv_sorted _ _ _ Hi) as Hs. apply StronglySorted_app in Hs as (_ & _ & Hs).
  apply StronglySorted_inv in Hs as [_ Hs]. rewrite elem_of_cons. intros [->|Hx]; [done|].
  rewrite Forall_forall in Hs. by apply Hs.
Qed.

(** Taking an entry that is not expanded. *)
Lemma inv_take done e queue visited : (D <= depth e)%nat ->
  inv done (e :: queue) visited -> inv (done ++ [e]) queue visited.
Proof.
  intros HD [Hn Hv Ho Hs Hw Hc Hst]. split; rewrite <- ?app_assoc; try done.
  - intros a b Ha Hb. apply Hw; by right.
  - intros x v w [Hx| ->%list_elem_of_singleton]%elem_of_app Hlt; [by apply Hc|lia].
Qed.

(** Taking an entry and queueing its neighbours. *)
Lemma inv_expand done e queue visited visited' queue' : (depth e < D)%nat ->
  inv done (e :: queue) visited ->
  explore allowed e (neighbours s (current_id e)) visited queue = (visited', queue') ->
  inv (done ++ [e]) queue' visited'.
Proof.
  intros HD Hi He. pose proof Hi as [Hn Hv Ho Hs Hw Hc Hst].
  destruct (explore_spec _ _ _ _ _ _ He) as (new & -> & Hnew & Hnd & Hvis & Hall).
  assert (Happ : (done ++ [e]) ++ queue ++ new = (done ++ e :: queue) ++ new) by (by rewrite <- !app_assoc).
  rewrite Forall_forall in Ho, Hnew.
  assert (Hdepth : forall c, c ∈ new -> depth c = S (depth e)).
  { intros c Hin. by destruct (Hnew c Hin) as (v & ty & w & _ & _ & _ & ->). }
  destruct (Ho e ltac:(apply elem_of_app; right; by left)) as (Hroute & _ & _).
  split; rewrite ?Happ.
  - rewrite fmap_app. apply NoDup_app. split_and!; [done| |done].
    intros x Hx (c & -> & Hin)%list_elem_of_fmap. destruct (Hnew c Hin) as (v & ty & w & _ & _ & Hnv & ->).
    apply Hnv. by apply Hv.
  - intros x. rewrite Hvis, Hv, !fmap_app, !elem_of_app. tauto.
  - apply Forall_app. split; [by apply Forall_forall|]. apply Forall_forall. intros c Hin.
    destruct (Hnew c Hin) as (v & ty & w & Hnb & Hf & Hnv & ->). unfold entry_ok. simpl. split_and!; [|..|lia].
    + apply (route_step _ (current_id e)); [done|by exists ty].
    + intros n (p & w0 & Hr). destruct (decide (S (depth e) <= n)%nat); [done|exfalso].
      destruct (frontier _ _ _ _ _ _ _ Hi Hr ltac:(lia) Hnv) as (x & Hx & Hlt).
      pose proof (inv_head_least _ _ _ _ x Hi Hx). lia.
  - apply StronglySorted_app. split_and!; [|done|].
    + intros a c Ha Hin. rewrite (Hdepth c Hin). apply elem_of_app in Ha as [Ha|Ha].
      * apply StronglySorted_app in Hs as (Hs & _ & _). specialize (Hs a e Ha ltac:(by left)). lia.
      * pose proof (Hw e a ltac:(by left) Ha). lia.
    + clear -Hdepth. induction new as [|c new IH]; [constructor|]. constructor.
      * apply IH. intros x Hx. apply Hdepth. by right.
      * apply Forall_forall. intros x Hx. rewrite (Hdepth x), (Hdepth c); [lia|by left|by right].
  - intros a b [Ha|Ha]%elem_of_app [Hb|Hb]%elem_of_app.
    + apply Hw; by right.
    + rewrite (Hdepth b Hb). pose proof (inv_head_least _ _ _ _ a Hi ltac:(by right)). lia.
    + rewrite (Hdepth a Ha). pose proof (Hw e b ltac:(by left) ltac:(by right)). lia.
    + rewrite (Hdepth a Ha), (Hdepth b Hb). lia.
  - intros x v w [Hx| ->%list_elem_of_singleton]%elem_of_app Hlt Hedge.
    + apply Hvis. left. by eapply Hc.
    + destruct Hedge as (ty & Hin & Hf). by eapply Hall.
  - apply Hvis. by left.
Qed.

(** The search enters a node at most once, so that the queue runs dry. *)
Lemma inv_bound done queue visited : inv done queue visited ->
  (length (done ++ queue) <= S (length (targets s)))%nat.
Proof.
  intros Hi. rewrite <- (length_fmap current_id).
  apply (submseteq_length _ (start :: targets s)), NoDup_submseteq; [apply Hi|].
  intros x (e & -> & Hin)%list_elem_of_fmap. pose proof (inv_ok _ _ _ Hi) as Hok.
  rewrite Forall_forall in Hok. destruct (Hok e Hin) as (Hr & _). by eapply route_target.
Qed.

(** The entries that give a result, and the result. *)
Definition hit (e : entry) : Prop := current_id e <> start /\ is_Some (dict_find (current_id e) (_snapshots s)).
#[local] Instance hit_dec e : Decision (hit e).
Proof. unfold hit. apply _. Defined.

Definition shown (e : entry) (r : ModelSearchResult) : Prop :=
  exists snap, dict_find (current_id e) (_snapshots s) = Some snap /\
    r = SearchResult snap (path_score e) None (Some (e_path e)) /\ at_most 0 (path_score e).

(** Weights lie in the unit interval. *)
Hypothesis weights : forall u v w, edge u v w -> at_most 0 w.

Lemma float_mul_unit x y : at_most 0 x -> at_most 0 y -> at_most 0 (float_mul x y).
Proof. intros Hx Hy. eapply float_mul_below; [exact Hx|exact Hy|done|by vm_compute|done|done]. Qed.

Lemma route_weight n v p w : route n v p w -> at_most 0 w.
Proof using weights.
  induction 1 as [|n u v p w w' _ IH He]; [by vm_compute|]. apply float_mul_unit; [done|by eapply weights].
Qed.

Lemma path_score_unit e : Z.of_nat (depth e) < 2 ^ 50 -> at_most 0 (cum_weight e) -> at_most 0 (path_score e).
Proof.
  intros Hd Hw. unfold path_score, min1. destruct (SFltb _ one); [|by vm_compute].
  apply float_mul_unit; [done|]. apply float_ratio_unit; lia.
Qed.

Lemma result_of_shown e : entry_ok e -> Z.of_nat D < 2 ^ 50 ->
  exists rs, result_of s start e = Ok rs /\ Forall2 shown (filter hit [e]) rs /\ (length rs <= 1)%nat.
Proof using weights.
  intros (Hr & _ & HD) Hsmall. unfold result_of. rewrite filter_cons, filter_nil.
  case_bool_decide as Hst; [exists []; split_and!; [done| |simpl; lia]; rewrite decide_False; [done|]; intros [Hne _]; by destruct Hne|].
  destruct (dict_find _ _) as [snap|] eqn:Ef; [|exists []; split_and!; [done| |simpl; lia];
    rewrite decide_False; [done|]; intros [_ [? He]]; congruence].
  pose proof (path_score_unit e ltac:(lia) (route_weight _ _ _ _ Hr)) as Hu.
  unfold make_result. rewrite (at_most_unit _ Hu). eexists. split_and!; [done| |done].
  rewrite decide_True by (split; [done|by eexists]). repeat constructor. by exists snap.
Qed.

Lemma bfs_spec limit fuel : Z.of_nat D < 2 ^ 50 -> forall done queue visited acc,
  inv done queue visited -> Forall2 shown (filter hit done) acc -> Z.of_nat (length acc) <= limit ->
  (S (S (length (targets s))) <= length done + fuel)%nat ->
  exists done' queue' visited' acc', bfs s start D allowed limit fuel queue visited acc = Some (Ok acc') /\
    inv done' queue' visited' /\ Forall2 shown (filter hit done') acc' /\ Z.of_nat (length acc') <= limit /\
    (queue' <> [] -> Z.of_nat (length acc') = limit).
Proof using weights.
  intros Hsmall. induction fuel as [|fuel IH]; intros done queue visited acc Hi Hacc Hlen Hfuel.
  { pose proof (inv_bound _ _ _ Hi) as Hb. rewrite length_app in Hb. lia. }
  simpl. destruct queue as [|e queue]; [exists done, [], visited, acc; by split_and!|].
  destruct (Z.of_nat (length acc) <? limit) eqn:El; simpl; breflect;
    [|exists done, (e :: queue), visited, acc; split_and!; try done; lia].
  pose proof (inv_ok _ _ _ Hi) as Hok. rewrite Forall_forall in Hok.
  destruct (result_of_shown e (Hok e ltac:(apply elem_of_app; right; by left)) Hsmall) as (rs & -> & Hrs & Hl1).
  assert (Hacc' : Forall2 shown (filter hit (done ++ [e])) (acc ++ rs)) by (rewrite filter_app; by apply Forall2_app).
  assert (Hlen' : Z.of_nat (length (acc ++ rs)) <= limit) by (rewrite length_app; lia).
  destruct (D <=? depth e)%nat eqn:ED.
  - apply Nat.leb_le in ED. apply (IH (done ++ [e])); try done; [by apply inv_take|rewrite length_app; simpl; lia].
  - apply Nat.leb_gt in ED. destruct (explore _ _ _ _ _) as [visited' queue'] eqn:Ex.
    apply (IH (done ++ [e])); try done; [by eapply inv_expand|rewrite length_app; simpl; lia].
Qed.

(** Every node within reach is shown, unless the limit was met by nodes at
    least as near. *)
Lemma inv_complete done queue visited k v : inv done queue visited -> reach k v -> (k <= D)%nat ->
  (exists e, e ∈ done /\ current_id e = v) \/
  (queue <> [] /\ forall e, e ∈ done -> (depth e <= k)%nat).
Proof.
  intros Hi Hk HkD.
  assert (Hlast : forall x, x ∈ queue -> (depth x <= k)%nat -> queue <> [] /\ forall e, e ∈ done -> (depth e <= k)%nat).
  { intros x Hx Hle. split; [by intros ->; apply elem_of_nil in Hx|]. intros e He.
    pose proof (inv_sorted _ _ _ Hi) as Hs. apply StronglySorted_app in Hs as (Hs & _ & _).
    specialize (Hs e x He Hx). lia. }
  destruct (decide (v ∈ visited)) as [Hv|Hv].
  - apply (inv_visited _ _ _ Hi), list_elem_of_fmap in Hv as (e & -> & [Hin|Hin]%elem_of_app); [left; by exists e|right].
    apply (Hlast e Hin). pose proof (inv_ok _ _ _ Hi) as Hok. rewrite Forall_forall in Hok.
    destruct (Hok e ltac:(apply elem_of_app; by right)) as (_ & Hmin & _). by apply Hmin.
  - destruct Hk as (p & w & Hr). destruct (frontier _ _ _ _ _ _ _ Hi Hr HkD Hv) as (x & Hx & Hlt).
    right. apply (Hlast x Hx). lia.
Qed.
End search.
End GraphFacts.

Module GraphSearch.
Import GraphMock GraphFacts.

(** The weights of the relationships are doubles of the unit interval. *)
Definition unit_weight (n : neighbour) : Prop := sized n.2 /\ unit_float n.2 = true.
Definition unit_row (d : string * list neighbour) : Prop := Forall unit_weight d.2.
Definition weights_ok (s : t) : Prop := Forall unit_row (_adjacency s).

Lemma weights_ok_edge s allowed u v w : weights_ok s -> edge s allowed u v w -> at_most 0 w.
Proof.
  intros Hw (type & Hin & _). assert (H : sized w /\ unit_float w = true); [|destruct H; by apply between_at_most].
  revert Hin. unfold neighbours. induction Hw as [|[k ns] d Hns Hd IH]; simpl; [by intros ?%elem_of_nil|].
  destruct (String.eqb k u); simpl; [|exact IH]. intros Hin. unfold unit_row in Hns. rewrite Forall_forall in Hns. exact (Hns _ Hin).
Qed.

(** What a result tells of the way to it. *)
Definition nearest (s : t) (start : string) (D : nat) (allowed : option (list string)) (x : ModelSearchResult)
    : Prop :=
  exists n v p w, route s start allowed n v p w /\ (forall k, reach s start allowed k v -> (n <= k)%nat) /\
    (n <= D)%nat /\ v <> start /\ dict_find v (_snapshots s) = Some (snapshot x) /\
    snapshot_id (snapshot x) = v /\ path x = Some p /\
    score x = min1 (float_mul w (float_ratio 1 (Z.of_nat n + 1))) /\ unit_float (score x) = true.

Section results.
Context (s : t) (start : string) (D : nat) (allowed : option (list string)).
Hypothesis stored_keyed : keyed (_snapshots s).

Lemma shown_id e x : shown s e x -> snapshot_id (snapshot x) = current_id e.
Proof using stored_keyed.
  intros (snap & Hf & -> & _). simpl. destruct stored_keyed as [Hn Hk]. apply dict_find_elem in Hf; [|done].
  rewrite Forall_forall in Hk. by apply (Hk _ Hf).
Qed.

Lemma shown_nearest e x : entry_ok s start D allowed e -> hit s start e -> shown s e x ->
  nearest s start D allowed x.
Proof using stored_keyed.
  intros (Hr & Hmin & HD) [Hne _] Hs. pose proof (shown_id e x Hs) as Hid. destruct Hs as (snap & Hf & -> & Hu).
  exists (depth e), (current_id e), (e_path e), (cum_weight e). split_and!; try done. by apply at_most_unit.
Qed.

Lemma shown_all es acc : Forall (entry_ok s start D allowed) es -> NoDup (current_id <$> es) ->
  Forall2 (shown s) (filter (hit s start) es) acc ->
  Forall (nearest s start D allowed) acc /\ NoDup (snapshot_id ∘ snapshot <$> acc).
Proof using stored_keyed.
  intros Hok Hnd H2. split.
  - apply Forall_forall. intros x (i & Hx)%list_elem_of_lookup.
    destruct (Forall2_lookup_r _ _ _ _ _ H2 Hx) as (e & He & Hs).
    apply list_elem_of_lookup_2, list_elem_of_filter in He as [Hh Hin]. rewrite Forall_forall in Hok.
    by eapply shown_nearest; [apply Hok| |].
  - replace (snapshot_id ∘ snapshot <$> acc) with (current_id <$> filter (hit s start) es).
    + eapply sublist_NoDup; [exact Hnd|]. apply fmap_sublist, sublist_filter.
    + induction H2 as [|e x es' acc Hs _ IH]; simpl; [done|]. f_equal; [|exact IH]. symmetry. by apply shown_id.
Qed.
End results.

(** C36: a search from a stored snapshot, over relationships whose
    weights lie in the unit interval, returns snapshots reached from it by
    relationships of the types asked for: each once, with a shortest way to
    it, the score that its weights give, within the depth asked for and best
    score first. It misses a snapshot within reach only when it has found
    [limit] others at least as near. It always ends, and never fails. *)
Theorem graph_search (q : ModelMemoryRetrievalRequest) (start : string) (s : t) :
  keyed (_snapshots s) -> weights_ok s -> request_valid q = true ->
  is_Some (dict_find start (_snapshots s)) ->
  exists r, search q start s = Ok r /\
    Forall (nearest s start (max_depth q s) (types_of q)) (results r) /\
    NoDup (snapshot_id ∘ snapshot <$> results r) /\
    StronglySorted (better score) (results r) /\
    Z.of_nat (length (results r)) <= limit q /\
    (forall k v snap, reach s start (types_of q) k v -> (k <= max_depth q s)%nat -> v <> start ->
       dict_find v (_snapshots s) = Some snap ->
       (exists x, x ∈ results r /\ snapshot x = snap) \/
       Z.of_nat (length (results r)) = limit q /\
         forall x p, x ∈ results r -> path x = Some p -> (length p <= S k)%nat) /\
    (resp_status r = success <-> results r <> []) /\ (resp_status r = no_results <-> results r = []).
Proof.
  unfold request_valid. intros Hk Hw Hq [snap0 Hst]. breflect.
  set (D := max_depth q s). assert (HD : Z.of_nat D < 2 ^ 50) by (unfold D, max_depth; lia).
  destruct (bfs_spec s start D (types_of q) (fun u v w => weights_ok_edge s _ u v w Hw) (limit q) (fuel s) HD
    [] [Entry start 0 [start] one] [start] []) as (done & queue & visited & acc & Hb & Hi & Hacc & Hlen & Hfull);
    [apply inv_first|constructor|simpl; lia|simpl; unfold fuel; lia|].
  pose proof (inv_ok _ _ _ _ _ _ _ Hi) as [Hok _]%Forall_app.
  pose proof (inv_nodup _ _ _ _ _ _ _ Hi) as Hnd. rewrite fmap_app in Hnd. apply NoDup_app in Hnd as [Hnd _].
  destruct (shown_all s start D (types_of q) Hk done acc Hok Hnd Hacc) as [Hnear Hids].
  pose proof (sort_best_Permutation score acc) as Hp.
  set (rs := sort_best score acc) in *.
  assert (Hsearch : search q start s = Ok (match rs with [] => nothing None None | _ => found_results rs None end)).
  { unfold search, _traverse_bfs. fold D. rewrite Hst, Hb. fold rs. by destruct rs. }
  exists (match rs with [] => nothing None None | _ => found_results rs None end).
  assert (Hres : results (match rs with [] => nothing None None | _ => found_results rs None end) = rs) by by destruct rs.
  rewrite Hres. split_and!; [done|by rewrite Hp|by rewrite Hp| |by rewrite Hp| |by destruct rs|by destruct rs].
  - apply sort_best_sorted. eapply Forall_impl; [exact Hnear|].
    intros x (n & v & p & w & _ & _ & _ & _ & _ & _ & _ & _ & Hu). by destruct (score x).
  - intros k v snap Hr HkD Hne Hf.
    destruct (inv_complete s start D (types_of q) done queue visited k v Hi Hr HkD) as [(e & He & Hv)|[Hq Hle]].
    + left. assert (Hh : e ∈ filter (hit s start) done).
      { apply list_elem_of_filter. split; [|done]. split; [congruence|]. rewrite Hv, Hf. by eexists. }
      apply list_elem_of_lookup in Hh as [i Hh]. destruct (Forall2_lookup_l _ _ _ _ _ Hacc Hh) as (x & Hx & (sn & Hsn & -> & _)).
      exists (SearchResult sn (path_score e) None (Some (e_path e))). rewrite Hp. split; [by eapply list_elem_of_lookup_2|].
      simpl. congruence.
    + right. rewrite Hp. split; [by apply Hfull|]. intros x p Hin Hpath. rewrite Hp in Hin.
      apply list_elem_of_lookup in Hin as [i Hx]. destruct (Forall2_lookup_r _ _ _ _ _ Hacc Hx) as (e & He & (sn & _ & -> & _)).
      apply list_elem_of_lookup_2, list_elem_of_filter in He as [_ Hin]. simpl in Hpath. simplify_eq.
      rewrite Forall_forall in Hok. destruct (Hok e Hin) as (Hroute & _). apply route_length in Hroute. rewrite Hroute.
      specialize (Hle e Hin). lia.
Qed.

(** The stores that the operations build. *)
Lemma keyed_seed xs s : keyed (_snapshots s) -> keyed (_snapshots (seed_snapshots xs s)).
Proof.
  unfold seed_snapshots. revert s. induction xs as [|x xs IH]; intros s Hs; simpl; [done|]. apply IH.
  unfold seed_snapshot. destruct (no_id x); [done|]. by apply keyed_set.
Qed.

Lemma unit_row_set k ns d : Forall unit_weight ns -> Forall unit_row d -> Forall unit_row (dict_set k ns d).
Proof.
  intros Hns. induction 1 as [|[j ms] d Hms Hd IH]; simpl; [by repeat constructor|].
  destruct (String.eqb j k); by constructor.
Qed.

Lemma unit_row_ensure k d : Forall unit_row d -> Forall unit_row (ensure k d).
Proof. intros Hd. unfold ensure. destruct (dict_find k d); [done|]. by apply unit_row_set. Qed.

Lemma unit_row_find k d : Forall unit_row d -> Forall unit_weight (default [] (dict_find k d)).
Proof.
  induction 1 as [|[j ms] d Hms Hd IH]; simpl; [constructor|]. by destruct (String.eqb j k).
Qed.

Lemma unit_row_append k n d : Forall unit_row d -> unit_weight n -> Forall unit_row (append_neighbour k n d).
Proof.
  intros Hd Hn. apply (unit_row_ensure k) in Hd. apply unit_row_set; [|done].
  apply Forall_app. split; [by apply unit_row_find|by apply Forall_singleton].
Qed.

Lemma weights_add a b ty w s : weights_ok s -> sized w -> unit_float w = true ->
  weights_ok (add_relationship a b ty w s).
Proof.
  unfold weights_ok, add_relationship. intros Hs H1 H2. simpl.
  destruct (bidirectional _); [apply unit_row_append; [|done]|]; by apply unit_row_append.
Qed.
End GraphSearch.

(** ** Proofs: the handler answers *)

Module HandlerFacts.
Import Handler.

(** A response as its readers expect it. *)
Definition well_formed (q : ModelMemoryRetrievalRequest) (r : ModelMemoryRetrievalResponse) : Prop :=
  total_count r = Z.of_nat (length (results r)) /\ total_count r <= limit q /\
  Forall (fun x => unit_float (score x) = true) (results r) /\
  match resp_status r with
  | success => results r <> []
  | error => results r = [] /\ is_Some (error_message r)
  | no_results => results r = []
  end.

(** A response that is well formed, or an exception that the handler catches. *)
Definition answers (q : ModelMemoryRetrievalRequest) (r : res ModelMemoryRetrievalResponse) : Prop :=
  match r with Ok r => well_formed q r | Raise e => is_Exception e = true end.

Lemma answers_failed q m : 1 <= limit q -> answers q (Ok (failed m)).
Proof. intros H. unfold answers, well_formed. simpl. split_and!; try done; try lia; by eexists. Qed.

Lemma answers_nothing q u m : 1 <= limit q -> answers q (Ok (nothing u m)).
Proof. intros H. unfold answers, well_formed. simpl. split_and!; try done; try lia. Qed.

Lemma answers_found q u rs : rs <> [] -> Z.of_nat (length rs) <= limit q ->
  Forall (fun x => unit_float (score x) = true) rs -> answers q (Ok (found_results rs u)).
Proof. intros Hne Hl Hu. unfold answers, well_formed. simpl. by split_and!. Qed.

(** Collected results, of a ranking cut at the limit. *)
Lemma answers_collect {A} q (f : A -> res ModelSearchResult) u l :
  l <> [] -> Z.of_nat (length l) <= limit q ->
  (forall x e, f x = Raise e -> is_Exception e = true) ->
  (forall x y, f x = Ok y -> unit_float (score y) = true) ->
  answers q (match collect f l with Ok rs => Ok (found_results rs u) | Raise e => Raise e end).
Proof.
  intros Hne Hl He Hy. destruct (collect f l) as [rs|e] eqn:E.
  - apply collect_inv in E. apply answers_found.
    + intros ->. by apply Forall2_nil_inv_r in E.
    + by rewrite <- (Forall2_length _ _ _ E).
    + apply Forall_forall. intros y (i & Hi)%list_elem_of_lookup.
      destruct (Forall2_lookup_r _ _ _ _ _ E Hi) as (x & _ & Hx). by eapply Hy.
  - revert E. clear -He. induction l as [|x l IH]; simpl; [done|].
    destruct (f x) as [y|e'] eqn:Ef; [|intros [= <-]; by eapply He].
    destruct (collect f l); [done|]. intros [= ->]. by apply IH.
Qed.

Lemma top_length {A} n (l : list (A * spec_float)) : 0 <= n -> Z.of_nat (length (top n l)) <= n.
Proof. intros H. unfold top. rewrite length_take. lia. Qed.

Lemma result_unit (d : list (string * ModelMemorySnapshot)) k sc (dist : option spec_float) (p : option (list string))
    (y : ModelSearchResult) :
  match stored d k with Ok snap => make_result snap sc dist p | Raise e => Raise e end = Ok y ->
  unit_float (score y) = true.
Proof. destruct (stored d k); [|done]. by intros [H ->]%make_result_Ok. Qed.

Lemma result_exception (d : list (string * ModelMemorySnapshot)) k sc (dist : option spec_float)
    (p : option (list string)) e :
  match stored d k with Ok snap => make_result snap sc dist p | Raise e => Raise e end = Raise e ->
  is_Exception e = true.
Proof.
  unfold stored, make_result. destruct (dict_find k d); [|by intros [= <-]].
  destruct (unit_float sc); [done|by intros [= <-]].
Qed.

Section qdrant.
Import QdrantMock.
Context (sha256 : text -> list Z) (client : text -> res vector).
Hypothesis client_exceptions : forall x e, client x = Raise e -> is_Exception e = true.

Lemma math_sqrt_exception x e : Similarity.math_sqrt x = Raise e -> is_Exception e = true.
Proof. destruct x as [[]|[]| |[] m ex]; simpl; by intros [= <-]. Qed.

Lemma cosine_exception a b e : _cosine_similarity a b = Raise e -> is_Exception e = true.
Proof.
  unfold _cosine_similarity. destruct (Similarity.math_sqrt _) eqn:E1; [|intros [= <-]; by eapply math_sqrt_exception].
  destruct (Similarity.math_sqrt (float_sum (_ <$> take _ b))) eqn:E2; [|intros [= <-]; by eapply math_sqrt_exception].
  destruct (_ || _); [done|]. unfold Similarity.true_div. destruct (Similarity.is_zero _); [by intros [= <-]|done].
Qed.

Lemma scan_exception query th es e : scan query th es = Raise e -> is_Exception e = true.
Proof.
  induction es as [|[k v] es IH]; simpl; [done|].
  destruct (_cosine_similarity query v) eqn:E; [|intros [= <-]; by eapply cosine_exception].
  destruct (scan query th es); [done|exact IH].
Qed.

Lemma qdrant_search_answers q query s : 1 <= limit q -> answers q (search q query s).
Proof.
  intros Hl. unfold search. destruct (scan _ _ _) as [l|e] eqn:Es; [|simpl; by eapply scan_exception].
  pose proof (top_length (limit q) l ltac:(lia)) as Htop.
  destruct (top (limit q) l) as [|c cs]; [by apply answers_nothing|].
  apply answers_collect; [done|done| |]; intros x y; unfold to_result.
  - apply result_exception.
  - apply result_unit.
Qed.

Lemma qdrant_answers q s : request_valid q = true -> _initialized s = true ->
  exists r, execute sha256 client q s = (r, s) /\ answers q r.
Proof using client_exceptions.
  unfold request_valid, execute, bind, initialize. intros Hq ->. breflect.
  destruct (req_operation q); [|eexists; split; [done|by apply answers_failed]..].
  destruct (query_embedding q) as [query|]; [eexists; split; [done|by apply qdrant_search_answers]|].
  destruct (query_text q) as [x|]; [|eexists; split; [done|by apply answers_failed]].
  eexists. split; [done|]. unfold _get_embedding, _text_to_mock_embedding.
  destruct (_embedding_client s).
  - destruct (client x) eqn:E; [by apply qdrant_search_answers|simpl; by eapply client_exceptions].
  - destruct (Similarity.math_sqrt _) eqn:E; [by apply qdrant_search_answers|simpl; by eapply math_sqrt_exception].
Qed.
End qdrant.

Section db.
Import DbMock.

Lemma db_search_answers q x s : 1 <= limit q -> answers q (search q x s).
Proof.
  intros Hl. unfold search. pose proof (top_length (limit q) (scored q (search_terms (_config s) x) s) ltac:(lia)) as Ht.
  assert (Hn : length (normalize (top (limit q) (scored q (search_terms (_config s) x) s))) =
    length (top (limit q) (scored q (search_terms (_config s) x) s))).
  { unfold normalize. destruct (top _ _) as [|[k m] l]; [done|]. destruct (SFltb zero m); [|done]. by rewrite length_fmap. }
  destruct (normalize _) as [|c cs]; [by apply answers_nothing|].
  apply answers_collect; [done|by rewrite Hn| |]; intros y z; unfold to_result.
  - apply result_exception.
  - apply result_unit.
Qed.

Lemma db_answers q s : request_valid q = true -> _initialized s = true ->
  exists r, execute q s = (r, s) /\ answers q r.
Proof.
  unfold request_valid, execute, bind, initialize, modify. intros Hq Hi. breflect.
  replace (Db (_config s) (_snapshots s) true) with s by (destruct s; simpl in *; by subst).
  destruct (req_operation q); try (eexists; split; [done|by apply answers_failed]).
  destruct (query_text q); eexists; (split; [done|]); [by apply db_search_answers|by apply answers_failed].
Qed.
End db.

Section graph.
Import GraphMock.

(** Whatever the weights, the search ends. *)
Lemma bfs_ends s start D allowed limit fuel : forall done queue visited acc,
  GraphFacts.inv s start D allowed done queue visited ->
  (S (S (length (targets s))) <= length done + fuel)%nat ->
  is_Some (bfs s start D allowed limit fuel queue visited acc).
Proof.
  induction fuel as [|fuel IH]; intros done queue visited acc Hi Hfuel.
  { pose proof (GraphFacts.inv_bound _ _ _ _ _ _ _ Hi) as Hb. rewrite length_app in Hb. lia. }
  simpl. destruct queue as [|e queue]; [by eexists|]. destruct (negb _); [by eexists|].
  destruct (result_of s start e) as [rs|x]; [|by eexists].
  destruct (D <=? depth e)%nat eqn:ED.
  - apply Nat.leb_le in ED. apply (IH (done ++ [e])); [by apply GraphFacts.inv_take|rewrite length_app; simpl; lia].
  - apply Nat.leb_gt in ED. destruct (explore _ _ _ _ _) as [visited' queue'] eqn:Ex.
    apply (IH (done ++ [e])); [by eapply GraphFacts.inv_expand|rewrite length_app; simpl; lia].
Qed.

Lemma result_of_unit s start e :
  match result_of s start e with
  | Ok rs => Forall (fun x => unit_float (score x) = true) rs /\ (length rs <= 1)%nat
  | Raise x => is_Exception x = true
  end.
Proof.
  unfold result_of. destruct (bool_decide _); [split; [constructor|simpl; lia]|].
  destruct (dict_find _ _) as [snap|]; [|split; [constructor|simpl; lia]].
  unfold make_result. destruct (unit_float (path_score e)) eqn:E; [|done].
  split; [by apply Forall_singleton|done].
Qed.

Lemma bfs_unit s start D allowed limit fuel : forall queue visited acc r,
  Forall (fun x => unit_float (score x) = true) acc -> Z.of_nat (length acc) <= limit ->
  bfs s start D allowed limit fuel queue visited acc = Some r ->
  match r with
  | Ok rs => Forall (fun x => unit_float (score x) = true) rs /\ Z.of_nat (length rs) <= limit
  | Raise x => is_Exception x = true
  end.
Proof.
  induction fuel as [|fuel IH]; intros queue visited acc r Hu Hl; simpl; [done|].
  destruct queue as [|e queue]; [by intros [= <-]|].
  destruct (Z.of_nat (length acc) <? limit) eqn:El; simpl; breflect; [|by intros [= <-]].
  pose proof (result_of_unit s start e) as Hr. destruct (result_of s start e) as [rs|x]; [|by intros [= <-]].
  destruct Hr as [Hr Hl1]. assert (Hu' : Forall (fun x => unit_float (score x) = true) (acc ++ rs)) by (by apply Forall_app).
  assert (Hl' : Z.of_nat (length (acc ++ rs)) <= limit) by (rewrite length_app; lia).
  destruct (D <=? depth e)%nat; [by apply IH|]. destruct (explore _ _ _ _ _). by apply IH.
Qed.

Lemma graph_search_answers q start s : 1 <= limit q -> answers q (search q start s).
Proof.
  intros Hl. unfold search. destruct (dict_find _ _); [|by apply answers_nothing].
  unfold _traverse_bfs.
  destruct (bfs_ends s start (max_depth q s) (types_of q) (limit q) (fuel s) [] [Entry start 0 [start] one] [start] []
    (GraphFacts.inv_first _ _ _ _)) as [r Hr]; [simpl; unfold fuel; lia|].
  rewrite Hr. apply bfs_unit in Hr; [|constructor|simpl; lia]. destruct r as [rs|x]; [|done].
  destruct Hr as [Hu Hlen]. pose proof (sort_best_Permutation score rs) as Hp.
  destruct (sort_best score rs) as [|y ys] eqn:Es; [by apply answers_nothing|].
  apply answers_found; [done|by rewrite Hp|by rewrite Hp].
Qed.

Lemma graph_answers q s : request_valid q = true -> _initialized s = true ->
  exists r, execute q s = (r, s) /\ answers q r.
Proof.
  unfold request_valid, execute, bind, initialize, modify. intros Hq Hi. breflect.
  replace (Graph (_config s) (_snapshots s) (_relationships s) (_adjacency s) true) with s
    by (destruct s; simpl in *; by subst).
  destruct (req_operation q); try (eexists; split; [done|by apply answers_failed]).
  destruct (req_snapshot_id q); eexists; (split; [done|]); [by apply graph_search_answers|by apply answers_failed].
Qed.
End graph.

(** A handler that has been started. *)
Definition ready (h : t) : Prop :=
  _initialized h = true /\
  (exists q, _qdrant_handler h = Some q /\ QdrantMock._initialized q = true) /\
  (exists d, _db_handler h = Some d /\ DbMock._initialized d = true) /\
  (exists g, _graph_handler h = Some g /\ GraphMock._initialized g = true).

(** C38: whatever the stores hold, a started handler answers
    every valid request with a well-formed response: a success with at most
    [limit] results whose scores lie in the unit interval, an empty answer, or
    an error with its message. No exception escapes, and the stores are left
    as they were. *)
Theorem retrieval_answers (sha256 : text -> list Z) (client : text -> res vector)
    (q : ModelMemoryRetrievalRequest) (h : t) :
  (forall x e, client x = Raise e -> is_Exception e = true) ->
  ready h -> request_valid q = true ->
  exists r, execute sha256 client q h = (Ok r, h) /\ well_formed q r.
Proof.
  intros Hc (Hi & (p & Hp & Hpi) & (d & Hd & Hdi) & (g & Hg & Hgi)) Hq.
  assert (Hl : 1 <= limit q) by (unfold request_valid in Hq; breflect; done).
  assert (Hd' : exists r, dispatch sha256 client q h = (r, h) /\ answers q r).
  { unfold dispatch, on_part. destruct h as [c qh dh gh i]. simpl in *. subst.
    destruct (req_operation q) eqn:Eo.
    - destruct (qdrant_answers sha256 client Hc q p Hq Hpi) as (r & Hr & Ha). exists r. cbn [_qdrant_handler _db_handler _graph_handler]. by rewrite Hr.
    - destruct (db_answers q d Hq Hdi) as (r & Hr & Ha). exists r. cbn [_qdrant_handler _db_handler _graph_handler]. by rewrite Hr.
    - destruct (graph_answers q g Hq Hgi) as (r & Hr & Ha). exists r. cbn [_qdrant_handler _db_handler _graph_handler]. by rewrite Hr. }
  destruct Hd' as (r & Hr & Ha). unfold execute, bind, initialize. rewrite Hi. unfold try_except. rewrite Hr.
  destruct r as [r|e]; [by exists r|]. simpl in Ha. rewrite Ha.
  eexists. split; [done|]. by apply (answers_failed q).
Qed.

(** Starting with the mocks' own embeddings makes a handler ready. *)
Lemma initialize_ready c : use_stub_handlers c = true -> QdrantMock.use_real_embeddings (qdrant_mock_config c) = false ->
  exists h, initialize (new c) = (Ok tt, h) /\ ready h.
Proof.
  intros Hs Hr. unfold initialize. simpl. rewrite Hs. unfold QdrantMock.initialize. simpl. rewrite Hr.
  eexists. split; [done|]. unfold ready. simpl. split_and!; [done|by eexists..].
Qed.
End HandlerFacts.

(** ** Concrete inputs *)

Module TraversalDemo.
Import GraphMock.

Definition empty : GraphMock.t := GraphMock.new (Config 0 10 false).
Definition snap (id : string) : ModelMemorySnapshot := Snapshot id None [].
Definition link (a b : string) (w : spec_float) (s : GraphMock.t) : GraphMock.t := add_relationship a b "r" w s.
Definition store (ids : list string) (links : list (string * string * spec_float)) : GraphMock.t :=
  fold_left (fun s l => link l.1.1 l.1.2 l.2 s) links (seed_snapshots (snap <$> ids) empty).
Definition around (start : string) (n depth : Z) : ModelMemoryRetrievalRequest :=
  Request op_search_graph None None (Some start) n half depth None None None.
Definition tenth : spec_float := float_ratio 1 10.
Definition seen (r : res ModelMemoryRetrievalResponse) : list (string * option (list string)) :=
  match r with Ok r => (fun x => (snapshot_id (snapshot x), path x)) <$> results r | Raise _ => [("raised", None)] end.

(** s - a (weak), s - b; a - c, b - c. *)
Definition diamond : GraphMock.t :=
  store ["s"; "a"; "b"; "c"] [("s", "a", tenth); ("s", "b", one); ("a", "c", one); ("b", "c", one)].

Example diamond_found : seen (search (around "s" 10 2) "s" diamond) =
  [("b", Some ["s"; "b"]); ("a", Some ["s"; "a"]); ("c", Some ["s"; "a"; "c"])].
Proof. vm_compute. reflexivity. Qed.
Example type_filter : seen (search (Request op_search_graph None None (Some "s") 10 half 2 (Some ["q"]) None None)
    "s" (add_relationship "s" "c" "q" one diamond)) = [("c", Some ["s"; "c"])].
Proof. vm_compute. reflexivity. Qed.
(** The limit cuts the search before its results are ranked: the best one is missed. *)
Example limit_before_ranking : seen (search (around "s" 1 2) "s" diamond) = [("a", Some ["s"; "a"])].
Proof. vm_compute. reflexivity. Qed.
(** A negative weight makes the search fail. *)
Example negative_weight :
  seen (search (around "s" 10 2) "s" (store ["s"; "a"] [("s", "a", Similarity.minus_one)])) = [("raised", None)].
Proof. vm_compute. reflexivity. Qed.

Lemma graph_search_witness :
  exists r, search (around "s" 1 2) "s" diamond = Ok r /\ Z.of_nat (length (results r)) <= 1.
Proof.
  destruct (GraphSearch.graph_search (around "s" 1 2) "s" diamond) as (r & Hr & _ & _ & _ & Hl & _).
  - split; [by apply (bool_decide_unpack _); vm_compute|by repeat constructor].
  - repeat (apply GraphSearch.weights_add; [|vm_compute; done..]). by repeat constructor.
  - reflexivity.
  - by eexists.
  - by exists r.
Defined.

Definition handler_config : Handler.config :=
  Handler.Config false (QdrantMock.Config 4 0 false None) (DbMock.Config 0 false) (Config 0 10 true) true.
Definition started : Handler.t := (Handler.initialize (Handler.new handler_config)).2.

Lemma retrieval_answers_witness :
  exists r, Handler.execute RetrievalDemo.zeros RetrievalDemo.no_client (around "s" 5 2) started = (Ok r, started) /\
    resp_status r = no_results.
Proof.
  destruct (HandlerFacts.retrieval_answers RetrievalDemo.zeros RetrievalDemo.no_client (around "s" 5 2) started)
    as (r & Hr & _); [by intros x e [= <-]| |reflexivity|].
  - unfold HandlerFacts.ready. split_and!; [done|by eexists..].
  - exists r. split; [exact Hr|]. revert Hr. vm_compute. by intros [= <-].
Defined.
End TraversalDemo.
