(* ===== verification/VectorIndex.v ===== *)
(** * Indexing documents for retrieval

    Models [HandlerQdrant] of src/src/omnimemory/nodes/
    node_memory_retrieval_effect/handlers/handler_qdrant.py: a document is cut
    into chunks, each chunk is embedded and stored as a point, and a query is
    answered from the points. The vector store is a store behind calls
    (Calls.v): its points by identifier; its similarity search, the embedding
    client (Embedding.v), the UUIDs of names and the validation of a payload
    as a snapshot are arguments. *)

From Stdlib Require Import SpecFloat.
From S2P Require Import Prelude Text Floats Calls Retrieval.

Open Scope Z_scope.

(** ** Chunks *)

(** [s.split(sep)], with the piece read so far and the characters of a
    separator still to pass. *)
Fixpoint split_sep (sep : text) (skip : nat) (piece s : text) : list text :=
  match s with
  | [] => [piece]
  | c :: s' =>
      match skip with
      | S skip => split_sep sep skip piece s'
      | O => if starts_with sep s then piece :: split_sep sep (length sep - 1) [] s'
             else split_sep sep 0 (piece ++ [c]) s'
      end
  end.
Definition split_on (sep s : text) : list text := split_sep sep 0 [] s.

Definition newline : ascii := "010"%char.
Definition separators : list text := [of_string ". "; of_string "? "; of_string "! "].

Definition strip_text : text -> text := strip_chars is_space.

(** [[p.strip() for p in text.split("\n\n") if p.strip()]] *)
Definition paragraphs (s : text) : list text :=
  strip_text <$> filter (fun p => blank p = false) (split_on [newline; newline] s).

(** [[p + separator for p in parts[:-1]] + [parts[-1]]] *)
Fixpoint with_separator (sep : text) (parts : list text) : list text :=
  match parts with
  | [] => []
  | [p] => [p]
  | p :: parts => (p ++ sep) :: with_separator sep parts
  end.

(** The sentences at the first separator that occurs. *)
Fixpoint sentences_at (seps : list text) (paragraph : text) : list text :=
  match seps with
  | [] => [paragraph]
  | sep :: seps =>
      match split_on sep paragraph with
      | (_ :: _ :: _) as parts => with_separator sep parts
      | _ => sentences_at seps paragraph
      end
  end.
Definition sentences (paragraph : text) : list text := sentences_at separators paragraph.

(** [if current.strip(): chunks.append(current.strip())] *)
Definition emit (current : text) : list text := if blank current then [] else [strip_text current].

Fixpoint pack (max_chars : Z) (current : text) (ss : list text) : list text :=
  match ss with
  | [] => emit current
  | s :: ss =>
      if bool_decide (current <> []) && (max_chars <? Z.of_nat (length current) + Z.of_nat (length s))
      then emit current ++ pack max_chars s ss
      else pack max_chars (current ++ s) ss
  end.

Definition chunks_of (max_chars : Z) (paragraph : text) : list text :=
  if Z.of_nat (length paragraph) <=? max_chars then [paragraph]
  else pack max_chars [] (sentences paragraph).

Definition all_chunks (max_chars : Z) (s : text) : list text := mjoin (chunks_of max_chars <$> paragraphs s).

Definition _chunk_text (max_chars : Z) (s : text) : list text :=
  match all_chunks max_chars s with
  | [] => [s]
  | chunks => chunks
  end.

(** ** The handler *)

Record ModelHandlerQdrantConfig : Type := QdrantConfig {
  qdrant_port : Z;
  collection_name : string;
  vector_size : Z;
  embedding_server_url : string;
  embedding_max_retries : Z;
  max_chunk_chars : Z;
}.

(** The field constraints on what is kept, and the validator of the URL. *)
Definition config_valid (c : ModelHandlerQdrantConfig) : bool :=
  (1 <=? qdrant_port c) && (qdrant_port c <=? 65535) && (0 <? vector_size c) &&
  QdrantMock.is_url (embedding_server_url c) &&
  (0 <=? embedding_max_retries c) && (embedding_max_retries c <=? 5) && (0 <? max_chunk_chars c).

(** A point's vector and the payload that [_index] gives it. *)
Record point : Type := Point {
  point_vector : vector;
  document_id : string;
  chunk_index : nat;
  chunk : text;
}.

(** The collections: the size of their vectors, and their points. *)
Definition collections : Type := gmap string (Z * gmap uuid point).

Record handler : Type := Handler {
  _initialized : bool;
  _embedding_client : bool;   (** it is not [None] *)
  _qdrant_client : bool;
}.
Definition new : handler := Handler false false false.

Record world : Type := World { self : handler; net : calls collections }.

(** A request: a search, valid or not, a document, or anything else. *)
Inductive request : Type :=
  | SearchRequest (validated : res ModelMemoryRetrievalRequest)
  | IndexRequest (document_id : string) (content : text)
  | OtherRequest (repr : string).

Section handler.
Context (c : ModelHandlerQdrantConfig).
(** [uuid5(NAMESPACE_DNS, name)], the embedding client, the store's search
    with the best hits above a threshold, and [model_validate] of a payload. *)
Context (uuid5 : string -> uuid) (client : text -> res vector).
Context (qsearch : option (Z * gmap uuid point) -> vector -> Z -> spec_float -> list (point * spec_float)).
Context (validate : point -> res ModelMemorySnapshot).

Definition lift_call {A} (m : M (calls collections) A) : M world A := fun w =>
  let (r, n) := m (net w) in (r, World (self w) n).
Definition set_self (h : handler) : M world unit := modify (fun w => World h (net w)).

(** The client is kept when the store cannot be reached. *)
Definition initialize : M world unit := fun w =>
  if _initialized (self w) then (Ok tt, w)
  else
    (do! set_self (Handler false true true);
     let! existing := lift_call (call (fun s => (Ok (bool_decide (is_Some (s !! collection_name c))), s))) in
     do! if existing then ret tt
         else lift_call (call (fun s => (Ok tt, <[collection_name c := (vector_size c, ∅)]> s)));
     set_self (Handler true true true)) w.

Definition shutdown : M world unit := set_self new.

Definition point_id (document : string) (i : nat) : uuid := uuid5 (document +:+ ":" +:+ pretty i).

(** [upsert]: a point takes the place of one with its identifier. *)
Definition upsert (id : uuid) (p : point) (s : collections) : res unit * collections :=
  match s !! collection_name c with
  | None => (Raise (OtherException "UnexpectedResponse" "Collection doesn't exist"), s)
  | Some (n, ps) => (Ok tt, <[collection_name c := (n, <[id := p]> ps)]> s)
  end.

Fixpoint index_chunks (document : string) (i : nat) (chunks : list text) : M world unit :=
  match chunks with
  | [] => ret tt
  | x :: chunks =>
      match client x with
      | Raise e => raise e
      | Ok v =>
          do! lift_call (call (upsert (point_id document i) (Point v document i x)));
          index_chunks document (S i) chunks
      end
  end.

Definition _index (document : string) (content : text) : M world ModelMemoryRetrievalResponse :=
  if String.eqb document "" || bool_decide (content = []) then
    ret (failed "index requires non-empty document_id and content")
  else
    let chunks := _chunk_text (max_chunk_chars c) content in
    do! index_chunks document 0 chunks;
    ret (Response success [] (Z.of_nat (length chunks)) None None).

Definition to_result (hit : point * spec_float) : res ModelSearchResult :=
  match validate hit.1 with
  | Ok snap => make_result snap hit.2 (Some (float_sub one hit.2)) None
  | Raise e => Raise e
  end.

Definition search_vector (q : ModelMemoryRetrievalRequest) (query : vector) : M world ModelMemoryRetrievalResponse :=
  let! hits := lift_call (call (fun s =>
    (Ok (qsearch (s !! collection_name c) query (limit q) (similarity_threshold q)), s))) in
  match hits with
  | [] => ret (nothing (Some query) None)
  | _ => fun w => (match collect to_result hits with
                   | Ok rs => Ok (found_results rs (Some query))
                   | Raise e => Raise e
                   end, w)
  end.

Definition _search (q : ModelMemoryRetrievalRequest) : M world ModelMemoryRetrievalResponse :=
  match query_embedding q, query_text q with
  | Some query, _ => search_vector q query
  | None, Some x => match client x with Ok query => search_vector q query | Raise e => raise e end
  | None, None => ret (failed "search requires query_text or query_embedding")
  end.

Definition execute (r : request) : M world ModelMemoryRetrievalResponse :=
  let! h := gets self in
  if negb (_initialized h) then
    raise (RuntimeError "HandlerQdrant must be initialized before use. Call await handler.initialize() first.")
  else
    match r with
    | SearchRequest (Ok q) => _search q
    | SearchRequest (Raise e) => raise e
    | IndexRequest document content => _index document content
    | OtherRequest repr =>
        ret (failed ("HandlerQdrant: unsupported operation " +:+ repr +:+ ". Supported: 'search', 'index'."))
    end.

End handler.

(** ** Proofs: nothing is lost *)

Lemma mjoin_cons (p : text) (l : list text) : mjoin (p :: l) = p ++ mjoin l.
Proof. done. Qed.

Lemma mjoin_one (p : text) : mjoin [p] = p.
Proof. apply app_nil_r. Qed.

(** The characters of a text that are not space. *)
Definition ink (s : list ascii) : list ascii := filter (fun ch => is_space ch = false) s.

Lemma ink_app s t : ink (s ++ t) = ink s ++ ink t.
Proof. apply filter_app. Qed.

Lemma ink_space s : Forall (fun ch => is_space ch = true) s -> ink s = [].
Proof.
  induction 1 as [|ch s H _ IH]; [done|]. unfold ink. rewrite filter_cons_False; [done|]. by rewrite H.
Qed.

Lemma ink_strip s : ink (strip_text s) = ink s.
Proof.
  unfold strip_text. destruct (strip_chars_split is_space s) as (l & r & E & _ & Hl & Hr & _).
  rewrite E at 2. rewrite !ink_app, (ink_space l), (ink_space r), app_nil_r by done. done.
Qed.

Lemma ink_blank s : blank s = true -> ink s = [].
Proof. intros H. rewrite <- ink_strip. unfold blank, strip_text in *. by destruct (strip_chars is_space s). Qed.

Lemma ink_nil s : ink s = [] -> blank s = true.
Proof.
  intros H. rewrite <- ink_strip in H. unfold blank, strip_text in *.
  destruct (strip_chars_split is_space s) as (l & r & _ & _ & _ & _ & Hh).
  destruct (strip_chars is_space s) as [|ch t]; [done|]. specialize (Hh ch t eq_refl).
  unfold ink in H. by rewrite filter_cons_True in H.
Qed.

Lemma ink_emit s : ink (mjoin (emit s)) = ink s.
Proof.
  unfold emit. destruct (blank s) eqn:E; [by rewrite (ink_blank s)|]. by rewrite mjoin_cons, app_nil_r, ink_strip.
Qed.

(** Joining the pieces with the separator gives the text back. *)
Fixpoint join_sep (sep : text) (l : list text) : text :=
  match l with
  | [] => []
  | [p] => p
  | p :: l => p ++ sep ++ join_sep sep l
  end.

Lemma split_sep_ne sep skip piece s : split_sep sep skip piece s <> [].
Proof.
  revert skip piece. induction s as [|ch s IH]; intros skip piece; cbn [split_sep]; [done|].
  destruct skip; [|apply IH]. destruct (starts_with sep (ch :: s)); [done|apply IH].
Qed.

Lemma join_sep_cons sep p l : l <> [] -> join_sep sep (p :: l) = p ++ sep ++ join_sep sep l.
Proof. by destruct l. Qed.

Lemma split_sep_join sep s : sep <> [] -> forall skip piece, (skip <= length s)%nat ->
  join_sep sep (split_sep sep skip piece s) = piece ++ drop skip s.
Proof.
  intros Hsep. induction s as [|ch s IH]; intros skip piece Hskip; cbn [split_sep].
  { simpl. by rewrite drop_nil, app_nil_r. }
  destruct skip as [|skip]; [|cbn [length] in Hskip; simpl; rewrite IH by lia; done].
  rewrite drop_0. destruct (starts_with sep (ch :: s)) eqn:E.
  - apply starts_with_spec in E as [r Hr]. rewrite join_sep_cons by apply split_sep_ne.
    assert (Hl : length (ch :: s) = (length sep + length r)%nat) by (by rewrite Hr, length_app).
    assert (Hsl : (0 < length sep)%nat) by (destruct sep; [done|simpl; lia]). cbn [length] in Hl.
    rewrite IH by lia. f_equal. cbn [app].
    replace (drop (length sep - 1) s) with (drop (length sep) (ch :: s))
      by (destruct (length sep) eqn:El; [lia|simpl; f_equal; lia]).
    rewrite Hr, drop_app_length. done.
  - rewrite IH by lia. by rewrite <- app_assoc, drop_0.
Qed.

Lemma with_separator_join sep parts : mjoin (with_separator sep parts) = join_sep sep parts.
Proof.
  induction parts as [|p [|q parts] IH]; [done|by simpl; rewrite app_nil_r|].
  cbn [with_separator]. rewrite join_sep_cons, mjoin_cons by done. rewrite <- IH. by rewrite <- app_assoc.
Qed.

Lemma sentences_join p : mjoin (sentences p) = p.
Proof.
  unfold sentences. assert (H : Forall (fun sep => sep <> []) separators) by by repeat constructor.
  induction H as [|sep seps Hs _ IH]; cbn [sentences_at]; [by simpl; rewrite app_nil_r|].
  pose proof (split_sep_join sep p Hs 0 [] ltac:(lia)) as Hj. revert Hj. unfold split_on.
  destruct (split_sep sep 0 [] p) as [|a [|b parts]]; intros Hj; [exact IH|exact IH|].
  by rewrite with_separator_join, Hj.
Qed.

Lemma mjoin_text (a b : list text) : mjoin (a ++ b) = mjoin a ++ mjoin b.
Proof. apply join_app. Qed.

Lemma ink_pack n ss : forall current, ink (mjoin (pack n current ss)) = ink (current ++ mjoin ss).
Proof.
  induction ss as [|s ss IH]; intros current; cbn [pack].
  - rewrite ink_emit. simpl. by rewrite app_nil_r.
  - destruct (_ && _).
    + rewrite mjoin_text, ink_app, ink_emit, IH. simpl. by rewrite !ink_app.
    + rewrite IH. simpl. by rewrite <- app_assoc.
Qed.

Lemma ink_chunks_of n p : ink (mjoin (chunks_of n p)) = ink p.
Proof.
  unfold chunks_of. destruct (_ <=? n); [by simpl; rewrite app_nil_r|].
  rewrite ink_pack. cbn [app]. by rewrite sentences_join.
Qed.

Lemma ink_chunks n l : ink (mjoin (mjoin (chunks_of n <$> l))) = ink (mjoin l).
Proof.
  induction l as [|p l IH]; [done|].
  transitivity (ink (mjoin (chunks_of n p ++ mjoin (chunks_of n <$> l)))); [done|].
  rewrite mjoin_text, ink_app, ink_chunks_of, mjoin_cons, ink_app. by f_equal.
Qed.

Lemma ink_join_sep sep l : ink sep = [] -> ink (join_sep sep l) = ink (mjoin l).
Proof.
  intros Hs. induction l as [|p [|q l] IH]; [done|by simpl; rewrite app_nil_r|].
  rewrite join_sep_cons by done. change (mjoin (p :: q :: l)) with (p ++ mjoin (q :: l)).
  by rewrite !ink_app, Hs, IH.
Qed.

Lemma ink_paragraphs s : ink (mjoin (paragraphs s)) = ink s.
Proof.
  unfold paragraphs. pose proof (split_sep_join [newline; newline] s ltac:(done) 0 [] ltac:(lia)) as Hj.
  rewrite drop_0 in Hj. simpl in Hj. fold (split_on [newline; newline] s) in Hj. rewrite <- Hj at 2.
  rewrite ink_join_sep by done. clear Hj. induction (split_on _ s) as [|p l IH]; [done|].
  rewrite filter_cons. destruct (decide (blank p = false)) as [E|E]; cbn [fmap list_fmap]; rewrite ?mjoin_cons.
  - by rewrite !ink_app, ink_strip, IH.
  - rewrite ink_app, IH, (ink_blank p); [done|]. by apply not_false_is_true.
Qed.

(** ** Proofs: where the text is cut *)

Definition occurs (sep s : list ascii) : Prop := exists l r, s = l ++ sep ++ r.

(** [s.split(sep)] is [init] and [last]: each piece of [init] ends where
    [sep] first occurs after the piece before it, and [sep] does not occur in
    [last]. *)
Record splits (sep s : list ascii) (init : list text) (last : list ascii) : Prop := {
  splits_join : s = mjoin ((fun b => b ++ sep) <$> init) ++ last;
  splits_first : Forall (fun b : list ascii => forall l r, b ++ sep = l ++ sep ++ r -> r = []) init;
  splits_last : ~ occurs sep last;
}.

Lemma split_sep_skip sep skip piece s : (skip <= length s)%nat ->
  split_sep sep skip piece s = split_sep sep 0 piece (drop skip s).
Proof.
  revert s. induction skip as [|skip IH]; intros s Hs; [by rewrite drop_0|].
  destruct s as [|ch s]; [simpl in Hs; lia|]. simpl in Hs. rewrite skipn_cons. rewrite <-IH by lia. done.
Qed.

Lemma app_longer {A} (a b l r : list A) : a ++ b = l ++ r -> (length a <= length l)%nat ->
  exists m, l = a ++ m /\ b = m ++ r.
Proof.
  intros H Hl. exists (drop (length a) l). rewrite <-(take_drop (length a) l) in H.
  rewrite <-app_assoc in H. apply app_inj_1 in H as [Ha Hb]; [|rewrite length_take; lia].
  split; [|done]. by rewrite Ha at 1; rewrite take_drop.
Qed.

Lemma split_sep_splits (sep : list ascii) (n : nat) : sep <> [] -> forall s piece, (length s <= n)%nat ->
  (forall l r, piece ++ s = l ++ sep ++ r -> (length piece <= length l)%nat) ->
  exists init last, split_sep sep 0 piece s = init ++ [last] /\ splits sep (piece ++ s) init last.
Proof.
  intros Hsep. assert (Hpos : (0 < length sep)%nat) by (destruct sep; [done|simpl; lia]).
  induction n as [n IH] using lt_wf_ind. intros [|ch s] piece Hs HP; cbn [split_sep].
  - exists [], piece. split; [done|]. split; [by rewrite app_nil_r|done|]. intros (l & r & H).
    specialize (HP l r ltac:(by rewrite app_nil_r)). apply (f_equal length) in H. rewrite !length_app in H. lia.
  - destruct (starts_with sep (ch :: s)) eqn:E.
    + apply starts_with_spec in E as [r Hr]. pose proof (f_equal length Hr) as Hl. rewrite length_app in Hl.
      cbn [length] in Hl, Hs. rewrite split_sep_skip by lia.
      assert (drop (length sep - 1) s = r) as ->.
      { change (drop (length sep - 1) s) with (drop (S (length sep - 1)) (ch :: s)). rewrite Hr.
        replace (S (length sep - 1)) with (length sep) by lia. apply drop_app_length. }
      destruct (IH (length r) ltac:(lia) r [] ltac:(lia) ltac:(simpl; lia)) as (init & last & -> & [Hj Hf Hn]).
      exists (piece :: init), last. split; [done|]. rewrite Hr. split; [| |done].
      * simpl in Hj. rewrite fmap_cons. change (mjoin (?x :: ?y)) with (x ++ mjoin y). by rewrite Hj at 1; rewrite <-!app_assoc.
      * constructor; [|done]. intros l r' H. specialize (HP l (r' ++ r)).
        rewrite Hr, app_assoc, H, <-!app_assoc in HP. specialize (HP eq_refl).
        apply (f_equal length) in H. rewrite !length_app in H. apply length_zero_iff_nil. lia.
    + destruct (IH (length s) ltac:(simpl in Hs; lia) s (piece ++ [ch]) ltac:(done)) as (init & last & -> & H).
      * intros l r H. rewrite <-app_assoc in H. pose proof (HP l r H) as Hle. rewrite length_app. simpl.
        destruct (app_longer _ _ _ _ H Hle) as (m & -> & Hm). rewrite length_app.
        destruct m; [|simpl; lia]. simpl in Hm. rewrite (proj2 (starts_with_spec _ _)) in E; [done|by exists r].
      * exists init, last. split; [done|]. by rewrite <-app_assoc in H.
Qed.

Lemma split_on_splits sep s : sep <> [] ->
  exists init last, split_on sep s = init ++ [last] /\ splits sep s init last.
Proof. intros H. apply (split_sep_splits sep (length s) H s []); [done|simpl; lia]. Qed.

Lemma with_separator_last sep init (last : text) :
  with_separator sep (init ++ [last]) = ((fun b => b ++ sep) <$> init) ++ [last].
Proof.
  induction init as [|b init IH]; [done|]. cbn [app fmap list_fmap]. rewrite <-IH.
  destruct (init ++ [last]) eqn:E; [by destruct init|done].
Qed.

(** The pieces at [sep], each but the last with its separator. *)
Definition cut_at (sep p : list ascii) (ss : list text) : Prop :=
  occurs sep p /\ exists init last, splits sep p init last /\ ss = ((fun b => b ++ sep) <$> init) ++ [last].

(** The sentences of a paragraph end at the full stops or, when it has none,
    at the question marks or, when it has none of these either, at the
    exclamation marks that a space follows. *)
Definition cut_into (p : list ascii) (ss : list text) : Prop :=
  let dot := of_string ". " in let question := of_string "? " in let bang := of_string "! " in
  cut_at dot p ss \/
  (~ occurs dot p /\ cut_at question p ss) \/
  (~ occurs dot p /\ ~ occurs question p /\ cut_at bang p ss) \/
  (~ occurs dot p /\ ~ occurs question p /\ ~ occurs bang p /\ ss = [p]).

Lemma split_on_cases sep p : sep <> [] ->
  (exists x y parts, split_on sep p = x :: y :: parts /\ cut_at sep p (with_separator sep (split_on sep p))) \/
  (exists x, split_on sep p = [x] /\ ~ occurs sep p).
Proof.
  intros Hs. destruct (split_on_splits sep p Hs) as (init & last & -> & H). destruct init as [|x init].
  - right. exists last. split; [done|]. pose proof (splits_join _ _ _ _ H) as Hj. simpl in Hj. subst. apply H.
  - left. exists x. destruct (init ++ [last]) as [|y parts] eqn:E; [by destruct init|].
    exists y, parts. split; [by simpl; rewrite E|]. split.
    + rewrite (splits_join _ _ _ _ H). exists x, (mjoin ((fun b => b ++ sep) <$> init) ++ last).
      rewrite fmap_cons. change (mjoin (?x :: ?y)) with (x ++ mjoin y). by rewrite <-!app_assoc.
    + exists (x :: init), last. split; [done|]. by rewrite <-with_separator_last.
Qed.

Lemma sentences_cut p : cut_into p (sentences p).
Proof.
  unfold sentences, separators, cut_into. cbn [sentences_at].
  destruct (split_on_cases (of_string ". ") p ltac:(done)) as [(x & y & l & E & H)|(x & -> & H1)]; [rewrite E in *; by left|right].
  destruct (split_on_cases (of_string "? ") p ltac:(done)) as [(x2 & y & l & E & H)|(x2 & -> & H2)]; [rewrite E in *; by left|right].
  destruct (split_on_cases (of_string "! ") p ltac:(done)) as [(x3 & y & l & E & H)|(x3 & -> & H3)]; [rewrite E in *; by left|by right].
Qed.

(** ** Proofs: how sentences are packed *)

(** The sentences of a chunk fit or are one sentence; the next one did not
    fit any more. *)
Definition packed (n : Z) (groups : list (list text)) : Prop :=
  Forall (fun g => Z.of_nat (length (mjoin g)) <= n \/ mjoin g ∈ g) groups /\
  forall i g g', groups !! i = Some g -> groups !! S i = Some g' ->
    exists t ts, g' = t :: ts /\ n < Z.of_nat (length (mjoin g)) + Z.of_nat (length t).

(** The chunks that groups of sentences make: the texts that are not blank. *)
Definition texts_of (groups : list (list text)) : list text :=
  strip_text <$> filter (fun x => blank x = false) ((fun g => mjoin g : text) <$> groups).

Lemma texts_of_cons g groups : texts_of (g :: groups) = emit (mjoin g) ++ texts_of groups.
Proof. unfold texts_of, emit. rewrite fmap_cons, filter_cons. case_decide as H; destruct (blank (mjoin g)); done. Qed.

Lemma pack_groups n (ss : list text) : forall g : list text, (Z.of_nat (length (mjoin g)) <= n \/ mjoin g ∈ g) ->
  exists ts groups, pack n (mjoin g) ss = texts_of ((g ++ ts) :: groups) /\
    mjoin ((g ++ ts) :: groups) = g ++ ss /\ packed n ((g ++ ts) :: groups).
Proof.
  induction ss as [|s ss IH]; intros g Hg; cbn [pack].
  - exists [], []. rewrite (app_nil_r g). split; [|split].
    + rewrite texts_of_cons. by rewrite app_nil_r.
    + apply app_nil_r.
    + split; [by constructor|]. by intros [|i].
  - destruct (bool_decide _ && _) eqn:E.
    + destruct (IH [s]) as (ts & groups & Hp & Hj & Hall & Hnext); [right; rewrite mjoin_one; by left|].
      exists [], (([s] ++ ts) :: groups). rewrite !app_nil_r.
      rewrite mjoin_one in Hp. split_and!.
      * by rewrite Hp, (texts_of_cons g).
      * by change (mjoin (?x :: ?y)) with (x ++ mjoin y) at 1; rewrite Hj.
      * split; [by constructor|]. intros [|i] g1 g2 H1 H2; [|by apply (Hnext i)].
        simplify_eq/=. exists s, ts. split; [done|]. breflect. lia.
    + destruct (IH (g ++ [s])) as (ts & groups & Hp & Hj & Hpk).
      * rewrite mjoin_text. rewrite mjoin_one.
        apply andb_false_iff in E as [E|E]; [|left; rewrite length_app; breflect; lia].
        apply bool_decide_eq_false in E. destruct (mjoin g); [|by destruct E]. right. apply elem_of_app. right. by left.
      * rewrite mjoin_text in Hp. rewrite mjoin_one in Hp.
        exists (s :: ts), groups. rewrite <-!app_assoc in *. by split_and!.
Qed.

(** The chunks of a paragraph. *)
Definition chunked (n : Z) (p : text) (chunks : list text) : Prop :=
  (Z.of_nat (length p) <= n /\ chunks = [p]) \/
  (n < Z.of_nat (length p) /\
   exists groups, cut_into p (mjoin groups) /\ packed n groups /\ chunks = texts_of groups).

Lemma chunks_of_chunked n p : chunked n p (chunks_of n p).
Proof.
  unfold chunks_of, chunked. destruct (_ <=? n) eqn:E; breflect; [by left|right]. split; [lia|].
  pose proof (sentences_cut p) as Hc. destruct (sentences p) as [|s ss] eqn:Es.
  { exfalso. pose proof (sentences_join p) as Hj. rewrite Es in Hj. unfold cut_into, cut_at in Hc.
    destruct Hc as [(_ & init & last & _ & H)|[(_ & _ & init & last & _ & H)|[(_ & _ & _ & init & last & _ & H)|(_ & _ & _ & H)]]];
      try done; by destruct init. }
  cbn [pack]. rewrite bool_decide_false by naive_solver. cbn [andb app].
  destruct (pack_groups n ss [s]) as (ts & groups & Hp & Hj & Hpk).
  { right. rewrite mjoin_one. by left. }
  rewrite mjoin_one in Hp.
  exists (([s] ++ ts) :: groups). split_and!; [by rewrite Hj|done|exact Hp].
Qed.

(** The paragraphs are the pieces between empty lines that are not blank. *)
Definition paragraphs_of (s : text) (ps : list text) : Prop :=
  exists init last, splits [newline; newline] s init last /\
    ps = strip_text <$> filter (fun p => blank p = false) (init ++ [last]).

Lemma paragraphs_split s : paragraphs_of s (paragraphs s).
Proof.
  unfold paragraphs. destruct (split_on_splits [newline; newline] s ltac:(done)) as (init & last & -> & H).
  by exists init, last.
Qed.

(** No chunk is blank. *)
Lemma strip_solid (x : text) : blank x = false -> blank (strip_text x) = false.
Proof. intros H. apply not_true_is_false. intros E%ink_blank. rewrite ink_strip in E. apply ink_nil in E. congruence. Qed.

Lemma stripped_solid (l : list text) x : x ∈ strip_text <$> filter (fun p => blank p = false) l -> blank x = false.
Proof. intros (y & -> & [Hy _]%list_elem_of_filter)%list_elem_of_fmap. by apply strip_solid. Qed.

Lemma all_chunks_solid n s x : x ∈ all_chunks n s -> blank x = false.
Proof.
  unfold all_chunks. intros (l & Hx & (p & -> & Hp)%list_elem_of_fmap)%list_elem_of_join.
  destruct (chunks_of_chunked n p) as [[_ E]|(_ & groups & _ & _ & E)]; rewrite E in Hx.
  - apply list_elem_of_singleton in Hx as ->. by apply (stripped_solid _ _ Hp).
  - by apply (stripped_solid _ _ Hx).
Qed.

(** C39: a text is cut at its empty lines into paragraphs. A
    paragraph of at most [max_chars] characters is a chunk; a longer one is
    cut into sentences at the first of ". ", "? " and "! " that occurs in it
    (the other two are left inside the sentences), and sentences that follow
    one another make a chunk as long as they fit: a chunk holds at most
    [max_chars] characters unless it is one such sentence, and the next
    sentence would not have fitted. White space at the ends of the chunks is
    dropped and blank chunks are left out; nothing else is lost. A text
    without a chunk is its own only chunk. *)
Theorem chunks_exact (max_chars : Z) (s : text) :
  ink (mjoin (_chunk_text max_chars s)) = ink s /\
  exists ps chunks, paragraphs_of s ps /\ Forall2 (chunked max_chars) ps chunks /\
    _chunk_text max_chars s = (if blank s then [s] else mjoin chunks).
Proof.
  assert (Hink : ink (mjoin (all_chunks max_chars s)) = ink s).
  { unfold all_chunks. by rewrite ink_chunks, ink_paragraphs. }
  assert (Hblank : blank s = true <-> all_chunks max_chars s = []).
  { split; intros H; [|rewrite H in Hink; by apply ink_nil]. apply ink_blank in H. rewrite H in Hink.
    destruct (all_chunks max_chars s) as [|x xs] eqn:E; [done|]. rewrite mjoin_cons, ink_app in Hink.
    apply app_nil in Hink as [Hx%ink_nil _]. rewrite (all_chunks_solid max_chars s x) in Hx; [done|]. rewrite E. by left. }
  split.
  - unfold _chunk_text. destruct (all_chunks max_chars s) eqn:E; [|by rewrite <-Hink].
    by rewrite mjoin_one.
  - exists (paragraphs s), (chunks_of max_chars <$> paragraphs s). split_and!.
    + apply paragraphs_split.
    + apply Forall2_fmap_r, Forall_Forall2_diag, Forall_forall. intros p _. apply chunks_of_chunked.
    + unfold _chunk_text. fold (all_chunks max_chars s). destruct (blank s) eqn:E.
      * by rewrite (proj1 Hblank eq_refl).
      * destruct (all_chunks max_chars s) eqn:E'; [|done].
        by pose proof (proj2 Hblank eq_refl).
Qed.

(** ** Proofs: what indexing stores *)

Section indexing.
Context (c : ModelHandlerQdrantConfig) (uuid5 : string -> uuid) (client : text -> res vector).
(** Different names have different UUIDs. *)
Context `{!Inj (=) (=) uuid5}.

(** Nobody else writes to the store; calls may fail. *)
Definition alone (w : world) : Prop := forall k s, others (env (net w) k) s = s.

Definition points (w : world) : option (Z * gmap uuid point) := store (net w) !! collection_name c.

Lemma point_id_inj document i j : point_id uuid5 document i = point_id uuid5 document j -> i = j.
Proof using Inj0.
  unfold point_id. intros H%(inj uuid5). apply (inj (String.append document)) in H. simplify_eq/=. done.
Qed.

(** One call: it succeeds and writes, or fails, having written or not. *)
Lemma upsert_call w id p n ps : alone w -> points w = Some (n, ps) ->
  exists r w', lift_call (call (upsert c id p)) w = (r, w') /\ alone w' /\
    exists ps', points w' = Some (n, ps') /\ (ps' = <[id := p]> ps \/ (ps' = ps /\ exists e, r = Raise e)).
Proof.
  unfold alone, points. intros Ho Hp. unfold lift_call, call, found. rewrite Ho.
  assert (Hu : upsert c id p (store (net w)) =
    (Ok tt, <[collection_name c := (n, <[id := p]> ps)]> (store (net w)))) by (unfold upsert; by rewrite Hp).
  rewrite Hu. destruct (ends _) as [|e applied]; eexists _, _; (split; [done|]); (split; [done|]); cbn [net after store fst snd].
  - exists (<[id := p]> ps). split; [apply lookup_insert_eq|auto].
  - destruct applied; [exists (<[id := p]> ps); split; [apply lookup_insert_eq|auto]|exists ps; split; [done|right; eauto]].
Qed.

(** After [k] chunks, the next one perhaps written, and no others. *)
Definition stored_up_to (document : string) (i k : nat) (chunks : list text) (ps ps' : gmap uuid point) : Prop :=
  (forall id, (forall j, (j < length chunks)%nat -> id <> point_id uuid5 document (i + j)) -> ps' !! id = ps !! id) /\
  (forall j x, (j < k)%nat -> chunks !! j = Some x ->
     exists v, client x = Ok v /\ ps' !! point_id uuid5 document (i + j) = Some (Point v document (i + j) x)) /\
  (forall j, (k < j)%nat -> ps' !! point_id uuid5 document (i + j) = ps !! point_id uuid5 document (i + j)).

Lemma index_chunks_spec document chunks : forall i w n ps, alone w -> points w = Some (n, ps) ->
  exists r w' k ps', index_chunks c uuid5 client document i chunks w = (r, w') /\ points w' = Some (n, ps') /\
    (k <= length chunks)%nat /\ (is_Ok r -> k = length chunks) /\
    stored_up_to document i k chunks ps ps'.
Proof using Inj0.
  induction chunks as [|x chunks IH]; intros i w n ps Ho Hp; cbn [index_chunks].
  { exists (Ok tt), w, 0%nat, ps. unfold stored_up_to. split_and!; try done; lia. }
  assert (Hnone : forall e, exists r w' k ps', @raise world unit e w = (r, w') /\ points w' = Some (n, ps') /\
    (k <= length (x :: chunks))%nat /\ (is_Ok r -> k = length (x :: chunks)) /\
    stored_up_to document i k (x :: chunks) ps ps').
  { intros e. exists (Raise e), w, 0%nat, ps. unfold stored_up_to.
    split_and!; try done; [simpl; lia|by intros [? [=]]|lia]. }
  destruct (client x) as [v|e] eqn:Ex; [|apply Hnone].
  destruct (upsert_call w (point_id uuid5 document i) (Point v document i x) n ps Ho Hp)
    as (r & w1 & Hr & Ho1 & ps1 & Hp1 & Hps1).
  assert (Hids : forall j, (0 < j)%nat -> point_id uuid5 document (i + j) <> point_id uuid5 document i).
  { intros j Hj H%point_id_inj. lia. }
  unfold bind. rewrite Hr. destruct r as [[]|e].
  - destruct Hps1 as [->|[_ [e [=]]]]. destruct (IH (S i) w1 n _ Ho1 Hp1) as (r & w2 & k & ps2 & H2 & Hp2 & Hk & Hok & Ha & Hb & Hc).
    exists r, w2, (S k), ps2. unfold stored_up_to. split_and!; [done|done|simpl; lia|intros H; simpl; by rewrite Hok|..].
    + intros id Hid. rewrite Ha; [|intros j Hj; specialize (Hid (S j) ltac:(simpl; lia)); by rewrite Nat.add_succ_r in Hid].
      apply lookup_insert_ne. specialize (Hid 0%nat ltac:(simpl; lia)). rewrite Nat.add_0_r in Hid. congruence.
    + intros [|j] y Hj Hy; simpl in Hy.
      * simplify_eq. exists v. split; [done|]. rewrite Nat.add_0_r, Ha; [by rewrite lookup_insert_eq|].
        intros j _. intros H. apply (Hids (S j)); [lia|]. by rewrite Nat.add_succ_r.
      * destruct (Hb j y ltac:(lia) Hy) as (v' & Hv' & Hl). exists v'. by rewrite Nat.add_succ_r.
    + intros [|j] Hj; [lia|]. rewrite Nat.add_succ_r. change (S (i + j)) with (S i + j)%nat. rewrite Hc by lia.
      apply lookup_insert_ne. intros H. apply (Hids (S j)); [lia|]. by rewrite Nat.add_succ_r.
  - exists (Raise e), w1, 0%nat, ps1. unfold stored_up_to. split_and!; [done|done|simpl; lia|by intros [? [=]]|..].
    + intros id Hid. specialize (Hid 0%nat ltac:(simpl; lia)). rewrite Nat.add_0_r in Hid.
      destruct Hps1 as [->|[-> _]]; [|done]. apply lookup_insert_ne. congruence.
    + lia.
    + intros j Hj. destruct Hps1 as [->|[-> _]]; [|done]. apply lookup_insert_ne. intros H. by apply (Hids j).
Qed.

(** C40: indexing a document, when nobody else writes meanwhile,
    stores its chunks in order, one point each under the identifier of the
    document and the chunk's number, and touches no other point, whichever
    calls fail: on success all are stored and counted, on a failure those
    before some chunk, that chunk perhaps, and none after it. *)
Theorem index_exact (document : string) (content : text) (w : world) (n : Z) (ps : gmap uuid point) :
  alone w -> points w = Some (n, ps) -> document <> "" -> content <> [] ->
  exists r w' k ps', _index c uuid5 client document content w = (r, w') /\ points w' = Some (n, ps') /\
    stored_up_to document 0 k (_chunk_text (max_chunk_chars c) content) ps ps' /\
    match r with
    | Ok resp => k = length (_chunk_text (max_chunk_chars c) content) /\
        resp = Response success [] (Z.of_nat k) None None
    | Raise _ => (k <= length (_chunk_text (max_chunk_chars c) content))%nat
    end.
Proof using Inj0.
  intros Ho Hp Hd Hc. unfold _index. rewrite (proj2 (String.eqb_neq _ _) Hd), bool_decide_eq_false_2 by done. cbn [orb].
  destruct (index_chunks_spec document (_chunk_text (max_chunk_chars c) content) 0 w n ps Ho Hp)
    as (r & w' & k & ps' & H & Hp' & Hk & Hok & Hs).
  unfold bind. rewrite H. destruct r as [[]|e].
  - exists (Ok (Response success [] (Z.of_nat k) None None)), w', k, ps'.
    rewrite (Hok ltac:(by eexists)) in *. by split_and!.
  - exists (Raise e), w', k, ps'. by split_and!.
Qed.
End indexing.

(** ** Concrete inputs *)

Module VectorIndexDemo.

Definition cfg : ModelHandlerQdrantConfig := QdrantConfig 6333 "docs" 2 "http://e" 2 12.
Definition nl : string := String newline (String newline EmptyString).
Definition cut (s : string) : list string := to_string <$> _chunk_text 12 (of_string s).

Example cut_paragraphs : cut ("one two" +:+ nl +:+ " three ") = ["one two"; "three"].
Proof. vm_compute. reflexivity. Qed.
Example cut_sentences : cut "First one. Second. Third. " = ["First one."; "Second."; "Third."].
Proof. vm_compute. reflexivity. Qed.
(** Only the first separator that occurs cuts: the questions stay inside the
    first piece, which is beyond the limit. *)
Example cut_mixed : cut "Is it this? Or is it that? Yes. It is." = ["Is it this? Or is it that? Yes."; "It is."].
Proof. vm_compute. reflexivity. Qed.
Example cut_blank : cut "   " = ["   "].
Proof. vm_compute. reflexivity. Qed.

Definition embed (x : text) : res vector :=
  if blank x then Raise (OtherException "EmbeddingClientError" "Text cannot be empty")
  else Ok [float_of_Z (Z.of_nat (length x))].
Definition calm : nat -> call_env collections := fun _ => CallEnv (fun s => s) Completes.
Definition ready (s : collections) : world := World (Handler true true true) (Calls s calm 0).
Definition before : world := ready {[ "docs" := (2, ∅) ]}.
Definition name (s : string) : uuid := s.
Definition index (document s : string) (w : world) : world := (_index cfg name embed document (of_string s) w).2.
Definition texts (w : world) : list string :=
  match store (net w) !! "docs" with Some (_, ps) => (fun p => to_string (chunk p.2)) <$> map_to_list ps | None => [] end.

(** Indexing a new version does not remove the points of the old one. *)
Example stale_chunk : texts (index "d" "New." (index "d" "First one. Second one." before)) = ["New."; "Second one."]
  \/ texts (index "d" "New." (index "d" "First one. Second one." before)) = ["Second one."; "New."].
Proof. vm_compute. first [left; reflexivity | right; reflexivity]. Qed.
(** A blank document is not refused: its only chunk is, by the client. *)
Example blank_document : (_index cfg name embed "d" (of_string "  ") before).1 =
  Raise (OtherException "EmbeddingClientError" "Text cannot be empty").
Proof. vm_compute. reflexivity. Qed.

Lemma index_exact_witness :
  exists r w', _index cfg name embed "d" (of_string "First one. Second one.") before = (r, w') /\
    exists k ps', stored_up_to name embed "d" 0 k (_chunk_text 12 (of_string "First one. Second one.")) ∅ ps'.
Proof.
  destruct (index_exact cfg name embed "d" (of_string "First one. Second one.") before 2 ∅)
    as (r & w' & k & ps' & H & _ & Hs & _); [by intros k s|reflexivity|done|done|].
  exists r, w'. split; [exact H|]. by exists k, ps'.
Defined.
End VectorIndexDemo.
