(* ===== verification/Regex.v ===== *)
(** * Regular expressions

    Python's [re] on ASCII text: a backtracking matcher, in the order Python
    tries alternatives and repetitions, and the searches built on it
    ([finditer], [sub], [match]); and the language of an expression, against
    which the matcher is proved sound and complete. Privacy.v and Metrics.v
    use it. *)

From S2P Require Import Prelude Text.

(** Capturing groups are left out: the code only asks for whole matches. *)
Inductive regex : Type :=
  | Empty
  | Chr (p : ascii -> bool)          (** a character, or a class of them *)
  | Seq (r1 r2 : regex)
  | Alt (r1 r2 : regex)
  | Star (r : regex)                 (** greedy *)
  | WordBoundary                     (** [\b] *)
  | NotAhead (r : regex)             (** [(?!r)] *)
  | End.                             (** [$] *)

(** ** Notation of the patterns *)

Definition is_digit : ascii -> bool := char_in "0" "9".
Definition is_alnum (c : ascii) : bool := char_in "0" "9" c || char_in "A" "Z" c || char_in "a" "z" c.
Definition is_word (c : ascii) : bool := is_alnum c || Ascii.eqb c "_".

(** A character class under [re.IGNORECASE]. *)
Definition ci (p : ascii -> bool) (c : ascii) : bool := p c || p (lower_char c) || p (upper_char c).
Definition one_of (cs : string) : regex := Chr (among cs).
Definition none_of (p : ascii -> bool) : regex := Chr (fun c => negb (p c)).

Fixpoint seq (rs : list regex) : regex := match rs with [] => Empty | [r] => r | r :: rs => Seq r (seq rs) end.
Definition lit_by (same : ascii -> ascii -> bool) (s : string) : regex :=
  seq (map (fun c => Chr (same c)) (of_string s)).
Definition lit : string -> regex := lit_by Ascii.eqb.
Definition lit_ci : string -> regex := lit_by (fun c => ci (Ascii.eqb c)).

(** [r?], [r{n}], [r{,n}], [r{m,n}], [r{m,}] and [r+], all greedy. *)
Definition opt (r : regex) : regex := Alt r Empty.
Fixpoint times (n : nat) (r : regex) : regex :=
  match n with O => Empty | S n => Seq r (times n r) end.
Fixpoint up_to (n : nat) (r : regex) : regex :=
  match n with O => Empty | S n => opt (Seq r (up_to n r)) end.
Definition between (m n : nat) (r : regex) : regex := Seq (times m r) (up_to (n - m) r).
Definition at_least (m : nat) (r : regex) : regex := Seq (times m r) (Star r).
Definition plus (r : regex) : regex := at_least 1 r.

(** ** The matcher *)

(** Whether a position is between a word and a non-word character. *)
Definition at_boundary (prev : option ascii) (s : text) : bool :=
  xorb (match prev with Some c => is_word c | None => false end)
       (match s with c :: _ => is_word c | [] => false end).

(** The end of the text, or of its last line if nothing follows it. *)
Definition at_end (s : text) : bool :=
  match s with [] => true | [c] => Ascii.eqb c "010" | _ => false end.

Definition or_else {A} (x y : option A) : option A := match x with Some a => Some a | None => y end.

(** [match_with r prev s k]: the text left by the first way to match [r] at the
    beginning of [s], which [prev] precedes, such that [k] accepts what is
    left. A repetition goes on only if it consumes something. *)
Fixpoint match_with (r : regex) (prev : option ascii) (s : text)
    (k : option ascii -> text -> option text) {struct r} : option text :=
  match r with
  | Empty => k prev s
  | Chr p => match s with c :: s => if p c then k (Some c) s else None | [] => None end
  | Seq r1 r2 => match_with r1 prev s (fun prev s => match_with r2 prev s k)
  | Alt r1 r2 => or_else (match_with r1 prev s k) (match_with r2 prev s k)
  | Star r =>
      (fix loop (n : nat) (prev : option ascii) (s : text) {struct n} : option text :=
         match n with
         | O => k prev s
         | S n => or_else (match_with r prev s (fun prev' s' =>
                    if (length s' <? length s)%nat then loop n prev' s' else None)) (k prev s)
         end) (length s) prev s
  | WordBoundary => if at_boundary prev s then k prev s else None
  | NotAhead r =>
      match match_with r prev s (fun _ s => Some s) with None => k prev s | Some _ => None end
  | End => if at_end s then k prev s else None
  end.

(** The text left by the match at the beginning of [s]. *)
Definition match_here (r : regex) (prev : option ascii) (s : text) : option text :=
  match_with r prev s (fun _ s => Some s).

(** [re.match(r, s) is not None] *)
Definition re_match (r : regex) (s : text) : bool :=
  match match_here r None s with Some _ => true | None => false end.

(** [[(m.start(), m.end()) for m in r.finditer(s)]], for an expression that
    matches no empty text; [skip] characters belong to the last match. *)
Fixpoint scan (r : regex) (skip pos : nat) (prev : option ascii) (s : text) : list (nat * nat) :=
  match s with
  | [] => []
  | c :: s' =>
      match skip with
      | S skip => scan r skip (S pos) (Some c) s'
      | O =>
          match match_here r prev s with
          | None => scan r O (S pos) (Some c) s'
          | Some rest =>
              let n := (length s - length rest)%nat in
              (pos, (pos + n)%nat) :: scan r (n - 1) (S pos) (Some c) s'
          end
      end
  end.
Definition finditer (r : regex) (s : text) : list (nat * nat) := scan r O O None s.

(** [r.sub(t, s)], for such an expression and a [t] without backslashes. *)
Fixpoint replace (r : regex) (t : text) (skip : nat) (prev : option ascii) (s : text) : text :=
  match s with
  | [] => []
  | c :: s' =>
      match skip with
      | S skip => replace r t skip (Some c) s'
      | O =>
          match match_here r prev s with
          | None => c :: replace r t O (Some c) s'
          | Some rest => t ++ replace r t (length s - length rest - 1) (Some c) s'
          end
      end
  end.
Definition sub (r : regex) (t s : text) : text := replace r t O None s.

(** ** The language of an expression *)

(** The character before what follows [w]. *)
Definition last_of (prev : option ascii) (w : text) : option ascii := or_else (last w) prev.

Inductive iterated (L : option ascii -> text -> text -> Prop) : option ascii -> text -> text -> Prop :=
  | iterated_nil prev rest : iterated L prev [] rest
  | iterated_cons prev w1 w2 rest :
      w1 <> [] -> L prev w1 (w2 ++ rest) -> iterated L (last_of prev w1) w2 rest ->
      iterated L prev (w1 ++ w2) rest.

(** [r] matches [w] between [prev] and [rest]. *)
Fixpoint lang (r : regex) (prev : option ascii) (w rest : text) : Prop :=
  match r with
  | Empty => w = []
  | Chr p => exists c, w = [c] /\ p c = true
  | Seq r1 r2 => exists w1 w2, w = w1 ++ w2 /\ lang r1 prev w1 (w2 ++ rest) /\ lang r2 (last_of prev w1) w2 rest
  | Alt r1 r2 => lang r1 prev w rest \/ lang r2 prev w rest
  | Star r => iterated (lang r) prev w rest
  | WordBoundary => w = [] /\ at_boundary prev rest = true
  | NotAhead r => w = [] /\ forall w' rest', rest = w' ++ rest' -> ~ lang r prev w' rest'
  | End => w = [] /\ at_end rest = true
  end.

(** An expression that matches no empty text, as far as its shape tells. *)
Fixpoint nonempty (r : regex) : bool :=
  match r with
  | Chr _ => true
  | Seq r1 r2 => nonempty r1 || nonempty r2
  | Alt r1 r2 => nonempty r1 && nonempty r2
  | _ => false
  end.

Lemma nonempty_lang r prev w rest : nonempty r = true -> lang r prev w rest -> w <> [].
Proof.
  revert prev w rest. induction r as [|p|r1 IH1 r2 IH2|r1 IH1 r2 IH2|r IH| |r IH|]; simpl;
    intros prev w rest Hn Hl; try done.
  - by destruct Hl as (c & -> & _).
  - destruct Hl as (w1 & w2 & -> & H1 & H2). intros [-> ->]%app_eq_nil.
    apply orb_true_iff in Hn as [Hn|Hn]; [by eapply IH1|by eapply IH2].
  - apply andb_true_iff in Hn as [Hn1 Hn2]. destruct Hl; [by eapply IH1|by eapply IH2].
Qed.

Lemma last_of_app prev w1 w2 : last_of prev (w1 ++ w2) = last_of (last_of prev w1) w2.
Proof. unfold last_of. rewrite last_app. by destruct (last w2). Qed.

(** ** The matcher meets the language *)

(** What a matcher with a continuation owes to a language. *)
Definition meets (run : option ascii -> text -> (option ascii -> text -> option text) -> option text)
    (L : option ascii -> text -> text -> Prop) : Prop :=
  forall prev s k,
    (forall out, run prev s k = Some out ->
       exists w rest, s = w ++ rest /\ L prev w rest /\ k (last_of prev w) rest = Some out) /\
    (run prev s k = None -> forall w rest, s = w ++ rest -> L prev w rest -> k (last_of prev w) rest = None).

Lemma here_meets (L : option ascii -> text -> text -> Prop) (P : option ascii -> text -> bool) :
  (forall prev w rest, L prev w rest <-> w = [] /\ P prev rest = true) ->
  meets (fun prev s k => if P prev s then k prev s else None) L.
Proof.
  intros HL prev s k. destruct (P prev s) eqn:E; split; try done.
  - intros out Hk. exists [], s. by rewrite HL.
  - intros Hk w rest -> [-> _]%HL. done.
  - intros _ w rest -> [-> H]%HL. simpl in E. congruence.
Qed.

Section star.
Context (run : option ascii -> text -> (option ascii -> text -> option text) -> option text).
Context (L : option ascii -> text -> text -> Prop) (k : option ascii -> text -> option text).

Definition star_loop : nat -> option ascii -> text -> option text :=
  fix loop (n : nat) (prev : option ascii) (s : text) {struct n} : option text :=
    match n with
    | O => k prev s
    | S n => or_else (run prev s (fun prev' s' =>
               if (length s' <? length s)%nat then loop n prev' s' else None)) (k prev s)
    end.

Lemma star_loop_sound : meets run L -> forall n prev s out, star_loop n prev s = Some out ->
  exists w rest, s = w ++ rest /\ iterated L prev w rest /\ k (last_of prev w) rest = Some out.
Proof using.
  intros Hr n. induction n as [|n IH]; intros prev s out; simpl; intros H.
  { exists [], s. split_and!; [done|constructor|done]. }
  destruct (run _ _ _) eqn:E; simpl in H.
  - simplify_eq. apply Hr in E as (w1 & rest & -> & H1 & Hk).
    destruct (length rest <? length (w1 ++ rest))%nat eqn:El; [|done].
    apply IH in Hk as (w2 & rest' & -> & H2 & Hk). exists (w1 ++ w2), rest'.
    rewrite last_of_app, <- app_assoc. split_and!; [done| |done]. constructor; [|done..].
    intros ->. simpl in El. rewrite Nat.ltb_irrefl in El. done.
  - exists [], s. split_and!; [done|constructor|done].
Qed.

Lemma star_loop_complete : meets run L -> forall n prev s, (length s <= n)%nat -> star_loop n prev s = None ->
  forall w rest, s = w ++ rest -> iterated L prev w rest -> k (last_of prev w) rest = None.
Proof using.
  intros Hr n. induction n as [|n IH]; intros prev s Hn H w rest -> Hi.
  - rewrite length_app in Hn. by destruct w; [|simpl in Hn; lia].
  - simpl in H. destruct (run _ _ _) eqn:E in H; [done|]. simpl in H.
    destruct Hi as [|prev w1 w2 rest Hne H1 H2]; [done|].
    rewrite <- app_assoc in E, H. rewrite last_of_app.
    pose proof (proj2 (Hr _ _ _) E w1 (w2 ++ rest) eq_refl H1) as Hk. cbn beta in Hk.
    assert (Hl : (0 < length w1)%nat) by (destruct w1; [done|simpl; lia]).
    rewrite (proj2 (Nat.ltb_lt (length (w2 ++ rest)) (length (w1 ++ w2 ++ rest)))) in Hk
      by (rewrite (length_app w1); lia).
    eapply (IH _ (w2 ++ rest)); [|exact Hk|done|done].
    rewrite !length_app in Hn. rewrite length_app. lia.
Qed.
End star.

Lemma match_with_meets r : meets (match_with r) (lang r).
Proof.
  induction r as [|p|r1 IH1 r2 IH2|r1 IH1 r2 IH2|r IH| |r IH|].
  - intros prev s k. simpl. split; [intros out Hk; by exists [], s|]. intros Hk w rest -> ->. done.
  - intros prev [|c s] k; simpl; split; try done.
    + intros _ w rest Hw (c & -> & _). done.
    + intros out Hk. destruct (p c) eqn:E; [|done]. exists [c], s. split_and!; [done|by exists c|done].
    + intros Hk w rest Hw (d & -> & Hd). simplify_eq/=. by rewrite Hd in Hk.
  - intros prev s k. simpl. split.
    + intros out (w1 & rest & -> & H1 & H2)%IH1. apply IH2 in H2 as (w2 & rest' & -> & H2 & Hk).
      exists (w1 ++ w2), rest'. rewrite last_of_app, <- app_assoc. split_and!; [done| |done]. by exists w1, w2.
    + intros Hk w rest -> (w1 & w2 & -> & H1 & H2). rewrite <- app_assoc in Hk. rewrite last_of_app.
      pose proof (proj2 (IH1 _ _ _) Hk w1 (w2 ++ rest) eq_refl H1) as Hk2.
      exact (proj2 (IH2 _ _ _) Hk2 w2 rest eq_refl H2).
  - intros prev s k. simpl. split.
    + intros out. destruct (match_with r1 prev s k) eqn:E; simpl; intros Ho; simplify_eq.
      * apply IH1 in E as (w & rest & ? & ? & ?). exists w, rest. eauto.
      * apply IH2 in Ho as (w & rest & ? & ? & ?). exists w, rest. eauto.
    + destruct (match_with r1 prev s k) eqn:E; simpl; [done|]. intros Ho w rest Hs [Hl|Hl].
      * exact (proj2 (IH1 _ _ _) E w rest Hs Hl).
      * exact (proj2 (IH2 _ _ _) Ho w rest Hs Hl).
  - intros prev s k. split; [by apply star_loop_sound|]. intros H w rest Hs Hi.
    by eapply (star_loop_complete (match_with r) (lang r)).
  - apply (here_meets (lang WordBoundary) at_boundary). done.
  - intros prev s k. simpl.
    pose proof (IH prev s (fun _ s => Some s)) as [Hs Hc]. destruct (match_with r prev s _) as [t|] eqn:E; split.
    + done.
    + intros _ w rest -> [-> Hno]. destruct (Hs t eq_refl) as (w & rest' & Hw & Hl & _).
      by destruct (Hno w rest' Hw).
    + intros out Hk. exists [], s. split_and!; [done|done| |done]. intros w rest' -> Hl.
      by specialize (Hc eq_refl w rest' eq_refl Hl).
    + intros Hk w rest -> [-> _]. done.
  - apply (here_meets (lang End) (fun _ => at_end)). done.
Qed.

(** A match is one of the language, and there is one whenever the language has
    one. *)
Lemma match_here_sound r prev s rest : match_here r prev s = Some rest ->
  exists w, s = w ++ rest /\ lang r prev w rest.
Proof. intros (w & rest' & -> & Hl & Hk)%match_with_meets. simplify_eq. by exists w. Qed.

Lemma match_here_complete r prev w rest : lang r prev w rest -> is_Some (match_here r prev (w ++ rest)).
Proof.
  intros Hl. destruct (match_here r prev (w ++ rest)) eqn:E; [by eexists|].
  by pose proof (proj2 (match_with_meets r _ _ _) E w rest eq_refl Hl).
Qed.

Lemma re_match_iff r s : re_match r s = true <-> exists w rest, s = w ++ rest /\ lang r None w rest.
Proof.
  unfold re_match. split.
  - destruct (match_here r None s) as [rest|] eqn:E; [|done]. intros _.
    apply match_here_sound in E as (w & Hs & Hl). by exists w, rest.
  - intros (w & rest & -> & Hl). by destruct (match_here_complete r None w rest Hl) as [? ->].
Qed.

(** ** Searches *)

(** A span of [content] that [r] matches. *)
Definition occurs_at (r : regex) (content : text) (i j : nat) : Prop :=
  exists a w b, content = a ++ w ++ b /\ i = length a /\ j = (length a + length w)%nat /\
    w <> [] /\ lang r (last_of None a) w b.

Definition before (x y : nat * nat) : Prop := (x.2 <= y.1)%nat.

Lemma last_of_snoc prev a c : last_of prev (a ++ [c]) = Some c.
Proof. unfold last_of. by rewrite last_snoc. Qed.

(** What [scan] finds from a position on. *)
Lemma scan_finds r content : nonempty r = true -> forall s a skip, content = a ++ s -> (skip <= length s)%nat ->
  let l := scan r skip (length a) (last_of None a) s in
  StronglySorted before l /\
  Forall (fun x => (length a + skip <= x.1)%nat /\ occurs_at r content x.1 x.2) l /\
  forall i j, occurs_at r content i j -> (length a + skip <= i)%nat -> exists x, x ∈ l /\ (x.1 <= i < x.2)%nat.
Proof.
  intros Hne s. induction s as [|c s IH]; intros a skip Hc Hk.
  { simpl. split_and!; [constructor..|]. intros i j (a' & w & b & Hc' & -> & _ & Hw & _) Hi.
    rewrite Hc', app_nil_r in Hc. subst a. rewrite !length_app in Hi. destruct w; [done|simpl in Hi; lia]. }
  assert (Hc' : content = (a ++ [c]) ++ s) by by rewrite <- app_assoc.
  assert (Hl : length (a ++ [c]) = S (length a)) by (rewrite length_app; simpl; lia).
  cbn [scan]. destruct skip as [|skip].
  - destruct (match_here r (last_of None a) (c :: s)) as [rest|] eqn:E.
    + apply match_here_sound in E as (w & Hs & Hm). pose proof (nonempty_lang _ _ _ _ Hne Hm) as Hw.
      assert (Hlw : length (c :: s) = (length w + length rest)%nat) by by rewrite Hs, length_app.
      assert (Hpos : (0 < length w)%nat) by (destruct w; [done|simpl; lia]).
      assert (En : (length (c :: s) - length rest)%nat = length w) by lia. cbn zeta. rewrite En.
      destruct (IH (a ++ [c]) (length w - 1)%nat Hc') as (H1 & H2 & H3); [simpl in Hlw; lia|].
      rewrite Hl, last_of_snoc in H1, H2, H3. split_and!.
      * constructor; [done|]. eapply Forall_impl; [exact H2|]. unfold before. simpl. intros x [? _]. lia.
      * constructor.
        { simpl. split; [lia|]. exists a, w, rest. rewrite <- Hs. done. }
        eapply Forall_impl; [exact H2|]. simpl. intros x [? ?]. split; [lia|done].
      * intros i j Ho Hi. destruct (decide (i < length a + length w)%nat).
        { eexists (_, _). split; [left|]. simpl. lia. }
        destruct (H3 i j Ho) as (x & Hx & ?); [lia|]. exists x. split; [by right|done].
    + destruct (IH (a ++ [c]) O Hc') as (H1 & H2 & H3); [lia|]. rewrite Hl, last_of_snoc in H1, H2, H3.
      split_and!; [done| |].
      * eapply Forall_impl; [exact H2|]. simpl. intros x [? ?]. split; [lia|done].
      * intros i j Ho Hi. apply (H3 i j Ho). destruct (decide (i = length a)) as [->|]; [|lia]. exfalso.
        destruct Ho as (a' & w & b & Hab & Hla & _ & Hw & Hm). rewrite Hc in Hab.
        apply app_inj_1 in Hab as [<- Hab]; [|done]. rewrite Hab in E.
        destruct (match_here_complete r _ w b Hm) as [? E']. congruence.
  - destruct (IH (a ++ [c]) skip Hc') as (H1 & H2 & H3); [simpl in Hk; lia|]. rewrite Hl, last_of_snoc in H1, H2, H3.
    split_and!; [done| |].
    + eapply Forall_impl; [exact H2|]. simpl. intros x [? ?]. split; [lia|done].
    + intros i j Ho Hi. apply (H3 i j Ho). lia.
Qed.

(** [finditer] finds occurrences, in order and apart, and every occurrence
    begins within one it finds. *)
Lemma finditer_spec r content : nonempty r = true ->
  StronglySorted before (finditer r content) /\
  Forall (fun x => occurs_at r content x.1 x.2) (finditer r content) /\
  forall i j, occurs_at r content i j -> exists x, x ∈ finditer r content /\ (x.1 <= i < x.2)%nat.
Proof.
  intros Hne. destruct (scan_finds r content Hne content [] O) as (H1 & H2 & H3); [done|lia|].
  split_and!; [done| |].
  - eapply Forall_impl; [exact H2|]. simpl. by intros x [_ ?].
  - intros i j Ho. apply (H3 i j Ho). simpl. lia.
Qed.

Lemma occurs_at_bounds r content i j : occurs_at r content i j -> (i < j <= length content)%nat.
Proof.
  intros (a & w & b & -> & -> & -> & Hw & _). rewrite !length_app. destruct w; [done|simpl; lia].
Qed.

(** Without an occurrence, [sub] changes nothing. *)
Lemma sub_nothing r t content : nonempty r = true -> finditer r content = [] -> sub r t content = content.
Proof.
  intros Hne. unfold finditer, sub. generalize (@None ascii) as prev, O at 2 as pos. revert content.
  intros s. induction s as [|c s IH]; intros prev pos; simpl; [done|].
  destruct (match_here r prev (c :: s)); [done|]. intros H. f_equal. by eapply IH.
Qed.
