(* ===== verification/Privacy.v ===== *)
(** * Personal data and error messages

    [PIIDetector] (adapters/adapter_pii_detector.py), which finds personal data
    in a text and masks it, and [ErrorSanitizer]
    (adapters/adapter_error_sanitizer.py), which redacts error messages and
    dicts. The patterns are those of the code, as expressions of Regex.v. *)

From S2P Require Import Prelude Floats Text Json Regex.

(** [sorted(l, key=...)], where [lt] compares the keys; it is stable. *)
Section sort_by.
Context {A : Type} (lt : A -> A -> bool).

Fixpoint insert_by (x : A) (l : list A) : list A :=
  match l with
  | [] => [x]
  | y :: l' => if lt x y then x :: l else y :: insert_by x l'
  end.
Definition sort_by (l : list A) : list A := fold_left (fun sorted x => insert_by x sorted) l [].

Lemma insert_by_Permutation x l : insert_by x l ≡ₚ x :: l.
Proof. induction l as [|y l IH]; simpl; [done|]. destruct (lt x y); [done|]. rewrite IH. constructor. Qed.

Lemma sort_by_Permutation l : sort_by l ≡ₚ l.
Proof.
  unfold sort_by. change l with ([] ++ l) at 2. generalize (@nil A) as acc.
  induction l as [|x l IH]; intros acc; simpl; [by rewrite app_nil_r|].
  by rewrite IH, insert_by_Permutation, <- Permutation_middle.
Qed.

(** Elements that come in order stay as they are. *)
Lemma insert_by_last x l : Forall (fun y => lt x y = false) l -> insert_by x l = l ++ [x].
Proof. induction 1 as [|y l Hy _ IH]; simpl; [done|]. by rewrite Hy, IH. Qed.

Lemma insert_by_first x l : Forall (fun y => lt x y = true) l -> insert_by x l = x :: l.
Proof. by destruct 1 as [|y l Hy]; simpl; [|rewrite Hy]. Qed.

Lemma sort_by_sorted l : StronglySorted (fun x y => lt y x = false) l -> sort_by l = l.
Proof.
  intros Hs. unfold sort_by. change l with ([] ++ l) at 2. change l with ([] ++ l) in Hs.
  revert Hs. generalize (@nil A) as acc. induction l as [|x l IH]; intros acc Hs; simpl; [by rewrite app_nil_r|].
  rewrite insert_by_last; [rewrite IH; [by rewrite <- app_assoc|by rewrite <- app_assoc]|].
  apply StronglySorted_app in Hs as (H & _ & _). apply Forall_forall. intros y Hy. apply H; [done|left].
Qed.

(** Elements in the opposite order are reversed. *)
Lemma sort_by_reverse l : StronglySorted (fun x y => lt y x = true) l -> sort_by l = reverse l.
Proof.
  intros Hs. unfold sort_by. rewrite <- (app_nil_r (reverse l)).
  assert (Ha : StronglySorted (fun x y => lt y x = true) (reverse [] ++ l)) by done. revert Ha.
  generalize (@nil A) as acc. clear Hs. induction l as [|x l IH]; intros acc Hs; [done|]. cbn [fold_left].
  rewrite insert_by_first.
  - rewrite IH; [by rewrite reverse_cons, <- app_assoc|]. by rewrite reverse_cons, <- app_assoc.
  - apply StronglySorted_app in Hs as (H & _ & _). apply Forall_forall. intros y Hy.
    apply H; [by apply elem_of_reverse|left].
Qed.
End sort_by.

Module Pii.

(** models/utils/model_pii_type.py *)
Inductive PIIType : Type :=
  | EMAIL | PHONE | SSN | CREDIT_CARD | IP_ADDRESS | URL | API_KEY | PASSWORD_HASH | PERSON_NAME | ADDRESS.

#[export] Instance PIIType_eq_dec : EqDecision PIIType.
Proof. solve_decision. Defined.

(** models/utils/model_pii_detector_config.py; the settings of a context
    analysis are not read by the detector. *)
Record ModelPIIDetectorConfig : Type := Config {
  high_confidence : spec_float;
  medium_high_confidence : spec_float;
  medium_confidence : spec_float;
  reduced_confidence : spec_float;
  low_confidence : spec_float;
  max_text_length : nat;
  max_matches_per_type : nat;
}.

Definition default_config : ModelPIIDetectorConfig :=
  Config (float_ratio 98 100) (float_ratio 95 100) (float_ratio 90 100) (float_ratio 75 100)
    (float_ratio 60 100) 50000 100.

Definition config_valid (c : ModelPIIDetectorConfig) : bool :=
  unit_float (high_confidence c) && unit_float (medium_high_confidence c) &&
  unit_float (medium_confidence c) && unit_float (reduced_confidence c) && unit_float (low_confidence c) &&
  (1000 <=? max_text_length c)%nat && (1 <=? max_matches_per_type c)%nat.

Record ModelPIIPatternConfig : Type := PatternConfig {
  pattern : regex;
  confidence : spec_float;
  mask_template : string;
}.

(** ** The patterns, each compiled with [re.IGNORECASE] *)

Definition digits (n : nat) : regex := times n (Chr is_digit).
Definition word_chars (extra : string) : regex := Chr (fun c => is_alnum c || among extra c).
Definition sep : regex := opt (Chr (fun c => among "-." c || is_space c)).
Definition quotes_or_space : regex := Star (Chr (fun c => Ascii.eqb c "034" || is_space c)).

(** [\b(?!(?:000|666|9\d{2}))\d{3}(?!00)\d{2}(?!0000)\d{4}\b] *)
Definition _build_ssn_validation_pattern : regex :=
  let invalid_areas := NotAhead (Alt (lit "000") (Alt (lit "666") (Seq (lit "9") (digits 2)))) in
  let invalid_group := NotAhead (lit "00") in
  let invalid_serial := NotAhead (lit "0000") in
  seq [WordBoundary; invalid_areas; digits 3; invalid_group; digits 2; invalid_serial; digits 4; WordBoundary].

Definition email_pattern : regex :=
  seq [WordBoundary; plus (word_chars "._%+-"); lit "@"; plus (word_chars ".-"); lit ".";
       at_least 2 (Chr (ci (fun c => char_in "A" "Z" c || Ascii.eqb c "|"))); WordBoundary].

(** [(\+1[-.\s]?)?\(?\d{3}\)?[-.\s]?\d{3}[-.\s]?\d{4}] *)
Definition phone_pattern : regex :=
  seq [opt (Seq (lit "+1") sep); opt (lit "("); digits 3; opt (lit ")"); sep; digits 3; sep; digits 4].
(** [\+\d{1,3}[-.\s]?\d{1,4}[-.\s]?\d{1,4}[-.\s]?\d{1,9}] *)
Definition international_phone_pattern : regex :=
  let digits_up_to n := between 1 n (Chr is_digit) in
  seq [lit "+"; digits_up_to 3%nat; sep; digits_up_to 4%nat; sep; digits_up_to 4%nat; sep; digits_up_to 9%nat].

(** [\b\d{3}-\d{2}-\d{4}\b] *)
Definition ssn_pattern : regex :=
  seq [WordBoundary; digits 3; lit "-"; digits 2; lit "-"; digits 4; WordBoundary].

(** [\b4\d{15}\b|\b5[1-5]\d{14}\b|\b3[47]\d{13}\b] *)
Definition credit_card_pattern : regex :=
  Alt (seq [WordBoundary; lit "4"; digits 15; WordBoundary])
    (Alt (seq [WordBoundary; lit "5"; Chr (char_in "1" "5"); digits 14; WordBoundary])
         (seq [WordBoundary; lit "3"; one_of "47"; digits 13; WordBoundary])).

Definition ipv4_pattern : regex :=
  let digits_up_to n := between 1 n (Chr is_digit) in
  seq [WordBoundary; times 3 (Seq (digits_up_to 3%nat) (lit ".")); digits_up_to 3%nat; WordBoundary].
Definition is_hex (c : ascii) : bool := is_digit c || ci (char_in "a" "f") c.
Definition ipv6_pattern : regex :=
  let group := between 1 4 (Chr is_hex) in
  seq [WordBoundary; group; times 7 (Seq (lit ":") group); WordBoundary].

(** [name["\s]*[:=]["\s]*([...]{n,})] *)
Definition assigned (name : regex) (extra : string) (n : nat) : regex :=
  seq [name; quotes_or_space; one_of ":="; quotes_or_space; at_least n (word_chars extra)].

Definition _initialize_patterns (c : ModelPIIDetectorConfig) : list (PIIType * list ModelPIIPatternConfig) :=
  [(EMAIL, [PatternConfig email_pattern (medium_high_confidence c) "***@***.***"]);
   (PHONE, [PatternConfig phone_pattern (medium_confidence c) "***-***-****";
            PatternConfig international_phone_pattern (reduced_confidence c) "+***-***-***"]);
   (SSN, [PatternConfig ssn_pattern (high_confidence c) "***-**-****";
          PatternConfig _build_ssn_validation_pattern (reduced_confidence c) "*********"]);
   (CREDIT_CARD, [PatternConfig credit_card_pattern (medium_confidence c) "****-****-****-****"]);
   (IP_ADDRESS, [PatternConfig ipv4_pattern (medium_confidence c) "***.***.***.***";
                 PatternConfig ipv6_pattern (medium_confidence c) "****:****:****:****"]);
   (API_KEY,
     [PatternConfig (assigned (seq [lit_ci "api"; opt (one_of "_-"); lit_ci "key"]) "-_" 16)
        (medium_high_confidence c) "api_key=***REDACTED***";
      PatternConfig (assigned (lit_ci "token") "-_" 20) (medium_confidence c) "token=***REDACTED***";
      PatternConfig (Seq (lit_ci "sk-") (at_least 32 (word_chars ""))) (high_confidence c) "sk-***REDACTED***";
      PatternConfig (Seq (lit_ci "ghp_") (times 36 (word_chars ""))) (high_confidence c) "ghp_***REDACTED***";
      PatternConfig (Seq (lit_ci "AIza") (times 35 (word_chars "-_"))) (high_confidence c) "AIza***REDACTED***";
      PatternConfig (Seq (lit_ci "AWS") (at_least 16 (word_chars ""))) (medium_high_confidence c) "AWS***REDACTED***"]);
   (PASSWORD_HASH,
     [PatternConfig (assigned (lit_ci "password") "-_$./" 20) (medium_confidence c) "password=***REDACTED***"])].

(** ** Detection *)

(** models/utils/model_pii_match.py *)
Record ModelPIIMatch : Type := Match {
  pii_type : PIIType;
  match_value : text;
  start_index : nat;
  end_index : nat;
  match_confidence : spec_float;
  masked_value : string;
}.

(** models/utils/model_pii_detection_result.py; [pii_types_detected] is a
    set. *)
Record ModelPIIDetectionResult : Type := Result {
  has_pii : bool;
  matches : list ModelPIIMatch;
  sanitized_content : text;
  pii_types_detected : list PIIType;
  scan_duration_ms : spec_float;
}.

Definition slice (content : text) (i j : nat) : text := take (j - i) (drop i content).

Definition threshold (c : ModelPIIDetectorConfig) (sensitivity_level : string) : spec_float :=
  if bool_decide (sensitivity_level = "low") then medium_high_confidence c
  else if bool_decide (sensitivity_level = "medium") then reduced_confidence c
  else if bool_decide (sensitivity_level = "high") then low_confidence c
  else reduced_confidence c.

Definition to_match (content : text) (ty : PIIType) (p : ModelPIIPatternConfig) (span : nat * nat) : ModelPIIMatch :=
  Match ty (slice content span.1 span.2) span.1 span.2 (confidence p) (mask_template p).

(** The patterns of a type, [n] matches of the type having been found. *)
Fixpoint scan_type (c : ModelPIIDetectorConfig) (bar : spec_float) (content : text) (ty : PIIType)
    (n : nat) (ps : list ModelPIIPatternConfig) : list ModelPIIMatch :=
  match ps with
  | [] => []
  | p :: ps =>
      if SFltb (confidence p) bar then scan_type c bar content ty n ps
      else
        let found := take (max_matches_per_type c - n) (finditer (pattern p) content) in
        map (to_match content ty p) found ++ scan_type c bar content ty (n + length found) ps
  end.

Definition scan_all (c : ModelPIIDetectorConfig) (bar : spec_float) (content : text) : list ModelPIIMatch :=
  concat (map (fun tp => scan_type c bar content tp.1 0 tp.2) (_initialize_patterns c)).

Definition overlaps (m existing : ModelPIIMatch) : bool :=
  (start_index m <? end_index existing)%nat && (start_index existing <? end_index m)%nat.

(** [(x.start_index, -x.confidence)] *)
Definition by_start_and_confidence (x y : ModelPIIMatch) : bool :=
  (start_index x <? start_index y)%nat ||
  ((start_index x =? start_index y)%nat && SFltb (match_confidence y) (match_confidence x)).

Definition keep (deduplicated : list ModelPIIMatch) (m : ModelPIIMatch) : list ModelPIIMatch :=
  if existsb (overlaps m) deduplicated then deduplicated else deduplicated ++ [m].

Definition _deduplicate_matches (ms : list ModelPIIMatch) : list ModelPIIMatch :=
  fold_left keep (sort_by by_start_and_confidence ms) [].

Definition by_start (x y : ModelPIIMatch) : bool := (start_index x <? start_index y)%nat.
Definition by_start_reverse (x y : ModelPIIMatch) : bool := (start_index y <? start_index x)%nat.

Definition mask_one (sanitized : text) (m : ModelPIIMatch) : text :=
  take (start_index m) sanitized ++ of_string (masked_value m) ++ drop (end_index m) sanitized.
Definition _sanitize_content (content : text) (ms : list ModelPIIMatch) : text :=
  fold_left mask_one (sort_by by_start_reverse ms) content.

Definition ValidationError (msg : string) : exn := OtherException "ValidationError" msg.

(** [elapsed] is the time the scan took, in milliseconds, by the system's
    clock. *)
Definition detect_pii (c : ModelPIIDetectorConfig) (content : text) (sensitivity_level : string)
    (elapsed : spec_float) : res ModelPIIDetectionResult :=
  if (max_text_length c <? length content)%nat then
    Raise (ValueError ("Content length " +:+ pretty (length content) +:+ " exceeds max " +:+ pretty (max_text_length c)))
  else
    let found := scan_all c (threshold c sensitivity_level) content in
    let types := remove_dups (map pii_type found) in
    let ms := sort_by by_start (_deduplicate_matches found) in
    let sanitized := match ms with [] => content | _ => _sanitize_content content ms end in
    let has := (0 <? length ms)%nat in
    if negb (SFleb zero elapsed) then Raise (ValidationError "scan_duration_ms")
    else if negb (eqb has ((0 <? length ms)%nat || (0 <? length types)%nat)) then
      Raise (ValidationError "has_pii must reflect matches or pii_types_detected")
    else Ok (Result has ms sanitized types elapsed).

Definition is_content_safe (c : ModelPIIDetectorConfig) (content : text) (max_pii_count : Z)
    (elapsed : spec_float) : res bool :=
  match detect_pii c content "high" elapsed with
  | Ok result => Ok (Z.of_nat (length (matches result)) <=? max_pii_count)
  | Raise e => Raise e
  end.

End Pii.

Module PiiFacts.
Import Pii.

(** ** What a scan finds *)

(** A pattern the detector looks for, of a type. *)
Definition sought (c : ModelPIIDetectorConfig) (bar : spec_float) (ty : PIIType) (p : ModelPIIPatternConfig) : Prop :=
  exists ps, (ty, ps) ∈ _initialize_patterns c /\ p ∈ ps /\ SFltb (confidence p) bar = false.

(** A match as the detector reports it. *)
Definition genuine (c : ModelPIIDetectorConfig) (bar : spec_float) (content : text) (m : ModelPIIMatch) : Prop :=
  exists p, sought c bar (pii_type m) p /\ occurs_at (pattern p) content (start_index m) (end_index m) /\
    m = to_match content (pii_type m) p (start_index m, end_index m).

Lemma patterns_nonempty c ty ps p : (ty, ps) ∈ _initialize_patterns c -> p ∈ ps -> nonempty (pattern p) = true.
Proof.
  intros Hps Hp.
  assert (H : Forall (fun tp => Forall (fun p => nonempty (pattern p) = true) tp.2) (_initialize_patterns c)).
  { unfold _initialize_patterns. repeat constructor. }
  rewrite Forall_forall in H. specialize (H _ Hps). rewrite Forall_forall in H. by apply H.
Qed.

Lemma scan_type_genuine c bar content ty ps n :
  (forall p, p ∈ ps -> nonempty (pattern p) = true) ->
  Forall (fun m => exists p, p ∈ ps /\ SFltb (confidence p) bar = false /\ pii_type m = ty /\
    occurs_at (pattern p) content (start_index m) (end_index m) /\
    m = to_match content ty p (start_index m, end_index m)) (scan_type c bar content ty n ps).
Proof.
  revert n. induction ps as [|p ps IH]; intros n Hne; simpl; [constructor|].
  assert (Hlater : forall n, Forall (fun m => exists q, q ∈ p :: ps /\ SFltb (confidence q) bar = false /\
    pii_type m = ty /\ occurs_at (pattern q) content (start_index m) (end_index m) /\
    m = to_match content ty q (start_index m, end_index m)) (scan_type c bar content ty n ps)).
  { intros k. eapply Forall_impl; [apply IH; intros; apply Hne; by right|]. simpl.
    intros m (q & Hq & H). exists q. split; [by right|done]. }
  destruct (SFltb (confidence p) bar) eqn:E; [apply Hlater|]. apply Forall_app. split; [|apply Hlater].
  apply Forall_map, Forall_forall. intros [i j] Hx%take_elem. exists p.
  pose proof (finditer_spec (pattern p) content (Hne p ltac:(left))) as (_ & Hf & _).
  rewrite Forall_forall in Hf. specialize (Hf _ Hx). simpl. by split_and!; [left| | | |].
Qed.

Lemma scan_all_genuine c bar content : Forall (genuine c bar content) (scan_all c bar content).
Proof.
  unfold scan_all. apply Forall_concat, Forall_map, Forall_forall. intros [ty ps] Hps.
  eapply Forall_impl; [apply scan_type_genuine; intros p; by eapply patterns_nonempty|]. simpl.
  intros m (p & Hp & Hb & <- & Ho & Hm). exists p. split; [by exists ps|done].
Qed.

(** Where a pattern occurs, the scan finds something of its type. *)
Lemma scan_type_finds c bar content ty p ps n i j : (n < max_matches_per_type c)%nat ->
  p ∈ ps -> SFltb (confidence p) bar = false -> nonempty (pattern p) = true -> occurs_at (pattern p) content i j ->
  scan_type c bar content ty n ps <> [].
Proof.
  revert n. induction ps as [|q ps IH]; intros n Hn Hp Hb Hne Ho; simpl; [by apply elem_of_nil in Hp|].
  apply elem_of_cons in Hp as [<-|Hp].
  - rewrite Hb. destruct (finditer_spec (pattern p) content Hne) as (_ & _ & H).
    destruct (H i j Ho) as (x & Hx & _). destruct (finditer (pattern p) content) as [|y l]; [by apply elem_of_nil in Hx|].
    destruct (max_matches_per_type c - n)%nat eqn:E; [lia|]. done.
  - destruct (SFltb (confidence q) bar); [by apply IH|]. destruct (finditer (pattern q) content) as [|y l]; simpl.
    + rewrite take_nil. simpl. rewrite Nat.add_0_r. by apply IH.
    + by destruct (max_matches_per_type c - n)%nat eqn:E; [lia|].
Qed.

Lemma scan_all_empty c bar content : (1 <= max_matches_per_type c)%nat ->
  scan_all c bar content = [] <-> forall ty p i j, sought c bar ty p -> ~ occurs_at (pattern p) content i j.
Proof.
  intros Hmax. split.
  - intros H ty p i j (ps & Hps & Hp & Hb) Ho.
    apply (scan_type_finds c bar content ty p ps 0 i j); [lia|done|done|by eapply patterns_nonempty|done|].
    unfold scan_all in H. apply elem_of_nil_inv. intros m Hm.
    assert (Hin : m ∈ concat (map (fun tp => scan_type c bar content tp.1 0 tp.2) (_initialize_patterns c))).
    { apply list_elem_of_In, in_concat. eexists. split; [apply in_map_iff; eexists (ty, ps)|]; [|by apply list_elem_of_In].
      split; [done|]. by apply list_elem_of_In. }
    rewrite H in Hin. by apply elem_of_nil in Hin.
  - intros H. pose proof (scan_all_genuine c bar content) as Hg.
    destruct (scan_all c bar content) as [|m l]; [done|]. apply Forall_cons in Hg as [(p & Hp & Ho & _) _].
    by destruct (H _ _ _ _ Hp Ho).
Qed.

(** ** Removing overlaps *)

Definition apart (x y : ModelPIIMatch) : Prop := (end_index x <= start_index y)%nat.
Definition proper (m : ModelPIIMatch) : Prop := (start_index m < end_index m)%nat.

Lemma genuine_proper c bar content m : genuine c bar content m -> proper m /\ (end_index m <= length content)%nat.
Proof. intros (p & _ & Ho & _). apply occurs_at_bounds in Ho. unfold proper. lia. Qed.

Lemma by_start_and_confidence_trans_start x y : by_start_and_confidence x y = false ->
  (start_index y <= start_index x)%nat.
Proof.
  unfold by_start_and_confidence. intros H. apply orb_false_iff in H as [H _]. by apply Nat.ltb_ge in H.
Qed.

(** Sorting puts the starts in order. *)
Lemma insert_by_starts x l : StronglySorted (fun a b => (start_index a <= start_index b)%nat) l ->
  StronglySorted (fun a b => (start_index a <= start_index b)%nat) (insert_by by_start_and_confidence x l).
Proof.
  induction 1 as [|y l Hs IH Hf]; simpl; [by repeat constructor|].
  destruct (by_start_and_confidence x y) eqn:E.
  - assert (Hxy : (start_index x <= start_index y)%nat).
    { unfold by_start_and_confidence in E. apply orb_true_iff in E as [E|E].
      - apply Nat.ltb_lt in E. lia.
      - apply andb_true_iff in E as [E _]. apply Nat.eqb_eq in E. lia. }
    constructor; [by constructor|]. constructor; [done|]. eapply Forall_impl; [exact Hf|]. simpl. lia.
  - apply by_start_and_confidence_trans_start in E. constructor; [done|].
    rewrite insert_by_Permutation. by constructor.
Qed.

Lemma sort_starts l :
  StronglySorted (fun a b => (start_index a <= start_index b)%nat) (sort_by by_start_and_confidence l).
Proof.
  unfold sort_by. generalize (SSorted_nil (fun a b => (start_index a <= start_index b)%nat)).
  generalize (@nil ModelPIIMatch) as acc. induction l as [|x l IH]; intros acc Ha; simpl; [done|].
  by apply IH, insert_by_starts.
Qed.

Lemma keep_incl kept l m : m ∈ kept -> m ∈ fold_left keep l kept.
Proof.
  revert kept. induction l as [|x l IH]; intros kept Hm; simpl; [done|]. apply IH. unfold keep.
  case_match; [done|]. apply elem_of_app. by left.
Qed.

Lemma keep_spec l : StronglySorted (fun a b => (start_index a <= start_index b)%nat) l -> Forall proper l ->
  forall kept, StronglySorted apart kept -> Forall proper kept ->
  (forall k m, k ∈ kept -> m ∈ l -> (start_index k <= start_index m)%nat) ->
  StronglySorted apart (fold_left keep l kept) /\
  (forall m, m ∈ fold_left keep l kept -> m ∈ kept \/ m ∈ l) /\
  (forall m, m ∈ l -> exists k, k ∈ fold_left keep l kept /\ overlaps m k = true).
Proof.
  induction 1 as [|x l Hs IH Hf]; intros Hp kept Hk Hkp Hord; simpl.
  { split_and!; [done|by left|]. by intros m ?%elem_of_nil. }
  apply Forall_cons in Hp as [Hx Hp]. rewrite Forall_forall in Hf.
  destruct (existsb (overlaps x) kept) eqn:E.
  - unfold keep at 2 4 6. rewrite E. destruct (IH Hp kept Hk Hkp) as (H1 & H2 & H3).
    { intros k m Hkin Hm. apply Hord; [done|by right]. }
    split_and!; [done| |].
    + intros m Hm. destruct (H2 m Hm); [by left|]. right. by right.
    + intros m [->|Hm]%elem_of_cons; [|by apply H3]. apply existsb_exists in E as (k & Hkin & Ho).
      exists k. split; [|done]. by apply keep_incl, list_elem_of_In.
  - unfold keep at 2 4 6. rewrite E. destruct (IH Hp (kept ++ [x])) as (H1 & H2 & H3).
    + apply StronglySorted_app. split_and!; [|done|by repeat constructor].
      intros k y Hkin ->%list_elem_of_singleton. unfold apart.
      assert (Ho : overlaps x k = false).
      { destruct (overlaps x k) eqn:Eo; [|done]. rewrite <- E. symmetry. apply existsb_exists.
        exists k. split; [by apply list_elem_of_In|done]. }
      unfold overlaps in Ho. apply andb_false_iff in Ho. rewrite !Nat.ltb_ge in Ho.
      specialize (Hord k x Hkin ltac:(left)). rewrite Forall_forall in Hkp. specialize (Hkp k Hkin).
      unfold proper in *. lia.
    + apply Forall_app. by repeat constructor.
    + intros k m [Hkin| ->%list_elem_of_singleton]%elem_of_app Hm; [apply Hord; [done|by right]|by apply Hf].
    + split_and!; [done| |].
      * intros m Hm. destruct (H2 m Hm) as [[?| ->%list_elem_of_singleton]%elem_of_app|]; [by left|right; left|right; by right].
      * intros m [->|Hm]%elem_of_cons; [|by apply H3]. exists x. split; [apply keep_incl, elem_of_app; right; left|].
        unfold overlaps. unfold proper in Hx. by rewrite !(proj2 (Nat.ltb_lt _ _) Hx).
Qed.

(** What is kept lies apart, and touches all that was found. *)
Lemma deduplicate_spec ms : Forall proper ms ->
  StronglySorted apart (_deduplicate_matches ms) /\
  (forall m, m ∈ _deduplicate_matches ms -> m ∈ ms) /\
  (forall m, m ∈ ms -> exists k, k ∈ _deduplicate_matches ms /\ overlaps m k = true).
Proof.
  intros Hp. destruct (keep_spec (sort_by by_start_and_confidence ms) (sort_starts ms)) with (kept := @nil ModelPIIMatch)
    as (H1 & H2 & H3).
  - by rewrite sort_by_Permutation.
  - constructor.
  - constructor.
  - by intros k m ?%elem_of_nil.
  - split_and!; [done| |].
    + intros m [Hm%elem_of_nil|Hm]%H2; [done|]. by rewrite sort_by_Permutation in Hm.
    + intros m Hm. apply H3. by rewrite sort_by_Permutation.
Qed.

(** ** Masking *)

(** [content] from [pos] on, with the masks in the places of the matches. *)
Fixpoint filled (content : text) (pos : nat) (ms : list ModelPIIMatch) : text :=
  match ms with
  | [] => drop pos content
  | m :: ms => slice content pos (start_index m) ++ of_string (masked_value m) ++ filled content (end_index m) ms
  end.

(** Masks put in from the last to the first do not move the others. *)
Lemma mask_from_last content ms pos : StronglySorted apart ms -> Forall proper ms ->
  Forall (fun m => (pos <= start_index m)%nat /\ (end_index m <= length content)%nat) ms -> (pos <= length content)%nat ->
  fold_left mask_one (reverse ms) content = take pos content ++ filled content pos ms.
Proof.
  intros Hs. revert pos. induction Hs as [|m ms Hs IH Hf]; intros pos Hp Hb Hpos; simpl.
  { by rewrite take_drop. }
  apply Forall_cons in Hp as [Hm Hp]. apply Forall_cons in Hb as [[Hb1 Hb2] Hb]. unfold proper in Hm.
  rewrite reverse_cons, fold_left_app. simpl. rewrite (IH (end_index m)); [|done| |done].
  - unfold mask_one, slice. rewrite !take_app, !drop_app, !take_take, length_take.
    replace (start_index m `min` end_index m)%nat with (start_index m) by lia.
    replace (start_index m - end_index m `min` length content)%nat with O by lia.
    replace (end_index m - end_index m `min` length content)%nat with O by lia.
    rewrite take_0, app_nil_r, drop_0, (drop_ge (take _ _)) by (rewrite length_take; lia). simpl.
    rewrite <- (take_drop pos (take (start_index m) content)) at 1.
    rewrite take_take, (Nat.min_l pos) by lia. rewrite <- app_assoc. f_equal.
    by rewrite skipn_firstn_comm.
  - rewrite Forall_forall in Hf |- *. rewrite Forall_forall in Hb. intros x Hx. split; [by apply Hf|by apply Hb].
Qed.

Lemma apart_by_start ms : StronglySorted apart ms -> Forall proper ms ->
  StronglySorted (fun x y => by_start_reverse y x = true) ms /\ StronglySorted (fun x y => by_start y x = false) ms.
Proof.
  intros Hs Hp. rewrite Forall_forall in Hp.
  split; (eapply sorted_weaken; [|exact Hs]); intros x y Hx Hy Ha; specialize (Hp _ Hx); unfold apart, proper in *.
  - apply Nat.ltb_lt. lia.
  - apply Nat.ltb_ge. lia.
Qed.

(** ** The detector *)

Lemma detect_runs c content level elapsed :
  (length content <= max_text_length c)%nat -> SFleb zero elapsed = true ->
  let found := scan_all c (threshold c level) content in
  exists r, detect_pii c content level elapsed = Ok r /\ matches r = _deduplicate_matches found /\
    StronglySorted apart (matches r) /\ Forall (genuine c (threshold c level) content) (matches r) /\
    (forall m, m ∈ found -> exists k, k ∈ matches r /\ overlaps m k = true) /\
    sanitized_content r = filled content 0 (matches r) /\ has_pii r = bool_decide (matches r <> []).
Proof.
  intros Hlen Ht found. unfold detect_pii. rewrite (proj2 (Nat.ltb_ge _ _) Hlen), Ht. simpl negb. cbn iota.
  change (scan_all c (threshold c level) content) with found.
  pose proof (scan_all_genuine c (threshold c level) content) as Hg. change (scan_all _ _ _) with found in Hg.
  assert (Hp : Forall proper found).
  { eapply Forall_impl; [exact Hg|]. intros m Hm. by apply (genuine_proper c (threshold c level) content). }
  destruct (deduplicate_spec found Hp) as (H1 & H2 & H3). set (ms := _deduplicate_matches found) in *.
  assert (Hgm : Forall (genuine c (threshold c level) content) ms).
  { apply Forall_forall. intros m Hm. rewrite Forall_forall in Hg. by apply Hg, H2. }
  assert (Hpm : Forall proper ms).
  { apply Forall_forall. intros m Hm. rewrite Forall_forall in Hp. by apply Hp, H2. }
  destruct (apart_by_start ms H1 Hpm) as [Hr Hb]. rewrite (sort_by_sorted _ ms Hb).
  assert (Hs : match ms with [] => content | _ => _sanitize_content content ms end = filled content 0 ms).
  { destruct ms as [|m ms'] eqn:Em; [done|]. rewrite <- Em in *. unfold _sanitize_content.
    rewrite (sort_by_reverse _ ms Hr), (mask_from_last content ms 0); [done|done|done| |lia].
    eapply Forall_impl; [exact Hgm|]. intros x Hx. apply genuine_proper in Hx. lia. }
  assert (Hty : (0 <? length ms)%nat = false -> (0 <? length (remove_dups (map pii_type found)))%nat = false).
  { rewrite !Nat.ltb_ge. intros Hl. destruct found as [|m l] eqn:Ef; [done|].
    destruct (H3 m) as (k & Hk & _); [left|]. destruct ms; [by apply elem_of_nil in Hk|simpl in Hl; lia]. }
  assert (He : eqb (0 <? length ms)%nat
    ((0 <? length ms)%nat || (0 <? length (remove_dups (map pii_type found)))%nat) = true).
  { destruct (0 <? length ms)%nat eqn:E; [done|]. by rewrite (Hty eq_refl). }
  rewrite He. simpl negb. cbn iota. eexists. split_and!; [done|done|done|done|done|exact Hs|].
  simpl. by destruct ms.
Qed.

(** For a text within the limit, the detector reports genuine
    occurrences of its patterns, in order and apart; the sanitized text is the
    text with exactly the reported spans replaced by their masks; and whatever
    a pattern finds overlaps a reported span, so that it flags the text if
    anything was found. *)
Theorem detect_masks c content level elapsed :
  config_valid c = true -> (length content <= max_text_length c)%nat -> SFleb zero elapsed = true ->
  exists r, detect_pii c content level elapsed = Ok r /\
    StronglySorted apart (matches r) /\ Forall (genuine c (threshold c level) content) (matches r) /\
    sanitized_content r = filled content 0 (matches r) /\ has_pii r = bool_decide (matches r <> []) /\
    (forall m, m ∈ scan_all c (threshold c level) content -> exists k, k ∈ matches r /\ overlaps m k = true) /\
    (has_pii r = false <->
     forall ty p i j, sought c (threshold c level) ty p -> ~ occurs_at (pattern p) content i j).
Proof.
  intros Hc Hl Ht. destruct (detect_runs c content level elapsed Hl Ht) as (r & Hr & Hms & H1 & H2 & H3 & H4 & H5).
  exists r. split_and!; [done..|]. rewrite H5, bool_decide_eq_false, <- scan_all_empty.
  - destruct (scan_all c (threshold c level) content) as [|m l]; [by rewrite Hms; split; [done|intros _ []]|].
    destruct (H3 m) as (k & Hk & _); [left|]. split; [|done]. intros Hn. destruct (matches r); [by apply elem_of_nil in Hk|].
    by destruct Hn.
  - unfold config_valid in Hc. apply andb_true_iff in Hc as [_ Hc]. by apply Nat.leb_le in Hc.
Qed.

(** A text is safe for storage, with no match allowed, just
    when no pattern of the highest sensitivity occurs anywhere in it. *)
Theorem safe_content c content elapsed :
  config_valid c = true -> (length content <= max_text_length c)%nat -> SFleb zero elapsed = true ->
  exists b, is_content_safe c content 0 elapsed = Ok b /\
    (b = true <-> forall ty p i j, sought c (low_confidence c) ty p -> ~ occurs_at (pattern p) content i j).
Proof.
  intros Hc Hl Ht. destruct (detect_runs c content "high" elapsed Hl Ht) as (r & Hr & Hms & _ & _ & H3 & _ & _).
  unfold is_content_safe. rewrite Hr. eexists. split; [done|].
  change (low_confidence c) with (threshold c "high"). rewrite <- scan_all_empty.
  - rewrite Hms, Z.leb_le. destruct (scan_all c (threshold c "high") content) as [|m l]; [done|]. split; [|done].
    intros Hn. destruct (H3 m) as (k & Hk & _); [left|]. rewrite Hms in Hk.
    destruct (_deduplicate_matches (m :: l)); [by apply elem_of_nil in Hk|simpl in Hn; lia].
  - unfold config_valid in Hc. apply andb_true_iff in Hc as [_ Hc]. by apply Nat.leb_le in Hc.
Qed.

End PiiFacts.

(** ** What the detector does with some texts *)

Module PiiDemo.
Import Pii PiiFacts.

Definition mail : text := of_string "write to a.b@x.org now".
Definition run_demo (content : string) (level : string) : option (string * list (nat * nat)) :=
  match detect_pii default_config (of_string content) level zero with
  | Ok r => Some (to_string (sanitized_content r), map (fun m => (start_index m, end_index m)) (matches r))
  | Raise _ => None
  end.

Example masks_mail : run_demo "write to a.b@x.org now" "medium" = Some ("write to ***@***.*** now", [(9, 18)%nat]).
Proof. by vm_compute. Qed.
Example masks_ssn : run_demo "ssn 123-45-6789, 000-12-3456" "low" =
  Some ("ssn ***-**-****, ***-**-****", [(4, 15)%nat; (17, 28)%nat]).
Proof. by vm_compute. Qed.
Example masks_ip : run_demo "from 10.0.0.12:80" "medium" = Some ("from ***.***.***.***:80", [(5, 14)%nat]).
Proof. by vm_compute. Qed.

Lemma detect_masks_witness :
  config_valid default_config = true /\ (length mail <= max_text_length default_config)%nat /\
  SFleb zero zero = true /\
  exists r, detect_pii default_config mail "medium" zero = Ok r /\
    sanitized_content r = filled mail 0 (matches r).
Proof.
  assert (H1 : config_valid default_config = true) by (by vm_compute).
  assert (H2 : (length mail <= max_text_length default_config)%nat) by (apply Nat.leb_le; by vm_compute).
  assert (H3 : SFleb zero zero = true) by done.
  split; [exact H1|]. split; [exact H2|]. split; [exact H3|].
  destruct (detect_masks default_config mail "medium" zero H1 H2 H3) as (r & Hr & _ & _ & Hf & _).
  exists r. split; assumption.
Defined.

Lemma safe_content_witness :
  config_valid default_config = true /\ (length mail <= max_text_length default_config)%nat /\
  SFleb zero zero = true /\ exists b, is_content_safe default_config mail 0 zero = Ok b.
Proof.
  assert (H1 : config_valid default_config = true) by (by vm_compute).
  assert (H2 : (length mail <= max_text_length default_config)%nat) by (apply Nat.leb_le; by vm_compute).
  assert (H3 : SFleb zero zero = true) by done.
  split; [exact H1|]. split; [exact H2|]. split; [exact H3|].
  destruct (safe_content default_config mail zero H1 H2 H3) as (b & Hb & _). by exists b.
Defined.

(** The digits of a card number are first read as a telephone number, which
    begins where the card number begins and is as certain: the last six stay
    in the sanitized text. *)
Example card_leaks_digits :
  run_demo "card 4111111111111111" "medium" = Some ("card ***-***-****111111", [(5, 15)%nat]).
Proof. by vm_compute. Qed.

(** Of two matches that overlap the first is kept, not the more certain. *)
Example overlap_keeps_first :
  run_demo "+1 sk-123-45-6789" "medium" = Some ("+1 sk-***-**-****", [(6, 17)%nat]) /\
  run_demo "12.123-45-6789" "medium" = Some ("12.***-**-****", [(3, 14)%nat]) /\
  run_demo "555-123-4567-89-1234" "medium" = Some ("***-***-****-89-1234", [(0, 12)%nat]).
Proof. by vm_compute. Qed.

(** A clock that is set back during the scan makes it raise. *)
Example clock_set_back :
  detect_pii default_config mail "medium" (float_of_Z (-1)) = Raise (ValidationError "scan_duration_ms").
Proof. by vm_compute. Qed.

(** A DISCOVER card is not known, as the comment says; a full IPv6 address is. *)
Example masks_ipv6 : run_demo "2001:0db8:85a3:0000:0000:8a2e:0370:7334" "medium" =
  Some ("****:****:****:****", [(0, 39)%nat]).
Proof. by vm_compute. Qed.

End PiiDemo.

(** ** Error messages *)

Module Sanitizer.

Inductive SanitizationLevel : Type := MINIMAL | STANDARD | STRICT | AUDIT.

Definition quote_char (c : ascii) : bool := Ascii.eqb c "039" || Ascii.eqb c "034".
Definition spaces : regex := Star (Chr is_space).
Definition nonspace : regex := none_of is_space.

(** [\bname\s*[=:]\s*['"]?([^\s'"]+)], ignoring case. *)
Definition credential (name : regex) : regex :=
  seq [WordBoundary; name; spaces; one_of "=:"; spaces; opt (Chr quote_char);
       plus (none_of (fun c => is_space c || quote_char c))].
(** [\bname\s+([^\s]+)] *)
Definition scheme (name : string) : regex :=
  seq [WordBoundary; lit_ci name; plus (Chr is_space); plus nonspace].

Definition _CREDENTIAL_PATTERNS : list regex :=
  [credential (lit_ci "password"); credential (seq [lit_ci "api"; opt (one_of "_-"); lit_ci "key"]);
   credential (lit_ci "secret"); credential (lit_ci "token"); credential (lit_ci "auth");
   scheme "bearer"; scheme "basic"].

(** [name://[^@]+@[^/]+/[^\s]+] *)
Definition url (name : string) (last : regex) : regex :=
  seq [lit_ci name; lit "://"; plus (none_of (Ascii.eqb "@")); lit "@"; plus (none_of (Ascii.eqb "/")); lit "/"; last].
Definition _CONNECTION_STRING_PATTERNS : list regex :=
  [url "postgresql" (plus nonspace); url "mysql" (plus nonspace); url "mongodb" (plus nonspace);
   url "redis" (Star nonspace)].

Definition _IP_ADDRESS_PATTERNS : list regex :=
  let group := between 1 3 (Chr is_digit) in
  let hex := between 1 4 (Chr Pii.is_hex) in
  [seq [WordBoundary; times 3 (Seq group (lit ".")); group; opt (Seq (lit ":") (plus (Chr is_digit))); WordBoundary];
   seq [WordBoundary; times 7 (Seq hex (lit ":")); hex; WordBoundary]].

(** [/[a-zA-Z0-9/_-]+(?:\.[a-zA-Z0-9]+)?] and a drive, a colon, two
    backslashes and more of a path. *)
Definition _FILE_PATH_PATTERNS : list regex :=
  [seq [lit "/"; plus (Pii.word_chars "/_-"); opt (Seq (lit ".") (plus (Pii.word_chars "")))];
   seq [Chr (fun c => char_in "A" "Z" c || char_in "a" "z" c); lit ":\\"; plus (Pii.word_chars "\._-")]].

(** The first of these is not compiled with [re.IGNORECASE]. *)
Definition _PERSONAL_INFO_PATTERNS : list regex :=
  [seq [WordBoundary; plus (Pii.word_chars "._%+-"); lit "@"; plus (Pii.word_chars ".-"); lit ".";
        at_least 2 (Chr (fun c => char_in "A" "Z" c || Ascii.eqb c "|" || char_in "a" "z" c)); WordBoundary];
   Pii.ssn_pattern;
   seq [WordBoundary; Pii.digits 16; WordBoundary]].

Definition _STRICT_NUMBER_PATTERN : regex := plus (Chr is_digit).
Definition _STRICT_IDENTIFIER_PATTERN : regex :=
  seq [WordBoundary; at_least 8 (Pii.word_chars ""); WordBoundary].

Definition _SENSITIVE_PATTERNS : list regex :=
  _CREDENTIAL_PATTERNS ++ _CONNECTION_STRING_PATTERNS ++ _IP_ADDRESS_PATTERNS ++ _FILE_PATH_PATTERNS ++
  _PERSONAL_INFO_PATTERNS.

(** [for pattern in patterns: sanitized = pattern.sub(t, sanitized)] *)
Definition sub_all (t : string) (patterns : list regex) (s : text) : text :=
  fold_left (fun sanitized pattern => sub pattern (of_string t) sanitized) patterns s.

Definition _safe_error_types : list string :=
  ["ValueError"; "TypeError"; "AttributeError"; "KeyError"; "IndexError"; "ImportError"; "ModuleNotFoundError";
   "FileNotFoundError"; "PermissionError"; "TimeoutError"; "ConnectionError"; "HTTPError"; "ValidationError"].
Definition is_safe_error_type (error_type : string) : bool := bool_decide (error_type ∈ _safe_error_types).

Definition prefixed (error_type : string) (s : text) : text := of_string error_type ++ of_string ": " ++ s.

Definition _minimal_sanitize (message : text) (error_type : string) : text :=
  prefixed error_type (sub_all "[REDACTED]" _CREDENTIAL_PATTERNS message).

Definition _standard_sanitize (message : text) (error_type : string) (context : option string) : text :=
  let sanitized := sub_all "[REDACTED]" _CONNECTION_STRING_PATTERNS (sub_all "[REDACTED]" _CREDENTIAL_PATTERNS message) in
  let sanitized :=
    match context with
    | None => sanitized
    | Some context =>
        if bool_decide (context ∈ ["health_check"; "connection_pool"]) then sub_all "[IP:REDACTED]" _IP_ADDRESS_PATTERNS sanitized
        else if bool_decide (context ∈ ["audit"; "security"]) then sub_all "[PII:REDACTED]" _PERSONAL_INFO_PATTERNS sanitized
        else sanitized
    end in
  prefixed error_type sanitized.

(** The redacted message is computed, and left out of the result. *)
Definition _strict_sanitize (message : text) (error_type : string) : text :=
  let sanitized := sub_all "[REDACTED]" _SENSITIVE_PATTERNS message in
  let sanitized := sub _STRICT_NUMBER_PATTERN (of_string "[NUM]") sanitized in
  let sanitized := sub _STRICT_IDENTIFIER_PATTERN (of_string "[ID]") sanitized in
  prefixed error_type (of_string "Connection/operation failed - [DETAILS_REDACTED]").

Definition _audit_sanitize (message : text) (error_type : string) : text :=
  if is_safe_error_type error_type then prefixed error_type (of_string "Operation failed")
  else of_string "Exception: Operation failed - details suppressed for audit".

Definition sanitize_error (level : SanitizationLevel) (error : exn) (context : option string) : text :=
  let error_type := exn_class error in
  let error_message := of_string (exn_str error) in
  match level with
  | MINIMAL => _minimal_sanitize error_message error_type
  | STANDARD => _standard_sanitize error_message error_type context
  | STRICT => _strict_sanitize error_message error_type
  | AUDIT => _audit_sanitize error_message error_type
  end.

(** ** Dicts *)

Definition default_keys : list string :=
  ["password"; "secret"; "token"; "key"; "auth"; "credential"; "api_key"; "access_key"; "private_key"; "session_id"].

(** [t in s], for a text. *)
Definition within (t : string) (s : text) : bool :=
  match find_from 0 (of_string t) s with Some _ => true | None => false end.

Definition sensitive (keys_to_sanitize : list string) (key : text) : bool :=
  existsb (fun s => within s (lower_text key)) keys_to_sanitize.

Definition redacted : text := of_string "[REDACTED]".
Definition _apply_patterns : text -> text := sub_all "[REDACTED]" _SENSITIVE_PATTERNS.

Fixpoint sanitize_value (keys : list string) (value : json) : json :=
  match value with
  | JDict d => JDict (map (fun kv => (kv.1, if sensitive keys kv.1 then JString redacted else sanitize_value keys kv.2)) d)
  | JString t => JString (_apply_patterns t)
  | _ => value
  end.

(** Keys are compared by identity: those of a dict are distinct. *)
Definition sanitize_dict (data : list (text * json)) (keys_to_sanitize : option (list string)) : list (text * json) :=
  let keys := default default_keys keys_to_sanitize in
  map (fun kv => (kv.1, if sensitive keys kv.1 then JString redacted else sanitize_value keys kv.2)) data.

Definition get_error_category (error : exn) : string :=
  let message := lower (exn_str error) in
  let any words := existsb (fun word => contains word message) words in
  if any ["connection"; "timeout"; "network"] then "connectivity"
  else if any ["permission"; "access"; "auth"] then "authorization"
  else if any ["validation"; "invalid"; "format"] then "validation"
  else if bool_decide (exn_class error ∈ ["ValueError"; "TypeError"; "AttributeError"]) then "programming"
  else "system".

End Sanitizer.

Module SanitizerFacts.
Import Sanitizer.

(** [value[k1][k2]...], through dicts. *)
Fixpoint dig (value : json) (path : list text) : option json :=
  match path with
  | [] => Some value
  | k :: path =>
      match value with
      | JDict d => match List.find (fun kv => bool_decide (kv.1 = k)) d with Some kv => dig kv.2 path | None => None end
      | _ => None
      end
  end.

Lemma find_map_keys keys (k : text) (d : list (text * json)) :
  List.find (fun kv => bool_decide (kv.1 = k))
    (map (fun kv => (kv.1, if sensitive keys kv.1 then JString redacted else sanitize_value keys kv.2)) d) =
  (fun kv => (kv.1, if sensitive keys kv.1 then JString redacted else sanitize_value keys kv.2)) <$>
    List.find (fun kv => bool_decide (kv.1 = k)) d.
Proof. induction d as [|kv d IH]; simpl; [done|]. by case_bool_decide. Qed.

Lemma find_key (k : text) (d : list (text * json)) kv : List.find (fun kv => bool_decide (kv.1 = k)) d = Some kv -> kv.1 = k.
Proof. intros [_ H]%List.find_some. by apply bool_decide_eq_true in H. Qed.

Lemma dig_sanitized keys path : forall value,
  Forall (fun k => sensitive keys k = false) path ->
  dig (sanitize_value keys value) path = sanitize_value keys <$> dig value path.
Proof.
  induction path as [|k path IH]; intros value Hp; [done|]. apply Forall_cons in Hp as [Hk Hp].
  destruct value; try done. simpl. rewrite find_map_keys. destruct (List.find _ d) as [kv|] eqn:E; simpl; [|done].
  apply find_key in E as ->. rewrite Hk. by apply IH.
Qed.

Lemma dig_app value p q : dig value (p ++ q) = dig value p ≫= fun v => dig v q.
Proof. revert value. induction p as [|k p IH]; intros value; simpl; [done|]. destruct value; try done. by destruct (List.find _ _). Qed.

(** In a sanitized dict what lies under a key that
    holds a sensitive word, at whatever depth of nested dicts, is redacted;
    along other keys the structure is kept, strings come with the patterns
    replaced, and every other value is the one of the dict. *)
Theorem sanitize_dict_redacts data ks path :
  Forall (fun k => sensitive (default default_keys ks) k = false) path ->
  (dig (JDict (sanitize_dict data ks)) path = sanitize_value (default default_keys ks) <$> dig (JDict data) path) /\
  forall k v, sensitive (default default_keys ks) k = true ->
    dig (JDict (sanitize_dict data ks)) (path ++ [k]) = Some v -> v = JString redacted.
Proof.
  intros Hp. change (JDict (sanitize_dict data ks)) with (sanitize_value (default default_keys ks) (JDict data)).
  split; [by apply dig_sanitized|]. intros k v Hk. rewrite dig_app, dig_sanitized by done.
  destruct (dig (JDict data) path) as [w|]; simpl; [|done]. destruct w; try done. simpl. rewrite find_map_keys.
  destruct (List.find _ d) as [kv|] eqn:E; simpl; [|done]. apply find_key in E as ->. rewrite Hk. by intros [= <-].
Qed.

(** At the two strictest levels the result tells nothing of the message. *)
Lemma strict_levels_hide_message level e e' context context' :
  level = STRICT \/ level = AUDIT -> exn_class e = exn_class e' ->
  sanitize_error level e context = sanitize_error level e' context'.
Proof. intros [->| ->] He; unfold sanitize_error; by rewrite He. Qed.

End SanitizerFacts.

Module SanitizerDemo.
Import Sanitizer SanitizerFacts.

Definition shown (level : SanitizationLevel) (msg : string) (context : option string) : string :=
  to_string (sanitize_error level (RuntimeError msg) context).

Example redacts_credentials :
  shown MINIMAL "login: password = 'x1', Bearer abc" None = "RuntimeError: login: [REDACTED]', [REDACTED]" /\
  shown STANDARD "postgresql://u:p@h/db failed" None = "RuntimeError: [REDACTED] failed" /\
  shown STANDARD "no route to 10.1.2.3:5432" (Some "health_check") = "RuntimeError: no route to [IP:REDACTED]".
Proof. by vm_compute. Qed.

Definition account : list (text * json) :=
  [(of_string "user", JDict [(of_string "Password", JString (of_string "x")); (of_string "age", JInt 3)])].

Lemma sanitize_dict_redacts_witness :
  Forall (fun k => sensitive default_keys k = false) [of_string "user"] /\
  dig (JDict (sanitize_dict account None)) [of_string "user"; of_string "Password"] = Some (JString redacted) /\
  dig (JDict (sanitize_dict account None)) [of_string "user"] =
    Some (JDict [(of_string "Password", JString redacted); (of_string "age", JInt 3)]).
Proof.
  assert (H : Forall (fun k => sensitive default_keys k = false) [of_string "user"]).
  { repeat constructor. }
  destruct (sanitize_dict_redacts account None [of_string "user"] H) as [H1 H2].
  split; [exact H|]. split; [|exact H1].
  destruct (dig (JDict (sanitize_dict account None)) [of_string "user"; of_string "Password"]) as [v|] eqn:E; [|discriminate].
  f_equal. apply (H2 (of_string "Password") v); [reflexivity|exact E].
Defined.

(** A key with a prefix that ends in a letter or an underscore is no word of
    its own: its value is not redacted. *)
Example prefixed_password_kept :
  shown STANDARD "db_password=hunter2" None = "RuntimeError: db_password=hunter2".
Proof. by vm_compute. Qed.

(** A connection string without a database, or with the other name of the
    scheme, keeps its password. *)
Example short_dsn_kept :
  shown STANDARD "postgresql://u:hunter2@h" None = "RuntimeError: postgresql://u:hunter2@h" /\
  shown STANDARD "postgres://u:hunter2@h/db" None = "RuntimeError: postgres://u:hunter2@h/db".
Proof. by vm_compute. Qed.

(** A dict in a list is not looked into. *)
Example list_not_sanitized :
  let users := [(of_string "users", JList [JDict [(of_string "password", JString (of_string "hunter2"))]])] in
  sanitize_dict users None = users.
Proof. by vm_compute. Qed.

(** A path with single backslashes is not one to the pattern. *)
Example windows_path_kept :
  to_string (_apply_patterns (of_string "at C:\Users\eve now")) = "at C:\Users\eve now" /\
  to_string (_apply_patterns (of_string "at C:\\Users\eve now")) = "at [REDACTED] now".
Proof. by vm_compute. Qed.

End SanitizerDemo.
