(* ===== verification/Metrics.v ===== *)
(** * Metrics, correlation and tracing

    The in-process metrics (adapters/adapter_metrics_counter.py): counters,
    histograms and gauges by label values, in bounded storage that drops what
    was used least recently, and their registry; the wrapper that observes
    the operations of a handler (adapters/adapter_observability_wrapper.py);
    and the correlation contexts and active traces
    (adapters/adapter_correlation_context.py). *)

From S2P Require Import Prelude Floats Lifecycle Text Regex Privacy.

(** ** Labels *)

Definition label_map : Type := list (string * string).

(** [labels.get(name, "")]; the names of keyword arguments are distinct. *)
Fixpoint label_get (labels : label_map) (name : string) : string :=
  match labels with
  | [] => ""
  | (k, v) :: labels => if bool_decide (k = name) then v else label_get labels name
  end.

(** [a - b], as a set. *)
Definition minus (a b : list string) : list string := remove_dups (filter (fun x => x ∉ b) a).
Definition sorted_set (l : list string) : list string := sorted_strings (remove_dups l).

Definition LabelValidationError (metric_name : string) (missing extra expected provided : list string) : exn :=
  let errors :=
    (if bool_decide (missing = []) then [] else ["missing required labels: " +:+ repr_strings (sorted_set missing)]) ++
    (if bool_decide (extra = []) then [] else ["unexpected extra labels: " +:+ repr_strings (sorted_set extra)]) in
  OtherException "LabelValidationError"
    ("Label validation failed for metric '" +:+ metric_name +:+ "': " +:+ String.concat "; " errors +:+
     ". Expected labels: " +:+ repr_strings (sorted_set expected) +:+ ", got: " +:+ repr_strings (sorted_set provided)).

(** The lenient mode only logs. *)
Definition validate_metric_labels (labels : label_map) (required_labels : list string)
    (allowed_labels : option (list string)) (metric_name : string) (strict : bool) : res unit :=
  match required_labels with
  | [] => Raise (ValueError "required_labels must not be empty")
  | _ =>
      let allowed := default required_labels allowed_labels in
      let provided := labels.*1 in
      let missing := minus required_labels provided in
      let extra := minus provided allowed in
      if strict && negb (bool_decide (missing = [] /\ extra = [])) then
        Raise (LabelValidationError metric_name missing extra allowed provided)
      else Ok tt
  end.

(** ** Identifiers and metadata *)

(** [^[a-zA-Z0-9\-_]{1,64}$] *)
Definition id_pattern : regex := Seq (between 1 64 (Pii.word_chars "-_")) End.
Definition validate_correlation_id (correlation_id : text) : bool :=
  match correlation_id with [] => false | _ => re_match id_pattern correlation_id end.

(** What [sanitize_metadata_value] tells apart; other values by their text. *)
Inductive value : Type :=
  | VStr (s : text)
  | VBool (b : bool)
  | VInt (z : Z)
  | VFloat (f : spec_float)
  | VNone
  | VOther (shown : text).

Definition dangerous (c : ascii) : bool :=
  among "<>'\" c || Ascii.eqb c "034" || Ascii.eqb c "010" || Ascii.eqb c "013" || Ascii.eqb c "009".
Definition sanitize_str (s : text) : text := take 1000 (sub (Chr dangerous) [] s).
Definition sanitize_metadata_value (v : value) : value :=
  match v with
  | VStr s | VOther s => VStr (sanitize_str s)
  | _ => v
  end.

Definition _sanitize_error (e : exn) : text := Sanitizer.sanitize_error Sanitizer.STANDARD e (Some "observability").

(** ** Storage by label values, bounded, least recently used first *)

Definition KeyError (msg : string) : exn := OtherException "KeyError" msg.
Definition key : Type := list string.

(** [while len(d) >= max_entries: d.popitem(last=False)], on the items of an
    [OrderedDict], oldest first; the items left come with an error. *)
Fixpoint evict {V} (max_entries : Z) (items : list (key * V)) : res (list (key * V)) :=
  match items with
  | [] => if max_entries <=? 0 then Raise (KeyError "'dictionary is empty'") else Ok []
  | _ :: rest => if max_entries <=? Z.of_nat (length items) then evict max_entries rest else Ok items
  end.

Fixpoint item {V} (k : key) (items : list (key * V)) : option V :=
  match items with
  | [] => None
  | (k', v) :: items => if bool_decide (k' = k) then Some v else item k items
  end.

(** [move_to_end(k)] *)
Definition move_to_end {V} (k : key) (v : V) (items : list (key * V)) : list (key * V) :=
  filter (fun kv => kv.1 <> k) items ++ [(k, v)].

(** What [Counter], [Histogram] and [Gauge] have in common. Items refer to
    value objects, which a thread may still update after they are evicted. *)
Record metric (A : Type) : Type := Metric {
  metric_name : string;
  label_names : list string;
  max_entries : Z;
  strict_labels : bool;
  _values : list (key * nat);
  objects : list A;
}.
Arguments Metric {A}. Arguments metric_name {A}. Arguments label_names {A}. Arguments max_entries {A}.
Arguments strict_labels {A}. Arguments _values {A}. Arguments objects {A}.

Section metric.
Context {A : Type} (new_value : A).
Implicit Type m : metric A.

Definition set_items m (items : list (key * nat)) (objs : list A) : metric A :=
  Metric (metric_name m) (label_names m) (max_entries m) (strict_labels m) items objs.

Definition _validate_labels m (labels : label_map) : res unit :=
  if negb (strict_labels m) then Ok tt
  else
    let provided := labels.*1 in
    let missing := minus (label_names m) provided in
    let extra := minus provided (label_names m) in
    let errors :=
      (if bool_decide (missing = []) then [] else ["missing labels: " +:+ repr_strings (sorted_set missing)]) ++
      (if bool_decide (extra = []) then [] else ["extra labels: " +:+ repr_strings (sorted_set extra)]) in
    match errors with
    | [] => Ok tt
    | _ => Raise (ValueError
        ("Label validation failed for metric '" +:+ metric_name m +:+ "': " +:+ String.concat "; " errors +:+
         ". Expected: " +:+ repr_strings (sorted_set (label_names m)) +:+ ", got: " +:+ repr_strings (sorted_set provided)))
    end.

Definition _labels_to_key m (labels : label_map) : key := map (label_get labels) (label_names m).
Definition labels_from_key m (k : key) : res label_map :=
  if (length (label_names m) =? length k)%nat then Ok (zip (label_names m) k)
  else Raise (ValueError "zip() arguments have different lengths").

(** The part of an update under the lock of the metric: the object for the
    labels, made if there is none. *)
Definition locate m (labels : label_map) : res nat * metric A :=
  match _validate_labels m labels with
  | Raise e => (Raise e, m)
  | Ok _ =>
      let k := _labels_to_key m labels in
      match item k (_values m) with
      | Some i => (Ok i, set_items m (move_to_end k i (_values m)) (objects m))
      | None =>
          match evict (max_entries m) (_values m) with
          | Raise e => (Raise e, set_items m [] (objects m))
          | Ok items => (Ok (length (objects m)), set_items m (items ++ [(k, length (objects m))]) (objects m ++ [new_value]))
          end
      end
  end.

(** The part under the lock of the object. *)
Definition update_object (f : A -> A) (i : nat) m : metric A := set_items m (_values m) (alter f i (objects m)).

Definition update m (labels : label_map) (f : A -> A) : res unit * metric A :=
  match locate m labels with
  | (Ok i, m) => (Ok tt, update_object f i m)
  | (Raise e, m) => (Raise e, m)
  end.

(** [get], which counts as a use. *)
Definition read m (labels : label_map) : option A * metric A :=
  let k := _labels_to_key m labels in
  match item k (_values m) with
  | None => (None, m)
  | Some i => (objects m !! i, set_items m (move_to_end k i (_values m)) (objects m))
  end.

Definition get_all m : list (key * A) := omap (fun ki => pair ki.1 <$> objects m !! ki.2) (_values m).
Definition reset m : metric A := set_items m [] (objects m).
End metric.

Module Counter.
Definition DEFAULT_MAX_METRIC_ENTRIES : Z := 10000.
Definition t : Type := metric Z.
Definition new (name : string) (label_names : list string) (max_entries : Z) (strict : bool) : t :=
  Metric name label_names max_entries strict [] [].
Definition inc (m : t) (amount : Z) (labels : label_map) : res unit * t := update 0 m labels (Z.add amount).
Definition get (m : t) (labels : label_map) : Z * t :=
  match read m labels with (v, m) => (default 0 v, m) end.
End Counter.

Module Histogram.
Record HistogramValue : Type := Value {
  bucket_counts : list Z;
  sum_value : spec_float;
  count : Z;
}.
Definition t : Type := metric HistogramValue.

Definition DEFAULT_LATENCY_BUCKETS : list spec_float := map float_of_Z [1; 5; 10; 25; 50; 100; 250; 500; 1000; 2500; 5000; 10000].

(** [HistogramValue(buckets=...)] and its [__post_init__]. *)
Definition new_value (buckets : list spec_float) : HistogramValue :=
  Value (repeat 0 (length buckets + 1)) zero 0.

Fixpoint ascending (buckets : list spec_float) : bool :=
  match buckets with
  | [] => true
  | b :: rest => match rest with [] => true | b' :: _ => negb (SFleb b' b) && ascending rest end
  end.

(** The checks of the constructor; its messages show floats and are left out. *)
Definition new (name : string) (label_names : list string) (buckets : list spec_float) (max_entries : Z)
    (strict : bool) : res t :=
  match buckets with
  | [] => Raise (ValueError "Histogram buckets tuple must not be empty")
  | _ =>
      if existsb (fun bucket => SFleb bucket zero) buckets then Raise (ValueError "Histogram bucket values must be positive")
      else if negb (ascending buckets) then Raise (ValueError "Histogram buckets must be in strictly ascending order")
      else Ok (Metric name label_names max_entries strict [] [])
  end.

(** [zip_with] over the counts of the buckets; the last count is that of all. *)
Definition bump (value : spec_float) (buckets : list spec_float) (counts : list Z) : list Z :=
  zip_with (fun bucket n => if SFleb value bucket then n + 1 else n) buckets counts ++
  map (Z.add 1) (drop (length buckets) counts).

Definition observe_value (buckets : list spec_float) (value : spec_float) (h : HistogramValue) : HistogramValue :=
  Value (bump value buckets (bucket_counts h)) (float_add (sum_value h) value) (count h + 1).

Definition observe (buckets : list spec_float) (m : t) (value : spec_float) (labels : label_map) : res unit * t :=
  update (new_value buckets) m labels (observe_value buckets value).
Definition get (m : t) (labels : label_map) : HistogramValue * t :=
  match read m labels with (v, m) => (default (Value [] zero 0) v, m) end.
End Histogram.

Module Gauge.
Definition t : Type := metric spec_float.
Definition new (name : string) (label_names : list string) (max_entries : Z) (strict : bool) : t :=
  Metric name label_names max_entries strict [] [].
Definition set (m : t) (value : spec_float) (labels : label_map) : res unit * t := update zero m labels (fun _ => value).
Definition get (m : t) (labels : label_map) : spec_float * t :=
  match read m labels with (v, m) => (default zero v, m) end.
End Gauge.

(** ** The registry *)

Record MetricsRegistry : Type := Registry {
  memory_operation_total : Counter.t;
  memory_storage_latency_ms : Histogram.t;
  memory_retrieval_latency_ms : Histogram.t;
  handler_health_status : Gauge.t;
}.

Definition latency (name : string) : Histogram.t :=
  Metric name ["operation"; "handler"] Counter.DEFAULT_MAX_METRIC_ENTRIES false [] [].
Definition _do_initialize : MetricsRegistry :=
  Registry (Counter.new "memory_operation_total" ["operation"; "status"; "handler"] Counter.DEFAULT_MAX_METRIC_ENTRIES false)
    (latency "memory_storage_latency_ms") (latency "memory_retrieval_latency_ms")
    (Gauge.new "handler_health_status" ["handler"] Counter.DEFAULT_MAX_METRIC_ENTRIES false).

Definition _clear_all_metrics (r : MetricsRegistry) : MetricsRegistry :=
  Registry (reset (memory_operation_total r)) (reset (memory_storage_latency_ms r))
    (reset (memory_retrieval_latency_ms r)) (reset (handler_health_status r)).

(** The singleton: [cls._instance], made at its first use. *)
Definition get_registry (instance : option MetricsRegistry) : MetricsRegistry := default _do_initialize instance.
Definition reset_registry (instance : option MetricsRegistry) : option MetricsRegistry := _clear_all_metrics <$> instance.
Definition _reset_instance_for_testing (instance : option MetricsRegistry) : option MetricsRegistry := None.

(** ** Observed operations *)

Module Observability.

(** The context variables of a task. *)
Record context_vars : Type := Vars {
  correlation_id : option text;
  request_id : option text;
  user_id : option text;
  operation : option text;
}.

Record HandlerMetrics : Type := Entry {
  entry_correlation_id : text;
  entry_operation : string;
  entry_handler : string;
  entry_status : string;
  entry_latency_ms : spec_float;
  error_type : option string;
  error_message : option text;
}.

(** A context handed to the body of [correlation_context]. *)
Record CorrelationContext : Type := Context {
  context_correlation_id : text;
  parent_correlation_id : option text;
  context_metadata : list (string * value);
}.

(** What a task sees: its variables, the registry, the log, and [uuid4],
    whose results are the texts [uuids] gives. *)
Record world : Type := World {
  vars : context_vars;
  registry : MetricsRegistry;
  log : list HandlerMetrics;
  uuids : nat -> text;
  drawn : nat;
}.

Definition set_vars (v : context_vars) (w : world) : world := World v (registry w) (log w) (uuids w) (drawn w).
Definition set_registry (r : MetricsRegistry) (w : world) : world := World (vars w) r (log w) (uuids w) (drawn w).
Definition add_log (e : HandlerMetrics) (w : world) : world :=
  World (vars w) (registry w) (log w ++ [e]) (uuids w) (drawn w).
Definition set_correlation_id (id : option text) (w : world) : world :=
  set_vars (Vars id (request_id (vars w)) (user_id (vars w)) (operation (vars w))) w.

Definition uuid4 : M world text := fun w =>
  (Ok (uuids w (drawn w)), World (vars w) (registry w) (log w) (uuids w) (S (drawn w))).

(** [^[a-zA-Z0-9_-]{1,64}$] *)
Definition _HANDLER_NAME_PATTERN : regex := id_pattern.

Definition set_health (handler_name : string) (v : spec_float) (r : MetricsRegistry) : MetricsRegistry :=
  Registry (memory_operation_total r) (memory_storage_latency_ms r) (memory_retrieval_latency_ms r)
    (Gauge.set (handler_health_status r) v [("handler", handler_name)]).2.
Definition count_operation (labels : label_map) (r : MetricsRegistry) : MetricsRegistry :=
  Registry (Counter.inc (memory_operation_total r) 1 labels).2 (memory_storage_latency_ms r)
    (memory_retrieval_latency_ms r) (handler_health_status r).
Definition observe_storage (latency_ms : spec_float) (labels : label_map) (r : MetricsRegistry) : MetricsRegistry :=
  Registry (memory_operation_total r)
    (Histogram.observe Histogram.DEFAULT_LATENCY_BUCKETS (memory_storage_latency_ms r) latency_ms labels).2
    (memory_retrieval_latency_ms r) (handler_health_status r).
Definition observe_retrieval (latency_ms : spec_float) (labels : label_map) (r : MetricsRegistry) : MetricsRegistry :=
  Registry (memory_operation_total r) (memory_storage_latency_ms r)
    (Histogram.observe Histogram.DEFAULT_LATENCY_BUCKETS (memory_retrieval_latency_ms r) latency_ms labels).2
    (handler_health_status r).

(** The constructor of the wrapper. *)
Definition create (handler_name : string) : M world unit :=
  if bool_decide (handler_name = "") then raise (ValueError "handler_name must be a non-empty string")
  else if negb (re_match _HANDLER_NAME_PATTERN (of_string handler_name)) then
    raise (ValueError ("handler_name must contain only alphanumeric characters, underscores, and hyphens (max 64 characters), got: "
      +:+ py_repr handler_name))
  else modify (fun w => set_registry (set_health handler_name one (registry w)) w).

Definition mark_healthy (handler_name : string) (w : world) : world :=
  set_registry (set_health handler_name one (registry w)) w.
Definition mark_unhealthy (handler_name : string) (w : world) : world :=
  set_registry (set_health handler_name zero (registry w)) w.

(** No update of the registry raises: its metrics accept any labels and hold
    at least one entry ([MetricsFacts.update_ok]). *)
Definition _record_metrics (handler_name operation status : string) (latency_ms : spec_float)
    (r : MetricsRegistry) : MetricsRegistry :=
  let r := count_operation [("operation", operation); ("status", status); ("handler", handler_name)] r in
  let labels := [("operation", operation); ("handler", handler_name)] in
  let r :=
    if bool_decide (operation ∈ ["store"; "update"; "delete"]) then observe_storage latency_ms labels r
    else if bool_decide (operation ∈ ["retrieve"; "list"; "search"]) then observe_retrieval latency_ms labels r
    else observe_storage latency_ms labels r in
  set_health handler_name (if bool_decide (status = "success") then one else zero) r.

(** The one log line of an operation; its time stamp and the rounding of the
    latency are left out. *)
Definition _emit_log_event (e : HandlerMetrics) (w : world) : world := add_log e w.

(** The id of an operation: the caller's, if it is one. *)
Definition operation_id (given : option text) : M world text :=
  let! id := match given with Some id => ret id | None => uuid4 end in
  if validate_correlation_id id then ret id else uuid4.

Definition status_of {A} (r : res A) : string * option string * option text :=
  match r with
  | Raise e => if is_Exception e then ("failure", Some (exn_class e), Some (_sanitize_error e)) else ("success", None, None)
  | Ok _ => ("success", None, None)
  end.

(** [async with wrapper.observe_operation(operation, id): body]; [latency_ms]
    is the time between the two readings of the clock. *)
Definition observe_operation {A} (handler_name operation : string) (given : option text) (latency_ms : spec_float)
    (body : text -> M world A) : M world A :=
  let! id := operation_id given in
  fun w =>
    let token := correlation_id (vars w) in
    let (r, w) := body id (set_correlation_id (Some id) w) in
    let '(status, error_type, error_message) := status_of r in
    let w := set_registry (_record_metrics handler_name operation status latency_ms (registry w)) w in
    let w := _emit_log_event (Entry id operation handler_name status latency_ms error_type error_message) w in
    (r, set_correlation_id token w).

(** ** Correlation contexts *)

Definition sanitized_metadata (metadata : list (string * value)) : list (string * value) :=
  omap (fun kv => match sanitize_metadata_value kv.2 with VNone => None | v => Some (kv.1, v) end) metadata.

(** [async with correlation_context(...) as context: body]; the log lines are
    left out. *)
Definition correlation_context {A} (given request_id user_id operation : option text) (metadata : list (string * value))
    (body : CorrelationContext -> M world A) : M world A :=
  let given := match given with Some [] => None | _ => given end in
  do! match given with
      | Some id =>
          if validate_correlation_id id then ret tt
          else raise (ValueError ("Invalid correlation ID format: " +:+ to_string id))
      | None => ret tt
      end;
  let! id := match given with Some id => ret id | None => uuid4 end in
  fun w =>
    let context := Context id (correlation_id (vars w)) (sanitized_metadata metadata) in
    let tokens := vars w in
    let (r, w) := body context (set_vars (Vars (Some id) request_id user_id operation) w) in
    (r, set_vars tokens w).

Definition get_current_context : M world context_vars := gets vars.
Definition get_correlation_id : M world (option text) := gets (fun w => correlation_id (vars w)).
Definition get_request_id : M world (option text) := gets (fun w => request_id (vars w)).

End Observability.

(** ** Active traces *)

Module Traces.

Record PerformanceMetrics : Type := Performance {
  start_time : micros;
  success : option bool;
  trace_error_type : option string;
}.

Record t : Type := Manager {
  max_active_traces : Z;
  _active_traces : list (key * PerformanceMetrics);
}.

(** The ids are keys of one part, as far as the storage is concerned. *)
Definition trace_key (id : string) : key := [id].
Definition with_traces (m : t) (l : list (key * PerformanceMetrics)) : t := Manager (max_active_traces m) l.
Definition change (id : string) (f : PerformanceMetrics -> PerformanceMetrics) (m : t) : t :=
  with_traces m (map (fun kv => if bool_decide (kv.1 = trace_key id) then (kv.1, f kv.2) else kv) (_active_traces m)).

(** The parts of [trace_operation] under the lock, of an operation whose
    performance is traced: its start, its end, its failure and its removal. *)
Definition start (id : string) (now : micros) (m : t) : res unit * t :=
  match evict (max_active_traces m) (_active_traces m) with
  | Raise e => (Raise e, with_traces m [])
  | Ok items => (Ok tt, with_traces m (items ++ [(trace_key id, Performance now None None)]))
  end.
Definition succeed (id : string) : t -> t := change id (fun p => Performance (start_time p) (Some true) (trace_error_type p)).
Definition failed (id : string) (e : exn) : t -> t :=
  change id (fun p => Performance (start_time p) (Some false) (Some (exn_class e))).
Definition finish (id : string) (m : t) : t :=
  with_traces m (filter (fun kv => kv.1 <> trace_key id) (_active_traces m)).

Definition get_performance_metrics (m : t) : list (key * PerformanceMetrics) := _active_traces m.

(** Tasks run [trace_operation] side by side; [Begin] stops before the body if
    the storage raises. *)
Inductive event : Type := Begin (id : string) (now : micros) | Succeed (id : string) | Fail (id : string) (e : exn) | Finish (id : string).

Definition step (s : t * list string) (e : event) : t * list string :=
  let (m, running) := s in
  match e with
  | Begin id now => match start id now m with (Ok _, m) => (m, id :: running) | (Raise _, m) => (m, running) end
  | Succeed id => (succeed id m, running)
  | Fail id e => (if is_Exception e then failed id e m else m, running)
  | Finish id => (finish id m, filter (fun i => i <> id) running)
  end.

End Traces.

Module MetricsFacts.

(** ** The storage *)

Lemma evict_ok {V} n (items : list (key * V)) : 1 <= n -> exists k,
  evict n items = Ok (drop k items) /\ Z.of_nat (length (drop k items)) < n /\
  (Z.of_nat (length items) < n -> k = O).
Proof.
  intros Hn. induction items as [|kv items (k & IH & Hk & _)]; cbn [evict].
  - exists O. rewrite Zleb_F by lia. simpl. split_and!; [done|lia|done].
  - destruct (_ <=? _) eqn:E; breflect.
    + exists (S k). split_and!; [done|done|lia].
    + exists O. simpl in *. split_and!; [done|lia|done].
Qed.

Section item.
Context {V : Type}.
Implicit Types (k : key) (l : list (key * V)).

Lemma item_Some k l v : item k l = Some v -> (k, v) ∈ l.
Proof. induction l as [|[k' v'] l IH]; simpl; [done|]. case_bool_decide as H; intros E; simplify_eq; [left|right; auto]. Qed.

Lemma item_None k l : item k l = None <-> k ∉ l.*1.
Proof.
  induction l as [|[k' v'] l IH]; simpl; [by split; [intros _ ?%elem_of_nil|]|].
  rewrite not_elem_of_cons. case_bool_decide as H; [split; [done|intros [? _]; congruence]|].
  rewrite IH. naive_solver.
Qed.

Lemma item_app k l l' : item k (l ++ l') = match item k l with Some v => Some v | None => item k l' end.
Proof. induction l as [|[k' v'] l IH]; simpl; [done|]. by case_bool_decide. Qed.

Lemma item_filter k k' l : k' <> k -> item k' (filter (fun kv => kv.1 <> k) l) = item k' l.
Proof.
  intros Hne. induction l as [|[k0 v0] l IH]; [done|]. rewrite filter_cons. case_decide as H; simpl in *.
  - by rewrite IH.
  - rewrite IH. case_bool_decide; [|done]. destruct H. congruence.
Qed.

Lemma item_filter_eq k l : item k (filter (fun kv => kv.1 <> k) l) = None.
Proof. apply item_None. intros ((k' & v) & -> & H)%list_elem_of_fmap. by apply list_elem_of_filter in H as [H _]. Qed.

Lemma item_moved k k' v l : item k l = Some v -> item k' (move_to_end k v l) = item k' l.
Proof.
  intros Hk. unfold move_to_end. rewrite item_app. simpl. destruct (decide (k' = k)) as [->|Hne].
  - by rewrite item_filter_eq, bool_decide_true.
  - rewrite item_filter by done. rewrite bool_decide_false by done. by destruct (item k' l).
Qed.

Lemma moved_keys k v l : item k l = Some v -> NoDup l.*1 ->
  NoDup (move_to_end k v l).*1 /\ length (move_to_end k v l) = length l /\ (forall x, x ∈ (move_to_end k v l).*1 <-> x ∈ l.*1).
Proof.
  intros Hk Hnd. apply item_Some in Hk as Hin.
  assert (Hp : l ≡ₚ move_to_end k v l).
  { unfold move_to_end. clear Hk. induction l as [|[k0 v0] l IH]; [by apply elem_of_nil in Hin|].
    apply NoDup_cons in Hnd as [Hk0 Hnd]. apply elem_of_cons in Hin as [Hin|Hin].
    - simplify_eq. rewrite filter_cons_False by (simpl; tauto). rewrite filter_all; [apply Permutation_cons_append|].
      apply Forall_forall. intros kv H Hkv. destruct Hk0. by apply (list_elem_of_fmap_2' fst l kv).
    - rewrite filter_cons_True; [simpl; by rewrite <- IH|]. intros Hkv. destruct Hk0.
      by apply (list_elem_of_fmap_2' fst l (k, v)). }
  split_and!; [by rewrite <- Hp|by rewrite <- Hp|]. intros x. by rewrite <- Hp.
Qed.
End item.

(** ** Metrics *)

(** Keys are distinct, each refers to an object of its own, and there are at
    most as many as allowed. *)
Record wf {A} (m : metric A) : Prop := Wf {
  wf_max : 1 <= max_entries m;
  wf_keys : NoDup (_values m).*1;
  wf_objects : forall k i, item k (_values m) = Some i -> (i < length (objects m))%nat;
  wf_apart : forall k k' i, item k (_values m) = Some i -> item k' (_values m) = Some i -> k = k';
  wf_bound : Z.of_nat (length (_values m)) <= max_entries m;
}.

Section metric.
Context {A : Type} (new_value : A).
Implicit Type m : metric A.

Lemma item_drop k l n i : NoDup l.*1 -> item (V := nat) k (drop n l) = Some i -> item k l = Some i.
Proof.
  revert l. induction n as [|n IH]; intros [|[k0 v0] l]; simpl; try done. intros [Hk0 Hnd]%NoDup_cons H.
  apply IH in H; [|done]. case_bool_decide; [|done]. subst. destruct Hk0.
  apply item_Some in H. apply list_elem_of_fmap. by eexists (_, i).
Qed.

Lemma locate_spec m labels : wf m -> strict_labels m = false ->
  exists i m', locate new_value m labels = (Ok i, m') /\ wf m' /\ item (_labels_to_key m labels) (_values m') = Some i /\
    label_names m' = label_names m /\ max_entries m' = max_entries m /\ strict_labels m' = false /\
    objects m' !! i = Some (default new_value (item (_labels_to_key m labels) (_values m) ≫= fun j => objects m !! j)) /\
    (item (_labels_to_key m labels) (_values m) <> None \/ Z.of_nat (length (_values m)) < max_entries m ->
     forall k, k <> _labels_to_key m labels -> item k (_values m') = item k (_values m)) /\
    (forall j, (j < length (objects m))%nat -> objects m' !! j = objects m !! j) /\
    i = default (length (objects m)) (item (_labels_to_key m labels) (_values m)).
Proof.
  intros [Hmax Hk Ho Ha Hb] Hs. unfold locate, _validate_labels. rewrite Hs. simpl negb. cbn iota.
  set (k := _labels_to_key m labels). destruct (item k (_values m)) as [i|] eqn:E.
  - destruct (moved_keys k i (_values m) E Hk) as (H1 & H2 & H3).
    eexists i, _. split_and!; [done| |..]; simpl; try done.
    + constructor; simpl; [done|done| | |by rewrite H2].
      * intros k' j. rewrite (item_moved k k' i) by done. apply Ho.
      * intros k1 k2 j. rewrite !(item_moved k _ i) by done. apply Ha.
    + by rewrite item_moved.
    + destruct (lookup_lt_is_Some_2 _ _ (Ho _ _ E)) as [x Hx]. by rewrite Hx.
    + intros _ k' _. by rewrite item_moved.
  - destruct (evict_ok (max_entries m) (_values m) Hmax) as (n & He & Hl & Hn). rewrite He.
    assert (Hkd : item k (drop n (_values m)) = None).
    { destruct (item k (drop n (_values m))) as [j|] eqn:Ej; [|done]. apply item_drop in Ej; [|done]. congruence. }
    assert (Hi : forall k' j, item k' (drop n (_values m) ++ [(k, length (objects m))]) = Some j ->
      (k' <> k /\ item k' (_values m) = Some j) \/ (k' = k /\ j = length (objects m))).
    { intros k' j. rewrite item_app. simpl. destruct (item k' (drop n _)) as [j'|] eqn:Ej; intros H; simplify_eq.
      - left. split; [congruence|]. by eapply item_drop.
      - case_bool_decide; simplify_eq. by right. }
    eexists _, _. split_and!; [done| |..]; simpl; try done.
    + constructor; simpl; [done| | | |].
      * rewrite fmap_app. apply NoDup_app. split_and!; [|intros x Hx ->%list_elem_of_singleton; by apply item_None in Hkd|by apply NoDup_singleton].
        rewrite fmap_drop. rewrite <- (take_drop n) in Hk. by apply NoDup_app in Hk as (_ & _ & ?).
      * intros k' j [[_ H%Ho]|[_ ->]]%Hi; rewrite length_app; simpl; lia.
      * intros k1 k2 j [[N1 H1]|[-> E1]]%Hi [[N2 H2]|[-> E2]]%Hi; [by eapply Ha| | |done];
          [apply Ho in H1; lia|apply Ho in H2; lia].
      * rewrite length_app. simpl. lia.
    + rewrite item_app, Hkd. simpl. by rewrite bool_decide_true.
    + by rewrite lookup_app_r, Nat.sub_diag by lia.
    + intros [[]|Hlt] k' Hne; [done|]. rewrite (Hn Hlt). simpl. rewrite drop_0, item_app. simpl.
      rewrite bool_decide_false by done. by destruct (item k' _).
    + intros j Hj. by rewrite lookup_app_l.
Qed.

(** An update of a metric that accepts any labels succeeds. *)
Lemma update_ok m labels f : wf m -> strict_labels m = false ->
  (update new_value m labels f).1 = Ok tt /\ wf (update new_value m labels f).2 /\
  label_names (update new_value m labels f).2 = label_names m /\
  strict_labels (update new_value m labels f).2 = false /\
  (read (update new_value m labels f).2 labels).1 = Some (f (default new_value (read m labels).1)).
Proof.
  intros Hw Hs. destruct (locate_spec m labels Hw Hs) as (i & m' & Hl & [Hmax Hk Ho Ha Hb] & Hi & Hln & Hme & Hst & Hobj & _).
  unfold update. rewrite Hl. simpl. split_and!; [done| |done|done|].
  - constructor; simpl; [done|done| |done|done]. intros k j Hj. rewrite length_alter. by eapply Ho.
  - unfold read, _labels_to_key. simpl. rewrite Hln. change (map (label_get labels) (label_names m)) with (_labels_to_key m labels).
    rewrite Hi. simpl. rewrite list_lookup_alter_eq, Hobj. simpl. do 2 f_equal.
    by destruct (item _ (_values m)).
Qed.
End metric.

(** ** Counters, with updates from several threads

    [Begin] is the part of [inc] under the lock of the counter, [Finish] the
    part under that of the value object. *)

Inductive event : Type := Begin (labels : label_map) (amount : Z) | Finish (n : nat).

Definition step (s : Counter.t * list (nat * Z)) (e : event) : Counter.t * list (nat * Z) :=
  let (m, pending) := s in
  match e with
  | Begin labels amount =>
      match locate 0 m labels with
      | (Ok i, m) => (m, pending ++ [(i, amount)])
      | (Raise _, m) => (m, pending)
      end
  | Finish n =>
      match pending !! n with
      | Some (i, amount) => (update_object (Z.add amount) i m, delete n pending)
      | None => s
      end
  end.

Definition begun (names : list string) (es : list event) : list (key * Z) :=
  omap (fun e => match e with Begin labels amount => Some (map (label_get labels) names, amount) | Finish _ => None end) es.

(** What was asked of a key, and what threads still owe an object. *)
Definition sum_for {K} `{EqDecision K} (k : K) (l : list (K * Z)) : Z :=
  foldr (fun ka total => if bool_decide (ka.1 = k) then ka.2 + total else total) 0 l.

Lemma sum_for_app {K} `{EqDecision K} (k : K) l l' : sum_for k (l ++ l') = sum_for k l + sum_for k l'.
Proof. induction l as [|[k' a] l IH]; simpl; [done|]. rewrite IH. case_bool_decide; lia. Qed.

Lemma sum_for_Permutation {K} `{EqDecision K} (k : K) l l' : l ≡ₚ l' -> sum_for k l = sum_for k l'.
Proof.
  induction 1 as [|x l l' _ IH|x y l|l l' l'' _ IH1 _ IH2]; simpl; [done| | |lia].
  - by rewrite IH.
  - repeat case_bool_decide; lia.
Qed.

Lemma sum_for_absent {K} `{EqDecision K} (k : K) l : k ∉ l.*1 -> sum_for k l = 0.
Proof. induction l as [|[k' a] l IH]; simpl; [done|]. rewrite not_elem_of_cons. intros [? ?]. rewrite bool_decide_false by done. by apply IH. Qed.

Record accounts (K : list key) (m : Counter.t) (pending : list (nat * Z)) (asked : list (key * Z)) : Prop := Accounts {
  ac_wf : wf m;
  ac_lax : strict_labels m = false;
  ac_room : Z.of_nat (length K) <= max_entries m;
  ac_keys : forall k i, item k (_values m) = Some i -> k ∈ K;
  ac_pending : forall i, i ∈ pending.*1 -> exists k, item k (_values m) = Some i;
  ac_sums : forall k, sum_for k asked =
    match item k (_values m) with
    | Some i => default 0 (objects m !! i) + sum_for i pending
    | None => 0
    end;
}.

(** A key of [K] that is not stored leaves room. *)
Lemma accounts_room K m pending asked k : accounts K m pending asked -> k ∈ K -> item k (_values m) = None ->
  Z.of_nat (length (_values m)) < max_entries m.
Proof.
  intros [Hw _ Hr Hk _ _] Hin Hn. destruct (elem_of_Permutation K k) as [H _]. destruct (H Hin) as [K' HK].
  assert (Hsub : (_values m).*1 ⊆ K').
  { intros k' Hk'. destruct (item k' (_values m)) as [i|] eqn:E; [|by apply item_None in E].
    pose proof (Hk _ _ E) as HinK. rewrite HK in HinK. apply elem_of_cons in HinK as [->|?]; [congruence|done]. }
  apply NoDup_submseteq in Hsub; [|apply Hw]. apply submseteq_length in Hsub.
  rewrite length_fmap in Hsub. rewrite HK in Hr. simpl in Hr. lia.
Qed.

Lemma begin_accounts K m pending asked labels amount :
  accounts K m pending asked -> _labels_to_key m labels ∈ K ->
  exists m' pending', step (m, pending) (Begin labels amount) = (m', pending') /\ label_names m' = label_names m /\
    accounts K m' pending' (asked ++ [(_labels_to_key m labels, amount)]).
Proof.
  intros Hacc Hin. pose proof Hacc as [Hw Hl Hr Hk Hp Hs]. set (k := _labels_to_key m labels) in *.
  destruct (locate_spec 0 m labels Hw Hl) as (i & m' & Heq & Hw' & Hi & Hln & Hme & Hst & Hobj & Hoth & Hold & Hnew).
  fold k in Hi, Hobj, Hoth, Hnew. assert (Hroom : item k (_values m) <> None \/ Z.of_nat (length (_values m)) < max_entries m).
  { destruct (item k (_values m)) eqn:E; [by left|right]. by eapply accounts_room. }
  specialize (Hoth Hroom). eexists m', _. unfold step. rewrite Heq. split_and!; [done|done|].
  assert (Hkeep : forall k' j, item k' (_values m) = Some j -> item k' (_values m') = Some j).
  { intros k' j Hj. destruct (decide (k' = k)) as [->|Hne]; [|by rewrite Hoth]. rewrite Hi.
    by rewrite Hnew, Hj. }
  constructor; [done|done|by rewrite Hme| | |].
  - intros k' j Hj. destruct (decide (k' = k)) as [->|Hne]; [done|]. rewrite Hoth in Hj by done. by eapply Hk.
  - intros j. rewrite fmap_app. intros [H| ->%list_elem_of_singleton]%elem_of_app; [|by exists k].
    destruct (Hp j H) as [k' Hk']. exists k'. by apply Hkeep.
  - intros k'. rewrite sum_for_app. simpl. destruct (decide (k' = k)) as [->|Hne].
    + rewrite Hi, Hobj, sum_for_app, Hs. simpl. rewrite !bool_decide_true by done.
      destruct (item k (_values m)) as [j|] eqn:Ej; simpl.
      * pose proof (Hkeep _ _ Ej) as Hj. rewrite Hi in Hj. assert (i = j) as <- by congruence. destruct (objects m !! i); simpl; lia.
      * rewrite (sum_for_absent i); [lia|]. intros H. destruct (Hp i H) as [k' Hk'%(wf_objects m Hw)]. simpl in Hnew. lia.
    + rewrite bool_decide_false by done. rewrite Hoth, Hs by done. destruct (item k' (_values m)) as [j|] eqn:Ej; [|lia].
      rewrite sum_for_app. simpl. rewrite bool_decide_false.
      * rewrite Hold by by eapply wf_objects. lia.
      * intros ->. apply Hne, (wf_apart m' Hw' k' k j); [by apply Hkeep|done].
Qed.

Lemma finish_accounts K m pending asked n : accounts K m pending asked ->
  accounts K (step (m, pending) (Finish n)).1 (step (m, pending) (Finish n)).2 asked /\
  label_names (step (m, pending) (Finish n)).1 = label_names m.
Proof.
  intros Hacc. pose proof Hacc as [[Hmax Hnd Ho Ha Hb] Hl Hr Hk Hp Hs]. simpl.
  destruct (pending !! n) as [[i a]|] eqn:En; [|done]. simpl. split; [|done].
  pose proof (delete_Permutation pending n (i, a) En) as Hperm. constructor; simpl; try done.
  - constructor; simpl; try done. intros k j Hj. rewrite length_alter. by eapply Ho.
  - intros j Hj. apply Hp. rewrite Hperm. right. done.
  - intros k. rewrite Hs. destruct (item k (_values m)) as [j|] eqn:Ej; [|done].
    rewrite (sum_for_Permutation j _ _ Hperm). simpl. destruct (lookup_lt_is_Some_2 _ _ (Ho _ _ Ej)) as [x Hx].
    case_bool_decide as Hij.
    + subst j. rewrite list_lookup_alter_eq, Hx. simpl. lia.
    + rewrite list_lookup_alter_ne by done. lia.
Qed.

Lemma run_max es : forall m pending, max_entries (run step (m, pending) es).1 = max_entries m.
Proof.
  induction es as [|e es IH]; intros m pending; [done|].
  assert (H : max_entries (step (m, pending) e).1 = max_entries m).
  { destruct e as [labels amount|n]; simpl.
    - unfold locate. destruct (_validate_labels m labels); [|done]. destruct (item _ _); [done|]. by destruct (evict _ _).
    - by destruct (pending !! n) as [[]|]. }
  change (run step (m, pending) (e :: es)) with (run step (step (m, pending) e) es).
  destruct (step (m, pending) e) as [m' p']. by rewrite IH.
Qed.

Lemma run_counted K names es : forall m pending asked,
  accounts K m pending asked -> label_names m = names -> Forall (fun ka => ka.1 ∈ K) (begun names es) ->
  accounts K (run step (m, pending) es).1 (run step (m, pending) es).2 (asked ++ begun names es) /\
  label_names (run step (m, pending) es).1 = names.
Proof.
  induction es as [|e es IH]; intros m pending asked Hacc Hn Hf; [by rewrite app_nil_r|].
  destruct e as [labels amount|n].
  - apply Forall_cons in Hf as [Hk Hf]. simpl in Hk. rewrite <- Hn in Hk.
    destruct (begin_accounts K m pending asked labels amount Hacc Hk) as (m' & p' & E & Hn' & Hacc').
    change (run step (m, pending) (Begin labels amount :: es)) with (run step (step (m, pending) (Begin labels amount)) es).
    rewrite E. destruct (IH m' p' _ Hacc') as [H1 H2]; [congruence|done|]. split; [|done].
    rewrite <- app_assoc in H1. unfold _labels_to_key in H1. by rewrite Hn in H1.
  - destruct (finish_accounts K m pending asked n Hacc) as [Hacc' Hn'].
    change (run step (m, pending) (Finish n :: es)) with (run step (step (m, pending) (Finish n)) es).
    destruct (step (m, pending) (Finish n)) as [m' p'] eqn:E. simpl in Hacc', Hn'. apply IH; [done|congruence|done].
Qed.

(** In whatever order threads enter and leave [inc], as long
    as there are no more label combinations than the counter may hold, no
    increment is lost: what a combination was given is what its value shows
    plus what threads have yet to add, and once none are under way [get] is
    the exact total. *)
Theorem counter_exact name names max es :
  1 <= max -> Z.of_nat (length (remove_dups (begun names es).*1)) <= max ->
  let s := run step (Counter.new name names max false, []) es in
  (forall k, sum_for k (begun names es) =
     match item k (_values s.1) with Some i => default 0 (objects s.1 !! i) + sum_for i s.2 | None => 0 end) /\
  (s.2 = [] -> forall labels, (Counter.get s.1 labels).1 = sum_for (map (label_get labels) names) (begun names es)) /\
  Z.of_nat (length (_values s.1)) <= max.
Proof.
  intros Hmax HK s.
  assert (H0 : accounts (remove_dups (begun names es).*1) (Counter.new name names max false) [] []).
  { constructor; simpl; try done; [|by intros i ?%elem_of_nil]. constructor; simpl; try done; [constructor|lia]. }
  destruct (run_counted _ names es _ _ _ H0 eq_refl) as [[Hw _ _ _ _ Hs] Hn].
  { apply Forall_forall. intros ka Hka. apply elem_of_remove_dups. by apply list_elem_of_fmap_2. }
  fold s in Hw, Hs, Hn. split_and!; [done| |].
  - intros Hp labels. rewrite Hs. unfold Counter.get, read, _labels_to_key. rewrite Hn.
    destruct (item _ (_values s.1)) as [i|]; simpl; [|done]. rewrite Hp. simpl. lia.
  - pose proof (wf_bound _ Hw) as Hb. unfold s in Hb at 2. by rewrite run_max in Hb.
Qed.

(** ** Histograms *)

Definition at_most_count (b : spec_float) (vs : list spec_float) : Z := Z.of_nat (length (filter (fun v => SFleb v b = true) vs)).

(** After any observations each bucket has counted the ones
    at most its bound, the last one all of them, and the sum is theirs, added
    in order. *)
Theorem histogram_exact bs vs :
  fold_left (fun h v => Histogram.observe_value bs v h) vs (Histogram.new_value bs) =
  Histogram.Value (map (fun b => at_most_count b vs) bs ++ [Z.of_nat (length vs)])
    (fold_left float_add vs zero) (Z.of_nat (length vs)).
Proof.
  induction vs as [|v vs IH] using rev_ind.
  - simpl. unfold Histogram.new_value. f_equal. rewrite repeat_app. f_equal. induction bs; simpl; [done|]. by f_equal.
  - rewrite !fold_left_app, IH. simpl. unfold Histogram.observe_value. simpl. rewrite length_app. simpl.
    f_equal; [|lia]. unfold Histogram.bump. rewrite drop_app_length' by (by rewrite length_map). simpl. f_equal; [|f_equal; lia].
    clear IH. generalize [Z.of_nat (length vs)] as r. induction bs as [|b bs IHb]; intros r; simpl; [done|]. rewrite IHb. f_equal.
    unfold at_most_count. rewrite filter_app, length_app, filter_cons. destruct (SFleb v b) eqn:E.
    + rewrite decide_True by done. simpl. lia.
    + rewrite decide_False by done. simpl. lia.
Qed.

End MetricsFacts.

Module ObservabilityFacts.
Import Observability MetricsFacts.

(** The registry as the wrapper needs it. *)
Record registry_ok (r : MetricsRegistry) : Prop := RegistryOk {
  ro_total : wf (memory_operation_total r);
  ro_storage : wf (memory_storage_latency_ms r);
  ro_retrieval : wf (memory_retrieval_latency_ms r);
  ro_health : wf (handler_health_status r);
  ro_lax : strict_labels (memory_operation_total r) = false /\ strict_labels (memory_storage_latency_ms r) = false /\
    strict_labels (memory_retrieval_latency_ms r) = false /\ strict_labels (handler_health_status r) = false;
}.

Lemma empty_metric_wf {A} name names : wf (@Metric A name names 10000 false [] []).
Proof. constructor; simpl; try done. constructor. Qed.

Lemma initial_registry_ok : registry_ok _do_initialize.
Proof. constructor; [apply empty_metric_wf..|done]. Qed.

Definition operations (r : MetricsRegistry) (labels : label_map) : Z := (Counter.get (memory_operation_total r) labels).1.
Definition health (r : MetricsRegistry) (handler_name : string) : spec_float :=
  (Gauge.get (handler_health_status r) [("handler", handler_name)]).1.
Definition observations (h : Histogram.t) (labels : label_map) : Z := Histogram.count (Histogram.get h labels).1.
(** Both histograms together. *)
Definition timed (r : MetricsRegistry) (labels : label_map) : Z :=
  observations (memory_storage_latency_ms r) labels + observations (memory_retrieval_latency_ms r) labels.

Lemma default_fst {B C} (d : B) (p : option B * C) v :
  p.1 = Some v -> (let (x, m) := p in (default d x, m)).1 = v.
Proof. destruct p as [x m]. simpl. by intros ->. Qed.

Lemma set_health_ok handler_name v r : registry_ok r ->
  registry_ok (set_health handler_name v r) /\ health (set_health handler_name v r) handler_name = v.
Proof.
  intros [H1 H2 H3 H4 (L1 & L2 & L3 & L4)].
  destruct (update_ok zero (handler_health_status r) [("handler", handler_name)] (fun _ => v) H4 L4) as (_ & Hw & _ & Hl & Hr).
  split; [by constructor|]. unfold health, Gauge.get, set_health, Gauge.set. simpl.
  exact (default_fst _ _ _ Hr).
Qed.

Lemma count_operation_ok labels r : registry_ok r ->
  registry_ok (count_operation labels r) /\ operations (count_operation labels r) labels = operations r labels + 1.
Proof.
  intros [H1 H2 H3 H4 (L1 & L2 & L3 & L4)].
  destruct (update_ok 0 (memory_operation_total r) labels (Z.add 1) H1 L1) as (_ & Hw & _ & Hl & Hr).
  split; [by constructor|]. unfold operations, Counter.get, count_operation, Counter.inc. simpl.
  rewrite (default_fst _ _ _ Hr). destruct (read (memory_operation_total r) labels). simpl. lia.
Qed.

Lemma observe_count (m : Histogram.t) latency_ms labels : wf m -> strict_labels m = false ->
  let m' := (Histogram.observe Histogram.DEFAULT_LATENCY_BUCKETS m latency_ms labels).2 in
  wf m' /\ strict_labels m' = false /\ observations m' labels = observations m labels + 1.
Proof.
  intros Hw Hl. destruct (update_ok (Histogram.new_value Histogram.DEFAULT_LATENCY_BUCKETS) m labels
    (Histogram.observe_value Histogram.DEFAULT_LATENCY_BUCKETS latency_ms) Hw Hl) as (_ & Hw' & _ & Hl' & Hr).
  split_and!; [done|done|]. unfold observations, Histogram.get, Histogram.observe.
  rewrite (default_fst _ _ _ Hr). by destruct (read m labels) as [[y|] ?].
Qed.

Lemma record_metrics_ok handler_name operation status latency_ms r : registry_ok r ->
  let r' := _record_metrics handler_name operation status latency_ms r in
  let labels := [("operation", operation); ("status", status); ("handler", handler_name)] in
  registry_ok r' /\ operations r' labels = operations r labels + 1 /\
  timed r' [("operation", operation); ("handler", handler_name)] =
    timed r [("operation", operation); ("handler", handler_name)] + 1 /\
  health r' handler_name = (if bool_decide (status = "success") then one else zero).
Proof.
  intros Hr r' labels. set (latency_labels := [("operation", operation); ("handler", handler_name)]).
  destruct (count_operation_ok labels r Hr) as [Hr1 Hc]. set (r1 := count_operation labels r) in *.
  assert (Hs : exists r2, registry_ok r2 /\ memory_operation_total r2 = memory_operation_total r1 /\
    timed r2 latency_labels = timed r1 latency_labels + 1 /\
    r' = set_health handler_name (if bool_decide (status = "success") then one else zero) r2).
  { destruct Hr1 as [H1 H2 H3 H4 (L1 & L2 & L3 & L4)].
    destruct (observe_count _ latency_ms latency_labels H2 L2) as (Ws & Ls & Os).
    destruct (observe_count _ latency_ms latency_labels H3 L3) as (Wr & Lr & Or).
    unfold r', _record_metrics. fold labels latency_labels r1. 
    destruct (bool_decide (operation ∈ ["store"; "update"; "delete"])).
    - exists (observe_storage latency_ms latency_labels r1). split_and!; [by constructor|done| |done]. unfold timed; cbn [memory_storage_latency_ms memory_retrieval_latency_ms observe_storage observe_retrieval]; lia.
    - destruct (bool_decide (operation ∈ ["retrieve"; "list"; "search"])).
      + exists (observe_retrieval latency_ms latency_labels r1). split_and!; [by constructor|done| |done]. unfold timed; cbn [memory_storage_latency_ms memory_retrieval_latency_ms observe_storage observe_retrieval]; lia.
      + exists (observe_storage latency_ms latency_labels r1). split_and!; [by constructor|done| |done]. unfold timed; cbn [memory_storage_latency_ms memory_retrieval_latency_ms observe_storage observe_retrieval]; lia. }
  destruct Hs as (r2 & Hr2 & Ht & Hh & ->). destruct (set_health_ok handler_name (if bool_decide (status = "success") then one else zero) r2 Hr2) as [Hr3 Hv].
  split_and!; [done| |exact Hh|done]. rewrite <- Hc. unfold operations. simpl. by rewrite Ht.
Qed.

(** Whatever an observed operation does, its result or
    exception comes out unchanged; it ran under a valid correlation id, the
    caller's if that is one, and the caller's id is in place again afterwards;
    and one line is logged, one operation counted under its status, one
    latency recorded, and the handler's health set by its status. *)
Theorem operation_observed {A} handler_name operation given latency_ms (body : text -> M world A) w :
  (forall n, validate_correlation_id (uuids w n) = true) ->
  (forall id w, registry_ok (registry w) -> registry_ok (registry (body id w).2)) -> registry_ok (registry w) ->
  exists id w0, validate_correlation_id id = true /\
    (forall g, given = Some g -> validate_correlation_id g = true -> id = g) /\
    vars w0 = Vars (Some id) (request_id (vars w)) (user_id (vars w)) (Observability.operation (vars w)) /\
    registry w0 = registry w /\ log w0 = log w /\
    let (r, w1) := body id w0 in
    let '(status, error_type, error_message) := status_of r in
    let (r', w') := observe_operation handler_name operation given latency_ms body w in
    let labels := [("operation", operation); ("status", status); ("handler", handler_name)] in
    r' = r /\ correlation_id (vars w') = correlation_id (vars w) /\ registry_ok (registry w') /\
    log w' = log w1 ++ [Entry id operation handler_name status latency_ms error_type error_message] /\
    operations (registry w') labels = operations (registry w1) labels + 1 /\
    timed (registry w') [("operation", operation); ("handler", handler_name)] =
      timed (registry w1) [("operation", operation); ("handler", handler_name)] + 1 /\
    health (registry w') handler_name = (if bool_decide (status = "success") then one else zero).
Proof.
  intros Hu Hb Hr.
  assert (Hid : exists id w2, operation_id given w = (Ok id, w2) /\ validate_correlation_id id = true /\
    (forall g, given = Some g -> validate_correlation_id g = true -> id = g) /\
    vars w2 = vars w /\ registry w2 = registry w /\ log w2 = log w).
  { unfold operation_id, bind. destruct given as [g|]; simpl.
    - destruct (validate_correlation_id g) eqn:E.
      + eexists _, _. split_and!; [done|done|by intros ? [= ->]|done..].
      + eexists _, _. split_and!; [done|apply Hu|intros ? [= ->] ?; congruence|done..].
    - rewrite Hu. eexists _, _. split_and!; [done|apply Hu|done..]. }
  destruct Hid as (id & w2 & E & Hv & Hg & V & R & L). exists id, (set_correlation_id (Some id) w2).
  split_and!; [done|done|by simpl; rewrite V|done|done|].
  specialize (Hb id (set_correlation_id (Some id) w2)). simpl in Hb. rewrite R in Hb. specialize (Hb Hr).
  unfold observe_operation, bind. rewrite E. destruct (body id (set_correlation_id (Some id) w2)) as [r w1].
  destruct (status_of r) as [[status ety] emsg].
  destruct (record_metrics_ok handler_name operation status latency_ms (registry w1) Hb) as (H1 & H2 & H3 & H4).
  split_and!; [done|by simpl; rewrite V|done|done|done|done|done].
Qed.

(** A correlation context refuses an id that is not one,
    without running anything; otherwise its body runs with the variables of
    the context, which knows the id it was opened under, the outcome of the
    body is that of the block, and all four variables are afterwards what they
    were before, whatever the body did to them. *)
Theorem contexts_restored {A} given request user operation metadata (body : CorrelationContext -> M world A) w :
  let block := correlation_context given request user operation metadata body w in
  match given with
  | Some (c :: g) =>
      if validate_correlation_id (c :: g) then
        exists w0, vars w0 = Vars given request user operation /\ registry w0 = registry w /\
          let context := Context (c :: g) (correlation_id (vars w)) (sanitized_metadata metadata) in
          block = ((body context w0).1, set_vars (vars w) (body context w0).2)
      else (exists msg, block.1 = Raise (ValueError msg)) /\ block.2 = w
  | _ =>
      exists w0 id, vars w0 = Vars (Some id) request user operation /\ registry w0 = registry w /\
        let context := Context id (correlation_id (vars w)) (sanitized_metadata metadata) in
        block = ((body context w0).1, set_vars (vars w) (body context w0).2)
  end.
Proof.
  intros block. unfold block, correlation_context. destruct given as [[|c g]|].
  - eexists _, _. unfold bind. simpl. destruct (body _ _) as [r w'] eqn:E. rewrite E. done.
  - unfold bind. destruct (validate_correlation_id (c :: g)) eqn:V; [|by split; [eexists|]].
    eexists _. simpl. destruct (body _ _) as [r w'] eqn:E. rewrite E. done.
  - eexists _, _. unfold bind. simpl. destruct (body _ _) as [r w'] eqn:E. rewrite E. done.
Qed.

End ObservabilityFacts.

Module TracesFacts.
Import Traces.

(** The ids of operations that start are fresh. *)
Fixpoint fresh (running : list string) (es : list event) : Prop :=
  match es with
  | [] => True
  | Begin id _ :: es => id ∉ running /\ fresh (id :: running) es
  | Finish id :: es => fresh (filter (fun i => i <> id) running) es
  | _ :: es => fresh running es
  end.

Definition tracked (s : t * list string) : Prop :=
  Z.of_nat (length (_active_traces s.1)) <= max_active_traces s.1 /\ 1 <= max_active_traces s.1 /\
  NoDup (_active_traces s.1).*1 /\ forall k, k ∈ (_active_traces s.1).*1 -> exists id, k = trace_key id /\ id ∈ s.2.

Lemma change_keys id f m : (_active_traces (change id f m)).*1 = (_active_traces m).*1.
Proof. unfold change. simpl. induction (_active_traces m) as [|kv l IH]; [done|]. cbn.
  f_equal; [by case_bool_decide|exact IH]. Qed.

Lemma change_tracked id f m running : tracked (m, running) -> tracked (change id f m, running).
Proof.
  unfold tracked. simpl fst. simpl snd. rewrite change_keys. simpl. rewrite length_map. done.
Qed.

Lemma NoDup_filtered_keys {V} (P : key * V -> Prop) `{!forall x, Decision (P x)} (l : list (key * V)) :
  NoDup l.*1 -> NoDup (filter P l).*1.
Proof.
  induction l as [|kv l IH]; [done|]. rewrite fmap_cons, NoDup_cons. intros [Hk Hnd].
  rewrite filter_cons. case_decide; [|by apply IH]. rewrite fmap_cons, NoDup_cons. split; [|by apply IH].
  intros (kv' & E & [_ Hin]%list_elem_of_filter)%list_elem_of_fmap. destruct Hk. by apply (list_elem_of_fmap_2' fst l kv').
Qed.

Lemma step_tracked s e : tracked s -> (forall id now, e = Begin id now -> id ∉ s.2) -> tracked (step s e).
Proof.
  destruct s as [m running]. intros Ht Hf. pose proof Ht as (Hb & Hmax & Hnd & Hin). simpl in *.
  destruct e as [id now|id|id e|id]; simpl.
  - unfold start. destruct (MetricsFacts.evict_ok (max_active_traces m) (_active_traces m) Hmax) as (k & -> & Hl & _).
    unfold tracked. simpl. rewrite length_app, fmap_app, fmap_drop. simpl.
    assert (Hd : forall x, x ∈ drop k (_active_traces m).*1 -> x ∈ (_active_traces m).*1).
    { intros x Hx. rewrite <- (take_drop k). apply elem_of_app. by right. }
    split_and!; [lia|done| |].
    + apply NoDup_app. split_and!; [| |by apply NoDup_singleton].
      * rewrite <- (take_drop k) in Hnd. by apply NoDup_app in Hnd as (_ & _ & ?).
      * intros x Hx ->%list_elem_of_singleton. apply Hd, Hin in Hx as (id' & [= <-] & Hx). by apply (Hf id now).
    + intros x [(id' & -> & ?)%Hd%Hin| ->%list_elem_of_singleton]%elem_of_app; [exists id'; split; [done|by right]|].
      exists id. split; [done|left].
  - by apply change_tracked.
  - destruct (is_Exception e); [by apply change_tracked|done].
  - unfold tracked. simpl. assert (Hk : forall x, x ∈ (filter (fun kv => kv.1 <> trace_key id) (_active_traces m)).*1 ->
      x <> trace_key id /\ x ∈ (_active_traces m).*1).
    { intros x (kv & -> & [Hne Hkv]%list_elem_of_filter)%list_elem_of_fmap. split; [done|by apply list_elem_of_fmap_2]. }
    split_and!; [|done| |].
    + pose proof (length_filter_le (fun kv => kv.1 <> trace_key id) (_active_traces m)). lia.
    + by apply NoDup_filtered_keys.
    + intros x [Hne (id' & -> & Hid)%Hin]%Hk. exists id'. split; [done|]. apply list_elem_of_filter. split; [|done].
      intros ->. by destruct Hne.
Qed.

(** However operations interleave, there are never more
    active traces than allowed, each belongs to an operation that is running,
    and none is left once all have finished, succeeded or not. *)
Theorem traces_bounded max es :
  1 <= max -> fresh [] es ->
  let s := run step (Manager max [], []) es in
  Z.of_nat (length (get_performance_metrics s.1)) <= max /\
  (forall k, k ∈ (get_performance_metrics s.1).*1 -> exists id, k = trace_key id /\ id ∈ s.2) /\
  (s.2 = [] -> get_performance_metrics s.1 = []).
Proof.
  intros Hmax Hf s.
  assert (H : forall es s0, tracked s0 -> max_active_traces s0.1 = max -> fresh s0.2 es ->
    tracked (run step s0 es) /\ max_active_traces (run step s0 es).1 = max).
  { clear Hf s es. induction es as [|e es IH]; intros s0 Ht Hm Hf; [done|].
    change (run step s0 (e :: es)) with (run step (step s0 e) es).
    assert (He : forall id now, e = Begin id now -> id ∉ s0.2) by (intros id now ->; apply Hf).
    pose proof (step_tracked s0 e Ht He) as Ht'. destruct s0 as [m running]. apply IH; [done| |].
    - destruct e as [id now|id|id e|id]; simpl in *; try done; [|by destruct (is_Exception e)].
      unfold start. by destruct (evict _ _).
    - destruct e as [id now|id|id e|id]; simpl in *; try done.
      destruct Ht as (_ & Hx & _). unfold start. simpl in Hx.
      destruct (MetricsFacts.evict_ok (max_active_traces m) (_active_traces m) Hx) as (k & -> & _). apply Hf. }
  destruct (H es (Manager max [], [])) as [(H1 & H2 & H3 & H4) Hm]; [|done|done|].
  { unfold tracked. simpl. split_and!; [lia|done|constructor|by intros k ?%elem_of_nil]. }
  fold s in H1, H4, Hm. rewrite Hm in H1. split_and!; [done|done|]. intros Hs. unfold get_performance_metrics.
  destruct (_active_traces s.1) as [|kv l]; [done|]. destruct (H4 kv.1) as (id & _ & Hid); [left|].
  rewrite Hs in Hid. by apply elem_of_nil in Hid.
Qed.

End TracesFacts.

(** ** Concrete inputs *)

Module MetricsDemo.
Import Observability MetricsFacts ObservabilityFacts.

(** Metadata strings lose their dangerous characters and all after the first
    thousand others. *)
Lemma sub_chars p (s : list ascii) prev : replace (Chr p) [] O prev s = filter (fun c => p c = false) s.
Proof.
  revert prev. induction s as [|c s IH]; intros prev; [done|]. rewrite filter_cons. cbn [replace match_here match_with].
  unfold match_here. simpl. destruct (p c).
  - rewrite decide_False by done. rewrite Nat.sub_succ_l, Nat.sub_diag by lia. apply IH.
  - rewrite decide_True by done. f_equal. apply IH.
Qed.

Lemma sanitize_str_spec s : sanitize_str s = take 1000 (filter (fun c => dangerous c = false) s).
Proof. unfold sanitize_str, sub. by rewrite sub_chars. Qed.

Lemma counter_exact_witness :
  let es := [Begin [("op", "store")] 2; Begin [("op", "store")] 3; Finish 1; Begin [("op", "list")] 1; Finish 0; Finish 0] in
  1 <= 2 /\ Z.of_nat (length (remove_dups (begun ["op"] es).*1)) <= 2 /\
  (Counter.get (run step (Counter.new "n" ["op"] 2 false, []) es).1 [("op", "store")]).1 = 5.
Proof.
  intros es. assert (H1 : 1 <= 2) by lia.
  assert (H2 : Z.of_nat (length (remove_dups (begun ["op"] es).*1)) <= 2) by (vm_compute; discriminate).
  split; [exact H1|]. split; [exact H2|].
  destruct (counter_exact "n" ["op"] 2 es H1 H2) as (_ & H & _).
  rewrite (H eq_refl [("op", "store")]). reflexivity.
Defined.

Definition demo_world : world := World (Vars None None None None) _do_initialize [] (fun _ => of_string "id-1") 0.

Lemma operation_observed_witness :
  exists id w0, validate_correlation_id id = true /\
    let (r, w') := observe_operation "fs" "store" None one (fun _ : text => @ret world Z 7) demo_world in
    r = (@ret world Z 7 w0).1 /\
    operations (registry w') [("operation", "store"); ("status", "success"); ("handler", "fs")] =
      operations (registry (@ret world Z 7 w0).2) [("operation", "store"); ("status", "success"); ("handler", "fs")] + 1.
Proof.
  destruct (operation_observed "fs" "store" None one (fun _ : text => @ret world Z 7) demo_world)
    as (id & w0 & Hid & _ & _ & _ & _ & H).
  - intros n. reflexivity.
  - intros id w Hr. exact Hr.
  - exact initial_registry_ok.
  - exists id, w0. split; [exact Hid|]. simpl in H. simpl.
    destruct H as (H1 & _ & _ & _ & H2 & _). split; [exact H1|exact H2].
Defined.

Lemma traces_bounded_witness :
  let es := [Traces.Begin "a" 0; Traces.Begin "b" 1; Traces.Succeed "a"; Traces.Finish "a"; Traces.Finish "b"] in
  1 <= 1 /\ TracesFacts.fresh [] es /\
  Traces.get_performance_metrics (run Traces.step (Traces.Manager 1 [], []) es).1 = [].
Proof.
  intros es. assert (H1 : 1 <= 1) by lia.
  assert (H2 : TracesFacts.fresh [] es) by (simpl; split; [by apply not_elem_of_nil|]; split; [by apply (bool_decide_unpack _)|done]).
  split; [exact H1|]. split; [exact H2|].
  destruct (TracesFacts.traces_bounded 1 es H1 H2) as (_ & _ & H). apply H. reflexivity.
Defined.

(** The pattern ends in [$], which is also before a line break at the end: an
    id that breaks the line of a log is accepted. *)
Example id_with_newline : validate_correlation_id (of_string "abc" ++ ["010"%char]) = true.
Proof. by vm_compute. Qed.

(** A cancelled operation is counted as a success, and leaves its handler
    healthy. *)
Example cancelled_is_success :
  let (r, w) := observe_operation "fs" "store" None one (fun _ : text => @raise world Z (CancelledError "")) demo_world in
  r = Raise (CancelledError "") /\
  operations (registry w) [("operation", "store"); ("status", "success"); ("handler", "fs")] = 1 /\
  health (registry w) "fs" = one.
Proof. by vm_compute. Qed.

(** A counter made for no entries fails at its first use. *)
Example no_entries : (Counter.inc (Counter.new "n" ["op"] 0 false) 1 [("op", "a")]).1 = Raise (KeyError "'dictionary is empty'").
Proof. by vm_compute. Qed.

(** An evicted combination starts again from zero. *)
Example evicted_restarts :
  let m := (Counter.inc (Counter.new "n" ["op"] 1 false) 5 [("op", "a")]).2 in
  let m := (Counter.inc m 1 [("op", "b")]).2 in
  (Counter.get (Counter.inc m 1 [("op", "a")]).2 [("op", "a")]).1 = 1.
Proof. by vm_compute. Qed.

Example label_errors :
  validate_metric_labels [("operation", "x"); ("zone", "y")] ["operation"; "status"] None "m" true =
  Raise (OtherException "LabelValidationError"
    "Label validation failed for metric 'm': missing required labels: ['status']; unexpected extra labels: ['zone']. Expected labels: ['operation', 'status'], got: ['operation', 'zone']").
Proof. by vm_compute. Qed.

End MetricsDemo.
