(* ===== verification/Migration.v ===== *)
(** * Migration progress

    [MigrationProgressTracker] and its metrics
    (models/foundation/model_migration_progress.py): files and batches, the
    counters, rates and estimates, the cached percentages, the counts of error
    types, and retries. *)

From S2P Require Import Prelude Floats FloatOrder Text Datetimes.

Inductive EnumFileProcessingStatus : Type := PENDING | PROCESSING | COMPLETED | FAILED | SKIPPED.

#[export] Instance status_eq_dec : EqDecision EnumFileProcessingStatus.
Proof. solve_decision. Defined.

Record BatchProcessingMetrics : Type := Batch {
  batch_id : string;
  batch_size : Z;
  processed_count : Z;
  failed_count : Z;
  batch_start : option micros;
  batch_end : option micros;
}.

Record FileProcessingInfo : Type := File {
  file_path : string;
  file_size : option Z;
  status : EnumFileProcessingStatus;
  start_time : option micros;
  end_time : option micros;
  error_message : option text;
  retry_count : Z;
  file_batch_id : option string;
  metadata : list (string * string);
}.

Record MigrationProgressMetrics : Type := Metrics {
  total_files : Z;
  processed_files : Z;
  failed_files : Z;
  skipped_files : Z;
  total_size_bytes : option Z;
  processed_size_bytes : Z;
  metrics_start : micros;
  last_update_time : micros;
  estimated_completion : option micros;
  files_per_second : spec_float;
  bytes_per_second : spec_float;
  current_batch : option string;
  batch_metrics : list BatchProcessingMetrics;
  _cached_completion_percentage : option spec_float;
  _cached_success_rate : option spec_float;
  _cache_invalidated_at : option micros;
}.

Definition _cache_ttl_seconds : Z := 60.

(** The tracker's own identifiers, name and configuration are never read. *)
Record MigrationProgressTracker : Type := Tracker {
  metrics : MigrationProgressMetrics;
  files : list FileProcessingInfo;
  error_summary : list (text * nat);
  recovery_attempts : Z;
  updated_at : micros;
}.

(** [MigrationProgressTracker(metrics=MigrationProgressMetrics(total_files=0))] *)
Definition new_metrics (t : micros) : MigrationProgressMetrics :=
  Metrics 0 0 0 0 None 0 t t None zero zero None [] None None None.
Definition new (t : micros) : MigrationProgressTracker := Tracker (new_metrics t) [] [] 0 t.

(** ** Field updates *)

Definition with_counts (total processed failed skipped : Z) (m : MigrationProgressMetrics) : MigrationProgressMetrics :=
  Metrics total processed failed skipped (total_size_bytes m) (processed_size_bytes m) (metrics_start m) (last_update_time m)
    (estimated_completion m) (files_per_second m) (bytes_per_second m) (current_batch m) (batch_metrics m)
    (_cached_completion_percentage m) (_cached_success_rate m) (_cache_invalidated_at m).
Definition with_sizes (total : option Z) (processed : Z) (m : MigrationProgressMetrics) : MigrationProgressMetrics :=
  Metrics (total_files m) (processed_files m) (failed_files m) (skipped_files m) total processed (metrics_start m)
    (last_update_time m) (estimated_completion m) (files_per_second m) (bytes_per_second m) (current_batch m)
    (batch_metrics m) (_cached_completion_percentage m) (_cached_success_rate m) (_cache_invalidated_at m).
Definition with_times (last : micros) (estimate : option micros) (fps bps : spec_float) (m : MigrationProgressMetrics) :
    MigrationProgressMetrics :=
  Metrics (total_files m) (processed_files m) (failed_files m) (skipped_files m) (total_size_bytes m)
    (processed_size_bytes m) (metrics_start m) last estimate fps bps (current_batch m) (batch_metrics m)
    (_cached_completion_percentage m) (_cached_success_rate m) (_cache_invalidated_at m).
Definition with_batches (current : option string) (batches : list BatchProcessingMetrics) (m : MigrationProgressMetrics) :
    MigrationProgressMetrics :=
  Metrics (total_files m) (processed_files m) (failed_files m) (skipped_files m) (total_size_bytes m)
    (processed_size_bytes m) (metrics_start m) (last_update_time m) (estimated_completion m) (files_per_second m)
    (bytes_per_second m) current batches (_cached_completion_percentage m) (_cached_success_rate m)
    (_cache_invalidated_at m).
Definition with_cache (percentage rate : option spec_float) (at_ : option micros) (m : MigrationProgressMetrics) :
    MigrationProgressMetrics :=
  Metrics (total_files m) (processed_files m) (failed_files m) (skipped_files m) (total_size_bytes m)
    (processed_size_bytes m) (metrics_start m) (last_update_time m) (estimated_completion m) (files_per_second m)
    (bytes_per_second m) (current_batch m) (batch_metrics m) percentage rate at_.

Definition with_metrics (f : MigrationProgressMetrics -> MigrationProgressMetrics) (t : MigrationProgressTracker) :
    MigrationProgressTracker :=
  Tracker (f (metrics t)) (files t) (error_summary t) (recovery_attempts t) (updated_at t).
Definition with_files (l : list FileProcessingInfo) (t : MigrationProgressTracker) : MigrationProgressTracker :=
  Tracker (metrics t) l (error_summary t) (recovery_attempts t) (updated_at t).

Definition with_status (s : EnumFileProcessingStatus) (f : FileProcessingInfo) : FileProcessingInfo :=
  File (file_path f) (file_size f) s (start_time f) (end_time f) (error_message f) (retry_count f) (file_batch_id f) (metadata f).
Definition with_start (t : option micros) (b : option string) (f : FileProcessingInfo) : FileProcessingInfo :=
  File (file_path f) (file_size f) (status f) t (end_time f) (error_message f) (retry_count f) b (metadata f).
Definition with_end (t : option micros) (f : FileProcessingInfo) : FileProcessingInfo :=
  File (file_path f) (file_size f) (status f) (start_time f) t (error_message f) (retry_count f) (file_batch_id f) (metadata f).
Definition with_error (e : option text) (f : FileProcessingInfo) : FileProcessingInfo :=
  File (file_path f) (file_size f) (status f) (start_time f) (end_time f) e (retry_count f) (file_batch_id f) (metadata f).
Definition with_retries (n : Z) (f : FileProcessingInfo) : FileProcessingInfo :=
  File (file_path f) (file_size f) (status f) (start_time f) (end_time f) (error_message f) n (file_batch_id f) (metadata f).

(** ** The tracker and the clock, whose [k]-th reading is [clock k] *)

Record world : Type := World {
  tracker : MigrationProgressTracker;
  clock : nat -> micros;
  readings : nat;
}.

Definition now : M world micros := fun w => (Ok (clock w (readings w)), World (tracker w) (clock w) (S (readings w))).
Definition change (f : MigrationProgressTracker -> MigrationProgressTracker) : M world unit :=
  modify (fun w => World (f (tracker w)) (clock w) (readings w)).
Definition change_metrics (f : MigrationProgressMetrics -> MigrationProgressMetrics) : M world unit := change (with_metrics f).
Definition current : M world MigrationProgressMetrics := gets (fun w => metrics (tracker w)).

Definition _update_timestamp : M world unit :=
  let! t := now in
  change (fun s => Tracker (metrics s) (files s) (error_summary s) (recovery_attempts s) t).

(** ** The metrics *)

(** [timedelta.total_seconds()] *)
Definition total_seconds (d : micros) : spec_float := float_ratio d 1000000.

Definition elapsed_time (m : MigrationProgressMetrics) : micros := last_update_time m - metrics_start m.
Definition remaining_files (m : MigrationProgressMetrics) : Z := total_files m - processed_files m.

Definition batch_success_rate (b : BatchProcessingMetrics) : spec_float :=
  if processed_count b =? 0 then zero else float_ratio (processed_count b - failed_count b) (processed_count b).
Definition duration (started ended : option micros) : option micros :=
  match started, ended with Some s, Some e => Some (e - s) | _, _ => None end.

Definition average_processing_time_ms (m : MigrationProgressMetrics) : spec_float :=
  if processed_files m =? 0 then zero
  else float_div (float_mul (total_seconds (elapsed_time m)) (float_of_Z 1000)) (float_of_Z (processed_files m)).

Definition _is_cache_valid : M world bool :=
  let! m := current in
  match _cache_invalidated_at m with
  | None => ret false
  | Some t => let! n := now in ret (SFltb (total_seconds (n - t)) (float_of_Z _cache_ttl_seconds))
  end.

(** A property with a cached value: [get] it if the cache is valid, or [put]
    the value computed. *)
Definition cached (get : MigrationProgressMetrics -> option spec_float)
    (put : spec_float -> MigrationProgressMetrics -> MigrationProgressMetrics)
    (compute : MigrationProgressMetrics -> spec_float) : M world spec_float :=
  let! valid := _is_cache_valid in
  let! m := current in
  match (if valid : bool then get m else None) with
  | Some x => ret x
  | None => do! change_metrics (put (compute m)); ret (compute m)
  end.

Definition percent (a b : Z) : spec_float := float_mul (float_ratio a b) (float_of_Z 100).
Definition compute_completion (m : MigrationProgressMetrics) : spec_float :=
  if total_files m =? 0 then zero else percent (processed_files m) (total_files m).
Definition completion_percentage : M world spec_float :=
  cached _cached_completion_percentage
    (fun x m => with_cache (Some x) (_cached_success_rate m) (_cache_invalidated_at m) m) compute_completion.
Definition compute_success (m : MigrationProgressMetrics) : spec_float :=
  if processed_files m =? 0 then zero else percent (processed_files m - failed_files m) (processed_files m).
Definition success_rate : M world spec_float :=
  cached _cached_success_rate
    (fun x m => with_cache (_cached_completion_percentage m) (Some x) (_cache_invalidated_at m) m) compute_success.

Definition update_processing_rates : M world unit :=
  change_metrics (fun m =>
    let elapsed_seconds := total_seconds (elapsed_time m) in
    if SFltb zero elapsed_seconds then
      with_times (last_update_time m) (estimated_completion m)
        (float_div (float_of_Z (processed_files m)) elapsed_seconds)
        (float_div (float_of_Z (processed_size_bytes m)) elapsed_seconds) m
    else m).

(** [timedelta(seconds=x)] of a float that is not negative: whole seconds,
    whole microseconds of the rest, and what is left rounded half to even. *)
Definition timedelta_seconds (x : spec_float) : res micros :=
  match x with
  | S754_infinity _ => Raise (OverflowError "cannot convert float infinity to integer")
  | S754_nan => Raise (ValueError "cannot convert float NaN to integer")
  | _ =>
      let i := trunc x in
      let m := float_mul (float_of_Z 1000000) (float_sub x (float_of_Z i)) in
      let j := trunc m in
      let left := float_sub m (float_of_Z j) in
      let us := i * 1000000 + j in
      let us := if SFltb (float_ratio 1 2) left || (SFeqb left (float_ratio 1 2) && Z.odd us) then us + 1 else us in
      if (999999999 + 1) * day_length <=? us then Raise (OverflowError "days; must have magnitude <= 999999999") else Ok us
  end.

Definition estimate_completion_time : M world (option micros) :=
  let! m := current in
  if SFleb (files_per_second m) zero || (remaining_files m <=? 0) then ret None
  else
    match timedelta_seconds (float_div (float_of_Z (remaining_files m)) (files_per_second m)) with
    | Raise e => raise e
    | Ok d =>
        let t := last_update_time m + d in
        if (last_day + 1) * day_length <=? t then raise (OverflowError "date value out of range")
        else
          do! change_metrics (with_times (last_update_time m) (Some t) (files_per_second m) (bytes_per_second m));
          ret (Some t)
    end.

Definition invalidate_cache : M world unit :=
  let! t := now in change_metrics (with_cache None None (Some t)).

Definition _update_progress_metrics : M world unit :=
  do! invalidate_cache;
  let! t := now in
  do! change_metrics (fun m => with_times t (estimated_completion m) (files_per_second m) (bytes_per_second m) m);
  do! update_processing_rates;
  do! estimate_completion_time;
  ret tt.

(** ** Error types *)

Definition MAX_EXCEPTION_NAME_LENGTH : nat := 100.
Definition UnknownError : text := of_string "UnknownError".

(** [s.split(t, 1)[0]], if [t] occurs in [s]. *)
Fixpoint before_first (t s : text) : option text :=
  if starts_with t s then Some []
  else match s with [] => None | c :: s => (cons c) <$> before_first t s end.

(** [s.split(".")] *)
Fixpoint split_dots (s : text) : list text :=
  match s with
  | [] => [[]]
  | c :: s =>
      let parts := split_dots s in
      if Ascii.eqb c "." then [] :: parts
      else match parts with [] => [[c]] | p :: parts => (c :: p) :: parts end
  end.

Definition is_letter (c : ascii) : bool := char_in "A" "Z" c || char_in "a" "z" c || Ascii.eqb c "_".
(** [part and part.isidentifier()] *)
Definition isidentifier (s : text) : bool :=
  match s with [] => false | c :: s => is_letter c && forallb (fun c => is_letter c || char_in "0" "9" c) s end.

(** Whether it looks like the name of an exception class. *)
Definition class_name (s : text) : bool :=
  match s with [] => false | c :: _ => is_upper c end && isidentifier s && (length s <=? MAX_EXCEPTION_NAME_LENGTH)%nat.

Definition checked (s : text) : text := if class_name s then s else UnknownError.

Definition _extract_error_type (message : text) : text :=
  match before_first (of_string ": ") message with
  | None => UnknownError
  | Some s =>
      let potential_type := strip_chars is_space s in
      match potential_type with
      | [] => UnknownError
      | _ =>
          if existsb (Ascii.eqb ".") potential_type then
            let parts := split_dots potential_type in
            if forallb isidentifier parts then checked (List.last parts []) else UnknownError
          else checked potential_type
      end
  end.

(** ** Files *)

(** The index of the first file of that path; [files] hands out the files
    themselves, so a file is known by its place. *)
Definition _find_file (path : string) : M world (option nat) :=
  gets (fun w => fst <$> list_find (fun f => file_path f = path) (files (tracker w))).

Definition change_file (i : nat) (f : FileProcessingInfo -> FileProcessingInfo) : M world unit :=
  change (fun s => with_files (alter f i (files s)) s).
Definition file_at (i : nat) : M world (option FileProcessingInfo) := gets (fun w => files (tracker w) !! i).

(** [add_file]; the result is the place of the new file. *)
Definition add_file (path : string) (size : option Z) (meta : list (string * string)) : M world nat :=
  do! change (fun s => with_files (files s ++ [File path size PENDING None None None 0 None meta]) s);
  let! n := gets (fun w => length (files (tracker w))) in
  do! change_metrics (fun m => with_counts (Z.of_nat n) (processed_files m) (failed_files m) (skipped_files m) m);
  do! match size with
      | Some z => change_metrics (fun m => with_sizes (Some (default 0 (total_size_bytes m) + z)) (processed_size_bytes m) m)
      | None => ret tt
      end;
  do! _update_timestamp;
  ret (n - 1)%nat.

Definition start_file_processing (path : string) (b : option string) : M world bool :=
  let! found := _find_file path in
  match found with
  | None => ret false
  | Some i =>
      do! change_file i (with_status PROCESSING);
      let! t := now in
      do! change_file i (with_start (Some t) b);
      do! _update_timestamp;
      ret true
  end.

Definition count_error (message : option text) : M world unit :=
  match message with
  | None | Some [] => ret tt
  | Some e =>
      change (fun s => Tracker (metrics s) (files s) (count_word (_extract_error_type e) (error_summary s))
        (recovery_attempts s) (updated_at s))
  end.

Definition complete_file_processing (path : string) (success : bool) (message : option text) : M world unit :=
  let! found := _find_file path in
  match found with
  | None => ret tt
  | Some i =>
      let! t := now in
      do! change_file i (with_end (Some t));
      do! (if success then
             do! change_file i (with_status COMPLETED);
             do! change_metrics (fun m => with_counts (total_files m) (processed_files m + 1) (failed_files m) (skipped_files m) m);
             let! f := file_at i in
             match f ≫= file_size with
             | Some z => change_metrics (fun m => with_sizes (total_size_bytes m) (processed_size_bytes m + z) m)
             | None => ret tt
             end
           else
             do! change_file i (fun f => with_error message (with_status FAILED f));
             do! change_metrics (fun m => with_counts (total_files m) (processed_files m) (failed_files m + 1) (skipped_files m) m);
             count_error message);
      do! _update_progress_metrics;
      _update_timestamp
  end.

Definition skip_file_processing (path : string) (reason : text) : M world unit :=
  let! found := _find_file path in
  match found with
  | None => ret tt
  | Some i =>
      do! change_file i (fun f => with_error (Some (of_string "Skipped: " ++ reason)) (with_status SKIPPED f));
      do! change_metrics (fun m => with_counts (total_files m) (processed_files m) (failed_files m) (skipped_files m + 1) m);
      _update_timestamp
  end.

(** ** Batches *)

Definition start_batch (id : string) (size : Z) : M world unit :=
  let! t := now in
  do! change_metrics (fun m => with_batches (Some id) (batch_metrics m ++ [Batch id size 0 0 (Some t) None]) m);
  _update_timestamp.

Definition _find_batch (id : string) : M world (option nat) :=
  gets (fun w => fst <$> list_find (fun b => batch_id b = id) (batch_metrics (metrics (tracker w)))).

Definition complete_batch (id : string) : M world unit :=
  let! found := _find_batch id in
  match found with
  | None => ret tt
  | Some i =>
      let! t := now in
      do! change_metrics (fun m => with_batches
        (if bool_decide (current_batch m = Some id) then None else current_batch m)
        (alter (fun b => Batch (batch_id b) (batch_size b) (processed_count b) (failed_count b) (batch_start b) (Some t)) i
          (batch_metrics m)) m);
      _update_timestamp
  end.

(** ** Retries *)

Definition retryable (max_retries : Z) (f : FileProcessingInfo) : bool :=
  bool_decide (status f = FAILED) && (retry_count f <? max_retries).
Definition retried (f : FileProcessingInfo) : FileProcessingInfo := with_status PENDING (with_retries (retry_count f + 1) f).

(** The places of the files to be tried again. *)
Definition retry_failed_files (max_retries : Z) : M world (list nat) :=
  let! l := gets (fun w => files (tracker w)) in
  let places := filter (fun i => match l !! i with Some f => retryable max_retries f | None => false end = true) (seq 0 (length l)) in
  do! change (with_files (map (fun f => if retryable max_retries f then retried f else f) l));
  do! match places with
      | [] => ret tt
      | _ =>
          do! change (fun s => Tracker (metrics s) (files s) (error_summary s) (recovery_attempts s + 1) (updated_at s));
          _update_timestamp
      end;
  ret places.

(** ** The summary *)

Record ProgressSummaryResponse : Type := Summary {
  summary_completion_percentage : spec_float;
  summary_success_rate : spec_float;
  summary_estimated_completion : option micros;
  total_items : Z;
  processed_items : Z;
  successful_items : Z;
  failed_items : Z;
  current_batch_id : option string;
  active_workers : Z;
  recent_errors : list string;
}.

Definition last_five {A} (l : list A) : list A := drop (length l - 5) l.

(** The identifiers, the elapsed time as text and the rates are left out; the
    rates must not be negative. *)
Definition get_progress_summary : M world ProgressSummaryResponse :=
  let! completion := completion_percentage in
  let! rate := success_rate in
  let! m := current in
  let! errors := gets (fun w => error_summary (tracker w)) in
  if negb (SFleb zero (files_per_second m) && SFleb zero (bytes_per_second m) && SFleb zero (average_processing_time_ms m))
  then raise (OtherException "ValidationError" "performance_metrics")
  else ret (Summary completion rate (estimated_completion m) (total_files m) (processed_files m)
    (processed_files m - failed_files m) (failed_files m) (current_batch m)
    (Z.of_nat (length (filter (fun b => batch_end b = None) (batch_metrics m))))
    (map (fun en => to_string en.1 +:+ ": " +:+ pretty en.2 +:+ " occurrences") (last_five errors))).

Module MigrationFacts.

(** ** Sums over the files *)

Definition total {A} (f : A -> Z) (l : list A) : Z := foldr (fun x n => f x + n) 0 l.

Lemma total_app {A} (f : A -> Z) l l' : total f (l ++ l') = total f l + total f l'.
Proof. induction l as [|x l IH]; simpl; [done|]. rewrite IH. lia. Qed.

Lemma total_alter {A} (f : A -> Z) (g : A -> A) l i x : l !! i = Some x ->
  total f (alter g i l) = total f l - f x + f (g x).
Proof.
  revert i. induction l as [|y l IH]; intros [|i] H; simplify_eq/=; [lia|]. rewrite (IH i H). lia.
Qed.

Lemma total_map {A} (f : A -> Z) (g : A -> A) l : (forall x, f (g x) = f x) -> total f (map g l) = total f l.
Proof. intros H. induction l as [|x l IH]; simpl; [done|]. by rewrite H, IH. Qed.

Definition is_ (s : EnumFileProcessingStatus) (f : FileProcessingInfo) : Z := if bool_decide (status f = s) then 1 else 0.
Definition size_of (f : FileProcessingInfo) : Z := default 0 (file_size f).
Definition completed_size (f : FileProcessingInfo) : Z := if bool_decide (status f = COMPLETED) then size_of f else 0.
Definition failures (f : FileProcessingInfo) : Z := is_ FAILED f + retry_count f.
Definition errors (l : list (text * nat)) : Z := total (fun en => Z.of_nat en.2) l.

(** The counters say what the files say. *)
Record accounts (max_retries : Z) (s : MigrationProgressTracker) : Prop := Accounts {
  ac_paths : NoDup (file_path <$> files s);
  ac_total : total_files (metrics s) = Z.of_nat (length (files s));
  ac_processed : processed_files (metrics s) = total (is_ COMPLETED) (files s);
  ac_skipped : skipped_files (metrics s) = total (is_ SKIPPED) (files s);
  ac_failed : failed_files (metrics s) = total failures (files s);
  ac_processed_size : processed_size_bytes (metrics s) = total completed_size (files s);
  ac_total_size : default 0 (total_size_bytes (metrics s)) = total size_of (files s);
  ac_errors : errors (error_summary s) <= failed_files (metrics s);
  ac_retries : Forall (fun f => 0 <= retry_count f <= max_retries) (files s);
}.

(** What the accounts depend on. *)
Definition view (s : MigrationProgressTracker) :=
  (files s, error_summary s, (total_files (metrics s), processed_files (metrics s), failed_files (metrics s),
   skipped_files (metrics s)), (total_size_bytes (metrics s), processed_size_bytes (metrics s))).

Lemma accounts_view n s s' : view s = view s' -> accounts n s -> accounts n s'.
Proof.
  unfold view. intros [= H1 H2 H3 H4 H5 H6 H7 H8] [? ? ? ? ? ? ? ? ?].
  constructor; rewrite <- ?H1, <- ?H2, <- ?H3, <- ?H4, <- ?H5, <- ?H6, <- ?H7, <- ?H8; done.
Qed.

(** Computations that leave it alone. *)
Definition keeps_view {A} (m : M world A) : Prop := forall w, view (tracker (m w).2) = view (tracker w).

Lemma keeps_ret {A} (a : A) : keeps_view (ret a).
Proof. done. Qed.
Lemma keeps_raise {A} e : keeps_view (@raise world A e).
Proof. done. Qed.
Lemma keeps_gets {A} (f : world -> A) : keeps_view (gets f).
Proof. done. Qed.
Lemma keeps_now : keeps_view now.
Proof. done. Qed.
Lemma keeps_bind {A B} (m : M world A) (k : A -> M world B) :
  keeps_view m -> (forall a, keeps_view (k a)) -> keeps_view (bind m k).
Proof. intros Hm Hk w. unfold bind. specialize (Hm w). destruct (m w) as [[a|e] w']; simpl in *; [by rewrite Hk|done]. Qed.
Lemma keeps_change f : (forall s, view (f s) = view s) -> keeps_view (change f).
Proof. intros H w. apply H. Qed.

Create HintDb keeps.
#[local] Hint Resolve keeps_ret keeps_raise keeps_gets keeps_now keeps_bind : keeps.

Lemma keeps_timestamp : keeps_view _update_timestamp.
Proof. apply keeps_bind; [apply keeps_now|]. intros t. by apply keeps_change. Qed.

Lemma keeps_estimate : keeps_view estimate_completion_time.
Proof.
  apply keeps_bind; [apply keeps_gets|]. intros m. destruct (_ || _); [apply keeps_ret|].
  destruct (timedelta_seconds _) as [d|e]; [|apply keeps_raise]. cbv zeta. destruct (_ <=? _); [apply keeps_raise|].
  apply keeps_bind; [by apply keeps_change|]. intros _. apply keeps_ret.
Qed.

Lemma keeps_progress : keeps_view _update_progress_metrics.
Proof.
  apply keeps_bind; [apply keeps_bind; [apply keeps_now|]; intros t; by apply keeps_change|]. intros _.
  apply keeps_bind; [apply keeps_now|]. intros t. apply keeps_bind; [by apply keeps_change|]. intros _.
  apply keeps_bind; [|intros _; apply keeps_bind; [apply keeps_estimate|intros _; apply keeps_ret]].
  apply keeps_change. intros s. unfold with_metrics. by destruct (SFltb _ _).
Qed.

Lemma keeps_cached get put compute : (forall x m, view (with_metrics (put x) m) = view m) ->
  keeps_view (cached get put compute).
Proof.
  intros H. apply keeps_bind.
  - apply keeps_bind; [apply keeps_gets|]. intros m. destruct (_cache_invalidated_at m); [|apply keeps_ret].
    apply keeps_bind; [apply keeps_now|]. intros n. apply keeps_ret.
  - intros valid. apply keeps_bind; [apply keeps_gets|]. intros m. destruct (if valid : bool then _ else _); [apply keeps_ret|].
    apply keeps_bind; [|intros; apply keeps_ret]. by apply keeps_change.
Qed.

(** ** The operations *)

Inductive operation : Type :=
  | Add (path : string) (size : option Z) (meta : list (string * string))
  | Start (path : string) (b : option string)
  | Complete (path : string) (success : bool) (message : option text)
  | Skip (path : string) (reason : text)
  | StartBatch (id : string) (size : Z)
  | CompleteBatch (id : string)
  | Retry (max_retries : Z)
  | ReadSummary.

Definition exec (o : operation) : M world unit :=
  match o with
  | Add path size meta => do! add_file path size meta; ret tt
  | Start path b => do! start_file_processing path b; ret tt
  | Complete path success message => complete_file_processing path success message
  | Skip path reason => skip_file_processing path reason
  | StartBatch id size => start_batch id size
  | CompleteBatch id => complete_batch id
  | Retry n => do! retry_failed_files n; ret tt
  | ReadSummary => do! get_progress_summary; ret tt
  end.

Definition step (w : world) (o : operation) : world := (exec o w).2.

(** A file that is neither done nor given up. *)
Definition open_file (f : FileProcessingInfo) : bool := bool_decide (status f = PENDING) || bool_decide (status f = PROCESSING).

(** The order of operations the tracker is made for: paths are added once, and
    a file is completed or skipped while it is pending or being processed. *)
Definition in_order (max_retries : Z) (w : world) (o : operation) : Prop :=
  let l := files (tracker w) in
  match o with
  | Add path _ _ => path ∉ file_path <$> l
  | Start path _ | Complete path _ _ | Skip path _ => forall f, f ∈ l -> file_path f = path -> open_file f = true
  | Retry n => n <= max_retries
  | _ => True
  end.

Fixpoint all_in_order (n : Z) (w : world) (os : list operation) : Prop :=
  match os with [] => True | o :: os => in_order n w o /\ all_in_order n (step w o) os end.

Lemma found_file w path i w' : _find_file path w = (Ok (Some i), w') ->
  w' = w /\ exists f, files (tracker w) !! i = Some f /\ file_path f = path.
Proof.
  unfold _find_file, gets. intros [= H <-]. split; [done|].
  destruct (list_find _ _) as [[j f]|] eqn:E; simplify_eq/=. apply list_find_Some in E as (Hf & Hp & _). by exists f.
Qed.

Lemma alter_same_paths g i (l : list FileProcessingInfo) : (forall x, l !! i = Some x -> file_path (g x) = file_path x) ->
  file_path <$> alter g i l = file_path <$> l.
Proof.
  revert i. induction l as [|y l IH]; intros [|i] H; [done..| |].
  - cbn. f_equal. by apply H.
  - cbn. f_equal. by apply IH.
Qed.

(** Changing one file and its counters. *)
Lemma accounts_file n s i f g (h : MigrationProgressMetrics -> MigrationProgressMetrics) summary :
  accounts n s -> files s !! i = Some f ->
  file_path (g f) = file_path f -> file_size (g f) = file_size f -> retry_count (g f) = retry_count f ->
  let m := h (metrics s) in
  total_files m = total_files (metrics s) -> total_size_bytes m = total_size_bytes (metrics s) ->
  processed_files m = processed_files (metrics s) - is_ COMPLETED f + is_ COMPLETED (g f) ->
  skipped_files m = skipped_files (metrics s) - is_ SKIPPED f + is_ SKIPPED (g f) ->
  failed_files m = failed_files (metrics s) - is_ FAILED f + is_ FAILED (g f) ->
  processed_size_bytes m = processed_size_bytes (metrics s) - completed_size f + completed_size (g f) ->
  errors summary <= failed_files m ->
  forall s', files s' = alter g i (files s) -> metrics s' = m -> error_summary s' = summary -> accounts n s'.
Proof.
  intros [H1 H2 H3 H4 H5 H6 H7 H8 H9] Hf Hp Hz Hr m M1 M2 M3 M4 M5 M6 M7 s' E1 E2 E3.
  constructor; rewrite ?E1, ?E2, ?E3.
  - rewrite alter_same_paths; [done|]. by intros x [= <-]%(eq_trans (eq_sym Hf)).
  - by rewrite M1, length_alter.
  - rewrite (total_alter _ g _ _ f Hf). lia.
  - rewrite (total_alter _ g _ _ f Hf). lia.
  - rewrite (total_alter _ g _ _ f Hf).
    assert (failures (g f) = failures f - is_ FAILED f + is_ FAILED (g f)) by (unfold failures; lia). lia.
  - rewrite (total_alter _ g _ _ f Hf). lia.
  - rewrite (total_alter _ g _ _ f Hf). assert (size_of (g f) = size_of f) by (unfold size_of; by rewrite Hz). rewrite M2. lia.
  - done.
  - apply Forall_alter; [done|]. intros x Hx. simplify_eq. by rewrite Hr.
Qed.

Definition fine (n : Z) {A} : res A -> world -> Prop := fun _ w => accounts n (tracker w).

Lemma wp_keeps {A} n (m : M world A) w : keeps_view m -> accounts n (tracker w) -> wp m (fine n) w.
Proof. intros Hk Ha. unfold wp, fine. eapply accounts_view; [|exact Ha]. symmetry. apply Hk. Qed.

(** A change of one file that only touches its times, its batch, its message or
    moves it between the open states. *)
Lemma accounts_touch n s i f g :
  accounts n s -> files s !! i = Some f ->
  file_path (g f) = file_path f -> file_size (g f) = file_size f -> retry_count (g f) = retry_count f ->
  (status (g f) = status f \/ (open_file f = true /\ open_file (g f) = true)) ->
  accounts n (with_files (alter g i (files s)) s).
Proof.
  intros Ha Hf H1 H2 H3 Hs.
  assert (E : is_ COMPLETED (g f) = is_ COMPLETED f /\ is_ SKIPPED (g f) = is_ SKIPPED f /\ is_ FAILED (g f) = is_ FAILED f /\
    completed_size (g f) = completed_size f).
  { unfold is_, completed_size, size_of. rewrite H2. destruct Hs as [->|[Ho Hg]]; [done|].
    unfold open_file in *. by destruct (status f), (status (g f)). }
  destruct E as (E1 & E2 & E3 & E4).
  apply (accounts_file n s i f g (fun m => m) (error_summary s) Ha Hf H1 H2 H3); rewrite ?E1, ?E2, ?E3, ?E4; try lia; try done.
  apply Ha.
Qed.

Lemma files_touched g i s : files (with_files (alter g i (files s)) s) = alter g i (files s).
Proof. done. Qed.

Lemma errors_counted e l : errors (count_word e l) = errors l + 1.
Proof.
  unfold errors. induction l as [|[v k] l IH]; simpl; [done|]. case_bool_decide; simpl; lia.
Qed.

Lemma add_accounts n w path size meta : accounts n (tracker w) -> 0 <= n -> in_order n w (Add path size meta) ->
  wp (exec (Add path size meta)) (fine n) w.
Proof.
  intros [H1 H2 H3 H4 H5 H6 H7 H8 H9] Hn Hp. simpl in Hp. unfold exec, add_file.
  rewrite wp_bind, wp_bind. unfold change at 1. rewrite wp_modify. cbn beta iota. rewrite wp_bind, wp_gets. cbn beta iota.
  rewrite wp_bind. unfold change_metrics at 1, change at 1. rewrite wp_modify. cbn beta iota. rewrite wp_bind.
  set (w1 := World _ _ _).
  assert (Hacc : forall z, z = default 0 size -> forall s, files s = files (tracker w) ++ [File path size PENDING None None None 0 None meta] ->
    (total_files (metrics s), processed_files (metrics s), failed_files (metrics s), skipped_files (metrics s)) =
      (Z.of_nat (length (files s)), processed_files (metrics (tracker w)), failed_files (metrics (tracker w)),
       skipped_files (metrics (tracker w))) ->
    default 0 (total_size_bytes (metrics s)) = default 0 (total_size_bytes (metrics (tracker w))) + z ->
    processed_size_bytes (metrics s) = processed_size_bytes (metrics (tracker w)) -> error_summary s = error_summary (tracker w) ->
    accounts n s).
  { intros z -> s Ef [= E1 E2 E3 E4] Ez Eb Ee. constructor; rewrite ?E1, ?E2, ?E3, ?E4, ?Ef, ?Ee, ?Eb, ?Ez, ?total_app; simpl.
    - rewrite fmap_app. apply NoDup_app. split_and!; [done| |by apply NoDup_singleton]. intros x Hx ->%list_elem_of_singleton. done.
    - done.
    - rewrite H3. change (is_ COMPLETED _) with 0. lia.
    - rewrite H4. change (is_ SKIPPED _) with 0. lia.
    - rewrite H5. change (failures _) with 0. lia.
    - rewrite H6. change (completed_size _) with 0. lia.
    - rewrite H7. change (size_of _) with (default 0 size). lia.
    - done.
    - apply Forall_app. split; [done|]. repeat constructor; simpl; lia. }
  assert (Hfin : forall w2 : world, accounts n (tracker w2) ->
    wp (bind (do! _update_timestamp; ret (length (files (tracker w1)) - 1)%nat) (fun _ => ret tt)) (fine n) w2).
  { intros w2 Ha. apply wp_keeps; [|done]. apply keeps_bind; [|intros; apply keeps_ret].
    apply keeps_bind; [apply keeps_timestamp|intros; apply keeps_ret]. }
  destruct size as [z|].
  - unfold change_metrics, change. rewrite wp_modify. cbn beta iota. apply (wp_bind _ (fun _ => ret tt)), Hfin.
    by apply (Hacc z).
  - rewrite wp_ret. cbn beta iota. apply (wp_bind _ (fun _ => ret tt)), Hfin. apply (Hacc 0); simpl; try done. lia.
Qed.

(** Reading the clock and touching a file, one after the other. *)
Lemma wp_now {Q : res micros -> world -> Prop} w :
  wp now Q w <-> Q (Ok (clock w (readings w))) (World (tracker w) (clock w) (S (readings w))).
Proof. done. Qed.

Lemma wp_change {Q : res unit -> world -> Prop} f w :
  wp (change f) Q w <-> Q (Ok tt) (World (f (tracker w)) (clock w) (readings w)).
Proof. done. Qed.

Lemma wp_find n {A} (k : option nat -> M world A) path w :
  accounts n (tracker w) -> wp (k None) (fine n) w ->
  (forall i f, files (tracker w) !! i = Some f -> file_path f = path -> wp (k (Some i)) (fine n) w) ->
  wp (let! found := _find_file path in k found) (fine n) w.
Proof.
  intros Ha H0 H1. rewrite wp_bind. unfold wp at 1. destruct (_find_file path w) as [r w'] eqn:E. simpl.
  assert (Hr : exists o, r = Ok o) by (unfold _find_file, gets in E; simplify_eq; by eexists).
  destruct Hr as [[i|] ->].
  - apply found_file in E as (-> & f & Hf & Hp). by apply (H1 i f).
  - unfold _find_file, gets in E. by simplify_eq.
Qed.

Lemma start_accounts n w path b : accounts n (tracker w) -> in_order n w (Start path b) ->
  wp (exec (Start path b)) (fine n) w.
Proof.
  intros Ha Ho. simpl in Ho. unfold exec, start_file_processing. rewrite wp_bind.
  apply (wp_mono _ (fine n)); [intros [[]|] w' H; exact H|].
  apply wp_find; [done|done|]. intros i f Hf Hp.
  assert (Hopen : open_file f = true) by (apply Ho; [by eapply list_elem_of_lookup_2|done]).
  unfold change_file. rewrite wp_bind, wp_change. cbn beta iota. rewrite wp_bind, wp_now. cbn beta iota.
  rewrite wp_bind, wp_change. cbn beta iota.
  apply wp_keeps; [apply keeps_bind; [apply keeps_timestamp|intros; apply keeps_ret]|].
  cbn [tracker]. apply (accounts_touch n (with_files (alter (with_status PROCESSING) i (files (tracker w))) (tracker w)) i
    (with_status PROCESSING f)); [|by rewrite files_touched, list_lookup_alter_eq, Hf|done|done|done|by left].
  apply (accounts_touch n _ i f); try done. right. done.
Qed.

Lemma skip_accounts n w path reason : accounts n (tracker w) -> in_order n w (Skip path reason) ->
  wp (exec (Skip path reason)) (fine n) w.
Proof.
  intros Ha Ho. simpl in Ho. unfold exec, skip_file_processing. apply wp_find; [done|done|]. intros i f Hf Hp.
  assert (Hopen : open_file f = true) by (apply Ho; [by eapply list_elem_of_lookup_2|done]).
  unfold change_file. rewrite wp_bind, wp_change. cbn beta iota. unfold change_metrics. rewrite wp_bind, wp_change. cbn beta iota.
  apply wp_keeps; [apply keeps_timestamp|]. cbn [tracker].
  assert (E : is_ COMPLETED f = 0 /\ is_ SKIPPED f = 0 /\ is_ FAILED f = 0 /\ completed_size f = 0).
  { unfold is_, completed_size, open_file in *. by destruct (status f). }
  destruct E as (E1 & E2 & E3 & E4).
  eapply (accounts_file n (tracker w) i f (fun f => with_error (Some (of_string "Skipped: " ++ reason)) (with_status SKIPPED f))
    (fun m => with_counts (total_files m) (processed_files m) (failed_files m) (skipped_files m + 1) m) (error_summary (tracker w)) Ha Hf);
    simpl; try done; rewrite ?E1, ?E2, ?E3, ?E4; unfold is_, completed_size; simpl; try lia. apply Ha.
Qed.

Lemma complete_accounts n w path success message : accounts n (tracker w) -> in_order n w (Complete path success message) ->
  wp (exec (Complete path success message)) (fine n) w.
Proof.
  intros Ha Ho. simpl in Ho. unfold exec, complete_file_processing. apply wp_find; [done|done|]. intros i f0 Hf0 Hp.
  assert (Hopen : open_file f0 = true) by (apply Ho; [by eapply list_elem_of_lookup_2|done]).
  rewrite wp_bind, wp_now. cbn beta iota. unfold change_file at 1. rewrite wp_bind, wp_change. cbn beta iota.
  set (w1 := World _ _ _). assert (Ha1 : accounts n (tracker w1)).
  { apply (accounts_touch n _ i f0); try done. by left. }
  set (f := with_end (Some (clock w (readings w))) f0).
  assert (Hf : files (tracker w1) !! i = Some f) by (unfold w1; simpl; by rewrite list_lookup_alter_eq, Hf0).
  assert (E : is_ COMPLETED f = 0 /\ is_ SKIPPED f = 0 /\ is_ FAILED f = 0 /\ completed_size f = 0).
  { unfold f, is_, completed_size, open_file in *. simpl. by destruct (status f0). }
  clearbody w1 f. destruct E as (E1 & E2 & E3 & E4).
  assert (Htail : forall w2, accounts n (tracker w2) -> wp (do! _update_progress_metrics; _update_timestamp) (fine n) w2).
  { intros w2 H. apply wp_keeps; [apply keeps_bind; [apply keeps_progress|intros; apply keeps_timestamp]|done]. }
  rewrite wp_bind. unfold change_file, change_metrics. destruct success.
  - rewrite wp_bind, wp_change. cbn beta iota. rewrite wp_bind, wp_change. cbn beta iota.
    unfold file_at. rewrite wp_bind, wp_gets. cbn beta iota. cbn [tracker files with_metrics with_files].
    rewrite list_lookup_alter_eq, Hf. cbn.
    assert (Hacc : forall s, files s = alter (with_status COMPLETED) i (files (tracker w1)) ->
      metrics s = with_sizes (total_size_bytes (metrics (tracker w1))) (processed_size_bytes (metrics (tracker w1)) + size_of f)
        (with_counts (total_files (metrics (tracker w1))) (processed_files (metrics (tracker w1)) + 1)
          (failed_files (metrics (tracker w1))) (skipped_files (metrics (tracker w1))) (metrics (tracker w1))) ->
      error_summary s = error_summary (tracker w1) -> accounts n s).
    { intros s F1 F2 F3. refine (accounts_file n (tracker w1) i f (with_status COMPLETED) (fun _ => _) (error_summary (tracker w1))
        Ha1 Hf _ _ _ _ _ _ _ _ _ _ s F1 F2 F3); simpl; try done; rewrite ?E1, ?E2, ?E3, ?E4; unfold is_, completed_size, size_of; simpl; try lia.
      apply Ha1. }
    destruct (file_size f) as [z|] eqn:Ez.
    + rewrite wp_change. cbn beta iota. apply Htail, Hacc; try done. simpl. unfold size_of. by rewrite Ez.
    + rewrite wp_ret. cbn beta iota. apply Htail, Hacc; try done. simpl. unfold size_of. rewrite Ez. simpl.
      by rewrite Z.add_0_r; destruct (metrics (tracker w1)).
  - rewrite wp_bind, wp_change. cbn beta iota. rewrite wp_bind, wp_change. cbn beta iota.
    assert (Hacc : forall s summary, files s = alter (fun f => with_error message (with_status FAILED f)) i (files (tracker w1)) ->
      metrics s = with_counts (total_files (metrics (tracker w1))) (processed_files (metrics (tracker w1)))
          (failed_files (metrics (tracker w1)) + 1) (skipped_files (metrics (tracker w1))) (metrics (tracker w1)) ->
      error_summary s = summary -> errors summary <= errors (error_summary (tracker w1)) + 1 -> accounts n s).
    { intros s summary F1 F2 F3 Hle. pose proof (ac_errors _ _ Ha1) as He.
      refine (accounts_file n (tracker w1) i f (fun f => with_error message (with_status FAILED f)) (fun _ => _) summary
        Ha1 Hf _ _ _ _ _ _ _ _ _ _ s F1 F2 F3); simpl; try done; rewrite ?E1, ?E2, ?E3, ?E4; unfold is_, completed_size, size_of; simpl; lia. }
    unfold count_error. destruct message as [[|c e]|].
    + rewrite wp_ret. cbn beta iota. apply Htail. eapply Hacc; try done. simpl. lia.
    + rewrite wp_change. cbn beta iota. apply Htail.
      apply (Hacc _ (count_word (_extract_error_type (c :: e)) (error_summary (tracker w1)))); try done. by rewrite errors_counted.
    + rewrite wp_ret. cbn beta iota. apply Htail. eapply Hacc; try done. simpl. lia.
Qed.

Lemma retry_accounts n w k : accounts n (tracker w) -> in_order n w (Retry k) -> wp (exec (Retry k)) (fine n) w.
Proof.
  intros Ha Hk. simpl in Hk. unfold exec, retry_failed_files. rewrite wp_bind.
  apply (wp_mono _ (fine n)); [intros [[]|] w' H; exact H|].
  rewrite wp_bind, wp_gets. cbn beta iota. cbv zeta. rewrite wp_bind, wp_change. cbn beta iota.
  set (w1 := World _ _ _). assert (Ha1 : accounts n (tracker w1)).
  { destruct Ha as [H1 H2 H3 H4 H5 H6 H7 H8 H9]. set (g := fun f => if retryable k f then retried f else f).
    assert (Hg : forall f, retryable k f = true -> status f = FAILED /\ retry_count f < k).
    { intros f Hr. unfold retryable in Hr. by breflect. }
    unfold w1. cbn [tracker]. constructor; cbn [files with_files metrics error_summary]; fold g; try done.
    - replace (file_path <$> map g (files (tracker w))) with (file_path <$> files (tracker w)); [done|].
      clear. induction (files (tracker w)) as [|f l IH]; [done|]. cbn. f_equal; [|exact IH]. unfold g. by destruct (retryable k f).
    - by rewrite length_map.
    - rewrite total_map; [done|]. intros f. unfold g. destruct (retryable k f) eqn:Er; [|done]. apply Hg in Er as [Er _].
      unfold is_. simpl. by rewrite Er.
    - rewrite total_map; [done|]. intros f. unfold g. destruct (retryable k f) eqn:Er; [|done]. apply Hg in Er as [Er _].
      unfold is_. simpl. by rewrite Er.
    - rewrite total_map; [done|]. intros f. unfold g. destruct (retryable k f) eqn:Er; [|done]. apply Hg in Er as [Er _].
      unfold failures, is_. rewrite Er. change (0 + (retry_count f + 1) = 1 + retry_count f). lia.
    - rewrite total_map; [done|]. intros f. unfold g. destruct (retryable k f) eqn:Er; [|done]. apply Hg in Er as [Er _].
      unfold completed_size. simpl. by rewrite Er.
    - rewrite total_map; [done|]. intros f. unfold g. by destruct (retryable k f).
    - apply Forall_map. eapply Forall_impl; [exact H9|]. intros f Hf. unfold g. destruct (retryable k f) eqn:Er; [|done].
      apply Hg in Er as [_ Er]. simpl in *. lia. }
  apply wp_keeps; [|done]. apply keeps_bind; [|intros; apply keeps_ret]. destruct (filter _ _); [apply keeps_ret|].
  apply keeps_bind; [by apply keeps_change|intros; apply keeps_timestamp].
Qed.

Lemma step_accounts n w o : 0 <= n -> accounts n (tracker w) -> in_order n w o -> accounts n (tracker (step w o)).
Proof.
  intros Hn Ha Ho. change (wp (exec o) (fine n) w). destruct o.
  - by apply add_accounts.
  - by apply start_accounts.
  - by apply complete_accounts.
  - by apply skip_accounts.
  - apply wp_keeps; [|done]. apply keeps_bind; [apply keeps_now|]. intros t. apply keeps_bind; [by apply keeps_change|].
    intros _. apply keeps_timestamp.
  - apply wp_keeps; [|done]. apply keeps_bind; [apply keeps_gets|]. intros [i|]; [|apply keeps_ret].
    apply keeps_bind; [apply keeps_now|]. intros t. apply keeps_bind; [by apply keeps_change|]. intros _. apply keeps_timestamp.
  - by apply retry_accounts.
  - apply wp_keeps; [|done]. apply keeps_bind; [|intros; apply keeps_ret]. unfold get_progress_summary.
    apply keeps_bind; [by apply keeps_cached|]. intros x. apply keeps_bind; [by apply keeps_cached|]. intros y.
    apply keeps_bind; [apply keeps_gets|]. intros m. apply keeps_bind; [apply keeps_gets|]. intros l.
    destruct (negb _); [apply keeps_raise|apply keeps_ret].
Qed.

(** As long as paths are added once and only open files
    are completed or skipped, the counters of a tracker are those of its files
    after any operations, whatever the clock and even where an operation
    raises: the total, the completed and skipped ones, the failures with those
    that were tried again, and the sizes; error types are counted at most once
    for each failure, and no file is tried again more than [max_retries]
    times. *)
Theorem progress_accounts max_retries t clock os :
  0 <= max_retries -> all_in_order max_retries (World (new t) clock 0) os ->
  accounts max_retries (tracker (run step (World (new t) clock 0) os)).
Proof.
  intros Hn. assert (H0 : accounts max_retries (tracker (World (new t) clock 0))).
  { constructor; simpl; try done; constructor. }
  revert H0. generalize (World (new t) clock 0) as w. induction os as [|o os IH]; intros w Ha Ho; [done|].
  destruct Ho as [Ho Hos]. change (run step w (o :: os)) with (run step (step w o) os).
  apply IH; [by apply step_accounts|done].
Qed.

(** ** Error types *)

Definition dotted (parts : list text) (name : text) : text := concat (map (fun p => p ++ of_string ".") parts) ++ name.

Lemma identifier_chars s c : isidentifier s = true -> c ∈ s ->
  is_space c = false /\ Ascii.eqb ":" c = false /\ Ascii.eqb "." c = false.
Proof.
  intros Hs Hc. assert (H : is_letter c || char_in "0" "9" c = true).
  { destruct s as [|d s]; [done|]. simpl in Hs. apply andb_true_iff in Hs as [Hd Hs].
    apply elem_of_cons in Hc as [->|Hc]; [by rewrite Hd|]. rewrite forallb_forall in Hs. by apply Hs, list_elem_of_In. }
  revert H. by destruct c as [[] [] [] [] [] [] [] []].
Qed.

Lemma dotted_chars parts name c : Forall (fun p => isidentifier p = true) parts -> isidentifier name = true -> c ∈ dotted parts name ->
  is_space c = false /\ Ascii.eqb ":" c = false.
Proof.
  intros Hp Hn. induction Hp as [|p parts Hp _ IH]; unfold dotted; simpl; intros Hc.
  - by destruct (identifier_chars name c Hn Hc) as (? & ? & _).
  - rewrite <- app_assoc in Hc. apply elem_of_app in Hc as [Hc|Hc]; [rewrite elem_of_app in Hc; destruct Hc as [Hc|Hc]|].
    + by destruct (identifier_chars p c Hp Hc) as (? & ? & _).
    + by apply list_elem_of_singleton in Hc as ->.
    + by apply IH.
Qed.

Lemma before_first_colon s rest : (forall c, c ∈ s -> Ascii.eqb ":" c = false) ->
  before_first (of_string ": ") (s ++ of_string ": " ++ rest) = Some s.
Proof.
  induction s as [|c s IH]; intros H; [done|].
  assert (E : starts_with (of_string ": ") ((c :: s) ++ of_string ": " ++ rest) = false).
  { change (Ascii.eqb ":" c && starts_with (of_string " ") (s ++ of_string ": " ++ rest) = false). by rewrite H by left. }
  change (before_first (of_string ": ") ((c :: s) ++ of_string ": " ++ rest)) with
    (if starts_with (of_string ": ") ((c :: s) ++ of_string ": " ++ rest) then Some []
     else cons c <$> before_first (of_string ": ") (s ++ of_string ": " ++ rest)).
  rewrite E, IH; [done|]. intros d Hd. apply H. by right.
Qed.

Lemma split_dots_plain s : (forall c, c ∈ s -> Ascii.eqb "." c = false) -> split_dots s = [s].
Proof.
  induction s as [|c s IH]; intros H; [done|]. simpl. rewrite IH by (intros d Hd; apply H; by right).
  rewrite Ascii.eqb_sym, (H c) by left. done.
Qed.

Lemma split_dots_app p s : (forall c, c ∈ p -> Ascii.eqb "." c = false) -> split_dots (p ++ of_string "." ++ s) = p :: split_dots s.
Proof.
  induction p as [|c p IH]; intros H; [done|]. simpl app. simpl split_dots.
  change (p ++ "."%char :: s) with (p ++ of_string "." ++ s). rewrite IH by (intros d Hd; apply H; by right).
  rewrite Ascii.eqb_sym, (H c) by left. done.
Qed.

Lemma split_dotted parts name : Forall (fun p => isidentifier p = true) parts -> isidentifier name = true ->
  split_dots (dotted parts name) = parts ++ [name].
Proof.
  intros Hp Hn. induction Hp as [|p parts Hp _ IH]; unfold dotted; simpl.
  - apply split_dots_plain. intros c Hc. by destruct (identifier_chars name c Hn Hc) as (_ & _ & ?).
  - rewrite <- !app_assoc. rewrite split_dots_app; [|intros c Hc; by destruct (identifier_chars p c Hp Hc) as (_ & _ & ?)].
    f_equal. apply IH.
Qed.

(** The type found in a message is always the name of
    a class; and the message of an error, its class written with or without
    its module before a colon and a space, gives the name of the class. *)
Theorem error_type_roundtrip :
  (forall message, class_name (_extract_error_type message) = true) /\
  forall parts name rest, Forall (fun p => isidentifier p = true) parts -> class_name name = true ->
    _extract_error_type (dotted parts name ++ of_string ": " ++ rest) = name.
Proof.
  assert (Hck : forall s, class_name (checked s) = true).
  { intros s. unfold checked. by destruct (class_name s) eqn:E. }
  split.
  - intros message. unfold _extract_error_type. destruct (before_first _ _); [|done]. destruct (strip_chars _ _); [done|].
    destruct (existsb _ _); [|apply Hck]. cbv zeta. destruct (forallb _ _); [apply Hck|done].
  - intros parts name rest Hp Hc. pose proof Hc as Hn. unfold class_name in Hn. apply andb_true_iff in Hn as [Hn _].
    apply andb_true_iff in Hn as [_ Hn]. unfold _extract_error_type.
    rewrite before_first_colon by (intros c Hin; by eapply dotted_chars).
    rewrite strip_chars_none by (apply Forall_forall; intros c Hin; by eapply dotted_chars).
    assert (Hne : dotted parts name <> []).
    { unfold dotted. intros [_ ->]%app_eq_nil. done. }
    destruct (dotted parts name) as [|c l] eqn:E; [done|]. rewrite <- E. unfold checked.
    destruct (existsb _ _) eqn:Ed.
    + cbv zeta. rewrite split_dotted by done. rewrite last_last, Hc.
      assert (Hall : forallb isidentifier (parts ++ [name]) = true).
      { rewrite forallb_app. simpl. rewrite Hn. apply andb_true_iff. split; [|done]. apply forallb_forall.
        rewrite Forall_forall in Hp. intros p Hin. by apply Hp, list_elem_of_In. }
      by rewrite Hall.
    + assert (Hparts : parts = []).
      { destruct parts as [|p parts]; [done|]. exfalso. rewrite <- not_true_iff_false in Ed. apply Ed.
        apply existsb_exists. exists "."%char. split; [|done]. apply list_elem_of_In. unfold dotted. simpl.
        rewrite !elem_of_app. left. left. right. left. }
      subst parts. unfold dotted. simpl. by rewrite Hc.
Qed.

End MigrationFacts.

Module MigrationDemo.
Import MigrationFacts.

Definition demo_clock (k : nat) : micros := seconds (Z.of_nat k).
Definition demo : world := World (new 0) demo_clock 0.
Definition two_files : list operation :=
  [Add "a" (Some 10) []; Add "b" None []; Start "a" None; Complete "a" true None; Complete "b" false (Some (of_string "os.OSError: x"));
   Retry 3; Start "b" None; Complete "b" true None].

Lemma progress_accounts_witness :
  0 <= 3 /\ all_in_order 3 demo two_files /\
  processed_files (metrics (tracker (run step demo two_files))) = total (is_ COMPLETED) (files (tracker (run step demo two_files))).
Proof.
  assert (H1 : 0 <= 3) by lia.
  assert (H2 : all_in_order 3 demo two_files).
  { unfold two_files. cbn [all_in_order].
    repeat match goal with |- _ /\ _ => split end; try done; try (vm_compute; lia);
      try (intros f Hf Hp; vm_compute in Hf; apply list_elem_of_In in Hf; simpl in Hf;
           repeat destruct Hf as [Hf|Hf]; try done; subst f; vm_compute; (done || discriminate)).
    all: apply (bool_decide_unpack _); vm_compute; reflexivity. }
  split; [exact H1|]. split; [exact H2|].
  destruct (progress_accounts 3 0 demo_clock two_files H1 H2) as [_ _ H _ _ _ _ _ _]. exact H.
Defined.

Definition read_percentages (w : world) : res spec_float * res spec_float :=
  let (p, w) := completion_percentage w in (p, (success_rate w).1).

(** Both files are completed, one at the second attempt: the rate is a half,
    since [processed_files] counts the completed ones only and every failure is
    taken from it. *)
Example retried_is_half : (read_percentages (run step demo two_files)) = (Ok (float_of_Z 100), Ok (float_of_Z 50)).
Proof. by vm_compute. Qed.

(** With more failures than successes the rate is negative. *)
Example negative_rate :
  let os := [Add "a" None []; Add "b" None []; Add "c" None []; Complete "a" true None; Complete "b" false None; Complete "c" false None] in
  (success_rate (run step demo os)).1 = Ok (float_of_Z (-100)).
Proof. by vm_compute. Qed.

(** Adding a file does not invalidate the cached percentage. *)
Example stale_percentage :
  let w := run step demo [Add "a" None []; Complete "a" true None; ReadSummary; Add "b" None []] in
  (completion_percentage w).1 = Ok (float_of_Z 100) /\
  total_files (metrics (tracker w)) = 2 /\ processed_files (metrics (tracker w)) = 1.
Proof. by vm_compute. Qed.

(** A file completed twice is counted twice. *)
Example completed_twice :
  let w := run step demo [Add "a" None []; Complete "a" true None; Complete "a" true None] in
  (completion_percentage w).1 = Ok (float_of_Z 200) /\ remaining_files (metrics (tracker w)) = -1.
Proof. by vm_compute. Qed.

(** Where the rate is too low for an estimate, [complete_file_processing]
    raises after it has counted the file. *)
Example overflow_after_count :
  let clock (k : nat) := if (k <? 3)%nat then 0 else seconds (400000000000) in
  let w := run step (World (new 0) clock 0) [Add "a" None []; Add "b" None []] in
  let (r, w) := complete_file_processing "a" true None w in
  r = Raise (OverflowError "date value out of range") /\ processed_files (metrics (tracker w)) = 1.
Proof. by vm_compute. Qed.

Example half_microseconds :
  timedelta_seconds (float_ratio 5 10000000) = Ok 0 /\ timedelta_seconds (float_ratio 15 10000000) = Ok 2 /\
  timedelta_seconds (float_ratio 123 100) = Ok 1230000.
Proof. by vm_compute. Qed.

Example error_types :
  to_string (_extract_error_type (of_string "requests.exceptions.HTTPError: 404")) = "HTTPError" /\
  to_string (_extract_error_type (of_string "  ValueError : message")) = "ValueError" /\
  to_string (_extract_error_type (of_string "module.123invalid.Error: m")) = "UnknownError" /\
  to_string (_extract_error_type (of_string "Error-Type: failed")) = "UnknownError".
Proof. by vm_compute. Qed.

End MigrationDemo.
